(* ===== verification/_CoqProject ===== *)
-Q . S2P
Prelude.v
Net.v
Signaling.v
Serde.v
Json.v
Crypto.v
Instances.v
CryptoProps.v
RtcTypes.v
Interaction.v
Rtc.v
RtcEnv.v
RtcRoutines.v
RtcSafety.v
RtcInstances.v
RtcTransfer.v
RtcPair.v
RtcChallenge.v
RtcSession.v
RtcPin.v
RtcWitnesses.v
WsServer.v
WsServerSafety.v
WsServerBehaviour.v
HttpTypes.v
JsonMessages.v
JsonTransfer.v
JsonText.v
JsonTests.v
HttpServer.v
HttpClient.v
Url.v
HttpServerProps.v
HttpClientProps.v
HttpLifecycle.v
HttpInstances.v
SignalingClient.v
SignalingClientProps.v
SignalingClientBehaviour.v
SignalingClientRuns.v
SignalingWriter.v
SignalingSystem.v
SignalingDelivery.v
RtcStream.v
RtcSetup.v
RtcSetupProps.v
RtcHandshake.v
RtcSystem.v
AppBridge.v
AppBridgeProps.v
AppConnection.v
SignIn.v
Demo.v
DemoTests.v
BridgeCodec.v
BridgeCodecProps.v
BridgeDart.v
BridgeWire.v
BridgeWireProps.v
BridgeSystem.v
BridgeSystemProps.v
AppTransfer.v
BridgeInstances.v
AppTransferRuns.v
