(* ===== verification/Prelude.v ===== *)
(** * LocalSend core, signaling server and app bridge: a Rocq model

    LocalSend sends files between devices of a network.  This library models
    its Rust code: the signaling server, the library both peers of a transfer
    run, and the bridge to the application, with theorems about each part and
    about the parts together.  Names of definitions are those of the code.

    ** The program

    - The signaling server ([server/src]) keeps, for every IP group, the peers
      connected over a websocket; it tells them about each other and forwards
      the offers and answers by which two of them find each other.
    - The signaling client ([core/src/webrtc/signaling.rs]) is the other end of
      that websocket.
    - A transfer ([core/src/webrtc/webrtc.rs]) is set up over the signaling
      connection ([send_offer], [accept_offer]) and then runs over a data
      channel: nonces, tokens, PINs, the file list, the files.
    - Tokens, nonces and certificates ([core/src/crypto]) authenticate peers.
    - The HTTP server and client ([core/src/http]) are the other way for two
      devices to talk.
    - The bridge ([app/rust/src]) hands all this to the Dart application: an
      API of Rust ([api]) and the code generated for it ([frb_generated.rs]).
    - A demonstration ([core/src/main.rs]) drives the library with fixed keys,
      PINs and files.

    ** The files

    [Prelude]: outcomes of fallible code ([res]: a value, an error or a panic),
    words, strings and bytes, lemmas and tactics the components share.
    [Serde]: the interfaces of serde_json and base64.  [Instances]: codecs,
    signatures and certificates that satisfy the interfaces, for concrete runs.
    [Json]: documents, and what the derived codecs and the attributes of serde
    mean; [JsonMessages], [JsonTransfer]: the documents of every message;
    [JsonText]: their texts, which meet the interface of [Serde]; [JsonTests]:
    theorems, and the tests of the encoding.

    Signaling server.  [Net]: addresses and [get_ip_group] ([util/ip.rs]).
    [Signaling]: the messages.  [WsServer]: the critical sections of
    [ws_controller.rs] as functions on the shared state and [handle_socket] as
    a state machine per connection, composed in [step_fn]; [ws_handler].
    [WsServerSafety]: the invariant of the server, its limits, the agreement of
    the peer map with the connections, isolation of the IP groups.
    [WsServerBehaviour]: the branches of the handlers, and what goes wrong
    between them.

    Signaling client.  [SignalingClient]: the reader of [connect], its caller
    and the listener of [start_listener] as one machine, whose channels are
    queues with a capacity.  [SignalingClientProps]: its invariant.
    [SignalingClientBehaviour]: order and delivery of messages, termination of
    the tasks, the life of a callback.  [SignalingClientRuns]: concrete runs.
    [SignalingWriter]: the writer of [connect], its channel and the methods that
    send on it.
    [SignalingSystem]: the server with a client at the end of every connection;
    the isolation of the groups from the server to the applications.
    [SignalingDelivery]: the steps by which an offer or an answer reaches the
    other application.

    Authentication.  [Crypto], [CryptoProps]: [core/src/crypto] and
    [app/rust/src/api/crypto.rs].  [SignIn]: from [connect] of the bridge over
    the handshake of the server to the peer that verifies the token.

    Transfers.  [RtcTypes]: messages and values.  [Interaction]: tasks as
    interaction trees over the events of a component, with the relation [runs]
    of a task in an environment.  [Rtc]: the tasks [send_task] and
    [receive_task] that [send_offer] and [accept_offer] spawn, and all their
    helpers.  [RtcEnv]: an environment of a task, every failure included.
    [RtcRoutines]: lemmas on the events and the chunks.  [RtcSafety]: theorems
    about every run in every environment.  [RtcPair]: two tasks on one channel,
    where a message arrives after it was sent and a task waits for what is not
    there yet; every interleaving of their steps.  [RtcChallenge]: the two loops
    of a PIN challenge, run against each other, whichever side asks.
    [RtcTransfer]: the loops of the files.  [RtcSession], [RtcPin]: two honest
    peers against each other: a whole session with the PINs of both sides,
    challenges that fail.  [RtcStream]: [to_receive_stream], which refines the
    inbox of [RtcEnv].  [RtcSetup]: [send_offer] and [accept_offer] around their
    tasks.  [RtcSetupProps]: theorems about every run of them.  [RtcHandshake]:
    two set-ups with the messages the server makes of theirs, and the sessions
    of [RtcSession] inside.  [RtcSystem]: [send_offer] run inside
    [SignalingSystem]: its sends, its callback and its waiting are steps of its
    client, and the server and the other device step in between.
    [RtcInstances], [RtcWitnesses]: codecs and concrete runs.

    HTTP.  [HttpTypes]: data, and the interfaces of serde, lru and http.
    [HttpServer]: routes, handlers, responses.  [HttpLifecycle]: the listeners,
    the [select!] of [start_with_port] and the tasks of the connections, which
    refine the sequences of requests [HttpServerProps] is about.  [HttpClient]:
    [LsHttpClient] over a network that is a parameter.  [Url]: a reader for the URLs the
    client prints.  [HttpServerProps], [HttpClientProps]: theorems, the client
    against the server among them.  [HttpInstances]: concrete runs.

    Bridge.  [AppBridge]: signing in, the controllers of both sides with their
    one-use channel ends, the buffering of received files.  [AppBridgeProps].
    [AppConnection]: the task of [connect] around the signaling client, its
    sink, and what the methods of the connection start.
    [BridgeCodec]: how every type of the API is written to and read from bytes
    ([SseEncode], [SseDecode]); [BridgeCodecProps]: round trips, as instances
    of one class.  [BridgeDart]: the same for objects of Dart ([IntoDart]).
    [BridgeWire]: the calls, the dispatcher, a wire function per API function
    and the messages of the other end; [BridgeWireProps].  [BridgeSystem]: the
    tasks of the calls, the locks of their objects and the controllers as one
    machine; [BridgeSystemProps].  [AppTransfer]: the tasks of [Rtc] with such
    a controller in front of them.  [BridgeInstances], [AppTransferRuns]:
    platforms, a lock and concrete runs.

    Demonstration.  [Demo]: the handlers of the driver around the tasks of
    [Rtc], and its two loops between a file and a transfer.  [DemoTests]: its
    tests; the HTTP client meets the HTTP server.

    ** State and steps

    The mutexes of the server are held for short sections without an await (or
    whose awaits do not depend on other tasks), so a section is one function on
    [AppState]; between two of them any other connection may step, so
    [WsServer.step_fn] has one label per await point.  A channel of tokio is a
    queue with its capacity, and a send to a full channel is a step that is not
    enabled.  The same holds for [SignalingClient.client_step].  A task of a
    transfer touches nothing but its channels; it is an interaction tree, and
    [runs] relates it to an arbitrary environment: a task that waits for ever
    has the outcome [None].  An environment ([RtcEnv]) holds all messages of the
    other peer from the start, so what is said of it is what a task never does,
    whoever the other peer is.  Claims that something is completed are about the
    two tasks side by side ([RtcPair]): the inbox of each is what the other one
    has sent so far.  A handler of the HTTP server is one step on
    [HttpServer]'s state, because the code takes its locks in one order and
    keeps them to the end.

    Integers keep their width where it matters: the request counter (u32), the
    PIN counter (u8), the time (u64); an overflow is a panic where the build
    checks it and wraps where it does not.

    ** What the theorems show

    - Whole transfers: [RtcSystem.transfer_through_server] over the server and
      the clients, [RtcHandshake.transfer_completes],
      [RtcSession.session_completes], [RtcTransfer.transfer_delivers],
      [RtcSession.text_roundtrip]; [RtcSetupProps] for any run of a set-up;
      [AppTransfer.application_session] for two peers whose users answer
      through the bridge; [Demo.demo_copies_file] from disk to disk.
    - Safety of a transfer: [RtcSafety.receiver_connected],
      [RtcSafety.sender_connected], [RtcSafety.opened_files_are_selected],
      [RtcSafety.verify_pin_bounded], [RtcSafety.nonce_agreement];
      [RtcPin.pin_exhausted]; tokens and certificates in
      [CryptoProps] and [SignIn].
    - The signaling server: limits, rooms and rate limit ([WsServerSafety]);
      fan-out and routing ([WsServerBehaviour]); the grouping of addresses
      ([Net]); isolation, together with the clients
      ([SignalingSystem.application_isolation]).
    - The signaling client: order, delivery with termination, callbacks
      ([SignalingClientBehaviour]); order, losses and termination of the writer
      ([SignalingWriter.accepted_messages_written]); what the sink of the
      application gets ([AppConnection.sink_hears_server]).
    - Documents: every message is read back, whatever the order of its members
      and whatever else is among them ([JsonTests.documents_read_back]), and
      the derived codecs meet the interface the other theorems ask for
      ([JsonTests.derived_codecs_meet_interface]).
    - HTTP: every request is answered, the nonce maps stay paired, nonces are
      filed under the key of the certificate ([HttpServerProps]), over both
      listeners ([HttpLifecycle.lifecycle_refines_requests]); client and
      server agree on nonces, uploads are pinned ([HttpClientProps]).
    - The bridge: files arrive whole, one decision, one PIN per challenge
      ([AppBridgeProps]); values cross it unchanged
      ([BridgeDart.server_messages_cross]) and calls arrive as they were made
      ([BridgeWireProps.calls_arrive]); with any order of messages, locks and
      transfers the controllers go through the operations of the calls
      ([BridgeSystemProps.bridge_refines_controllers]), so a file is only
      opened after a call that selects it
      ([AppTransfer.opened_files_were_called]).
    - Where the code departs from its purpose the theorem says so:
      [WsServerBehaviour.hello_deadlock],
      [SignalingClientBehaviour.early_answer_lost], and between two devices
      [RtcSystem.answer_overtakes_callback],
      [JsonTests.encoding_tests_panic],
      [SignalingSystem.late_hello_stuck],
      [RtcSetupProps.failed_task_leaves_connection_open],
      [CryptoProps.short_token_panics], [RtcTransfer.empty_transfer_fails],
      [RtcPin.empty_pin_breaks], [HttpServerProps.legacy_routes_register],
      [HttpLifecycle.ipv4_failure_ends_ipv6],
      [HttpClientProps.transfer_requests_not_found],
      [DemoTests.client_test_ends], [BridgeCodecProps.oversized_vec_reads_empty],
      [BridgeSystemProps.status_stream_blocks] and what follows from it,
      [AppTransfer.stream_starves_challenge], and others.

    ** Bounds and fuel

    [runs] is an inductive relation and needs no fuel; [run n] computes it for
    concrete trees, [n] being a bound on the number of events, and
    [Interaction.run_runs] carries a computed result over.  The loops of [Demo]
    count reads, of which a file has no more than bytes.  The loops of [Rtc]
    are [ITree.iter]; their theorems are by induction on a run.  Those that
    promise an outcome are stated with [RtcPair.always_ends]: the schedules of
    the two tasks are bounded in length, and where neither task can step the
    result is there.  The tasks are deterministic and share only the channel, so
    one schedule that ends is enough to prove it ([RtcPair.always_ends_intro]).  [SignalingClientBehaviour.work]
    bounds the steps of the signaling client.

    ** Parameters

    Crates are classes with laws that state their documentation: serde_json
    and base64 ([Serde]; of serde_json only the texts of documents, [JsonText],
    and the text of a UUID, [JsonMessages.UuidText]), signatures, hashes and X.509 ([Crypto]), zlib
    ([Rtc]), lru and the status texts ([HttpTypes]), the set-up of rustls
    ([HttpLifecycle]), reqwest ([HttpClient]), the SDP parser
    ([RtcHandshake]), the platform and the cursor of flutter_rust_bridge
    ([BridgeCodec.BridgeTarget]), objects of Dart ([BridgeDart.DartObjects])
    and the lock of an object ([BridgeSystem.ObjectLock]).  [Instances],
    [RtcInstances], [HttpInstances] and [BridgeInstances] show that the laws
    can hold.

    ** Not modelled

    - What sockets and rustls do: their results are inputs of
      [HttpLifecycle].  The start of the signaling server
      ([server/src/main.rs], [config/init.rs]): I/O.
    - The [webrtc] crate: ICE, DTLS and the data channel are events with
      arbitrary answers; the callback of the connection state is the answer
      [PeerDisconnected].
    - What happens when the data channel closes while both tasks run: [RtcPair]
      has an ordered channel that loses nothing and is open until both have
      returned.  For one task and any failure of the channel, [RtcEnv].
    - That the 5 s around a refused PIN can cut its sending short; they bound the
      wait for the buffer.  A clock before 1970, for which a token is refused:
      the time is an input.  [abort] of a task is immediate.  A handler of the
      HTTP server that is dropped between its two locks.
    - The text frame [Limit reached] that a refused websocket connection gets,
      and logging: nothing depends on them.
    - Of [app/rust/src/frb_generated.rs]: the wrappers that only name a type
      for the trait [IntoIntoDart], the static checks of mirrored types, the
      pointers of its modules [io] and [web], logging and the conversion of a
      panic for Dart.  [app/rust/src/api/model.rs] mirrors types for the
      generator; the streams of a controller forward what they read.
    - Of serde: enums read from bytes or from the number of a variant, which
      JSON does not have; an empty object for a variant without data of a
      tagged enum, which no peer of this program writes.  [SerdeJsonLaws]
      holds of a type with integers for the values whose integers fit
      ([JsonText.from_json_written]).
    - In [BridgeSystem] nothing is said about when a call returns, but for the
      streams of a sending transfer and for [send_file]; the objects of files
      and of the connection have their locks, and their operations are in
      [AppBridge].
    - In [core/src/main.rs]: logging, printing and the [select!] of [main].
    - The Dart code ([app/lib], [cli], [common]), but for the messages and the
      readers of the generated [app/lib/rust/frb_generated.dart]. *)

From stdpp Require Export base list strings pretty gmap.
From Stdlib Require Export Strings.Ascii ZArith Lia.
From Stdlib Require Import Strings.Byte HexadecimalString HexadecimalN.


(** ** Outcomes of fallible code

    A Rust function that returns [Result<A, E>] and may also panic (slice
    indexing, [unwrap], arithmetic overflow in a debug build) has three kinds
    of outcome.  A panic is kept apart from an error: [?] and [is_ok] handle
    the second and never the first. *)

Inductive res (E A : Type) : Type :=
| Ok (a : A)
| Err (e : E)
| Panic (msg : string).
Arguments Ok {E A} a.
Arguments Err {E A} e.
Arguments Panic {E A} msg.

(** [anyhow::Error]s are modelled by their message. *)
Abbreviation anyres := (res string).

Declare Scope ls_scope.
Delimit Scope ls_scope with ls.
#[global] Open Scope ls_scope.

Definition res_bind {E A B} (r : res E A) (k : A → res E B) : res E B :=
  match r with Ok a => k a | Err e => Err e | Panic m => Panic m end.

Definition res_map_err {E F A} (f : E → F) (r : res E A) : res F A :=
  match r with Ok a => Ok a | Err e => Err (f e) | Panic m => Panic m end.

(** [Result::is_ok], which does not catch a panic. *)
Definition res_is_ok {E F A} (r : res E A) : res F bool :=
  match r with Ok _ => Ok true | Err _ => Ok false | Panic m => Panic m end.

(** [Option::ok_or]. *)
Definition ok_or {E A} (o : option A) (e : E) : res E A :=
  match o with Some a => Ok a | None => Err e end.

Notation "'let?' x ':=' r 'in' k" := (res_bind r (λ x, k))
  (at level 10, x pattern, r at level 200, k at level 200,
   format "'[v' 'let?'  x  ':='  r  'in' '/' k ']'") : ls_scope.
Notation "'check?' r 'in' k" := (res_bind r (λ _, k))
  (at level 10, r at level 200, k at level 200,
   format "'[v' 'check?'  r  'in' '/' k ']'") : ls_scope.

Definition is_ok {E A} (r : res E A) : Prop := ∃ a, r = Ok a.
Definition is_panic {E A} (r : res E A) : Prop := ∃ m, r = Panic m.

#[export] Instance Ok_inj {E A} : Inj (=) (=) (@Ok E A).
Proof. by intros x y [=]. Qed.

Section res_lemmas.
Context {E A B : Type}.
Implicit Types (r : res E A) (k : A → res E B).

Lemma res_bind_Ok r k b :
  res_bind r k = Ok b ↔ ∃ a, r = Ok a ∧ k a = Ok b.
Proof.
  destruct r as [a|e|m]; simpl; split; try done; [by exists a| | |];
    by intros (?&[=]&?); subst.
Qed.

Lemma res_bind_no_panic r k :
  ¬ is_panic r → (∀ a, r = Ok a → ¬ is_panic (k a)) → ¬ is_panic (res_bind r k).
Proof.
  intros Hr Hk [m Hm]. destruct r as [a|e|m']; simpl in Hm.
  - by apply (Hk a); [done | exists m].
  - done.
  - by apply Hr; exists m'.
Qed.

Lemma res_is_ok_true {F} r : res_is_ok (F:=F) r = Ok true ↔ is_ok r.
Proof. unfold is_ok. destruct r; simpl; split; try done; eauto; by intros [? [=]]. Qed.

Lemma ok_or_Ok (o : option A) (e : E) a : ok_or o e = Ok a ↔ o = Some a.
Proof. destruct o; simpl; naive_solver. Qed.

Lemma ok_or_no_panic (o : option A) (e : E) : ¬ is_panic (ok_or o e).
Proof. intros [m Hm]. by destruct o. Qed.
End res_lemmas.

(** ** Machine integers *)

Definition u8_max : Z := 2 ^ 8 - 1.
Definition u16_max : Z := 2 ^ 16 - 1.
Definition u32_max : Z := 2 ^ 32 - 1.
Definition u64_modulus : Z := 2 ^ 64.

(** ** Strings and bytes

    A Rust [String] and a [&str] are the bytes of their UTF-8 encoding. *)

Abbreviation bytes := (list Byte.byte).

Definition as_bytes (s : string) : bytes := String.list_byte_of_string s.
Definition from_bytes (b : bytes) : string := String.string_of_list_byte b.
Arguments as_bytes : simpl never.
Arguments from_bytes : simpl never.

Lemma from_as_bytes s : from_bytes (as_bytes s) = s.
Proof. apply String.string_of_list_byte_of_string. Qed.

Lemma as_from_bytes b : as_bytes (from_bytes b) = b.
Proof. apply String.list_byte_of_string_of_list_byte. Qed.

#[export] Instance as_bytes_inj : Inj (=) (=) as_bytes.
Proof. intros s t H. by rewrite <- (from_as_bytes s), H, from_as_bytes. Qed.

#[export] Instance byte_eq_dec : EqDecision Byte.byte := Byte.byte_eq_dec.

(** [str::split(c)] on a single character: the pieces between the separators,
    never an empty list. *)
Fixpoint str_split (c : Ascii.ascii) (s : string) : list string :=
  match s with
  | EmptyString => [EmptyString]
  | String a s' =>
      if decide (a = c) then EmptyString :: str_split c s'
      else match str_split c s' with
           | [] => [String a EmptyString]
           | p :: ps => String a p :: ps
           end
  end.

(** [str::contains(c)]. *)
Fixpoint str_contains (c : Ascii.ascii) (s : string) : bool :=
  match s with
  | EmptyString => false
  | String a s' => if decide (a = c) then true else str_contains c s'
  end.

(** The separator [c] between the pieces, as in [format!("{a}.{b}")]. *)
Fixpoint str_join (c : Ascii.ascii) (ps : list string) : string :=
  match ps with
  | [] => EmptyString
  | [p] => p
  | p :: ps' => p +:+ String c (str_join c ps')
  end.

Section str_lemmas.
Variable c : Ascii.ascii.

Lemma str_split_nonempty s : str_split c s ≠ [].
Proof. induction s; simpl; repeat case_match; done. Qed.

Lemma str_split_plain s : str_contains c s = false → str_split c s = [s].
Proof.
  induction s as [|a s IH]; simpl; [done|].
  case_decide; [done|]. intros Hs. by rewrite IH.
Qed.

Lemma str_split_cons p s :
  str_contains c p = false → str_split c (p +:+ String c s) = p :: str_split c s.
Proof.
  induction p as [|a p IH]; simpl.
  - intros _. by rewrite decide_True.
  - case_decide; [done|]. intros Hp. by rewrite IH.
Qed.

(** Splitting the joined pieces gives the pieces back. *)
Lemma str_split_join ps :
  ps ≠ [] → Forall (λ p, str_contains c p = false) ps → str_split c (str_join c ps) = ps.
Proof.
  induction ps as [|p [|q ps] IH]; intros Hne Hps; [done| |].
  - apply str_split_plain. by inversion Hps.
  - inversion Hps as [|?? Hp Hqs]; subst.
    change (str_join c (p :: q :: ps)) with (p +:+ String c (str_join c (q :: ps))).
    rewrite str_split_cons by done. by rewrite IH.
Qed.

Lemma str_split_pieces s : Forall (λ p, str_contains c p = false) (str_split c s).
Proof.
  induction s as [|a s IH]; simpl; [by repeat constructor|].
  case_decide; [by constructor|].
  destruct (str_split c s); simpl; [by repeat constructor; simpl; rewrite decide_False|].
  inversion IH; subst. constructor; simpl; [by rewrite decide_False|done].
Qed.

Lemma str_join_cons p ps : ps ≠ [] → str_join c (p :: ps) = p +:+ String c (str_join c ps).
Proof. by destruct ps. Qed.

Lemma str_join_split s : str_join c (str_split c s) = s.
Proof.
  induction s as [|a s IH]; simpl; [done|].
  pose proof (str_split_nonempty s).
  case_decide as Ha.
  - subst. rewrite str_join_cons by done. by rewrite IH.
  - destruct (str_split c s) as [|p [|q ps]]; [done| |].
    + simpl in *. by subst.
    + rewrite str_join_cons in IH by done. rewrite str_join_cons by done.
      change (String a (p +:+ String c (str_join c (q :: ps))) = String a s).
      by f_equal.
Qed.

Lemma str_split_app s t : str_split c (s +:+ String c t) = str_split c s ++ str_split c t.
Proof.
  induction s as [|a s IH]; simpl; [by rewrite decide_True|].
  case_decide; [by rewrite IH|]. rewrite IH.
  pose proof (str_split_nonempty s). by destruct (str_split c s).
Qed.

Lemma str_contains_app s t :
  str_contains c (s +:+ t) = str_contains c s || str_contains c t.
Proof. induction s; simpl; [done|]. by case_decide. Qed.
End str_lemmas.

(** ** Formatting of integers *)

(** [format!("{}", n)] of an unsigned integer. *)
Definition show_dec (n : Z) : string := pretty (Z.to_N n).

(** [format!("{:x}", n)] of an unsigned integer: lower case, no leading zero. *)
Definition show_hex (n : Z) : string :=
  HexadecimalString.NilZero.string_of_uint (N.to_hex_uint (Z.to_N n)).

Lemma show_dec_inj n m : (0 ≤ n → 0 ≤ m → show_dec n = show_dec m → n = m)%Z.
Proof. unfold show_dec. intros Hn Hm H%(inj _). by apply Z2N.inj. Qed.

Lemma to_hex_uint_not_nil n : N.to_hex_uint n ≠ Hexadecimal.Nil.
Proof.
  intros H. destruct n as [|p]; [by compute in H|].
  pose proof (HexadecimalN.Unsigned.of_to (Npos p)) as Hp.
  rewrite H in Hp. by compute in Hp.
Qed.

Lemma show_hex_inj n m : (0 ≤ n → 0 ≤ m → show_hex n = show_hex m → n = m)%Z.
Proof.
  unfold show_hex. intros Hn Hm H.
  apply (f_equal HexadecimalString.NilZero.uint_of_string) in H.
  rewrite !HexadecimalString.NilZero.usu in H by apply to_hex_uint_not_nil.
  injection H as H. apply HexadecimalN.Unsigned.to_uint_inj in H.
  by apply Z2N.inj.
Qed.

Lemma pretty_N_go_contains c x s :
  (∀ y, pretty_N_char y ≠ c) → str_contains c s = false →
  str_contains c (pretty_N_go x s) = false.
Proof.
  intros Hc. revert s. induction x as [x IH] using (well_founded_induction N.lt_wf_0).
  intros s Hs. destruct (decide (x = 0)%N) as [->|Hx]; [by rewrite pretty_N_go_0|].
  rewrite pretty_N_go_step by lia. apply IH.
  - apply N.div_lt; lia.
  - simpl. rewrite decide_False; [done|apply Hc].
Qed.

(** A decimal numeral holds digits only. *)
Lemma show_dec_no_char c n :
  c ∉ (["0"; "1"; "2"; "3"; "4"; "5"; "6"; "7"; "8"; "9"]%char : list Ascii.ascii) →
  str_contains c (show_dec n) = false.
Proof.
  intros Hc. unfold show_dec, pretty, pretty_N.
  assert (∀ y, pretty_N_char y ≠ c) as Hy.
  { intros y <-. apply Hc. unfold pretty_N_char.
    repeat case_match; rewrite ?elem_of_cons; intuition. }
  case_decide; [|by apply pretty_N_go_contains].
  simpl. rewrite decide_False; [done|]. intros <-. set_solver.
Qed.

Lemma string_of_hex_no_char c (d : Hexadecimal.uint) :
  c ∉ (["0"; "1"; "2"; "3"; "4"; "5"; "6"; "7"; "8"; "9";
        "a"; "b"; "c"; "d"; "e"; "f"]%char : list Ascii.ascii) →
  str_contains c (HexadecimalString.NilEmpty.string_of_uint d) = false.
Proof.
  intros Hc. induction d; simpl; rewrite ?decide_False; try done; set_solver.
Qed.

Lemma show_hex_no_char c n :
  c ∉ (["0"; "1"; "2"; "3"; "4"; "5"; "6"; "7"; "8"; "9";
        "a"; "b"; "c"; "d"; "e"; "f"]%char : list Ascii.ascii) →
  str_contains c (show_hex n) = false.
Proof.
  intros Hc. unfold show_hex, HexadecimalString.NilZero.string_of_uint.
  case_match; [|by apply string_of_hex_no_char..].
  simpl. rewrite decide_False; [done|set_solver].
Qed.

(** ** Little-endian integers ([u64::to_le_bytes], [u64::from_le_bytes]) *)

Definition byte_to_Z (b : Byte.byte) : Z := Z.of_N (Byte.to_N b).
Definition byte_of_Z (z : Z) : Byte.byte :=
  match Byte.of_N (Z.to_N (z mod 256)) with Some b => b | None => Byte.x00 end.

Fixpoint le_bytes (n : nat) (z : Z) : bytes :=
  match n with O => [] | S n' => byte_of_Z z :: le_bytes n' (z / 256) end.

Fixpoint le_value (bs : bytes) : Z :=
  match bs with [] => 0 | b :: bs' => byte_to_Z b + 256 * le_value bs' end.

Lemma byte_to_Z_bound b : (0 ≤ byte_to_Z b < 256)%Z.
Proof. unfold byte_to_Z. pose proof (Byte.to_N_bounded b). lia. Qed.

Lemma byte_to_of_Z z : byte_to_Z (byte_of_Z z) = (z mod 256)%Z.
Proof.
  unfold byte_to_Z, byte_of_Z.
  pose proof (Z.mod_pos_bound z 256 ltac:(lia)).
  pose proof (Byte.to_of_N_option_map (Z.to_N (z mod 256))) as H1.
  destruct (Byte.of_N _) as [b|] eqn:Hb.
  - apply Byte.to_of_N in Hb. rewrite Hb. lia.
  - simpl in H1. case_match eqn:Hle; [done|]. apply N.leb_gt in Hle. lia.
Qed.

Lemma byte_of_to_Z b : byte_of_Z (byte_to_Z b) = b.
Proof.
  unfold byte_of_Z, byte_to_Z. pose proof (byte_to_Z_bound b) as Hb. unfold byte_to_Z in Hb.
  rewrite Z.mod_small, N2Z.id by done. by rewrite Byte.of_to_N.
Qed.

Lemma le_bytes_length n z : length (le_bytes n z) = n.
Proof. revert z. induction n; intros z; simpl; auto. Qed.

Lemma le_value_bound bs : (0 ≤ le_value bs < 256 ^ Z.of_nat (length bs))%Z.
Proof.
  induction bs as [|b bs IH]; simpl length; [simpl; lia|].
  rewrite Nat2Z.inj_succ, Z.pow_succ_r by lia. simpl.
  pose proof (byte_to_Z_bound b). lia.
Qed.

Lemma le_value_bytes n z : (0 ≤ z < 256 ^ Z.of_nat n)%Z → le_value (le_bytes n z) = z.
Proof.
  revert z. induction n as [|n IH]; intros z Hz; [simpl in *; lia|].
  rewrite Nat2Z.inj_succ, Z.pow_succ_r in Hz by lia. cbn [le_bytes le_value].
  rewrite byte_to_of_Z, IH.
  - pose proof (Z.div_mod z 256). lia.
  - split; [by apply Z.div_pos; lia|]. apply Z.div_lt_upper_bound; lia.
Qed.

Lemma le_bytes_value bs : le_bytes (length bs) (le_value bs) = bs.
Proof.
  induction bs as [|b bs IH]; [done|]. cbn [length le_bytes le_value].
  pose proof (byte_to_Z_bound b). f_equal.
  - transitivity (byte_of_Z (byte_to_Z b)); [|apply byte_of_to_Z].
    unfold byte_of_Z. do 3 f_equal. rewrite (Z.mul_comm 256), Z.mod_add by lia. done.
  - rewrite (Z.mul_comm 256), Z.div_add by lia.
    rewrite Z.div_small by done. by rewrite Z.add_0_l, IH.
Qed.

(** ** UTF-8 ([String::from_utf8]) *)

Definition in_range (lo hi : Z) (b : Byte.byte) : bool :=
  (lo <=? byte_to_Z b)%Z && (byte_to_Z b <=? hi)%Z.

Definition utf8_cont (b : Byte.byte) : bool := in_range 128 191 b.

Fixpoint utf8_valid (s : bytes) : bool :=
  match s with
  | [] => true
  | a :: s1 =>
      if in_range 0 127 a then utf8_valid s1
      else match s1 with
      | [] => false
      | b :: s2 =>
          if in_range 194 223 a && utf8_cont b then utf8_valid s2
          else match s2 with
          | [] => false
          | c :: s3 =>
              if ((in_range 224 224 a && in_range 160 191 b)
                  || ((in_range 225 236 a || in_range 238 239 a) && utf8_cont b)
                  || (in_range 237 237 a && in_range 128 159 b)) && utf8_cont c
              then utf8_valid s3
              else match s3 with
              | [] => false
              | d :: s4 =>
                  ((in_range 240 240 a && in_range 144 191 b)
                   || (in_range 241 243 a && utf8_cont b)
                   || (in_range 244 244 a && in_range 128 143 b))
                  && utf8_cont c && utf8_cont d && utf8_valid s4
              end
          end
      end
  end.

Definition string_from_utf8 (b : bytes) : option string :=
  if utf8_valid b then Some (from_bytes b) else None.

Example utf8_valid_ex : utf8_valid [Byte.xc3; Byte.xa9; Byte.x41] = true.
Proof. reflexivity. Qed.
Example utf8_overlong_ex : utf8_valid [Byte.xc0; Byte.x80] = false.
Proof. reflexivity. Qed.

(** [str::trim] on ASCII text. *)
Definition is_ascii_space (c : ascii) : bool :=
  let n := N_of_ascii c in ((9 <=? n) && (n <=? 13) || (n =? 32))%N.

Fixpoint trim_start (s : list ascii) : list ascii :=
  match s with c :: s' => if is_ascii_space c then trim_start s' else s | [] => [] end.

Definition str_trim (s : string) : string :=
  String.string_of_list_ascii
    (rev (trim_start (rev (trim_start (String.list_ascii_of_string s))))).

Example str_trim_ex : str_trim "  1.2.3.4 " = "1.2.3.4".
Proof. reflexivity. Qed.

(** [str::parse::<uN>()] of an unsigned integer: an optional [+], then decimal
    digits, the value at most [max]. *)
Fixpoint parse_digits (acc : Z) (s : list ascii) : option Z :=
  match s with
  | [] => Some acc
  | c :: s' =>
      let d := (Z.of_N (N_of_ascii c) - 48)%Z in
      if decide (0 ≤ d ≤ 9)%Z then parse_digits (acc * 10 + d) s' else None
  end.

Definition parse_unsigned (max : Z) (v : string) : option Z :=
  let s := String.list_ascii_of_string v in
  let ds := match s with "+"%char :: ((_ :: _) as s') => s' | _ => s end in
  match ds with
  | [] => None
  | _ => match parse_digits 0 ds with
         | Some n => if decide (n ≤ max)%Z then Some n else None
         | None => None
         end
  end.

Example parse_unsigned_ex : parse_unsigned 100 "10" = Some 10%Z.
Proof. reflexivity. Qed.
Example parse_unsigned_plus : parse_unsigned 100 "+5" = Some 5%Z.
Proof. reflexivity. Qed.
