(* ===== verification/Net.v ===== *)
(** * Addresses and IP groups

    [std::net::IpAddr] with its [Display] and [FromStr] implementations as far
    as the program uses them, and the grouping of clients by address of
    [server/src/util/ip.rs]. *)

From S2P Require Import Prelude.
From Stdlib Require Import Bool.

Local Open Scope Z_scope.

(** ** Addresses of the standard library *)

Record Ipv4Addr := V4Octets { o0 : Z; o1 : Z; o2 : Z; o3 : Z }.
Record Ipv6Addr := V6Segments { g0 : Z; g1 : Z; g2 : Z; g3 : Z; g4 : Z; g5 : Z; g6 : Z; g7 : Z }.
Inductive IpAddr := V4 (ip : Ipv4Addr) | V6 (ip : Ipv6Addr).

Definition octets (ip : Ipv4Addr) : list Z := [o0 ip; o1 ip; o2 ip; o3 ip].
Definition segments (ip : Ipv6Addr) : list Z :=
  [g0 ip; g1 ip; g2 ip; g3 ip; g4 ip; g5 ip; g6 ip; g7 ip].

Definition u8_ok (z : Z) : Prop := 0 ≤ z ≤ u8_max.
Definition u16_ok (z : Z) : Prop := 0 ≤ z ≤ u16_max.

(** Octets are bytes, segments 16-bit words. *)
Definition ip_ok (ip : IpAddr) : Prop :=
  match ip with
  | V4 a => Forall u8_ok (octets a)
  | V6 a => Forall u16_ok (segments a)
  end.

#[export] Instance Ipv4Addr_eq_dec : EqDecision Ipv4Addr.
Proof. solve_decision. Defined.
#[export] Instance Ipv6Addr_eq_dec : EqDecision Ipv6Addr.
Proof. solve_decision. Defined.
#[export] Instance IpAddr_eq_dec : EqDecision IpAddr.
Proof. solve_decision. Defined.

(** [Display for Ipv4Addr]. *)
Definition ipv4_to_string (ip : Ipv4Addr) : string := str_join "." (show_dec <$> octets ip).

(** The first longest run of zero segments, as (start, length). *)
Fixpoint longest_zeros (i : nat) (cur best : nat * nat) (segs : list Z) : nat * nat :=
  match segs with
  | [] => best
  | s :: segs' =>
      if decide (s = 0) then
        let cur' := ((if decide (cur.2 = 0%nat) then i else cur.1), S cur.2) in
        longest_zeros (S i) cur' (if decide (best.2 < cur'.2)%nat then cur' else best) segs'
      else longest_zeros (S i) (0%nat, 0%nat) best segs'
  end.

Definition show_groups (gs : list Z) : string := str_join ":" (show_hex <$> gs).

(** [Ipv6Addr::to_ipv4_mapped]: the address is [::ffff:a.b.c.d]. *)
Definition ipv4_mapped (ip : Ipv6Addr) : option Ipv4Addr :=
  if decide (take 6 (segments ip) = [0; 0; 0; 0; 0; 65535])
  then Some (V4Octets (g6 ip / 256) (g6 ip mod 256) (g7 ip / 256) (g7 ip mod 256))
  else None.

(** [Display for Ipv6Addr]. *)
Definition ipv6_to_string (ip : Ipv6Addr) : string :=
  match ipv4_mapped ip with
  | Some v4 => "::ffff:" +:+ ipv4_to_string v4
  | None =>
      let segs := segments ip in
      let '(start, len) := longest_zeros 0 (0%nat, 0%nat) (0%nat, 0%nat) segs in
      if decide (1 < len)%nat
      then show_groups (take start segs) +:+ "::" +:+ show_groups (drop (start + len) segs)
      else show_groups segs
  end.

Definition ip_to_string (ip : IpAddr) : string :=
  match ip with V4 a => ipv4_to_string a | V6 a => ipv6_to_string a end.

(** ** Parsing addresses ([FromStr for IpAddr]) *)

Module Parse.
(** A reader either fails, leaving its input where it was, or returns a
    value and the rest of the input. *)
Abbreviation reader A := (list ascii → option (A * list ascii)) (only parsing).

Definition digit (radix : Z) (c : ascii) : option Z :=
  let n := Z.of_N (N_of_ascii c) in
  let v := if decide (48 ≤ n ≤ 57) then Some (n - 48)
           else if decide (97 ≤ n ≤ 102) then Some (n - 87)
           else if decide (65 ≤ n ≤ 70) then Some (n - 55) else None in
  match v with Some d => if decide (d < radix) then Some d else None | None => None end.

(** All the digits at the front: value, digit count, rest. *)
Fixpoint digits (radix acc : Z) (count : nat) (s : list ascii) : Z * nat * list ascii :=
  match s with
  | c :: s' =>
      match digit radix c with
      | Some d => digits radix (acc * radix + d) (S count) s'
      | None => (acc, count, s)
      end
  | [] => (acc, count, s)
  end.

Definition read_number (radix : Z) (max_digits : nat) (max : Z)
    (allow_zero_prefix : bool) : reader Z := λ s,
  let '(v, count, rest) := digits radix 0 0 s in
  let leading_zero := match s with c :: _ => bool_decide (c = "0"%char) | [] => false end in
  if decide (max_digits < count)%nat then None
  else if decide (count = 0%nat) then None
  else if negb allow_zero_prefix && leading_zero && bool_decide (1 < count)%nat then None
  else if decide (v ≤ max) then Some (v, rest) else None.

(** The separator goes before every element but the first. *)
Definition read_separator {A} (sep : ascii) (i : nat) (f : reader A) : reader A := λ s,
  match i, s with
  | O, _ => f s
  | S _, c :: s' => if decide (c = sep) then f s' else None
  | S _, [] => None
  end.

Definition read_octet (i : nat) : reader Z :=
  read_separator "."%char i (read_number 10 3 u8_max false).

Definition read_ipv4 : reader Ipv4Addr := λ s,
  '(a, s) ← read_octet 0 s; '(b, s) ← read_octet 1 s;
  '(c, s) ← read_octet 2 s; '(d, s) ← read_octet 3 s;
  Some (V4Octets a b c d, s).

(** Up to [n] more groups, the [i]-th first: the groups read, whether they
    end with an embedded IPv4 address, and the rest. *)
Fixpoint read_groups (n : nat) (i : nat) (s : list ascii) : list Z * bool * list ascii :=
  match n with
  | O => ([], false, s)
  | S n' =>
      let v4 := if decide (n' = 0%nat) then None else read_separator ":"%char i read_ipv4 s in
      match v4 with
      | Some (a, s') => ([o0 a * 256 + o1 a; o2 a * 256 + o3 a], true, s')
      | None =>
          match read_separator ":"%char i (read_number 16 4 u16_max true) s with
          | Some (g, s') =>
              let '(gs, b, s'') := read_groups n' (S i) s' in (g :: gs, b, s'')
          | None => ([], false, s)
          end
      end
  end.

Definition of_groups (gs : list Z) : option Ipv6Addr :=
  match gs with
  | [a; b; c; d; e; f; g; h] => Some (V6Segments a b c d e f g h)
  | _ => None
  end.

Definition read_ipv6 : reader Ipv6Addr := λ s,
  let '(head, head_v4, s) := read_groups 8 0 s in
  if decide (length head = 8%nat) then ip ← of_groups head; Some (ip, s)
  else if head_v4 then None
  else match s with
       | ":"%char :: ":"%char :: s =>
           let '(tail, _, s) := read_groups (7 - length head) 0 s in
           ip ← of_groups (head ++ replicate (8 - length head - length tail) 0 ++ tail);
           Some (ip, s)
       | _ => None
       end.
End Parse.

(** [IpAddr::from_str]: the whole input is one address. *)
Definition ip_from_str (v : string) : option IpAddr :=
  let s := String.list_ascii_of_string v in
  match Parse.read_ipv4 s with
  | Some (a, []) => Some (V4 a)
  | Some _ => None
  | None =>
      match Parse.read_ipv6 s with
      | Some (a, []) => Some (V6 a)
      | _ => None
      end
  end.

Example ip_from_str_v4 : ip_from_str "192.168.0.1" = Some (V4 (V4Octets 192 168 0 1)).
Proof. vm_compute. reflexivity. Qed.
Example ip_from_str_leading_zero : ip_from_str "192.168.00.1" = None.
Proof. vm_compute. reflexivity. Qed.
Example ip_from_str_v6 :
  ip_from_str "2001:db8::1" = Some (V6 (V6Segments 8193 3512 0 0 0 0 0 1)).
Proof. vm_compute. reflexivity. Qed.
Example ip_from_str_mapped :
  ip_from_str "::ffff:1.2.3.4" = Some (V6 (V6Segments 0 0 0 0 0 65535 258 772)).
Proof. vm_compute. reflexivity. Qed.
Example ip_to_string_v6 :
  ip_to_string (V6 (V6Segments 8193 3512 0 0 0 0 0 1)) = "2001:db8::1".
Proof. vm_compute. reflexivity. Qed.
Example ip_to_string_mapped :
  ip_to_string (V6 (V6Segments 0 0 0 0 0 65535 258 772)) = "::ffff:1.2.3.4".
Proof. vm_compute. reflexivity. Qed.

(** ** IP groups ([server/src/util/ip.rs]) *)

(** IPv4: each address is a group. IPv6: a /64 is a group. *)
Definition get_ip_group (ip : IpAddr) : string :=
  match ip with
  | V4 ip => ipv4_to_string ip
  | V6 ip =>
      show_hex (g0 ip) +:+ ":" +:+ show_hex (g1 ip) +:+ ":" +:+
      show_hex (g2 ip) +:+ ":" +:+ show_hex (g3 ip)
  end.

(** The /64 network of an address. *)
Definition same_network (a b : IpAddr) : Prop :=
  match a, b with
  | V4 a, V4 b => a = b
  | V6 a, V6 b => take 4 (segments a) = take 4 (segments b)
  | _, _ => False
  end.

Lemma get_ip_group_v6 ip :
  get_ip_group (V6 ip) = str_join ":" (show_hex <$> take 4 (segments ip)).
Proof. reflexivity. Qed.

Lemma fmap_show_inj (show : Z → string) (P : Z → Prop) xs ys :
  (∀ x y, P x → P y → show x = show y → x = y) →
  Forall P xs → Forall P ys → show <$> xs = show <$> ys → xs = ys.
Proof.
  intros Hshow Hxs. revert ys. induction Hxs as [|x xs Hx Hxs IH];
    intros [|y ys] Hys Heq; simplify_eq/=; [done|].
  inversion Hys; subst. f_equal; eauto.
Qed.

Lemma ipv4_to_string_split ip :
  str_split "." (ipv4_to_string ip) = show_dec <$> octets ip.
Proof.
  apply str_split_join; [done|].
  apply Forall_fmap, Forall_true. intros z. apply show_dec_no_char. compute_done.
Qed.

Lemma group_v6_split ip :
  str_split ":" (get_ip_group (V6 ip)) = show_hex <$> take 4 (segments ip).
Proof.
  rewrite get_ip_group_v6. apply str_split_join; [done|].
  apply Forall_fmap, Forall_true. intros z. apply show_hex_no_char. compute_done.
Qed.

Lemma group_v6_no_dot ip : str_contains "." (get_ip_group (V6 ip)) = false.
Proof.
  unfold get_ip_group. rewrite !str_contains_app.
  rewrite !show_hex_no_char by compute_done. done.
Qed.

Lemma group_v4_v6 a b : get_ip_group (V4 a) ≠ get_ip_group (V6 b).
Proof.
  intros H. pose proof (ipv4_to_string_split a) as Ha.
  simpl in H. rewrite H in Ha.
  pose proof (group_v6_no_dot b) as Hb. simpl in Hb.
  rewrite str_split_plain in Ha by done. done.
Qed.

(** C20. Two addresses fall into the same IP group exactly when they are the
    same IPv4 address, or IPv6 addresses of the same /64 network. *)
Theorem get_ip_group_same_network a b :
  ip_ok a → ip_ok b → get_ip_group a = get_ip_group b ↔ same_network a b.
Proof.
  destruct a as [a|a], b as [b|b]; simpl; intros Ha Hb.
  - split; [|by intros ->]. intros H. apply (f_equal (str_split ".")) in H.
    rewrite !ipv4_to_string_split in H.
    apply (fmap_show_inj show_dec u8_ok) in H; [|unfold u8_ok; intros x y ? ?; apply show_dec_inj; lia|done..].
    destruct a, b; unfold octets in H; simpl in H. congruence.
  - split; [|done]. intros H. by apply (group_v4_v6 a b).
  - split; [|done]. intros H. by apply (group_v4_v6 b a).
  - split; [|intros [= -> -> -> ->]; done].
    intros H. apply (f_equal (str_split ":")) in H.
    change (str_split ":" (get_ip_group (V6 a)) = str_split ":" (get_ip_group (V6 b))) in H.
    rewrite !group_v6_split in H.
    apply (fmap_show_inj show_hex u16_ok) in H; auto using Forall_take.
    unfold u16_ok. intros x y ? ?. apply show_hex_inj; lia.
Qed.

Lemma get_ip_group_same_network_witness :
  get_ip_group (V6 (V6Segments 8193 3512 0 1 7 0 0 1))
  = get_ip_group (V6 (V6Segments 8193 3512 0 1 0 0 9 2)) ↔
  same_network (V6 (V6Segments 8193 3512 0 1 7 0 0 1)) (V6 (V6Segments 8193 3512 0 1 0 0 9 2)).
Proof.
  apply get_ip_group_same_network; repeat constructor; vm_compute; discriminate.
Defined.

(** IPv4 clients that reach the server as IPv4-mapped IPv6 addresses are
    not told apart: whatever their addresses, they all share the group
    [0:0:0:0]. *)
Theorem mapped_clients_share_group ip v4 :
  ipv4_mapped ip = Some v4 → get_ip_group (V6 ip) = "0:0:0:0".
Proof.
  unfold ipv4_mapped. case_decide as Hip; [|done]. intros _.
  destruct ip. unfold segments in Hip. simpl in *. by simplify_eq.
Qed.

Lemma mapped_clients_share_group_witness :
  get_ip_group (V6 (V6Segments 0 0 0 0 0 65535 258 772)) = "0:0:0:0".
Proof. by eapply mapped_clients_share_group; vm_compute. Defined.
