(* ===== verification/Signaling.v ===== *)
(** * Signaling messages

    The data exchanged over the signaling websocket
    ([core/src/webrtc/signaling.rs]) and the device types of
    [core/src/model/discovery.rs], with the conversions between the two forms
    of a client's information. *)

From S2P Require Import Prelude.

(** A UUID is 128 random bits; only its equality matters. *)
Abbreviation Uuid := N.

Inductive DeviceType := Mobile | Desktop | Web | Headless | Server.

#[export] Instance DeviceType_eq_dec : EqDecision DeviceType.
Proof. solve_decision. Defined.

Record ClientInfo := mk_ClientInfo {
  ci_id : Uuid;
  ci_alias : string;
  ci_version : string;
  ci_device_model : option string;
  ci_device_type : option DeviceType;
  ci_token : string
}.

Record ClientInfoWithoutId := mk_ClientInfoWithoutId {
  cw_alias : string;
  cw_version : string;
  cw_device_model : option string;
  cw_device_type : option DeviceType;
  cw_token : string
}.

#[export] Instance ClientInfo_eq_dec : EqDecision ClientInfo.
Proof. solve_decision. Defined.
#[export] Instance ClientInfoWithoutId_eq_dec : EqDecision ClientInfoWithoutId.
Proof. solve_decision. Defined.

(** [ClientInfo::from(info, id)]. *)
Definition client_info_from (info : ClientInfoWithoutId) (id : Uuid) : ClientInfo :=
  {| ci_id := id; ci_alias := cw_alias info; ci_version := cw_version info;
     ci_device_model := cw_device_model info; ci_device_type := cw_device_type info;
     ci_token := cw_token info |}.

(** [impl From<ClientInfo> for ClientInfoWithoutId]. *)
Definition client_info_without_id (info : ClientInfo) : ClientInfoWithoutId :=
  {| cw_alias := ci_alias info; cw_version := ci_version info;
     cw_device_model := ci_device_model info; cw_device_type := ci_device_type info;
     cw_token := ci_token info |}.

Lemma client_info_from_without_id p : client_info_from (client_info_without_id p) (ci_id p) = p.
Proof. by destruct p. Qed.

Lemma client_info_without_id_from i id : client_info_without_id (client_info_from i id) = i.
Proof. by destruct i. Qed.

(** ** Messages of the server *)

Record WsServerSdpMessage := mk_WsServerSdpMessage {
  ss_peer : ClientInfo;
  ss_session_id : string;
  ss_sdp : string
}.

Inductive WsServerMessage :=
| Hello (client : ClientInfo) (peers : list ClientInfo)
| Join (peer : ClientInfo)
| Update (peer : ClientInfo)
| Left (peer_id : Uuid)
| Offer (m : WsServerSdpMessage)
| Answer (m : WsServerSdpMessage)
| WsError (code : Z).

(** ** Messages of the client *)

Record WsClientSdpMessage := mk_WsClientSdpMessage {
  sc_session_id : string;
  sc_target : Uuid;
  sc_sdp : string
}.

Inductive WsClientMessage :=
| CUpdate (info : ClientInfoWithoutId)
| COffer (m : WsClientSdpMessage)
| CAnswer (m : WsClientSdpMessage).

#[export] Instance WsServerSdpMessage_eq_dec : EqDecision WsServerSdpMessage.
Proof. solve_decision. Defined.
#[export] Instance WsServerMessage_eq_dec : EqDecision WsServerMessage.
Proof. solve_decision. Defined.
#[export] Instance WsClientSdpMessage_eq_dec : EqDecision WsClientSdpMessage.
Proof. solve_decision. Defined.
#[export] Instance WsClientMessage_eq_dec : EqDecision WsClientMessage.
Proof. solve_decision. Defined.

(** The peers a server message tells its reader about. *)
Definition mentioned (m : WsServerMessage) : list Uuid :=
  match m with
  | Hello client peers => ci_id client :: (ci_id <$> peers)
  | Join peer | Update peer => [ci_id peer]
  | Left peer_id => [peer_id]
  | Offer s | Answer s => [ci_id (ss_peer s)]
  | WsError _ => []
  end.
