(* ===== verification/Serde.v ===== *)
(** * Interfaces of the codecs the program calls

    The [serde_json] and [base64] crates are not part of the repository: a
    component that serialises is verified against these classes, whose laws
    state the documented behaviour of the crates. *)

From S2P Require Import Prelude.

(** [serde_json::to_string] and [serde_json::from_slice] at a type that
    derives [Serialize] and [Deserialize]. *)
Class SerdeJson (T : Type) := {
  to_json : T → string;
  from_json : bytes → option T
}.

(** The types of the program are structs and internally tagged enums: their
    documents are JSON objects, hence at least two bytes long; what is written
    is UTF-8, and reading it back gives the value. *)
Class SerdeJsonLaws (T : Type) `{SerdeJson T} := {
  from_to_json x : from_json (as_bytes (to_json x)) = Some x;
  to_json_utf8 x : utf8_valid (as_bytes (to_json x)) = true;
  from_json_object b x : from_json b = Some x → 2 ≤ length b
}.

(** [base64] with the [URL_SAFE_NO_PAD] engine ([core/src/util/base64.rs]). *)
Class Base64 := {
  b64_encode : bytes → string;
  b64_decode : string → option bytes
}.

Class Base64Laws `{Base64} := {
  b64_decode_encode b : b64_decode (b64_encode b) = Some b;
  b64_no_dot b : str_contains "." (b64_encode b) = false
}.

Section serde_lemmas.
Context {T : Type} `{SerdeJsonLaws T}.

Lemma to_json_inj (x y : T) : to_json x = to_json y → x = y.
Proof.
  intros Heq. apply (inj Some). by rewrite <- !from_to_json, Heq.
Qed.

Lemma to_json_length (x : T) : 2 ≤ length (as_bytes (to_json x)).
Proof. eapply from_json_object, from_to_json. Qed.

Lemma from_json_short b : length b < 2 → from_json (T:=T) b = None.
Proof.
  intros Hb. destruct (from_json b) as [x|] eqn:Hx; [|done].
  apply from_json_object in Hx. lia.
Qed.
End serde_lemmas.
