(* ===== verification/Json.v ===== *)
(** * JSON documents and the derived codecs

    What [#[derive(Serialize, Deserialize)]] and the [#[serde(..)]] attributes
    of the program mean: the document of a value, and how a document is read.
    A struct is an object with a member per field; it is read from the members
    in any order, members of other names are ignored, a member that occurs
    twice is an error, and so is a missing one unless its field is an [Option]
    or has a default.  It is also read from an array with an element per field.
    An internally tagged enum has the name of the variant as one more member. *)

From S2P Require Import Prelude.

(** A number that is no integer of 64 bits is kept as its digits. *)
Inductive Json :=
| JNull
| JBool (b : bool)
| JNumber (z : Z)
| JFloat (digits : string)
| JString (s : string)
| JArray (l : list Json)
| JObject (members : list (string * Json)).

Abbreviation members := (list (string * Json)).

(** The document of a value, and how one is read. [serde_valid] bounds the
    integers of a value by their width. *)
Class Serde (T : Type) := {
  to_value : T → Json;
  from_value : Json → option T;
  serde_valid : T → Prop
}.

Class SerdeLaws (T : Type) `{Serde T} := {
  from_to_value x : serde_valid x → from_value (to_value x) = Some x;
  to_value_not_null x : to_value x ≠ JNull
}.

(** ** Reading members *)

Definition named (name : string) (m : string * Json) : bool := String.eqb name m.1.

(** The member of a name: an error if it occurs twice. *)
Definition member (name : string) (ms : members) : option (option Json) :=
  match List.filter (named name) ms with
  | [] => Some None
  | [m] => Some (Some m.2)
  | _ => None
  end.

(** A field of a plain type. *)
Definition req {A} `{Serde A} (name : string) (ms : members) : option A :=
  m ← member name ms; v ← m; from_value v.

(** An [Option] field: missing and [null] mean [None]. *)
Definition opt {A} `{Serde A} (name : string) (ms : members) : option (option A) :=
  m ← member name ms;
  match m with None | Some JNull => Some None | Some v => Some <$> from_value v end.

(** A field with [#[serde(default)]]. *)
Definition with_default {A} `{Serde A} (default : A) (name : string) (ms : members) : option A :=
  m ← member name ms; match m with None => Some default | Some v => from_value v end.

(** The members of a struct with the given fields, of which the last [defaults]
    have a default. *)
Definition struct_members (names : list string) (defaults : nat) (v : Json) : option members :=
  match v with
  | JObject ms => Some ms
  | JArray vs =>
      if decide (length names - defaults ≤ length vs ≤ length names) then Some (zip names vs) else None
  | _ => None
  end.

(** The tag of an internally tagged enum, and what is left to the variant. *)
Definition untag (tag : string) (v : Json) : option (string * Json) :=
  match v with
  | JObject ms =>
      match member tag ms with
      | Some (Some (JString t)) => Some (t, JObject (List.filter (λ m, negb (named tag m)) ms))
      | _ => None
      end
  | JArray (JString t :: vs) => Some (t, JArray vs)
  | _ => None
  end.

(** ** Writing members *)

Definition field {A} `{Serde A} (name : string) (x : A) : members := [(name, to_value x)].

(** [skip_serializing_if = "Option::is_none"]. *)
Definition opt_field {A} `{Serde A} (name : string) (x : option A) : members :=
  match x with Some x => field name x | None => [] end.

(** A struct inside an internally tagged enum: its members follow the tag. *)
Definition tagged (tag variant : string) (v : Json) : Json :=
  match v with
  | JObject ms => JObject ((tag, JString variant) :: ms)
  | v => v
  end.

(** ** Types of the standard library *)

#[export] Instance serde_string : Serde string := {|
  to_value := JString;
  from_value v := match v with JString s => Some s | _ => None end;
  serde_valid _ := True
|}.

#[export] Instance serde_bool : Serde bool := {|
  to_value := JBool;
  from_value v := match v with JBool b => Some b | _ => None end;
  serde_valid _ := True
|}.

(** An unsigned integer that is at most [max]. *)
Definition serde_unsigned (max : Z) : Serde Z := {|
  to_value := JNumber;
  from_value v := match v with JNumber z => if decide (0 ≤ z ≤ max)%Z then Some z else None | _ => None end;
  serde_valid z := (0 ≤ z ≤ max)%Z
|}.

#[export] Instance serde_list {A} `{Serde A} : Serde (list A) := {|
  to_value l := JArray (to_value <$> l);
  from_value v := match v with JArray l => mapM from_value l | _ => None end;
  serde_valid l := Forall serde_valid l
|}.

(** A [HashMap] is written in the order of its iteration; a key that occurs
    twice is read as its last value. *)
#[export] Instance serde_map {A} `{Serde A} : Serde (gmap string A) := {|
  to_value m := JObject (prod_map id to_value <$> map_to_list m);
  from_value v :=
    match v with
    | JObject ms =>
        entries ← mapM (λ '(k, v), pair k <$> from_value v) ms;
        Some (list_to_map (reverse entries))
    | _ => None
    end;
  serde_valid m := map_Forall (λ _, serde_valid) m
|}.

#[export] Instance serde_string_laws : SerdeLaws string.
Proof. by split. Qed.
#[export] Instance serde_bool_laws : SerdeLaws bool.
Proof. by split. Qed.

Lemma serde_unsigned_laws max : @SerdeLaws Z (serde_unsigned max).
Proof. split; [|done]. intros z Hz. simpl in *. by rewrite decide_True. Qed.

Section containers.
Context {A : Type} `{SerdeLaws A}.

#[export] Instance serde_list_laws : SerdeLaws (list A).
Proof.
  split; [|done]. intros l Hl. simpl. apply mapM_Some_2, Forall2_fmap_l, Forall_Forall2_diag.
  eapply Forall_impl; [exact Hl|]. intros x. apply from_to_value.
Qed.

#[export] Instance serde_map_laws : SerdeLaws (gmap string A).
Proof.
  split; [|done]. intros m Hm. simpl.
  assert (mapM (λ '(k, v), pair k <$> from_value v) (prod_map id to_value <$> map_to_list m) =
          Some (map_to_list m)) as ->.
  { apply mapM_Some_2, Forall2_fmap_l, Forall_Forall2_diag.
    apply map_Forall_to_list in Hm. eapply Forall_impl; [exact Hm|]. intros [k x] Hx. simpl in *.
    by rewrite from_to_value. }
  simpl. f_equal. rewrite <- (list_to_map_to_list m) at 2. apply list_to_map_proper.
  - rewrite reverse_Permutation. apply NoDup_fst_map_to_list.
  - apply reverse_Permutation.
Qed.
End containers.

Lemma serde_valid_list {A} `{Serde A} (l : list A) : (∀ x : A, serde_valid x) → serde_valid l.
Proof. intros Hl. by apply Forall_true. Qed.

Lemma serde_valid_map {A} `{Serde A} (m : gmap string A) : (∀ x : A, serde_valid x) → serde_valid m.
Proof. intros Hm k x _. apply Hm. Qed.

Arguments to_value : simpl never.
Arguments from_value : simpl never.

Section readers.
Context {A : Type} `{SerdeLaws A}.

Lemma req_written name (ms : members) (x : A) :
  serde_valid x → member name ms = Some (Some (to_value x)) → req name ms = Some x.
Proof. intros Hx Hm. unfold req. rewrite Hm. simpl. by apply from_to_value. Qed.

Lemma opt_present name (ms : members) (x : A) :
  serde_valid x → member name ms = Some (Some (to_value x)) → opt name ms = Some (Some x).
Proof.
  intros Hx Hm. unfold opt. rewrite Hm. simpl. pose proof (to_value_not_null x) as Hnull.
  rewrite from_to_value by done. by destruct (to_value x).
Qed.

Lemma default_present name (ms : members) (d x : A) :
  serde_valid x → member name ms = Some (Some (to_value x)) → with_default d name ms = Some x.
Proof. intros Hx Hm. unfold with_default. rewrite Hm. simpl. by apply from_to_value. Qed.

Lemma default_absent name (ms : members) (d : A) :
  member name ms = Some None → with_default d name ms = Some d.
Proof. intros Hm. unfold with_default. by rewrite Hm. Qed.

Lemma opt_absent name (ms : members) : member name ms = Some None → opt (A:=A) name ms = Some None.
Proof. intros Hm. unfold opt. by rewrite Hm. Qed.
End readers.

(** ** The order of the members *)

(** A document of a struct or of an internally tagged enum, whose names are
    [known]: nothing else in an object is looked at. *)
Class SerdeMembers (T : Type) `{Serde T} := {
  known : list string;
  to_members : T → members;
  to_value_members x : to_value x = JObject (to_members x);
  from_value_members ms ms' :
    (∀ name, name ∈ known → member name ms' = member name ms) →
    from_value (JObject ms') = from_value (JObject ms)
}.
Arguments known T {_ _}.

Lemma member_none name (ms : members) : name ∉ ms.*1 → member name ms = Some None.
Proof.
  unfold member. induction ms as [|[n v] ms IH]; simpl; [done|].
  intros [Hne Hin]%not_elem_of_cons. unfold named at 1. simpl.
  destruct (String.eqb_spec name n); [done|]. by apply IH.
Qed.

Lemma member_some name v (ms : members) :
  NoDup ms.*1 → (name, v) ∈ ms → member name ms = Some (Some v).
Proof.
  unfold member. induction ms as [|[n u] ms IH]; simpl; [by intros _ ?%not_elem_of_nil|].
  intros [Hn Hnd]%NoDup_cons Hin. unfold named at 1. simpl. destruct (String.eqb_spec name n) as [->|Hne].
  - apply elem_of_cons in Hin as [[= ->]|Hin].
    + pose proof (member_none n ms Hn) as Hnone. unfold member in Hnone.
      by destruct (List.filter (named n) ms) as [|? [|??]].
    + destruct Hn. apply list_elem_of_fmap. by exists (n, v).
  - apply IH; [done|]. by apply elem_of_cons in Hin as [[=]|].
Qed.

Lemma member_permuted name (ms extra ms' : members) :
  ms' ≡ₚ ms ++ extra → NoDup ms'.*1 → name ∉ extra.*1 → member name ms' = member name ms.
Proof.
  intros Hp Hnd Hextra.
  assert (NoDup ms.*1) as Hnd0.
  { rewrite Hp, fmap_app in Hnd. by apply NoDup_app in Hnd as [? _]. }
  destruct (decide (name ∈ ms.*1)) as [Hin|Hout].
  - apply list_elem_of_fmap in Hin as [[n v] [-> Hin]]. simpl in *.
    rewrite (member_some n v ms) by done. apply member_some; [done|].
    rewrite Hp. apply elem_of_app. by left.
  - rewrite (member_none name ms) by done. apply member_none.
    rewrite Hp, fmap_app. apply not_elem_of_app. done.
Qed.

(** ** The tag *)

Lemma member_tag tag name v (ms : members) :
  name ≠ tag → member name ((tag, v) :: ms) = member name ms.
Proof.
  intros Hne. unfold member. simpl. unfold named at 1. simpl. by destruct (String.eqb_spec name tag).
Qed.

Lemma untag_written tag variant (ms : members) :
  List.filter (named tag) ms = [] →
  untag tag (JObject ((tag, JString variant) :: ms)) = Some (variant, JObject ms).
Proof.
  intros Hms. unfold untag, member. simpl. unfold named at 1. simpl. rewrite String.eqb_refl, Hms.
  simpl. do 2 f_equal. unfold named at 1. simpl. rewrite String.eqb_refl. simpl. f_equal.
  induction ms as [|m ms IH]; simpl in *; [done|].
  destruct (named tag m); [done|]. simpl. by rewrite IH.
Qed.

Lemma member_untagged tag name (ms : members) :
  name ≠ tag → member name (List.filter (λ m, negb (named tag m)) ms) = member name ms.
Proof.
  intros Hne. unfold member.
  assert (List.filter (named name) (List.filter (λ m, negb (named tag m)) ms) =
          List.filter (named name) ms) as ->; [|done].
  induction ms as [|[n v] ms IH]; [done|]. cbn [List.filter].
  assert (∀ t, named t (n, v) = String.eqb t n) as Hnamed by done. rewrite !Hnamed.
  destruct (String.eqb_spec tag n) as [->|Hn]; cbn [negb List.filter]; rewrite ?Hnamed, ?IH; [|done].
  by destruct (String.eqb_spec name n).
Qed.

(** An internally tagged enum looks at the tag and at what its variants look at. *)
Lemma tagged_members {A} tag (variant : string → Json → option A) (names : list string) ms ms' :
  (∀ t ms ms', (∀ name, name ∈ names → member name ms' = member name ms) →
    variant t (JObject ms') = variant t (JObject ms)) →
  tag ∉ names →
  (∀ name, name ∈ tag :: names → member name ms' = member name ms) →
  ('(t, v) ← untag tag (JObject ms'); variant t v) = ('(t, v) ← untag tag (JObject ms); variant t v).
Proof.
  intros Hv Htag Hms. unfold untag. rewrite (Hms tag) by left.
  destruct (member tag ms) as [[[]|]|]; try done. simpl. apply Hv. intros name Hname.
  assert (name ≠ tag) by by intros ->. rewrite !member_untagged by done. apply Hms. by right.
Qed.

(** A value is read back from its members in any order, among others of unknown
    names. *)
Definition reads_back (T : Type) `{SerdeMembers T} : Prop :=
  ∀ (x : T) (ms extra : members),
    serde_valid x → ms ≡ₚ to_members x ++ extra → NoDup ms.*1 →
    (∀ name, name ∈ known T → name ∉ extra.*1) →
    from_value (JObject ms) = Some x.

Lemma members_read_back {T} `{SerdeMembers T, !SerdeLaws T} : reads_back T.
Proof.
  intros x ms extra Hx Hp Hnd Hextra. rewrite (from_value_members (to_members x)).
  - rewrite <- to_value_members. by apply from_to_value.
  - intros name Hname. by eapply member_permuted; [|done|apply Hextra].
Qed.

(** ** A struct of one field *)

Section single.
Context {A T : Type} `{Serde A} (name : string) (mk : A → T) (get : T → A).

Definition single_members (x : T) : members := field name (get x).
Definition single_read (v : Json) : option T := ms ← struct_members [name] 0 v; mk <$> req name ms.

Definition serde_single : Serde T := {|
  to_value x := JObject (single_members x);
  from_value := single_read;
  serde_valid x := serde_valid (get x)
|}.

Lemma serde_single_laws : SerdeLaws A → (∀ x, mk (get x) = x) → @SerdeLaws T serde_single.
Proof.
  intros HA Hmk. split; [|done]. intros x Hx.
  change (single_read (JObject (single_members x)) = Some x). unfold single_read. simpl.
  rewrite (req_written name _ (get x)); [by simpl; rewrite Hmk|done|].
  unfold single_members, field, member. simpl. unfold named. simpl. by rewrite String.eqb_refl.
Qed.

Definition serde_single_open : @SerdeMembers T serde_single.
Proof.
  refine (Build_SerdeMembers T serde_single [name] single_members _ _); [done|].
  intros ms ms' Hms. change (single_read (JObject ms') = single_read (JObject ms)).
  unfold single_read. simpl. unfold req. by rewrite (Hms name) by left.
Defined.
End single.

(** A field is read back as it was written: the names are compared by
    computing. *)
Ltac serde_valid := first [done | by apply serde_valid_list | by apply serde_valid_map | assumption].
Ltac serde_field :=
  first [ erewrite req_written; [| |reflexivity]; [|serde_valid]
        | erewrite opt_present; [| |reflexivity]; [|serde_valid]
        | rewrite opt_absent by reflexivity
        | erewrite default_present; [| |reflexivity]; [|serde_valid]
        | rewrite default_absent by reflexivity ].
Ltac serde_run := cbn [mbind option_bind fmap option_fmap option_map struct_members].
Ltac serde_struct := serde_run; repeat (serde_field; serde_run); try done.

(** A reader only looks at the members of its fields. *)
Ltac serde_known := repeat first [apply list_elem_of_here | apply list_elem_of_further].
Ltac serde_looks Hms := serde_run; unfold req, opt, with_default;
  repeat match type of Hms with ∀ name, _ → member name ?ms' = _ =>
    match goal with |- context [member ?n ms'] => rewrite (Hms n) by serde_known end end;
  try done.
