(* ===== verification/Crypto.v ===== *)
(** * Tokens, nonces and certificates

    [core/src/crypto/{hash,nonce,token,cert}.rs] and
    [app/rust/src/api/crypto.rs].  The signature schemes, SHA-256 and the
    X.509 parser are crates: they are the operations of the classes
    [TokenCrypto] and [X509], whose laws state what the crates document.  An
    error of a crate keeps no more than the name of the crate as message. *)

From S2P Require Import Prelude Serde.
Local Open Scope Z_scope.

(** ** The crates *)

Class TokenCrypto := {
  (** [sha2] *)
  sha256 : bytes → bytes;
  (** [ed25519_dalek] *)
  Ed25519Signing : Type;
  Ed25519Public : Type;
  verifying_key : Ed25519Signing → Ed25519Public;
  ed25519_sign : Ed25519Signing → bytes → bytes;
  ed25519_verify : Ed25519Public → bytes → bytes → option ();
  ed25519_to_der : Ed25519Public → option bytes;
  ed25519_from_pem : string → option Ed25519Public;
  ed25519_to_pem : Ed25519Public → option string;
  ed25519_signing_from_pem : string → option Ed25519Signing;
  ed25519_signing_to_pem : Ed25519Signing → option string;
  (** [rsa] *)
  RsaPublic : Type;
  rsa_verify : RsaPublic → bytes → bytes → option ();
  rsa_to_der : RsaPublic → option bytes;
  rsa_from_pem : string → option RsaPublic
}.

Class TokenCryptoLaws `{TokenCrypto} := {
  ed25519_verify_sign k msg : ed25519_verify (verifying_key k) msg (ed25519_sign k msg) = Some ();
  ed25519_pem p pem : ed25519_to_pem p = Some pem → ed25519_from_pem pem = Some p;
  ed25519_signing_pem k pem :
    ed25519_signing_to_pem k = Some pem → ed25519_signing_from_pem pem = Some k
}.

(** ** Nonces *)

(** The [32] of [generate_nonce]; the bytes themselves are random. *)
Definition NONCE_LENGTH : nat := 32.

Definition validate_nonce (nonce : bytes) : bool :=
  ((16 <=? length nonce) && (length nonce <=? 128))%nat.

(** ** Keys *)

(** A [Box<dyn VerifyingTokenKey>]: one of the two implementations. *)
Inductive VerifyingTokenKey `{TokenCrypto} :=
| Ed25519VerifyingKey (inner : Ed25519Public)
| RsaPssVerifyingKey (inner : RsaPublic).

Section token.
Context `{TokenCrypto, Base64}.

Definition key_verify (k : VerifyingTokenKey) (msg signature : bytes) : anyres () :=
  match k with
  | Ed25519VerifyingKey inner => ok_or (ed25519_verify inner msg signature) "ed25519_dalek"
  | RsaPssVerifyingKey inner => ok_or (rsa_verify inner msg signature) "rsa"
  end.

Definition key_to_der (k : VerifyingTokenKey) : anyres bytes :=
  match k with
  | Ed25519VerifyingKey inner => ok_or (ed25519_to_der inner) "ed25519_dalek"
  | RsaPssVerifyingKey inner => ok_or (rsa_to_der inner) "rsa"
  end.

Definition signature_method (k : VerifyingTokenKey) : string :=
  match k with
  | Ed25519VerifyingKey _ => "ed25519"
  | RsaPssVerifyingKey _ => "rsa-pss"
  end.

(** [SigningTokenKey::to_verifying_key]. *)
Definition to_verifying_key (key : Ed25519Signing) : VerifyingTokenKey :=
  Ed25519VerifyingKey (verifying_key key).

Definition export_private_key (key : Ed25519Signing) : anyres string :=
  ok_or (ed25519_signing_to_pem key) "ed25519_dalek".

Definition parse_private_key (private_key : string) : anyres Ed25519Signing :=
  ok_or (ed25519_signing_from_pem private_key) "ed25519_dalek".

Definition export_public_key (key : Ed25519Signing) : anyres string :=
  ok_or (ed25519_to_pem (verifying_key key)) "ed25519_dalek".

Definition parse_public_key (public_key identifier : string) : anyres VerifyingTokenKey :=
  if decide (identifier = "ed25519") then
    let? k := ok_or (ed25519_from_pem public_key) "ed25519_dalek" in
    Ok (Ed25519VerifyingKey k)
  else if decide (identifier = "rsa-pss") then
    let? k := ok_or (rsa_from_pem public_key) "rsa" in
    Ok (RsaPssVerifyingKey k)
  else Err "Unsupported key type".

(** [generate_key_pair] of [app/rust/src/api/crypto.rs], for the key that
    [generate_key] has drawn: the private and the public PEM. *)
Definition generate_key_pair (signing_key : Ed25519Signing) : anyres (string * string) :=
  let? private_key := export_private_key signing_key in
  let? public_key := export_public_key signing_key in
  Ok (private_key, public_key).

(** ** Tokens *)

Definition generate_token_nonce (key : Ed25519Signing) (salt : bytes) : anyres string :=
  let? public_key := ok_or (ed25519_to_der (verifying_key key)) "ed25519_dalek" in
  let digest := sha256 (public_key ++ salt) in
  let signature := ed25519_sign key digest in
  let hash_method := "sha256" in
  let hash_base64 := b64_encode digest in
  let salt_base64 := b64_encode salt in
  let sign_method := "ed25519" in
  let signature_base64 := b64_encode signature in
  Ok (str_join "." [hash_method; hash_base64; salt_base64; sign_method; signature_base64]).

(** [generate_token_timestamp] at the time [now]. *)
Definition generate_token_timestamp (key : Ed25519Signing) (now : Z) : anyres string :=
  let salt := le_bytes 8 now in
  generate_token_nonce key salt.

Definition extract_signature_identifier (token : string) : option string :=
  str_split "." token !! 3%nat.

Definition verify_token_with_result (public_key : VerifyingTokenKey) (token : string)
    (verify_salt : bytes → anyres ()) : anyres () :=
  let parts := str_split "." token in
  if decide (length parts < 5)%nat then Panic "range end index 5 out of range"
  else match take 5 parts with
  | [hash_method; hash_base64; salt_base64; sign_method; signature_base64] =>
      if decide (hash_method ≠ "sha256") then Err "Invalid hash method"
      else if decide (sign_method ≠ signature_method public_key) then Err "Invalid sign method"
      else
        let? salt := ok_or (b64_decode salt_base64) "base64" in
        check? verify_salt salt in
        let? public_key_der := key_to_der public_key in
        let digest := sha256 (public_key_der ++ salt) in
        if decide (b64_encode digest ≠ hash_base64) then Err "Hash mismatch"
        else
          match b64_decode signature_base64 with
          | None => Err "Invalid signature base64 encoding"
          | Some signature =>
              res_map_err (λ _, "Invalid signature") (key_verify public_key digest signature)
          end
  | _ => Err "Invalid structure"
  end.

Definition verify_token_nonce (public_key : VerifyingTokenKey) (token : string)
    (nonce : bytes) : anyres bool :=
  res_is_ok (verify_token_with_result public_key token (λ salt,
    if decide (salt ≠ nonce) then Err "Invalid nonce" else Ok ())).

(** [now_seconds - salt] of two [u64]: in a build with overflow checks it
    panics below zero, otherwise it wraps. *)
Definition u64_sub (overflow_checks : bool) (a b : Z) : anyres Z :=
  if decide (b ≤ a) then Ok (a - b)
  else if overflow_checks then Panic "attempt to subtract with overflow"
  else Ok ((a - b) mod u64_modulus).

Definition verify_salt_timestamp (overflow_checks : bool) (now_seconds : Z)
    (salt : bytes) : anyres () :=
  if decide (length salt ≠ 8%nat) then Err "Invalid salt length"
  else
    let? age := u64_sub overflow_checks now_seconds (le_value salt) in
    if decide (age > 60 * 60) then Err "Fingerprint timestamp expired" else Ok ().

(** [verify_token_timestamp] at the time [now_seconds]; that a clock before
    1970 makes the call fail is left out. *)
Definition verify_token_timestamp (overflow_checks : bool) (now_seconds : Z)
    (public_key : VerifyingTokenKey) (token : string) : anyres bool :=
  res_is_ok (verify_token_with_result public_key token
    (verify_salt_timestamp overflow_checks now_seconds)).
End token.

(** ** Certificates ([x509_parser], [pem]) *)

Class X509 := {
  (** [Pem::read]: the first PEM block of the text, as its bytes. *)
  pem_read : string → option bytes;
  (** [pem::encode] with the label [PUBLIC KEY]. *)
  pem_encode_public_key : bytes → string;
  X509Certificate : Type;
  parse_x509 : bytes → option X509Certificate;
  validity_is_valid : X509Certificate → bool;
  (** [tbs_certificate.subject_pki.raw]. *)
  subject_pki_raw : X509Certificate → bytes;
  (** [verify_signature(None)]: the certificate signs itself. *)
  verify_self_signature : X509Certificate → option ();
  PublicKey : Type;
  PublicKey_eq_dec :: EqDecision PublicKey;
  (** [SubjectPublicKeyInfo::from_der] followed by [parsed], by its two stages. *)
  SubjectPublicKeyInfo : Type;
  spki_from_der : bytes → option SubjectPublicKeyInfo;
  spki_parsed : SubjectPublicKeyInfo → option PublicKey;
  subject_pki : X509Certificate → SubjectPublicKeyInfo
}.

Class X509Laws `{X509} := {
  pem_read_encode b : pem_read (pem_encode_public_key b) = Some b;
  (** [raw] is the DER text the [subject_pki] was parsed from. *)
  subject_pki_from_raw c : spki_from_der (subject_pki_raw c) = Some (subject_pki c)
}.

Section cert.
Context `{X509}.

Definition verify_cert_from_cert (cert : X509Certificate) (public_key : option string)
    : anyres () :=
  if negb (validity_is_valid cert) then Err "Time validity error"
  else
    check? (match public_key with
            | Some public_key =>
                let? cert_public_key := ok_or (spki_parsed (subject_pki cert)) "x509_parser" in
                let? public_key_pem := ok_or (pem_read public_key) "x509_parser" in
                let? public_key_spki := ok_or (spki_from_der public_key_pem) "x509_parser" in
                let? expected_public_key := ok_or (spki_parsed public_key_spki) "x509_parser" in
                if decide (cert_public_key ≠ expected_public_key)
                then Err "Public key mismatch" else Ok ()
            | None => Ok ()
            end) in
    ok_or (verify_self_signature cert) "x509_parser".

Definition verify_cert_from_pem (cert : string) (public_key : option string) : anyres () :=
  let? cert_pem := ok_or (pem_read cert) "x509_parser" in
  let? parsed_cert := ok_or (parse_x509 cert_pem) "x509_parser" in
  verify_cert_from_cert parsed_cert public_key.

Definition verify_cert_from_der (cert : bytes) (public_key : option string) : anyres () :=
  let? parsed_cert := ok_or (parse_x509 cert) "x509_parser" in
  verify_cert_from_cert parsed_cert public_key.

Definition public_key_from_cert (cert : X509Certificate) : anyres string :=
  let cert_public_key := subject_pki_raw cert in
  Ok (pem_encode_public_key cert_public_key).

Definition public_key_from_cert_pem (cert : string) : anyres string :=
  let? cert_pem := ok_or (pem_read cert) "x509_parser" in
  let? parsed_cert := ok_or (parse_x509 cert_pem) "x509_parser" in
  public_key_from_cert parsed_cert.

Definition public_key_from_cert_der (cert : bytes) : anyres string :=
  let? parsed_cert := ok_or (parse_x509 cert) "x509_parser" in
  public_key_from_cert parsed_cert.

(** [verify_cert] of [app/rust/src/api/crypto.rs]. *)
Definition verify_cert (cert public_key : string) : anyres () :=
  verify_cert_from_pem cert (Some public_key).

(** [CustomClientCertVerifier::verify_client_cert]: any certificate that is
    valid is trusted; the reason of a refusal is only logged. *)
Definition verify_client_cert (cert : bytes) : anyres () :=
  res_map_err (λ _, "ApplicationVerificationFailure") (verify_cert_from_der cert None).

(** [client_auth_mandatory] and [offer_client_auth]. *)
Definition client_auth_mandatory : bool := true.
Definition offer_client_auth : bool := true.
End cert.
