(* ===== verification/Instances.v ===== *)
(** * Concrete codecs

    Implementations of the codec classes of [Serde] that satisfy their laws,
    for the concrete runs of the other files: documents are the binary digits
    of a [Countable] code between braces, base64 is replaced by hexadecimal,
    and the signature schemes by tagging a message with the key. *)

From stdpp Require Import countable.
From S2P Require Import Prelude Serde Signaling Crypto.
From Stdlib Require Import Strings.Byte.

(** ** Documents *)

Fixpoint write_digits (p : positive) : bytes :=
  match p with
  | xH => [Byte.x7d]
  | xO p => Byte.x30 :: write_digits p
  | xI p => Byte.x31 :: write_digits p
  end.

Fixpoint read_digits (b : bytes) : option positive :=
  match b with
  | [Byte.x7d] => Some xH
  | Byte.x30 :: b => xO <$> read_digits b
  | Byte.x31 :: b => xI <$> read_digits b
  | _ => None
  end.

Definition read_document (b : bytes) : option positive :=
  match b with Byte.x7b :: b => read_digits b | _ => None end.

Lemma read_write_digits p : read_digits (write_digits p) = Some p.
Proof. induction p; simpl; [rewrite IHp..|]; done. Qed.

Lemma write_digits_utf8 p : utf8_valid (write_digits p) = true.
Proof. induction p; simpl; done. Qed.

Lemma read_document_length b p : read_document b = Some p → 2 ≤ length b.
Proof. destruct b as [|[] [|]]; simpl; try done; lia. Qed.

Section countable_json.
Context {T : Type} `{Countable T}.

Definition countable_json : SerdeJson T := {|
  to_json x := from_bytes (Byte.x7b :: write_digits (encode x));
  from_json b := read_document b ≫= decode
|}.

Lemma countable_json_laws : @SerdeJsonLaws T countable_json.
Proof.
  constructor; unfold from_json, to_json, countable_json.
  - intros x. rewrite as_from_bytes. simpl.
    rewrite read_write_digits. simpl. apply decode_encode.
  - intros x. rewrite as_from_bytes. apply write_digits_utf8.
  - intros b x. destruct (read_document b) eqn:Hb; [|done].
    intros _. by eapply read_document_length.
Qed.
End countable_json.

(** ** Codes for the messages *)

#[export] Instance DeviceType_countable : Countable DeviceType.
Proof.
  refine (inj_countable'
    (λ d, match d with Mobile => 0 | Desktop => 1 | Web => 2 | Headless => 3 | Server => 4 end)
    (λ n, match n with 0 => Mobile | 1 => Desktop | 2 => Web | 3 => Headless | _ => Server end) _).
  by intros [].
Defined.

#[export] Instance ClientInfoWithoutId_countable : Countable ClientInfoWithoutId.
Proof.
  refine (inj_countable'
    (λ c, (cw_alias c, cw_version c, cw_device_model c, cw_device_type c, cw_token c))
    (λ '(a, v, m, t, k), mk_ClientInfoWithoutId a v m t k) _).
  by intros [].
Defined.

#[export] Instance WsClientSdpMessage_countable : Countable WsClientSdpMessage.
Proof.
  refine (inj_countable' (λ m, (sc_session_id m, sc_target m, sc_sdp m))
    (λ '(s, t, d), mk_WsClientSdpMessage s t d) _).
  by intros [].
Defined.

#[export] Instance WsClientMessage_countable : Countable WsClientMessage.
Proof.
  refine (inj_countable'
    (λ m, match m with
          | CUpdate i => inl i | COffer s => inr (inl s) | CAnswer s => inr (inr s) end)
    (λ x, match x with
          | inl i => CUpdate i | inr (inl s) => COffer s | inr (inr s) => CAnswer s end) _).
  by intros [].
Defined.

(** ** Hexadecimal for base64 *)

Definition hex_digit (n : Z) : Byte.byte :=
  if decide (n < 10)%Z then byte_of_Z (48 + n) else byte_of_Z (87 + n).

Definition hex_value (b : Byte.byte) : option Z :=
  let n := byte_to_Z b in
  if decide (48 ≤ n ≤ 57)%Z then Some (n - 48)%Z
  else if decide (97 ≤ n ≤ 102)%Z then Some (n - 87)%Z else None.

Definition hex_encode (b : bytes) : string :=
  from_bytes (b ≫= λ x, [hex_digit (byte_to_Z x / 16); hex_digit (byte_to_Z x mod 16)]).

Fixpoint hex_decode_bytes (b : bytes) : option bytes :=
  match b with
  | [] => Some []
  | h :: l :: b' =>
      x ← hex_value h; y ← hex_value l; r ← hex_decode_bytes b';
      Some (byte_of_Z (x * 16 + y)%Z :: r)
  | _ => None
  end.

#[export] Instance hex_base64 : Base64 := {|
  b64_encode := hex_encode;
  b64_decode s := hex_decode_bytes (as_bytes s)
|}.

Lemma hex_byte (b : Byte.byte) :
  hex_value (hex_digit (byte_to_Z b / 16)) = Some (byte_to_Z b / 16)%Z ∧
  hex_value (hex_digit (byte_to_Z b mod 16)) = Some (byte_to_Z b mod 16)%Z ∧
  hex_digit (byte_to_Z b / 16) ≠ Byte.x2e ∧ hex_digit (byte_to_Z b mod 16) ≠ Byte.x2e ∧
  byte_of_Z (byte_to_Z b / 16 * 16 + byte_to_Z b mod 16) = b.
Proof. destruct b; vm_compute; done. Qed.

Lemma hex_no_dot b : str_contains "." (hex_encode b) = false.
Proof.
  unfold hex_encode. induction b as [|x b IH]; [done|].
  destruct (hex_byte x) as (_ & _ & Hh & Hl & _).
  rewrite bind_cons. unfold from_bytes in *. simpl.
  rewrite !decide_False; [exact IH| |].
  - intros Heq. apply Hl. by apply (f_equal byte_of_ascii) in Heq; rewrite byte_of_ascii_of_byte in Heq.
  - intros Heq. apply Hh. by apply (f_equal byte_of_ascii) in Heq; rewrite byte_of_ascii_of_byte in Heq.
Qed.

#[export] Instance hex_base64_laws : Base64Laws.
Proof.
  constructor; simpl; [|apply hex_no_dot].
  intros b. unfold hex_encode. rewrite as_from_bytes.
  induction b as [|x b IH]; [done|].
  destruct (hex_byte x) as (Hh & Hl & _ & _ & Hx).
  rewrite bind_cons. simpl. rewrite Hh, Hl. simpl. rewrite IH. simpl. by rewrite Hx.
Qed.

(** ** Signatures and certificates *)

(** A key is a text and its own PEM; a signature is the key followed by the
    message; the hash of a message is the message. *)
#[export] Instance tag_crypto : TokenCrypto := {|
  sha256 := λ b, b;
  Ed25519Signing := string;
  Ed25519Public := string;
  verifying_key := λ k, k;
  ed25519_sign := λ k msg, as_bytes k ++ msg;
  ed25519_verify := λ k msg s, if decide (s = as_bytes k ++ msg) then Some () else None;
  ed25519_to_der := λ k, Some (as_bytes k);
  ed25519_from_pem := Some;
  ed25519_to_pem := Some;
  ed25519_signing_from_pem := Some;
  ed25519_signing_to_pem := Some;
  RsaPublic := string;
  rsa_verify := λ k msg s, if decide (s = as_bytes k ++ msg) then Some () else None;
  rsa_to_der := λ k, Some (as_bytes k);
  rsa_from_pem := Some
|}.

#[export] Instance tag_crypto_laws : TokenCryptoLaws.
Proof.
  constructor; simpl; [|naive_solver..].
  intros k msg. by rewrite decide_True.
Qed.

(** A certificate is its public key, valid when the text of the key is not
    empty; it signs itself when it starts with [s]. *)
#[export] Instance plain_x509 : X509 := {|
  pem_read := λ s, Some (as_bytes s);
  pem_encode_public_key := from_bytes;
  X509Certificate := bytes;
  parse_x509 := Some;
  validity_is_valid := λ c, bool_decide (c ≠ []);
  subject_pki_raw := λ c, c;
  verify_self_signature := λ c, match c with Byte.x73 :: _ => Some () | _ => None end;
  PublicKey := bytes;
  SubjectPublicKeyInfo := bytes;
  spki_from_der := Some;
  spki_parsed := Some;
  subject_pki := λ c, c
|}.

#[export] Instance plain_x509_laws : X509Laws.
Proof. constructor; simpl; [|done]. intros b. by rewrite as_from_bytes. Qed.
