(* ===== verification/CryptoProps.v ===== *)
(** * What tokens and certificates guarantee

    Theorems about [Crypto]: what an accepted token proves, that generated
    tokens are accepted, how long a timestamp token lives, which inputs make
    the verifier panic, and what pinning a certificate's key means. *)

From S2P Require Import Prelude Serde Crypto Instances.
Local Open Scope Z_scope.

Section tokens.
Context `{TokenCrypto, Base64}.

(** The text [token] is a token of [pk] over [salt]: five parts at least, the
    hash of the key and the salt, and a signature of that hash. *)
Definition token_of (pk : VerifyingTokenKey) (salt : bytes) (token : string) : Prop :=
  ∃ der hash_base64 salt_base64 signature_base64 signature rest,
    str_split "." token =
      "sha256" :: hash_base64 :: salt_base64 :: signature_method pk :: signature_base64 :: rest ∧
    key_to_der pk = Ok der ∧
    b64_decode salt_base64 = Some salt ∧
    hash_base64 = b64_encode (sha256 (der ++ salt)) ∧
    b64_decode signature_base64 = Some signature ∧
    key_verify pk (sha256 (der ++ salt)) signature = Ok ().

Lemma key_to_der_no_panic pk : ¬ is_panic (key_to_der pk).
Proof. destruct pk; apply ok_or_no_panic. Qed.

(** On a token of the key only the check of the salt is left. *)
Lemma verify_token_of pk salt token vs :
  token_of pk salt token →
  verify_token_with_result pk token vs = check? vs salt in Ok ().
Proof.
  intros (der & hb & sb & gb & sig & rest & Hs & Hder & Hsb & -> & Hgb & Hv).
  unfold verify_token_with_result. rewrite Hs.
  rewrite decide_False by (simpl; lia). cbn [take].
  rewrite decide_False by (intros Hn; by apply Hn).
  rewrite decide_False by (intros Hn; by apply Hn). rewrite Hsb. cbn [ok_or res_bind].
  destruct (vs salt); try done. cbn [res_bind]. rewrite Hder. cbn [res_bind].
  rewrite decide_False by (intros Hn; by apply Hn). by rewrite Hgb, Hv.
Qed.

Lemma verify_token_with_result_Ok pk token vs :
  verify_token_with_result pk token vs = Ok () ↔ ∃ salt, vs salt = Ok () ∧ token_of pk salt token.
Proof.
  split.
  - unfold verify_token_with_result, token_of.
    destruct (str_split "." token) as [|hm [|hb [|sb [|sm [|gb rest]]]]] eqn:Hs; try done.
    rewrite decide_False by (simpl; lia). cbn [take].
    case_decide as Hhm; [done|]. case_decide as Hsm; [done|].
    destruct (b64_decode sb) as [salt|] eqn:Hsb; [|done]. cbn [ok_or res_bind].
    destruct (vs salt) as [[]| |] eqn:Hvs; try done. cbn [res_bind].
    destruct (key_to_der pk) as [der| |] eqn:Hder; try done. cbn [res_bind].
    case_decide as Hh; [done|]. destruct (b64_decode gb) as [sig|] eqn:Hgb; [|done].
    destruct (key_verify pk _ sig) as [[]| |] eqn:Hv; try done. intros _.
    exists salt. split; [done|].
    exists der, hb, sb, gb, sig, rest. by subst.
  - intros (salt & Hvs & Ht). rewrite (verify_token_of pk salt) by done. by rewrite Hvs.
Qed.

Lemma verify_token_with_result_panic pk token vs :
  (∀ salt, ¬ is_panic (vs salt)) →
  is_panic (verify_token_with_result pk token vs) ↔ (length (str_split "." token) < 5)%nat.
Proof.
  intros Hvs. unfold verify_token_with_result.
  case_decide as Hl; [split; [lia|intros _; by eexists]|].
  split; [|lia]. intros Hp. exfalso. revert Hp.
  destruct (str_split "." token) as [|hm [|hb [|sb [|sm [|gb rest]]]]]; simpl in Hl; try lia.
  cbn [take]. repeat (case_decide; [by intros [? ?]|]).
  apply res_bind_no_panic; [apply ok_or_no_panic|]. intros salt _.
  apply res_bind_no_panic; [apply Hvs|]. intros _ _.
  apply res_bind_no_panic; [apply key_to_der_no_panic|]. intros der _.
  case_decide; [by intros [? ?]|]. case_match; [|by intros [? ?]].
  unfold key_verify, ok_or. repeat case_match; by intros [? ?].
Qed.

Lemma accepted_token_of pk token nonce :
  verify_token_nonce pk token nonce = Ok true → token_of pk nonce token.
Proof.
  unfold verify_token_nonce.
  intros [[] (salt & Hs & Ht)%verify_token_with_result_Ok]%res_is_ok_true.
  case_decide as Hn; [done|]. by subst.
Qed.

(** A token of the key is accepted for its own salt and refused for others. *)
Lemma token_of_verdict pk salt token nonce :
  token_of pk salt token → verify_token_nonce pk token nonce = Ok (bool_decide (nonce = salt)).
Proof.
  intros Ht. unfold verify_token_nonce. rewrite (verify_token_of pk salt) by done.
  case_bool_decide as Hn; [rewrite decide_False by naive_solver|rewrite decide_True by naive_solver]; done.
Qed.

(** C16. A token is accepted for a nonce exactly when it is a token of the key
    over that very nonce: it carries the hash of key and nonce and a valid
    signature of it under the method of the key.  Parts after the fifth are
    not looked at. *)
Theorem token_accepted_iff pk token nonce :
  verify_token_nonce pk token nonce = Ok true ↔ token_of pk nonce token.
Proof.
  split; [apply accepted_token_of|]. intros Ht.
  rewrite (token_of_verdict pk nonce) by done. by rewrite bool_decide_true.
Qed.

(** Verifying a token panics exactly when it has fewer than five parts,
    and every peer can send such a token: the error for an invalid structure
    is never returned. *)
Theorem short_token_panics pk token nonce :
  is_panic (verify_token_nonce pk token nonce) ↔ (length (str_split "." token) < 5)%nat.
Proof.
  rewrite <- (verify_token_with_result_panic pk token
    (λ salt, if decide (salt ≠ nonce) then Err "Invalid nonce" else Ok ())).
  - unfold verify_token_nonce. destruct (verify_token_with_result _ _ _); simpl;
      (split; intros [m Hm]; try done; by eexists).
  - intros salt [m Hm]. by case_decide.
Qed.

Context `{!TokenCryptoLaws, !Base64Laws}.

Lemma generated_token key salt token :
  generate_token_nonce key salt = Ok token →
  str_split "." token !! 3%nat = Some "ed25519" ∧
  length (str_split "." token) = 5%nat ∧
  token_of (to_verifying_key key) salt token.
Proof.
  unfold generate_token_nonce.
  destruct (ed25519_to_der (verifying_key key)) as [der|] eqn:Hder; [|done]. cbn [ok_or res_bind].
  intros <-%(inj Ok). rewrite str_split_join; [|done|repeat constructor; auto using b64_no_dot].
  split; [done|]. split; [done|].
  exists der. do 5 eexists. split; [rewrite str_split_join; [done|done|]|].
  { repeat constructor; auto using b64_no_dot. }
  split; [simpl; by rewrite Hder|]. split; [apply b64_decode_encode|]. split; [done|].
  split; [apply b64_decode_encode|]. simpl. by rewrite ed25519_verify_sign.
Qed.

(** C17. A generated token is accepted by its key for the nonce it was made
    for and refused, without a panic, for any other nonce; the key type it
    announces is the one its public key is parsed with. *)
Theorem token_roundtrip key nonce nonce' token pem :
  generate_token_nonce key nonce = Ok token →
  export_public_key key = Ok pem →
  verify_token_nonce (to_verifying_key key) token nonce' = Ok (bool_decide (nonce' = nonce)) ∧
  (let? identifier := ok_or (extract_signature_identifier token) "" in
   parse_public_key pem identifier) = Ok (to_verifying_key key).
Proof.
  intros Hgen Hpem. apply generated_token in Hgen as (Hid & Hlen & Ht). split.
  - by apply token_of_verdict.
  - unfold extract_signature_identifier. rewrite Hid. simpl. unfold parse_public_key.
    rewrite decide_True by done. unfold export_public_key in Hpem.
    apply ok_or_Ok, ed25519_pem in Hpem. by rewrite Hpem.
Qed.

(** [now - t] as a [u64], at most an hour. *)
Lemma u64_sub_window t now :
  0 ≤ t < u64_modulus → 3600 < now < u64_modulus →
  verify_salt_timestamp false now (le_bytes 8 t) =
  if decide (t ≤ now ≤ t + 3600) then Ok () else Err "Fingerprint timestamp expired".
Proof.
  intros Ht Hnow. unfold verify_salt_timestamp. rewrite le_bytes_length, decide_False by naive_solver.
  rewrite le_value_bytes by done. unfold u64_sub. case_decide as Hle; cbn [res_bind].
  - repeat case_decide; try done; lia.
  - replace ((now - t) mod u64_modulus) with (now - t + u64_modulus).
    2: { apply Z.mod_unique with (-1); unfold u64_modulus in *; lia. }
    repeat case_decide; try done; unfold u64_modulus in *; lia.
Qed.

(** C22. A timestamp token made at time [t] is accepted at time [now] exactly
    for the hour that follows [t]; a token from the future is refused in a
    build without overflow checks and panics in a build with them. *)
Theorem timestamp_window key t now token :
  0 ≤ t < u64_modulus → 3600 < now < u64_modulus →
  generate_token_timestamp key t = Ok token →
  verify_token_timestamp false now (to_verifying_key key) token
    = Ok (bool_decide (t ≤ now ≤ t + 3600)) ∧
  (now < t → is_panic (verify_token_timestamp true now (to_verifying_key key) token)).
Proof.
  unfold generate_token_timestamp. intros Ht Hnow (_ & Hlen & Htok)%generated_token.
  pose proof (u64_sub_window t now Ht Hnow) as Hw.
  unfold verify_token_timestamp. rewrite !(verify_token_of _ (le_bytes 8 t)) by done. split.
  - rewrite Hw. case_bool_decide; [by rewrite decide_True|by rewrite decide_False].
  - intros Hlt. unfold verify_salt_timestamp.
    rewrite le_bytes_length, decide_False by naive_solver. rewrite le_value_bytes by done.
    unfold u64_sub. rewrite decide_False by lia. by eexists.
Qed.
End tokens.

Section certificates.
Context `{X509, !X509Laws}.

(** Pinning a certificate to the public key taken from itself asks for
    nothing more than the certificate being valid and signing itself; pinning
    it to the key of another certificate with a different key always fails. *)
Theorem cert_pinning c c' pem k k' :
  public_key_from_cert c' = Ok pem →
  spki_parsed (subject_pki c) = Some k →
  spki_parsed (subject_pki c') = Some k' →
  verify_cert_from_cert c (Some pem) = Ok () ↔ k = k' ∧ verify_cert_from_cert c None = Ok ().
Proof.
  unfold public_key_from_cert. intros [= <-] Hk Hk'. unfold verify_cert_from_cert.
  destruct (validity_is_valid c); simpl; [|naive_solver].
  rewrite Hk. simpl. rewrite pem_read_encode. simpl.
  rewrite subject_pki_from_raw. simpl. rewrite Hk'. simpl.
  case_decide as Hkk; simpl; naive_solver.
Qed.
End certificates.

(** ** Concrete runs *)

Definition sample_token : string := "sha256.6b657901.01.ed25519.6b65796b657901".

Lemma sample_token_generated :
  generate_token_nonce "key" [Byte.x01] = Ok sample_token.
Proof. vm_compute. reflexivity. Qed.

Lemma token_roundtrip_witness :
  verify_token_nonce (to_verifying_key "key") sample_token [Byte.x02] = Ok false.
Proof.
  refine (proj1 (token_roundtrip "key" [Byte.x01] [Byte.x02] sample_token "key" _ _)).
  - apply sample_token_generated.
  - vm_compute. reflexivity.
Defined.

Lemma timestamp_window_witness :
  ∃ token, verify_token_timestamp false 5000 (to_verifying_key "key") token = Ok true.
Proof.
  eexists. refine (proj1 (timestamp_window "key" 4000 5000 _ _ _ _)); [unfold u64_modulus; lia..|].
  vm_compute. reflexivity.
Defined.

Definition sample_cert : @X509Certificate plain_x509 := as_bytes "same".

Lemma cert_pinning_witness :
  verify_cert_from_cert sample_cert (Some "same") = Ok ().
Proof.
  refine (proj2 (cert_pinning sample_cert sample_cert "same" sample_cert sample_cert _ _ _) _);
    [vm_compute; reflexivity..|].
  split; [done|]. vm_compute. reflexivity.
Defined.
