(* ===== verification/RtcTypes.v ===== *)
(** * Messages of a transfer

    The messages two peers exchange over the data channel
    ([core/src/webrtc/webrtc.rs], [core/src/model/transfer.rs]), the values
    they report to the application, and the codecs of the messages. *)

From S2P Require Import Prelude Serde.

(** ** Files ([model/transfer.rs]) *)

Record FileMetadata := mk_FileMetadata {
  fm_modified : option string;
  fm_accessed : option string
}.

Record FileDto := mk_FileDto {
  fd_id : string;
  fd_file_name : string;
  fd_size : Z;
  fd_file_type : string;
  fd_sha256 : option string;
  fd_preview : option string;
  fd_metadata : option FileMetadata
}.

#[export] Instance FileMetadata_eq_dec : EqDecision FileMetadata.
Proof. solve_decision. Defined.
#[export] Instance FileDto_eq_dec : EqDecision FileDto.
Proof. solve_decision. Defined.

(** ** Messages *)

Record RTCNonceMessage := mk_RTCNonceMessage { nm_nonce : string }.

Record RTCTokenRequest := mk_RTCTokenRequest { tr_token : string }.

Inductive RTCTokenResponse :=
| TokenOk (token : string)
| TokenPinRequired (token : string)
| TokenInvalidSignature.

Record RTCPinMessage := mk_RTCPinMessage { pm_pin : string }.

Inductive RTCPinReceivingResponse :=
| PinReceivingOk
| PinReceivingPinRequired
| PinReceivingTooManyAttempts.

Inductive RTCPinSendingResponse :=
| PinSendingOk (files : list FileDto)
| PinSendingPinRequired
| PinSendingTooManyAttempts.

Inductive RTCFileListResponse :=
| FileListOk (files : gmap string string)
| FileListPair (public_key : string)
| FileListDeclined
| FileListInvalidSignature.

Inductive RTCPairResponse :=
| PairOk (public_key : string)
| PairDeclined
| PairInvalidSignature.

Record RTCSendFileHeaderRequest := mk_RTCSendFileHeaderRequest {
  fh_id : string;
  fh_token : string
}.

Record RTCSendFileResponse := mk_RTCSendFileResponse {
  fr_id : string;
  fr_success : bool;
  fr_error : option string
}.

(** ** What the application sees *)

Inductive RTCStatus :=
| SdpExchanged
| Connected
| PinRequired
| TooManyAttempts
| Declined
| Sending
| Finished
| StatusError (error : string).

Record RTCFileError := mk_RTCFileError {
  fe_file_id : string;
  fe_error : string
}.

(** [max_tries] is a [u8]. *)
Record PinConfig := mk_PinConfig {
  pc_pin : string;
  pc_max_tries : Z
}.

Definition pin_config_ok (p : PinConfig) : Prop := (0 ≤ pc_max_tries p ≤ u8_max)%Z.

(** The receiving side of an open file; the sending end of its channel is the
    application's. *)
Record RTCFileState := mk_RTCFileState {
  fs_file_id : string;
  fs_size : Z
}.

#[export] Instance RTCStatus_eq_dec : EqDecision RTCStatus.
Proof. solve_decision. Defined.
#[export] Instance RTCFileError_eq_dec : EqDecision RTCFileError.
Proof. solve_decision. Defined.

(** ** The data channel *)

Record DataChannelMessage := mk_DataChannelMessage {
  is_string : bool;
  data : bytes
}.

#[export] Instance DataChannelMessage_eq_dec : EqDecision DataChannelMessage.
Proof. solve_decision. Defined.

Definition text_message (s : string) : DataChannelMessage := mk_DataChannelMessage true (as_bytes s).
Definition binary_message (b : bytes) : DataChannelMessage := mk_DataChannelMessage false b.

(** Empty messages do not reach the other peer: the delimiter is ["0"]. *)
Definition DELIMITER : string := "0".

Definition is_delimiter (msg : DataChannelMessage) : bool :=
  is_string msg && (length (data msg) <=? 1)%nat.

(** [16 * 1024]. *)
Definition CHUNK_SIZE : nat := N.to_nat (16 * 1024).
#[global] Opaque CHUNK_SIZE.

Lemma chunk_size_pos : 0 < CHUNK_SIZE.
Proof. change (N.to_nat 0 < N.to_nat 16384). lia. Qed.

(** ** Codecs *)

Class RtcCodec := {
  nonce_message_json :: SerdeJson RTCNonceMessage;
  token_request_json :: SerdeJson RTCTokenRequest;
  token_response_json :: SerdeJson RTCTokenResponse;
  pin_message_json :: SerdeJson RTCPinMessage;
  pin_receiving_json :: SerdeJson RTCPinReceivingResponse;
  pin_sending_json :: SerdeJson RTCPinSendingResponse;
  file_list_json :: SerdeJson RTCFileListResponse;
  pair_json :: SerdeJson RTCPairResponse;
  file_header_json :: SerdeJson RTCSendFileHeaderRequest;
  file_response_json :: SerdeJson RTCSendFileResponse
}.

Class RtcCodecLaws `{RtcCodec} := {
  nonce_message_laws :: SerdeJsonLaws RTCNonceMessage;
  token_request_laws :: SerdeJsonLaws RTCTokenRequest;
  token_response_laws :: SerdeJsonLaws RTCTokenResponse;
  pin_message_laws :: SerdeJsonLaws RTCPinMessage;
  pin_receiving_laws :: SerdeJsonLaws RTCPinReceivingResponse;
  pin_sending_laws :: SerdeJsonLaws RTCPinSendingResponse;
  file_list_laws :: SerdeJsonLaws RTCFileListResponse;
  pair_laws :: SerdeJsonLaws RTCPairResponse;
  file_header_laws :: SerdeJsonLaws RTCSendFileHeaderRequest;
  file_response_laws :: SerdeJsonLaws RTCSendFileResponse
}.

(** [serde_json::from_slice(..)?]. *)
Definition parse {T} `{SerdeJson T} (b : bytes) : anyres T := ok_or (from_json b) "serde_json".

Lemma parse_to_json {T} `{SerdeJsonLaws T} (x : T) : parse (as_bytes (to_json x)) = Ok x.
Proof. unfold parse. by rewrite from_to_json. Qed.

(** A message that carries a document is never taken for the delimiter. *)
Lemma document_not_delimiter {T} `{SerdeJsonLaws T} (x : T) :
  is_delimiter (text_message (to_json x)) = false.
Proof.
  unfold is_delimiter. simpl. pose proof (to_json_length x).
  apply Nat.leb_gt. unfold text_message. simpl. lia.
Qed.

(** The delimiter is no document. *)
Lemma parse_delimiter {T} `{SerdeJsonLaws T} : parse (T:=T) (as_bytes DELIMITER) = Err "serde_json".
Proof. unfold parse. by rewrite from_json_short by (simpl; lia). Qed.
