(* ===== verification/Interaction.v ===== *)
(** * Tasks as interaction trees

    An asynchronous task is an interaction tree over the events of its
    component; a value it returns is an [anyhow::Result], so that [?] is the
    bind of the monad [task].  [exec] runs a task against a handler of the
    events: the task ends with a result, or waits for ever for an event the
    environment does not answer. *)

From ITree Require Import ITree.
From S2P Require Import Prelude.

(** ** The monad *)

Abbreviation task E A := (itree E (anyres A)).

Section task.
Context {E : Type → Type}.

Definition done {A} (r : anyres A) : task E A := Ret r.
Definition ret {A} (a : A) : task E A := Ret (Ok a).
Definition fail {A} (msg : string) : task E A := Ret (Err msg).

(** [let x = t?; k(x)]. *)
Definition tbind {A B} (t : task E A) (k : A → task E B) : task E B :=
  ITree.bind t (λ r, match r with Ok a => k a | Err e => Ret (Err e) | Panic m => Ret (Panic m) end).

(** [match t { .. }]: the result itself, errors included. *)
Definition attempt {A} (t : task E A) : task E (anyres A) :=
  ITree.bind t (λ r, match r with
                     | Ok a => Ret (Ok (Ok a))
                     | Err e => Ret (Ok (Err e))
                     | Panic m => Ret (Panic m) end).

(** An event whose answer is a plain value, and one whose answer is a result. *)
Definition call {A} (e : E A) : task E A := Vis e (λ a, Ret (Ok a)).
Definition try_call {A} (e : E (anyres A)) : task E A := Vis e (λ r, Ret r).

(** [loop { .. }] over a loop state: [inl] continues, [inr] breaks. *)
Definition loop {I R} (body : I → task E (I + R)) (i : I) : task E R :=
  ITree.iter (λ i, ITree.bind (body i) (λ r,
    match r with
    | Ok (inl i') => Ret (inl i')
    | Ok (inr x) => Ret (inr (Ok x))
    | Err e => Ret (inr (Err e))
    | Panic m => Ret (inr (Panic m))
    end)) i.
End task.

Notation "'do!' x ':=' t 'in' k" := (tbind t (λ x, k))
  (at level 10, x pattern, t at level 200, k at level 200,
   format "'[v' 'do!'  x  ':='  t  'in' '/' k ']'") : ls_scope.
Notation "'act!' t 'in' k" := (tbind t (λ _, k))
  (at level 10, t at level 200, k at level 200,
   format "'[v' 'act!'  t  'in' '/' k ']'") : ls_scope.

(** ** Execution *)

Section exec.
Context {E : Type → Type} {W : Type}.
(** The answer of the environment and the environment after it; [None] when
    there is no answer. *)
Variable handle : ∀ X, E X → W → option (X * W).

Section runs.
Context {R : Type}.

(** [runs t w r w']: run from [w], [t] ends in [w'] with [r], or waits there
    when [r] is [None]. *)
Inductive runs (t : itree E R) (w : W) : option R → W → Prop :=
| runs_Ret r : observe t = RetF r → runs t w (Some r) w
| runs_Tau t' o w' : observe t = TauF t' → runs t' w o w' → runs t w o w'
| runs_Vis X (e : E X) k x w1 o w' :
    observe t = VisF e k → handle _ e w = Some (x, w1) → runs (k x) w1 o w' → runs t w o w'
| runs_wait X (e : E X) k :
    observe t = VisF e k → handle _ e w = None → runs t w None w.
End runs.

(** [n] events at most, for concrete runs; [None] when they are not enough. *)
Fixpoint run {R} (n : nat) (t : itree E R) (w : W) : option (option R * W) :=
  match n with
  | O => None
  | S n' =>
      match observe t with
      | RetF r => Some (Some r, w)
      | TauF t' => run n' t' w
      | VisF e k =>
          match handle _ e w with
          | Some (x, w1) => run n' (k x) w1
          | None => Some (None, w)
          end
      end
  end.

Lemma run_runs {R} n (t : itree E R) w o w' : run n t w = Some (o, w') → runs t w o w'.
Proof.
  revert t w. induction n as [|n IH]; simpl; intros t w Hr; [done|].
  destruct (observe t) as [r|t'|X e k] eqn:Ho.
  - simplify_eq. by apply runs_Ret.
  - eapply runs_Tau; eauto.
  - destruct (handle _ e w) as [[x w1]|] eqn:Hh.
    + eapply runs_Vis; eauto.
    + simplify_eq. by eapply runs_wait.
Qed.

Lemma runs_run {R} (t : itree E R) w o w' :
  runs t w o w' → ∃ n, ∀ m, n ≤ m → run m t w = Some (o, w').
Proof.
  induction 1 as [t w r Ho|t w t' o w' Ho _ [n IH]|t w X e k x w1 o w' Ho Hh _ [n IH]|t w X e k Ho Hh].
  - exists 1. intros [|m] Hm; [lia|]. simpl. by rewrite Ho.
  - exists (S n). intros [|m] Hm; [lia|]. simpl. rewrite Ho. apply IH. lia.
  - exists (S n). intros [|m] Hm; [lia|]. simpl. rewrite Ho, Hh. apply IH. lia.
  - exists 1. intros [|m] Hm; [lia|]. simpl. by rewrite Ho, Hh.
Qed.

(** A task has one behaviour in an environment. *)
Lemma runs_det {R} (t : itree E R) w o1 w1 o2 w2 :
  runs t w o1 w1 → runs t w o2 w2 → o1 = o2 ∧ w1 = w2.
Proof.
  intros [n1 H1]%runs_run [n2 H2]%runs_run.
  specialize (H1 (n1 + n2) ltac:(lia)). specialize (H2 (n1 + n2) ltac:(lia)).
  by simplify_eq.
Qed.

Arguments runs_det {R t w o1 w1 o2 w2} _ _.

Lemma observe_bind {R T} (t : itree E R) (k : R → itree E T) :
  observe (ITree.bind t k) =
  match observe t with
  | RetF r => observe (k r)
  | TauF t' => TauF (ITree.bind t' k)
  | VisF e h => VisF e (λ x, ITree.bind (h x) k)
  end.
Proof. unfold ITree.bind, ITree.subst, observe. cbn. by destruct (_observe t). Qed.

Lemma runs_observe {R} (t t' : itree E R) w o w' :
  observe t = observe t' → runs t w o w' → runs t' w o w'.
Proof.
  intros Ho Hr. inversion Hr; subst; rewrite Ho in *.
  - by apply runs_Ret.
  - by eapply runs_Tau.
  - by eapply runs_Vis.
  - by eapply runs_wait.
Qed.

Lemma runs_bind {R T} (t : itree E R) (k : R → itree E T) w r w1 o w' :
  runs t w (Some r) w1 → runs (k r) w1 o w' → runs (ITree.bind t k) w o w'.
Proof.
  remember (Some r) as o1 eqn:Ho1. intros Ht Hk.
  induction Ht as [t w r' Ho|t w t' o1 w1 Ho _ IH|t w X e h x w2 o1 w1 Ho Hh _ IH|]; simplify_eq.
  - eapply runs_observe; [|done]. by rewrite observe_bind, Ho.
  - eapply runs_Tau; [by rewrite observe_bind, Ho|]. by apply IH.
  - eapply runs_Vis; [by rewrite observe_bind, Ho|done|]. by apply IH.
Qed.

Lemma runs_bind_wait {R T} (t : itree E R) (k : R → itree E T) w w' :
  runs t w None w' → runs (ITree.bind t k) w None w'.
Proof.
  remember None as o1 eqn:Ho1. intros Ht.
  induction Ht as [|t w t' o1 w1 Ho _ IH|t w X e h x w2 o1 w1 Ho Hh _ IH|t w X e h Ho Hh]; simplify_eq.
  - eapply runs_Tau; [by rewrite observe_bind, Ho|]. by apply IH.
  - eapply runs_Vis; [by rewrite observe_bind, Ho|done|]. by apply IH.
  - by eapply runs_wait; [rewrite observe_bind, Ho|].
Qed.

Lemma run_bind_inv {R T} n (t : itree E R) (k : R → itree E T) w o w' :
  run n (ITree.bind t k) w = Some (o, w') →
  (∃ r w1 m, m ≤ n ∧ runs t w (Some r) w1 ∧ run m (k r) w1 = Some (o, w')) ∨
  (o = None ∧ runs t w None w').
Proof.
  revert t w. induction n as [|n IH]; intros t w Hn; [done|].
  cbn [run] in Hn. rewrite observe_bind in Hn.
  destruct (observe t) as [r|t'|X e h] eqn:Ho.
  - left. exists r, w, (S n). split; [done|]. split; [by apply runs_Ret|done].
  - apply IH in Hn as [(r & w1 & m & Hm & Ht & Hk)|[-> Ht]].
    + left. exists r, w1, m. split; [lia|]. split; [by eapply runs_Tau|done].
    + right. split; [done|]. by eapply runs_Tau.
  - destruct (handle _ e w) as [[x w1]|] eqn:Hh.
    + apply IH in Hn as [(r & w2 & m & Hm & Ht & Hk)|[-> Ht]].
      * left. exists r, w2, m. split; [lia|]. split; [by eapply runs_Vis|done].
      * right. split; [done|]. by eapply runs_Vis.
    + simplify_eq. right. split; [done|]. by eapply runs_wait.
Qed.

Lemma runs_bind_inv {R T} (t : itree E R) (k : R → itree E T) w o w' :
  runs (ITree.bind t k) w o w' →
  (∃ r w1, runs t w (Some r) w1 ∧ runs (k r) w1 o w') ∨ (o = None ∧ runs t w None w').
Proof.
  intros [n Hn]%runs_run. specialize (Hn n ltac:(lia)).
  apply run_bind_inv in Hn as [(r & w1 & m & _ & Ht & Hk)|?]; [|by right].
  left. exists r, w1. split; [done|]. by eapply run_runs.
Qed.

Lemma observe_iter {I R} (body : I → itree E (I + R)) i :
  observe (ITree.iter body i) =
  observe (ITree.bind (body i) (λ lr,
    match lr with inl l => Tau (ITree.iter body l) | inr r => Ret r end)).
Proof. reflexivity. Qed.

(** ** Running tasks *)

Lemma runs_ret {A} (a : A) w : runs (ret a) w (Some (Ok a)) w.
Proof. by apply runs_Ret. Qed.

Lemma runs_done {A} (r : anyres A) w : runs (done r) w (Some r) w.
Proof. by apply runs_Ret. Qed.

Lemma runs_fail {A} msg w : runs (fail (A:=A) msg) w (Some (Err msg)) w.
Proof. by apply runs_Ret. Qed.

Lemma runs_tbind {A B} (t : task E A) (k : A → task E B) w a w1 o w' :
  runs t w (Some (Ok a)) w1 → runs (k a) w1 o w' → runs (tbind t k) w o w'.
Proof. intros Ht Hk. by eapply runs_bind. Qed.

Lemma runs_tbind_Err {A B} (t : task E A) (k : A → task E B) w e w' :
  runs t w (Some (Err e)) w' → runs (tbind t k) w (Some (Err e)) w'.
Proof. intros Ht. eapply runs_bind; [done|]. by apply runs_Ret. Qed.

Lemma runs_tbind_Panic {A B} (t : task E A) (k : A → task E B) w e w' :
  runs t w (Some (Panic e)) w' → runs (tbind t k) w (Some (Panic e)) w'.
Proof. intros Ht. eapply runs_bind; [done|]. by apply runs_Ret. Qed.

Lemma runs_tbind_wait {A B} (t : task E A) (k : A → task E B) w w' :
  runs t w None w' → runs (tbind t k) w None w'.
Proof. apply runs_bind_wait. Qed.

Lemma runs_tbind_Ok_inv {A B} (t : task E A) (k : A → task E B) w b w' :
  runs (tbind t k) w (Some (Ok b)) w' →
  ∃ a w1, runs t w (Some (Ok a)) w1 ∧ runs (k a) w1 (Some (Ok b)) w'.
Proof.
  intros [([a|e|m] & w1 & Ht & Hk)|[? _]]%runs_bind_inv; [by eauto|..|done];
    by inversion Hk.
Qed.

Lemma runs_attempt {A} (t : task E A) w r w' :
  runs t w (Some r) w' → runs (attempt t) w (Some (match r with
    | Ok a => Ok (Ok a) | Err e => Ok (Err e) | Panic m => Panic m end)) w'.
Proof. intros Ht. eapply runs_bind; [done|]. destruct r; by apply runs_Ret. Qed.

Lemma runs_attempt_Ok {A} (t : task E A) w a w' :
  runs t w (Some (Ok a)) w' → runs (attempt t) w (Some (Ok (Ok a))) w'.
Proof. intros Ht. exact (runs_attempt t w (Ok a) w' Ht). Qed.

Lemma runs_call {A} (e : E A) w a w' :
  handle _ e w = Some (a, w') → runs (call e) w (Some (Ok a)) w'.
Proof.
  intros Hh. eapply runs_Vis; [reflexivity|done|]. by apply runs_Ret.
Qed.

Lemma runs_call_wait {A} (e : E A) w : handle _ e w = None → runs (call e) w None w.
Proof. intros Hh. by eapply runs_wait; [reflexivity|]. Qed.

Lemma runs_try_call {A} (e : E (anyres A)) w r w' :
  handle _ e w = Some (r, w') → runs (try_call e) w (Some r) w'.
Proof.
  intros Hh. eapply runs_Vis; [reflexivity|done|]. by apply runs_Ret.
Qed.

Lemma runs_loop_next {I R} (body : I → task E (I + R)) i w i' w1 o w' :
  runs (body i) w (Some (Ok (inl i'))) w1 → runs (loop body i') w1 o w' →
  runs (loop body i) w o w'.
Proof.
  intros Hb Hl. unfold loop in *. eapply runs_observe; [symmetry; apply observe_iter|].
  eapply runs_bind; [eapply runs_bind; [done|by apply runs_Ret]|].
  by eapply runs_Tau.
Qed.

Lemma runs_loop_break {I R} (body : I → task E (I + R)) i w x w' :
  runs (body i) w (Some (Ok (inr x))) w' → runs (loop body i) w (Some (Ok x)) w'.
Proof.
  intros Hb. unfold loop. eapply runs_observe; [symmetry; apply observe_iter|].
  eapply runs_bind; [eapply runs_bind; [done|by apply runs_Ret]|].
  by eapply runs_Ret.
Qed.

Lemma runs_loop_Err {I R} (body : I → task E (I + R)) i w e w' :
  runs (body i) w (Some (Err e)) w' → runs (loop body i) w (Some (Err e)) w'.
Proof.
  intros Hb. unfold loop. eapply runs_observe; [symmetry; apply observe_iter|].
  eapply runs_bind; [eapply runs_bind; [done|by apply runs_Ret]|].
  by eapply runs_Ret.
Qed.

Lemma runs_loop_wait {I R} (body : I → task E (I + R)) i w w' :
  runs (body i) w None w' → runs (loop body i) w None w'.
Proof.
  intros Hb. unfold loop. eapply runs_observe; [symmetry; apply observe_iter|].
  by apply runs_bind_wait, runs_bind_wait.
Qed.

(** ** Taking runs apart *)

Lemma runs_Ret_inv {R} (r : R) w o w' : runs (Ret r) w o w' → o = Some r ∧ w' = w.
Proof. intros Hr. destruct (runs_det Hr (runs_Ret (Ret r) w r eq_refl)). by simplify_eq. Qed.

Lemma runs_ret_inv {A} (a : A) w o w' : runs (ret a) w o w' → o = Some (Ok a) ∧ w' = w.
Proof. intros Hr. destruct (runs_det Hr (runs_ret a w)). by simplify_eq. Qed.

Lemma runs_done_inv {A} (r : anyres A) w o w' : runs (done r) w o w' → o = Some r ∧ w' = w.
Proof. intros Hr. destruct (runs_det Hr (runs_done r w)). by simplify_eq. Qed.

Lemma runs_fail_inv {A} msg w o w' :
  runs (fail (A:=A) msg) w o w' → o = Some (Err msg) ∧ w' = w.
Proof. intros Hr. destruct (runs_det Hr (runs_fail msg w)). by simplify_eq. Qed.

Lemma runs_call_inv {A} (e : E A) w o w' :
  runs (call e) w o w' →
  (∃ a, handle _ e w = Some (a, w') ∧ o = Some (Ok a)) ∨
  (handle _ e w = None ∧ o = None ∧ w' = w).
Proof.
  intros Hr. destruct (handle _ e w) as [[a w1]|] eqn:Hh.
  - destruct (runs_det Hr (runs_call _ _ _ _ Hh)). simplify_eq. eauto.
  - destruct (runs_det Hr (runs_call_wait _ _ Hh)). simplify_eq. eauto.
Qed.

Lemma runs_try_call_inv {A} (e : E (anyres A)) w o w' :
  runs (try_call e) w o w' →
  (∃ r, handle _ e w = Some (r, w') ∧ o = Some r) ∨
  (handle _ e w = None ∧ o = None ∧ w' = w).
Proof.
  intros Hr. destruct (handle _ e w) as [[a w1]|] eqn:Hh.
  - destruct (runs_det Hr (runs_try_call _ _ _ _ Hh)). simplify_eq. eauto.
  - assert (runs (try_call e) w None w) as Hw by by eapply runs_wait; [reflexivity|].
    destruct (runs_det Hr Hw). simplify_eq. eauto.
Qed.

Lemma runs_attempt_inv {A} (t : task E A) w o w' :
  runs (attempt t) w o w' →
  ∃ o', runs t w o' w' ∧ o = match o' with
    | Some (Ok a) => Some (Ok (Ok a)) | Some (Err e) => Some (Ok (Err e))
    | Some (Panic m) => Some (Panic m) | None => None end.
Proof.
  intros [(r & w1 & Ht & Hk)|[-> Ht]]%runs_bind_inv; [|by exists None].
  destruct r; apply runs_Ret_inv in Hk as [-> ->]; by eexists (Some _).
Qed.

(** The outcomes of [t; k]: [t] stops without a value, or [k] runs on. *)
Lemma runs_tbind_inv {A B} (t : task E A) (k : A → task E B) w o w' :
  runs (tbind t k) w o w' →
  (∃ a w1, runs t w (Some (Ok a)) w1 ∧ runs (k a) w1 o w') ∨
  (∃ o', runs t w o' w' ∧
    match o' with
    | Some (Ok _) => False | Some (Err e) => o = Some (Err e)
    | Some (Panic m) => o = Some (Panic m) | None => o = None end).
Proof.
  intros [([a|e|m] & w1 & Ht & Hk)|[-> Ht]]%runs_bind_inv; [by eauto|..].
  - right. apply runs_Ret_inv in Hk as [-> ->]. by exists (Some (Err e)).
  - right. apply runs_Ret_inv in Hk as [-> ->]. by exists (Some (Panic m)).
  - right. by exists None.
Qed.

(** An invariant of a loop. *)
Lemma runs_loop_inv {I R} (body : I → task E (I + R)) (P : I → W → Prop)
    (Q : option (anyres R) → W → Prop) :
  (∀ i w o w', P i w → runs (body i) w o w' →
    match o with
    | Some (Ok (inl i')) => P i' w'
    | Some (Ok (inr x)) => Q (Some (Ok x)) w'
    | Some (Err e) => Q (Some (Err e)) w'
    | Some (Panic m) => Q (Some (Panic m)) w'
    | None => Q None w'
    end) →
  ∀ i w o w', P i w → runs (loop body i) w o w' → Q o w'.
Proof.
  intros Hbody i w o w' HP [n Hn]%runs_run. specialize (Hn n ltac:(lia)). revert i w HP Hn.
  induction n as [n IH] using lt_wf_ind. intros i w HP Hn.
  assert (run n (ITree.bind (ITree.bind (body i) _) _) w = Some (o, w')) as Hn' by
    (destruct n; exact Hn).
  clear Hn. apply run_bind_inv in Hn' as [(lr & w1 & m & Hm & Ht & Hk)|[-> Ht]].
  - apply runs_bind_inv in Ht as [(r & w2 & Hb & Hr)|[? _]]; [|done].
    specialize (Hbody i w _ w2 HP Hb).
    destruct r as [[i'|x]|e|msg]; apply runs_Ret_inv in Hr as [? ->]; simplify_eq/=;
      (destruct m as [|m]; [done|]); simpl in Hk; simplify_eq; try done.
    by apply (IH m ltac:(lia) i' w2).
  - apply runs_bind_inv in Ht as [(r & w2 & Hb & Hr)|[_ Hb]].
    + destruct r as [[?|?]|?|?]; by apply runs_Ret_inv in Hr as [? _].
    + by specialize (Hbody i w _ w' HP Hb).
Qed.

(** What every event preserves, every task preserves. *)
Lemma runs_preserves {R} (I : W → Prop) (t : itree E R) w o w' :
  (∀ X (e : E X) w x w', handle _ e w = Some (x, w') → I w → I w') →
  runs t w o w' → I w → I w'.
Proof. intros Hev. induction 1; eauto. Qed.

(** ** Relations between the environments before and after a task *)

Section respects.
Variable (Rel : W → W → Prop).

Definition respects {A} (t : task E A) : Prop := ∀ w o w', runs t w o w' → Rel w w'.

Context `{!PreOrder Rel}.

Lemma respects_done {A} (r : anyres A) : respects (done r).
Proof. by intros w o w' [_ ->]%runs_done_inv. Qed.

Lemma respects_ret {A} (a : A) : respects (ret a).
Proof. apply respects_done. Qed.

Lemma respects_fail {A} msg : respects (fail (A:=A) msg).
Proof. apply respects_done. Qed.

Lemma respects_tbind {A B} (t : task E A) (k : A → task E B) :
  respects t → (∀ a, respects (k a)) → respects (tbind t k).
Proof.
  intros Ht Hk w o w' [(a & w1 & Hr1 & Hr2)|(o' & Hr & _)]%runs_tbind_inv; [|by eapply Ht].
  transitivity w1; [by eapply Ht|by eapply Hk].
Qed.

Lemma respects_attempt {A} (t : task E A) : respects t → respects (attempt t).
Proof. intros Ht w o w' (o' & Hr & _)%runs_attempt_inv. by eapply Ht. Qed.

Lemma respects_loop {I R} (body : I → task E (I + R)) i :
  (∀ i, respects (body i)) → respects (loop body i).
Proof.
  intros Hb w o w' Hr.
  apply (runs_loop_inv body (λ _, Rel w) (λ _, Rel w)) in Hr; [done| |done].
  intros j w1 o1 w2 H1 H2%Hb. assert (Rel w w2) by by transitivity w1.
  by destruct o1 as [[[?|?]|?|?]|].
Qed.

Definition event_respects {X} (e : E X) : Prop :=
  ∀ w x w', handle _ e w = Some (x, w') → Rel w w'.

Lemma respects_call {X} (e : E X) : event_respects e → respects (call e).
Proof. intros He w o w' [(a & Hh & _)|(_ & _ & ->)]%runs_call_inv; [by eapply He|done]. Qed.

Lemma respects_try_call {A} (e : E (anyres A)) : event_respects e → respects (try_call e).
Proof. intros He w o w' [(a & Hh & _)|(_ & _ & ->)]%runs_try_call_inv; [by eapply He|done]. Qed.
End respects.
End exec.

#[global] Arguments runs_det {E W} handle {R t w o1 w1 o2 w2} _ _.

#[export] Instance PreOrder_logs {W A} (get : W → list A) (P : A → Prop) :
  PreOrder (λ w w', ∃ l, get w' = get w ++ l ∧ Forall P l).
Proof.
  split.
  - intros w. exists []. by rewrite app_nil_r.
  - intros w1 w2 w3 (l1 & Hl1 & HP1) (l2 & Hl2 & HP2). exists (l1 ++ l2).
    rewrite Hl2, Hl1, app_assoc. split; [done|]. by apply Forall_app.
Qed.
