(* ===== verification/Rtc.v ===== *)
(** * The two sides of a transfer

    [core/src/webrtc/webrtc.rs]: the helpers, and the two tasks that run the
    protocol over an open data channel, [send_task] (spawned by [send_offer])
    and [receive_task] (spawned by [accept_offer]).  A task is an interaction
    tree: every [await] on a channel of the program and every call of the
    data channel is an event.  Random nonces and identifiers, the answers of
    the user and the failures of the channels are answers of the environment. *)

From ITree Require Import ITree.
From S2P Require Import Prelude Serde Crypto RtcTypes Interaction.

(** ** Events *)

Inductive rtcE : Type → Type :=
(** The data channel: [send_text], [send], [buffered_amount], and the stream
    of received messages. *)
| SendText (s : string) : rtcE (anyres ())
| SendBinary (b : bytes) : rtcE (anyres ())
| BufferedAmount : rtcE Z
| Recv : rtcE (option DataChannelMessage)
(** Time: a sleep, and whether the enclosing [timeout] has elapsed. *)
| Sleep (ms : Z) : rtcE ()
| Elapsed : rtcE bool
(** Randomness. *)
| GenerateNonce : rtcE bytes
| NewUuid : rtcE string
(** [status_tx.send(..).await] and [status_tx.try_send]. *)
| SendStatus (s : RTCStatus) : rtcE (anyres ())
| TrySendStatus (s : RTCStatus) : rtcE ()
(** [pin_tx.send(new_pin_tx).await] then [new_pin_rx.await]: nobody listens,
    the request is dropped, or the PIN of the user.  Likewise for pairing. *)
| AskPin : rtcE (option (option string))
| AskPair : rtcE (option (option bool))
| SendFileError (e : RTCFileError) : rtcE ()
(** Sender: the data channel opens; [selected_files_tx.send]; the files of the
    application ([sending_rx]) and the bytes of the current one. *)
| ChannelOpened : rtcE bool
| PublishSelection (ids : gset string) : rtcE bool
| NextFile : rtcE (option string)
| NextData : rtcE (option bytes)
(** Receiver: [files_tx.send], [selected_files_rx.await], [user_error_rx],
    [receiving_tx.send] with the channel of the file, [binary_tx.send], and
    the end of that channel. *)
| PublishFiles (files : list FileDto) : rtcE bool
| SelectedFiles : rtcE (option (option (gset string)))
| UserResult : rtcE (option RTCSendFileResponse)
| OpenFile (file_id : string) : rtcE ()
| FileData (b : bytes) : rtcE (anyres ())
| CloseFile (file_id : string) : rtcE ().

Abbreviation rtc A := (task rtcE A).

Definition send_text (s : string) : rtc () := try_call (SendText s).
Definition send_binary (b : bytes) : rtc () := try_call (SendBinary b).
Definition recv : rtc (option DataChannelMessage) := call Recv.
Definition send_status (s : RTCStatus) : rtc () := try_call (SendStatus s).

Definition map_err {A} (f : string → string) (t : rtc A) : rtc A :=
  ITree.bind t (λ r, Ret (res_map_err f r)).

(** ** Buffers and chunks *)

Definition wait_buffer_empty : rtc () :=
  loop (λ _,
    do! n := call BufferedAmount in
    if decide (n = 0%Z) then ret (inr ())
    else act! call (Sleep 100) in ret (inl ())) ().

(** [wait_buffer_empty] inside [timeout(5 s, ..)], whose result is ignored. *)
Definition wait_buffer_empty_timeout : rtc () :=
  loop (λ _,
    do! n := call BufferedAmount in
    if decide (n = 0%Z) then ret (inr ())
    else
      act! call (Sleep 100) in
      do! elapsed := call Elapsed in
      if elapsed : bool then ret (inr ()) else ret (inl ())) ().

Definition send_delimiter : rtc () := send_text DELIMITER.

(** [process_in_chunks]: [recv_data] reads the channel [rx]. *)
Definition process_in_chunks {S} (recv_data : S → rtc (option bytes * S)) (rx : S)
    (callback : bytes → rtc ()) : rtc () :=
  loop (λ '(rx, buffer),
    do! (next, rx) := recv_data rx in
    match next with
    | Some data =>
        do! buffer := loop (λ buffer,
          if decide (CHUNK_SIZE ≤ length buffer) then
            act! callback (take CHUNK_SIZE buffer) in
            ret (inl (drop CHUNK_SIZE buffer))
          else ret (inr buffer)) (buffer ++ data) in
        ret (inl (rx, buffer))
    | None =>
        if decide (buffer = []) then ret (inr ())
        else act! callback buffer in ret (inr ())
    end) (rx, []).

(** [send_string_in_chunks]: the channel holds the string and is closed. *)
Definition send_string_in_chunks (string : string) (callback : bytes → rtc ()) : rtc () :=
  process_in_chunks (λ rx, match rx with
                           | x :: rx' => ret (Some x, rx')
                           | [] => ret (None, []) end) [as_bytes string] callback.

Definition receive_string_from_chunks : rtc bytes :=
  loop (λ buffer,
    do! msg := recv in
    match msg with
    | Some msg => if is_string msg then ret (inr buffer) else ret (inl (buffer ++ data msg))
    | None => ret (inr buffer)
    end) [].

(** ** SDP *)

Class Zlib := {
  zlib_compress : bytes → bytes;
  zlib_decompress : bytes → option bytes
}.

Class ZlibLaws `{Zlib} := {
  zlib_decompress_compress b : zlib_decompress (zlib_compress b) = Some b
}.

Section protocol.
Context `{TokenCrypto, Base64, RtcCodec}.

Definition encode_sdp `{Zlib} (s : string) : string := b64_encode (zlib_compress (as_bytes s)).

Definition decode_sdp `{Zlib} (s : string) : anyres string :=
  let? decoded_data := ok_or (b64_decode s) "Base64 decode of SDP failed" in
  let? d := ok_or (zlib_decompress decoded_data) "Failed to decompress SDP" in
  ok_or (string_from_utf8 d) "Failed to decompress SDP".

(** ** Nonces *)

Definition receive_nonce : rtc bytes :=
  do! msg := recv in
  match msg with
  | Some msg =>
      if negb (is_string msg) then fail "Expected string message"
      else
        do! nonce_msg := done (parse (data msg)) in
        do! remote_nonce := done (ok_or (b64_decode (nm_nonce nonce_msg))
                                        "Failed to decode remote nonce") in
        if negb (validate_nonce remote_nonce) then fail "Invalid remote nonce"
        else ret remote_nonce
  | None => fail "Failed to receive nonce"
  end.

(** ** PINs *)

Inductive ChallengePinResult (T : Type) : Type :=
| ChallengeOk (t : T)
| ChallengePinRequired
| ChallengeTooManyAttempts
| ChallengeParseError (e : string).
#[global] Arguments ChallengeOk {T} t.
#[global] Arguments ChallengePinRequired {T}.
#[global] Arguments ChallengeTooManyAttempts {T}.
#[global] Arguments ChallengeParseError {T} e.

(** The PIN of the user is sent and the answer of the other peer read. *)
Definition send_pin_guess (receive_in_chunks : bool) : rtc bytes :=
  act! send_status PinRequired in
  do! answer := call AskPin in
  match answer with
  | None => fail "Failed to send PIN request"
  | Some None => fail "PIN required but not provided"
  | Some (Some pin) =>
      act! send_text (to_json (mk_RTCPinMessage pin)) in
      if receive_in_chunks then receive_string_from_chunks
      else
        do! init_status := recv in
        match init_status with
        | None => fail "Failed to receive initial message"
        | Some init_status =>
            if negb (is_string init_status) then fail "Expected string message"
            else ret (data init_status)
        end
  end.

(** The side that has to answer the challenge. *)
Definition handle_pin {T} (receive_in_chunks : bool)
    (parse_response : bytes → ChallengePinResult T) : rtc T :=
  loop (λ _,
    do! bytes := send_pin_guess receive_in_chunks in
    match parse_response bytes with
    | ChallengeOk result => ret (inr result)
    | ChallengePinRequired => ret (inl ())
    | ChallengeTooManyAttempts =>
        act! send_status TooManyAttempts in fail "Too many requests"
    | ChallengeParseError e => fail e
    end) ().

Inductive VerifyPinResult := VerifyPinRequired | VerifyTooManyAttempts.

(** [pin_try += 1] on a [u8]. *)
Definition u8_succ (n : Z) : anyres Z :=
  if decide (n < u8_max)%Z then Ok (n + 1)%Z else Panic "attempt to add with overflow".

(** One round of [verify_pin] for [remote_pin], the number of tries so far and
    whether the first notice is still to be sent. *)
(** One turn of the loop.  The code puts 5 s around the whole refusal; here they
    bound the wait for the buffer, and [send_result] is not cut short. *)
Definition verify_pin_round (pin_config : PinConfig) (send_result : VerifyPinResult → rtc ())
    (state : string * Z * bool) : rtc (string * Z * bool + ()) :=
  let '(remote_pin, pin_try, send_initial_notice) := state in
  if decide (remote_pin = pc_pin pin_config) then ret (inr ())
  else if decide (pc_max_tries pin_config ≤ pin_try)%Z then
    act! attempt (send_result VerifyTooManyAttempts) in
    act! wait_buffer_empty_timeout in
    act! send_status TooManyAttempts in
    fail "Too many requests"
  else
    act! (if (send_initial_notice : bool) || bool_decide (0 < pin_try)%Z
          then send_result VerifyPinRequired else ret ()) in
    do! msg := recv in
    match msg with
    | Some msg =>
        do! pin_req := done (parse (data msg)) in
        do! pin_try := done (u8_succ pin_try) in
        ret (inl (pm_pin pin_req, pin_try, false))
    | None => fail "Failed to receive pin"
    end.

(** The side that challenges. *)
Definition verify_pin (pin_config : PinConfig) (send_initial_notice : bool)
    (send_result : VerifyPinResult → rtc ()) : rtc () :=
  act! send_status PinRequired in
  loop (verify_pin_round pin_config send_result) ("", 0%Z, send_initial_notice).

(** ** [send_offer]: the spawned task *)

Definition parse_pin_receiving (data : bytes) : ChallengePinResult () :=
  match from_json data with
  | None => ChallengeParseError "Failed to parse pin response"
  | Some PinReceivingOk => ChallengeOk ()
  | Some PinReceivingPinRequired => ChallengePinRequired
  | Some PinReceivingTooManyAttempts => ChallengeTooManyAttempts
  end.

(** The [send_result] of the sending side. *)
Definition sender_send_result (result : VerifyPinResult) : rtc () :=
  act! send_string_in_chunks (to_json (match result with
                                       | VerifyPinRequired => PinSendingPinRequired
                                       | VerifyTooManyAttempts => PinSendingTooManyAttempts
                                       end)) send_binary in
  send_delimiter.

Definition sender_nonce_exchange : rtc bytes :=
  do! local_nonce := call GenerateNonce in
  act! map_err (String.append "Failed to send nonce: ")
         (send_text (to_json (mk_RTCNonceMessage (b64_encode local_nonce)))) in
  do! remote_nonce := receive_nonce in
  ret (local_nonce ++ remote_nonce).

(** The token of the receiver, and whether it asks for a PIN. *)
Definition sender_token_exchange (signing_key : Ed25519Signing)
    (expecting_public_key : option VerifyingTokenKey) (nonce : bytes) : rtc (string * bool) :=
  do! local_token := done (res_map_err (String.append "Failed to generate token: ")
                             (generate_token_nonce signing_key nonce)) in
  act! map_err (String.append "Failed to send token: ")
         (send_text (to_json (mk_RTCTokenRequest local_token))) in
  do! msg := recv in
  do! token_response :=
    match msg with
    | Some msg =>
        if negb (is_string msg) then fail "Expected string message" else done (parse (data msg))
    | None => fail "Failed to receive token response"
    end in
  let verified (token : string) (pin_required : bool) :=
    match expecting_public_key with
    | Some expecting_public_key =>
        do! valid := done (verify_token_nonce expecting_public_key token nonce) in
        if negb valid then fail "Invalid token signature or nonce" else ret (token, pin_required)
    | None => ret (token, pin_required)
    end in
  match token_response with
  | TokenOk token => verified token false
  | TokenPinRequired token => verified token true
  | TokenInvalidSignature => fail "Invalid token signature from receiving peer"
  end.

Definition sender_send_file_list (files : list FileDto) : rtc () :=
  do! result := attempt (send_string_in_chunks (to_json (PinSendingOk files)) send_binary) in
  match result with
  | Err e =>
      act! call (TrySendStatus (StatusError ("Failed to send file list message: " +:+ e))) in
      fail e
  | _ =>
      do! result := attempt send_delimiter in
      match result with
      | Err e =>
          act! call (TrySendStatus (StatusError ("Failed to send file list message: " +:+ e))) in
          fail e
      | _ => ret ()
      end
  end.

Definition receive_file_list : rtc RTCFileListResponse :=
  do! bytes := receive_string_from_chunks in
  done (res_map_err (String.append "Failed to deserialize file list response: ") (parse bytes)).

(** The tokens of the selected files; [None] when the transfer is declined. *)
Definition sender_receive_selection (remote_token : string) (nonce : bytes)
    : rtc (option (gmap string string)) :=
  let declined := act! attempt (send_status Declined) in ret None in
  let invalid_signature :=
    act! attempt (send_status (StatusError "Invalid signature (not expected)")) in
    fail "Invalid signature (not expected)" in
  do! file_list_res := receive_file_list in
  match file_list_res with
  | FileListOk files => ret (Some files)
  | FileListPair public_key =>
      do! signature_identifier :=
        done (ok_or (extract_signature_identifier remote_token)
                    "Failed to extract signature identifier") in
      do! parsed_key := done (parse_public_key public_key signature_identifier) in
      do! valid := done (verify_token_nonce parsed_key remote_token nonce) in
      if negb valid then
        act! wait_buffer_empty in
        act! send_text (to_json PairInvalidSignature) in
        fail "Invalid token signature or nonce"
      else
        do! answer := call AskPair in
        match answer with
        | None => fail "Failed to send pair response"
        | Some None => fail "channel closed"
        | Some (Some pair_user_response) =>
            act! (if (pair_user_response : bool)
                  then send_text (to_json (PairOk public_key))
                  else send_text (to_json PairDeclined)) in
            do! file_list_res := receive_file_list in
            match file_list_res with
            | FileListOk files => ret (Some files)
            | FileListDeclined => declined
            | FileListInvalidSignature => invalid_signature
            | FileListPair _ =>
                act! attempt (send_status (StatusError "Unexpected pair response")) in
                fail "Unexpected pair response"
            end
        end
  | FileListDeclined => declined
  | FileListInvalidSignature => invalid_signature
  end.

(** The loop over the files of the application. *)
Definition sender_send_files (file_map : gmap string string) : rtc () :=
  loop (λ _,
    do! message := call NextFile in
    match message with
    | None => ret (inr ())
    | Some file_id =>
        match file_map !! file_id with
        | None =>
            act! call (SendFileError (mk_RTCFileError file_id "Failed to get file token")) in
            ret (inl ())
        | Some file_token =>
            let header := mk_RTCSendFileHeaderRequest file_id file_token in
            do! sent := attempt (send_text (to_json header)) in
            match sent with
            | Err e =>
                act! call (SendFileError (mk_RTCFileError file_id e)) in ret (inl ())
            | _ =>
                do! result := attempt
                  (process_in_chunks (λ rx, do! x := call NextData in ret (x, rx)) ()
                                     send_binary) in
                match result with
                | Err e =>
                    act! call (SendFileError (mk_RTCFileError file_id e)) in ret (inl ())
                | _ => ret (inl ())
                end
            end
        end
    end) ().

Definition send_task (signing_key : Ed25519Signing)
    (expecting_public_key : option VerifyingTokenKey) (pin : option PinConfig)
    (files : list FileDto) : rtc () :=
  do! opened := call ChannelOpened in
  if negb opened then fail "Data channel not opened"
  else
    act! wait_buffer_empty in
    do! nonce := sender_nonce_exchange in
    do! (remote_token, pin_required) :=
      sender_token_exchange signing_key expecting_public_key nonce in
    act! (if (pin_required : bool) then handle_pin false parse_pin_receiving else ret ()) in
    act! (match pin with
          | Some pin => verify_pin pin true sender_send_result
          | None => ret () end) in
    act! send_status Connected in
    act! sender_send_file_list files in
    do! selection := sender_receive_selection remote_token nonce in
    match selection with
    | None => ret ()
    | Some file_map =>
        do! published := call (PublishSelection (dom file_map)) in
        if negb published then fail "Could not publish selection"
        else
          act! sender_send_files file_map in
          act! wait_buffer_empty in
          act! send_delimiter in
          act! recv in
          ret ()
    end.

(** ** [accept_offer]: the spawned task *)

Definition parse_pin_sending (data : bytes) : ChallengePinResult (list FileDto) :=
  match from_json data with
  | None => ChallengeParseError "Failed to parse pin response"
  | Some (PinSendingOk files) => ChallengeOk files
  | Some PinSendingPinRequired => ChallengePinRequired
  | Some PinSendingTooManyAttempts => ChallengeTooManyAttempts
  end.

(** The [send_result] of the receiving side. *)
Definition receiver_send_result (result : VerifyPinResult) : rtc () :=
  send_text (to_json (match result with
                      | VerifyPinRequired => PinReceivingPinRequired
                      | VerifyTooManyAttempts => PinReceivingTooManyAttempts
                      end)).

Definition receiver_nonce_exchange : rtc bytes :=
  do! remote_nonce := receive_nonce in
  do! local_nonce := call GenerateNonce in
  act! map_err (String.append "Failed to send nonce: ")
         (send_text (to_json (mk_RTCNonceMessage (b64_encode local_nonce)))) in
  ret (remote_nonce ++ local_nonce).

Definition receiver_token_exchange (signing_key : Ed25519Signing)
    (expecting_public_key : option VerifyingTokenKey) (pin : option PinConfig)
    (nonce : bytes) : rtc () :=
  do! msg := recv in
  do! remote_token :=
    match msg with
    | Some msg =>
        if negb (is_string msg) then fail "Expected string message"
        else do! request := done (parse (data msg)) in ret (tr_token request)
    | None => fail "Failed to receive token"
    end in
  act! (match expecting_public_key with
        | Some expecting_public_key =>
            do! valid := done (verify_token_nonce expecting_public_key remote_token nonce) in
            if negb valid then
              act! send_text (to_json TokenInvalidSignature) in
              act! wait_buffer_empty in
              fail "Invalid token signature or nonce"
            else ret ()
        | None => ret ()
        end) in
  do! local_token := done (res_map_err (String.append "Failed to generate token: ")
                             (generate_token_nonce signing_key nonce)) in
  map_err (String.append "Failed to send token: ")
    (send_text (to_json (match pin with
                         | Some _ => TokenPinRequired local_token
                         | None => TokenOk local_token
                         end))).

(** The file list of the sender, after the PIN challenge of the sender. *)
Definition receiver_receive_file_list : rtc (list FileDto) :=
  do! bytes := receive_string_from_chunks in
  do! pin_response :=
    done (res_map_err (String.append "Failed to deserialize file list response: ") (parse bytes)) in
  match pin_response with
  | PinSendingOk files => ret files
  | PinSendingPinRequired => handle_pin true parse_pin_sending
  | PinSendingTooManyAttempts =>
      act! attempt (send_status (StatusError "Unexpected TooManyAttempts response")) in
      fail "Unexpected TooManyAttempts response"
  end.

(** One fresh token per selected file. *)
Fixpoint draw_tokens (selected_files : list string) : rtc (gmap string string) :=
  match selected_files with
  | [] => ret ∅
  | file_id :: selected_files' =>
      do! token := call NewUuid in
      do! tokens := draw_tokens selected_files' in
      ret (<[file_id := token]> tokens)
  end.

(** The error text of a finished file, from the answer of the application. *)
Definition user_error (answer : option RTCSendFileResponse) : option string :=
  match answer with
  | Some result =>
      if fr_success result then None else Some (default "Unknown error" (fr_error result))
  | None => Some "Failed to receive file result"
  end.

(** A string message that arrives while no file is open: the header of the
    next file, whose state is returned when it is accepted. *)
Definition receive_file_header (file_list : list FileDto) (file_tokens : gmap string string)
    (msg : DataChannelMessage) : rtc (option RTCFileState) :=
  do! header := done (parse (data msg)) in
  let rejected (error : string) :=
    act! call (SendFileError (mk_RTCFileError (fh_id header) error)) in ret None in
  match file_tokens !! fh_id header with
  | Some entry =>
      if decide (fh_token header ≠ entry) then rejected "Invalid token"
      else
        match list_find (λ f, fd_id f = fh_id header) file_list with
        | Some (_, file) =>
            act! call (OpenFile (fh_id header)) in
            ret (Some (mk_RTCFileState (fh_id header) (fd_size file)))
        | None => rejected "Expected size to be available"
        end
  | None => rejected "File not found"
  end.

(** The loop that receives the files, from its state. *)
Definition receive_files_from (file_list : list FileDto) (file_tokens : gmap string string)
    : option RTCFileState → rtc () :=
  loop (λ file_state,
    do! msg := recv in
    match msg with
    | None => ret (inr ())
    | Some msg =>
        if is_string msg then
          do! last :=
            match file_state with
            | Some state =>
                act! call (CloseFile (fs_file_id state)) in
                do! answer := call UserResult in
                let error := user_error answer in
                act! send_text (to_json (mk_RTCSendFileResponse (fs_file_id state)
                                           (bool_decide (error = None)) error)) in
                if is_delimiter msg then act! wait_buffer_empty_timeout in ret true
                else ret false
            | None => ret false
            end in
          if (last : bool) then ret (inr ())
          else
            do! file_state := receive_file_header file_list file_tokens msg in
            ret (inl file_state)
        else
          match file_state with
          | Some _ => act! try_call (FileData (data msg)) in ret (inl file_state)
          | None =>
              act! call (SendFileError (mk_RTCFileError "unknown"
                                          "Received binary data without a header")) in
              ret (inl file_state)
          end
    end).

Definition receive_files (file_list : list FileDto) (file_tokens : gmap string string) : rtc () :=
  receive_files_from file_list file_tokens None.

Definition receive_task (signing_key : Ed25519Signing)
    (expecting_public_key : option VerifyingTokenKey) (pin : option PinConfig) : rtc () :=
  do! opened := call ChannelOpened in
  if negb opened then fail "Data channel not found"
  else
    do! nonce := receiver_nonce_exchange in
    act! receiver_token_exchange signing_key expecting_public_key pin nonce in
    act! (match pin with
          | Some pin =>
              act! verify_pin pin false receiver_send_result in
              send_text (to_json PinReceivingOk)
          | None => ret () end) in
    do! file_list := receiver_receive_file_list in
    act! send_status Connected in
    do! published := call (PublishFiles file_list) in
    if negb published then fail "Failed to send file list"
    else
      do! selected_files := call SelectedFiles in
      match selected_files with
      | None => ret ()
      | Some None =>
          act! send_string_in_chunks (to_json FileListDeclined) send_binary in
          send_delimiter
      | Some (Some selected_files) =>
          do! file_tokens := draw_tokens (elements selected_files) in
          act! send_string_in_chunks (to_json (FileListOk file_tokens)) send_binary in
          act! send_delimiter in
          receive_files file_list file_tokens
      end.
End protocol.
