(* ===== verification/RtcEnv.v ===== *)
(** * The environment of a transfer task

    What surrounds a task of [Rtc]: the messages of the other peer, the
    answers of the user and of the application, the failures of the channels,
    and a log of everything the task does.  All of them are arbitrary: an
    environment is one possible surrounding, and a theorem about all
    environments is about every run of the task.  The inbox is all that will
    ever arrive, without regard to what the task has sent before: that covers
    every other peer, so it is right for what a task never does; that two tasks
    come to an end together is said of both of them in [RtcPair]. *)

From S2P Require Import Prelude RtcTypes Interaction Rtc.

(** What a task does, in order. *)
Inductive action :=
| Sent (m : DataChannelMessage)
| Reported (s : RTCStatus)
| ReportedError (e : RTCFileError)
| PinAsked
| PairAsked
| SelectionPublished (ids : gset string)
| FilesPublished (files : list FileDto)
| FileOpened (file_id : string)
| DataDelivered (b : bytes)
| FileClosed (file_id : string).

#[export] Instance action_eq_dec : EqDecision action.
Proof. solve_decision. Defined.

Record env := mk_env {
  (** Messages to come from the other peer; once they are used up the stream
      ends ([Recv] answers [None]) when the channel is closed and blocks
      otherwise. *)
  inbox : list DataChannelMessage;
  closed : bool;
  (** Calls of the data channel that still succeed; [None] is no bound. *)
  sends_left : option nat;
  (** Statuses the application still takes, pieces of files likewise. *)
  statuses_left : option nat;
  deliveries_left : option nat;
  (** Future values of [buffered_amount] (then 0) and of the timeout (then
      not elapsed). *)
  buffered : list Z;
  timers : list bool;
  (** Random values; 32 zero bytes and the empty text when used up. *)
  nonces : list bytes;
  uuids : list string;
  (** Answers of the user; blocks when used up. *)
  pins : list (option (option string));
  pairs : list (option (option bool));
  selected : option (option (option (gset string)));
  (** The files of the application and the rest of the current one. *)
  files : list (string * list bytes);
  current : list bytes;
  user_results : list RTCSendFileResponse;
  (** The receivers of the one-shot channels are still there. *)
  opened : bool;
  listening : bool;
  log : list action
}.

Definition set_inbox x w := mk_env x (closed w) (sends_left w) (statuses_left w)
  (deliveries_left w) (buffered w) (timers w) (nonces w) (uuids w) (pins w) (pairs w)
  (selected w) (files w) (current w) (user_results w) (opened w) (listening w) (log w).
Definition set_sends_left x w := mk_env (inbox w) (closed w) x (statuses_left w)
  (deliveries_left w) (buffered w) (timers w) (nonces w) (uuids w) (pins w) (pairs w)
  (selected w) (files w) (current w) (user_results w) (opened w) (listening w) (log w).
Definition set_statuses_left x w := mk_env (inbox w) (closed w) (sends_left w) x
  (deliveries_left w) (buffered w) (timers w) (nonces w) (uuids w) (pins w) (pairs w)
  (selected w) (files w) (current w) (user_results w) (opened w) (listening w) (log w).
Definition set_deliveries_left x w := mk_env (inbox w) (closed w) (sends_left w)
  (statuses_left w) x (buffered w) (timers w) (nonces w) (uuids w) (pins w) (pairs w)
  (selected w) (files w) (current w) (user_results w) (opened w) (listening w) (log w).
Definition set_buffered x w := mk_env (inbox w) (closed w) (sends_left w) (statuses_left w)
  (deliveries_left w) x (timers w) (nonces w) (uuids w) (pins w) (pairs w)
  (selected w) (files w) (current w) (user_results w) (opened w) (listening w) (log w).
Definition set_timers x w := mk_env (inbox w) (closed w) (sends_left w) (statuses_left w)
  (deliveries_left w) (buffered w) x (nonces w) (uuids w) (pins w) (pairs w)
  (selected w) (files w) (current w) (user_results w) (opened w) (listening w) (log w).
Definition set_nonces x w := mk_env (inbox w) (closed w) (sends_left w) (statuses_left w)
  (deliveries_left w) (buffered w) (timers w) x (uuids w) (pins w) (pairs w)
  (selected w) (files w) (current w) (user_results w) (opened w) (listening w) (log w).
Definition set_uuids x w := mk_env (inbox w) (closed w) (sends_left w) (statuses_left w)
  (deliveries_left w) (buffered w) (timers w) (nonces w) x (pins w) (pairs w)
  (selected w) (files w) (current w) (user_results w) (opened w) (listening w) (log w).
Definition set_pins x w := mk_env (inbox w) (closed w) (sends_left w) (statuses_left w)
  (deliveries_left w) (buffered w) (timers w) (nonces w) (uuids w) x (pairs w)
  (selected w) (files w) (current w) (user_results w) (opened w) (listening w) (log w).
Definition set_pairs x w := mk_env (inbox w) (closed w) (sends_left w) (statuses_left w)
  (deliveries_left w) (buffered w) (timers w) (nonces w) (uuids w) (pins w) x
  (selected w) (files w) (current w) (user_results w) (opened w) (listening w) (log w).
Definition set_files x y w := mk_env (inbox w) (closed w) (sends_left w) (statuses_left w)
  (deliveries_left w) (buffered w) (timers w) (nonces w) (uuids w) (pins w) (pairs w)
  (selected w) x y (user_results w) (opened w) (listening w) (log w).
Definition set_user_results x w := mk_env (inbox w) (closed w) (sends_left w) (statuses_left w)
  (deliveries_left w) (buffered w) (timers w) (nonces w) (uuids w) (pins w) (pairs w)
  (selected w) (files w) (current w) x (opened w) (listening w) (log w).
Definition set_log x w := mk_env (inbox w) (closed w) (sends_left w) (statuses_left w)
  (deliveries_left w) (buffered w) (timers w) (nonces w) (uuids w) (pins w) (pairs w)
  (selected w) (files w) (current w) (user_results w) (opened w) (listening w) x.

Definition note (a : action) (w : env) : env := set_log (log w ++ [a]) w.

(** One use of a channel that works [left] more times. *)
Definition use (left : option nat) : option (option nat) :=
  match left with None => Some None | Some (S n) => Some (Some n) | Some O => None end.

Definition answer_send (m : DataChannelMessage) (w : env) : anyres () * env :=
  match use (sends_left w) with
  | Some n => (Ok (), note (Sent m) (set_sends_left n w))
  | None => (Err "data channel closed", w)
  end.

(** The answer to an event, [None] when there is none yet. *)
Definition handle X (e : rtcE X) : env → option (X * env) :=
  match e in rtcE X return env → option (X * env) with
  | SendText s => λ w, Some (answer_send (text_message s) w)
  | SendBinary b => λ w, Some (answer_send (binary_message b) w)
  | BufferedAmount => λ w,
      match buffered w with
      | n :: ns => Some (n, set_buffered ns w)
      | [] => Some (0%Z, w)
      end
  | Recv => λ w,
      match inbox w with
      | m :: ms => Some (Some m, set_inbox ms w)
      | [] => if closed w then Some (None, w) else None
      end
  | Sleep _ => λ w, Some ((), w)
  | Elapsed => λ w,
      match timers w with
      | t :: ts => Some (t, set_timers ts w)
      | [] => Some (false, w)
      end
  | GenerateNonce => λ w,
      match nonces w with
      | n :: ns => Some (n, set_nonces ns w)
      | [] => Some (replicate 32 Byte.x00, w)
      end
  | NewUuid => λ w,
      match uuids w with
      | u :: us => Some (u, set_uuids us w)
      | [] => Some ("", w)
      end
  | SendStatus s => λ w,
      match use (statuses_left w) with
      | Some n => Some (Ok (), note (Reported s) (set_statuses_left n w))
      | None => Some (Err "channel closed", w)
      end
  | TrySendStatus s => λ w, Some ((), note (Reported s) w)
  | AskPin => λ w,
      match pins w with
      | p :: ps => Some (p, note PinAsked (set_pins ps w))
      | [] => None
      end
  | AskPair => λ w,
      match pairs w with
      | p :: ps => Some (p, note PairAsked (set_pairs ps w))
      | [] => None
      end
  | SendFileError e => λ w, Some ((), note (ReportedError e) w)
  | ChannelOpened => λ w, Some (opened w, w)
  | PublishSelection ids => λ w,
      if listening w then Some (true, note (SelectionPublished ids) w) else Some (false, w)
  | NextFile => λ w,
      match files w with
      | (id, b) :: fs => Some (Some id, set_files fs b w)
      | [] => Some (None, w)
      end
  | NextData => λ w,
      match current w with
      | b :: bs => Some (Some b, set_files (files w) bs w)
      | [] => Some (None, w)
      end
  | PublishFiles fs => λ w,
      if listening w then Some (true, note (FilesPublished fs) w) else Some (false, w)
  | SelectedFiles => λ w,
      match selected w with Some x => Some (x, w) | None => None end
  | UserResult => λ w,
      match user_results w with
      | r :: rs => Some (Some r, set_user_results rs w)
      | [] => Some (None, w)
      end
  | OpenFile id => λ w, Some ((), note (FileOpened id) w)
  | FileData b => λ w,
      match use (deliveries_left w) with
      | Some n => Some (Ok (), note (DataDelivered b) (set_deliveries_left n w))
      | None => Some (Err "channel closed", w)
      end
  | CloseFile id => λ w, Some ((), note (FileClosed id) w)
  end.

Abbreviation exec := (runs handle).

(** The messages a task has put on the data channel, and the statuses it has
    reported. *)
Definition sent (l : list action) : list DataChannelMessage :=
  omap (λ a, match a with Sent m => Some m | _ => None end) l.
Definition reported (l : list action) : list RTCStatus :=
  omap (λ a, match a with Reported s => Some s | _ => None end) l.

Lemma sent_app l1 l2 : sent (l1 ++ l2) = sent l1 ++ sent l2.
Proof. apply omap_app. Qed.
Lemma reported_app l1 l2 : reported (l1 ++ l2) = reported l1 ++ reported l2.
Proof. apply omap_app. Qed.
