(* ===== verification/RtcRoutines.v ===== *)
(** * Runs of the routines of a transfer

    One lemma per event that says what it does in a healthy environment, the
    lemmas on chunks, and the round trip of a text sent in chunks. *)

From S2P Require Import Prelude Serde Crypto RtcTypes Interaction Rtc RtcEnv.

(** ** Environments *)

(** No channel of the program fails and the buffer of the data channel is
    empty. *)
Record healthy (w : env) : Prop := {
  healthy_sends : sends_left w = None;
  healthy_statuses : statuses_left w = None;
  healthy_deliveries : deliveries_left w = None;
  healthy_buffer : buffered w = []
}.

(** The environment [w] once the messages up to [ms] are read and the actions
    [l] are done. *)
Definition adv (ms : list DataChannelMessage) (l : list action) (w : env) : env :=
  set_inbox ms (set_log (log w ++ l) w).

Lemma adv_adv ms1 l1 ms2 l2 w : adv ms2 l2 (adv ms1 l1 w) = adv ms2 (l1 ++ l2) w.
Proof. unfold adv, set_inbox, set_log. simpl. by rewrite app_assoc. Qed.

Lemma adv_nil w : adv (inbox w) [] w = w.
Proof. unfold adv, set_inbox, set_log. simpl. rewrite app_nil_r. by destruct w. Qed.

Lemma adv_set_files ms l fs ps w : adv ms l (set_files fs ps w) = set_files fs ps (adv ms l w).
Proof. done. Qed.

Lemma adv_set_user_results ms l rs w :
  adv ms l (set_user_results rs w) = set_user_results rs (adv ms l w).
Proof. done. Qed.

Lemma set_files_twice fs ps gs qs w : set_files fs ps (set_files gs qs w) = set_files fs ps w.
Proof. done. Qed.

Lemma adv_healthy ms l w : healthy w → healthy (adv ms l w).
Proof. by intros [? ? ? ?]; constructor. Qed.

Lemma set_files_healthy fs ps w : healthy w → healthy (set_files fs ps w).
Proof. by intros [? ? ? ?]; constructor. Qed.

Lemma set_user_results_healthy rs w : healthy w → healthy (set_user_results rs w).
Proof. by intros [? ? ? ?]; constructor. Qed.

Lemma adv_inbox ms l w : inbox (adv ms l w) = ms.
Proof. done. Qed.

Create HintDb rtc.
#[export] Hint Resolve adv_healthy : rtc.
#[export] Hint Rewrite adv_adv : rtc.

(** ** One lemma per event *)

Section events.
Variable w : env.
Hypothesis Hw : healthy w.

Lemma exec_send_text s : exec (send_text s) w (Some (Ok ())) (adv (inbox w) [Sent (text_message s)] w).
Proof.
  destruct Hw as [Hs _ _ _]. apply runs_try_call. simpl. unfold answer_send.
  rewrite Hs. simpl. rewrite <- Hs. by destruct w.
Qed.

Lemma exec_send_binary b :
  exec (send_binary b) w (Some (Ok ())) (adv (inbox w) [Sent (binary_message b)] w).
Proof.
  destruct Hw as [Hs _ _ _]. apply runs_try_call. simpl. unfold answer_send.
  rewrite Hs. simpl. rewrite <- Hs. by destruct w.
Qed.

Lemma exec_send_status s :
  exec (send_status s) w (Some (Ok ())) (adv (inbox w) [Reported s] w).
Proof.
  destruct Hw as [_ Hs _ _]. apply runs_try_call. simpl.
  rewrite Hs. simpl. rewrite <- Hs. by destruct w.
Qed.

Lemma exec_file_data b :
  exec (try_call (FileData b)) w (Some (Ok ())) (adv (inbox w) [DataDelivered b] w).
Proof.
  destruct Hw as [_ _ Hs _]. apply runs_try_call. simpl.
  rewrite Hs. simpl. rewrite <- Hs. by destruct w.
Qed.

Lemma exec_wait_buffer_empty : exec wait_buffer_empty w (Some (Ok ())) w.
Proof.
  destruct Hw as [_ _ _ Hb]. apply runs_loop_break.
  eapply runs_tbind; [apply runs_call; simpl; by rewrite Hb|]. simpl. apply runs_ret.
Qed.

Lemma exec_wait_buffer_empty_timeout : exec wait_buffer_empty_timeout w (Some (Ok ())) w.
Proof.
  destruct Hw as [_ _ _ Hb]. apply runs_loop_break.
  eapply runs_tbind; [apply runs_call; simpl; by rewrite Hb|]. simpl. apply runs_ret.
Qed.

End events.

Lemma exec_recv w m ms : inbox w = m :: ms → exec recv w (Some (Ok (Some m))) (adv ms [] w).
Proof.
  intros Hm. apply runs_call. simpl. rewrite Hm. unfold adv, set_inbox, set_log.
  simpl. by rewrite app_nil_r.
Qed.

Lemma exec_note w {A} (e : rtcE A) x a :
  handle A e w = Some (x, note a w) → exec (call e) w (Some (Ok x)) (adv (inbox w) [a] w).
Proof. intros He. apply runs_call. rewrite He. by destruct w. Qed.

#[export] Hint Resolve exec_send_text exec_send_binary exec_send_status exec_file_data
  exec_wait_buffer_empty exec_wait_buffer_empty_timeout : rtc.

(** ** Chunks *)

(** The pieces of [CHUNK_SIZE] bytes of a text, the last one shorter. *)
Definition chunks (b : bytes) : list bytes :=
  (fix go (n : nat) (b : bytes) : list bytes :=
     match n with
     | O => []
     | S n' =>
         if decide (b = []) then []
         else take CHUNK_SIZE b :: go n' (drop CHUNK_SIZE b)
     end) (length b) b.

(** Chunking by measure: the equation that does not mention the counter. *)
Lemma chunks_eq b :
  chunks b = if decide (b = []) then [] else take CHUNK_SIZE b :: chunks (drop CHUNK_SIZE b).
Proof.
  pose proof chunk_size_pos as Hpos. unfold chunks.
  set (go := fix go (n : nat) (b : bytes) : list bytes := _).
  assert (∀ n m b, length b ≤ n → length b ≤ m → go n b = go m b) as Hgo.
  { intros n. induction n as [|n IH]; intros [|m] c Hn Hm; simpl; [done|..].
    - destruct c; [by rewrite decide_True|simpl in *; lia].
    - destruct c; [by rewrite decide_True|simpl in *; lia].
    - case_decide as Hc; [done|]. f_equal. apply IH; rewrite length_drop;
        (destruct c; [done|simpl in *; lia]). }
  case_decide as Hb; [by subst|].
  assert (∃ n, length b = S n) as [n Hn] by (destruct b; [done|by eexists]).
  rewrite Hn. simpl. rewrite decide_False by done. f_equal.
  apply Hgo; rewrite ?length_drop; lia.
Qed.

Lemma chunks_nil : chunks [] = [].
Proof. done. Qed.

(** A text is its chunks, none of them empty or too long. *)
Lemma chunks_concat b : concat (chunks b) = b.
Proof.
  induction b as [b IH] using (induction_ltof1 _ length). unfold ltof in IH.
  rewrite chunks_eq. pose proof chunk_size_pos. case_decide as Hb; [by subst|].
  simpl. rewrite IH, take_drop; [done|].
  rewrite length_drop. destruct b; [done|simpl; lia].
Qed.

Lemma chunks_size b : Forall (λ c, 0 < length c ≤ CHUNK_SIZE) (chunks b).
Proof.
  induction b as [b IH] using (induction_ltof1 _ length). unfold ltof in IH.
  rewrite chunks_eq. pose proof chunk_size_pos. case_decide as Hb; [constructor|].
  constructor.
  - rewrite length_take. destruct b; [done|simpl; lia].
  - apply IH. rewrite length_drop. destruct b; [done|simpl; lia].
Qed.

Lemma chunks_big b :
  CHUNK_SIZE ≤ length b → chunks b = take CHUNK_SIZE b :: chunks (drop CHUNK_SIZE b).
Proof.
  intros Hb. rewrite chunks_eq. pose proof chunk_size_pos. rewrite decide_False; [done|].
  intros ->. simpl in *. lia.
Qed.

Lemma chunks_small b : b ≠ [] → length b < CHUNK_SIZE → chunks b = [b].
Proof.
  intros Hb Hl. rewrite chunks_eq, decide_False by done.
  rewrite take_ge by lia. by rewrite drop_ge by lia.
Qed.

Definition send_chunks (b : bytes) : list action := Sent ∘ binary_message <$> chunks b.

(** Sending out the full chunks of a buffer: what is left joins the data that
    follow. *)
Lemma exec_drain b w :
  healthy w →
  ∃ cs rest,
    length rest < CHUNK_SIZE ∧ (∀ more, chunks (b ++ more) = cs ++ chunks (rest ++ more)) ∧
    exec (loop (λ buffer,
      if decide (CHUNK_SIZE ≤ length buffer) then
        act! send_binary (take CHUNK_SIZE buffer) in ret (inl (drop CHUNK_SIZE buffer))
      else ret (inr buffer)) b) w (Some (Ok rest)) (adv (inbox w) (Sent ∘ binary_message <$> cs) w).
Proof.
  revert w. induction b as [b IH] using (induction_ltof1 _ length). unfold ltof in IH.
  intros w Hw. pose proof chunk_size_pos. destruct (decide (CHUNK_SIZE ≤ length b)) as [Hb|Hb].
  - destruct (IH (drop CHUNK_SIZE b) ltac:(rewrite length_drop; lia)
      (adv (inbox w) [Sent (binary_message (take CHUNK_SIZE b))] w)) as (cs & rest & Hrest & Hcs & Hex);
      [auto with rtc|].
    exists (take CHUNK_SIZE b :: cs), rest. split; [done|]. split.
    + intros more. rewrite chunks_big by (rewrite length_app; lia).
      rewrite take_app_le, drop_app_le, Hcs by lia. done.
    + eapply runs_loop_next; [|rewrite adv_adv in Hex; exact Hex]. rewrite decide_True by done.
      eapply runs_tbind; [by apply exec_send_binary|]. apply runs_ret.
  - exists [], b. split; [lia|]. split; [done|]. simpl. rewrite adv_nil.
    apply runs_loop_break. rewrite decide_False by done. apply runs_ret.
Qed.

(** ** The loop over a channel

    [src_of ps] is the channel that holds the pieces [ps] and is closed after
    them; [put ps w] the environment when the pieces live there. *)

Section process.
Context {S : Type} (recv_data : S → rtc (option bytes * S)).
Variables (src_of : list bytes → S) (put : list bytes → env → env).

Hypothesis read_cons : ∀ p ps w,
  exec (recv_data (src_of (p :: ps))) (put (p :: ps) w) (Some (Ok (Some p, src_of ps))) (put ps w).
Hypothesis read_nil : ∀ w,
  exec (recv_data (src_of [])) (put [] w) (Some (Ok (None, src_of []))) (put [] w).
Hypothesis put_adv : ∀ ps l w, adv (inbox (put ps w)) l (put ps w) = put ps (adv (inbox w) l w).
Hypothesis put_healthy : ∀ ps w, healthy w → healthy (put ps w).

Lemma exec_process_in_chunks ps w :
  healthy w →
  exec (process_in_chunks recv_data (src_of ps) send_binary) (put ps w) (Some (Ok ()))
    (put [] (adv (inbox w) (send_chunks (concat ps)) w)).
Proof using read_cons read_nil put_adv put_healthy.
  intros Hw. unfold process_in_chunks. match goal with |- runs _ (loop ?b _) _ _ _ => set (body := b) end.
  enough (∀ buffer, length buffer < CHUNK_SIZE → ∀ w, healthy w →
    exec (loop body (src_of ps, buffer)) (put ps w) (Some (Ok ()))
      (put [] (adv (inbox w) (send_chunks (buffer ++ concat ps)) w))) as Hloop
    by (apply (Hloop []); [apply chunk_size_pos|done]).
  clear w Hw.
  induction ps as [|p ps IH]; intros buffer Hbuf v Hv.
  - apply runs_loop_break. eapply runs_tbind; [apply read_nil|]. simpl. rewrite app_nil_r.
    unfold send_chunks. case_decide as Hb.
    + subst. simpl. rewrite adv_nil. apply runs_ret.
    + rewrite chunks_small by done.
      eapply runs_tbind; [apply exec_send_binary; auto|].
      rewrite put_adv. apply runs_ret.
  - destruct (exec_drain (buffer ++ p) (put ps v)) as (cs & rest & Hrest & Hcs & Hex); [auto|].
    rewrite put_adv in Hex. eapply runs_loop_next.
    + eapply runs_tbind; [apply read_cons|]. simpl.
      eapply runs_tbind; [exact Hex|]. apply runs_ret.
    + specialize (IH rest Hrest (adv (inbox v) (Sent ∘ binary_message <$> cs) v)
                     (adv_healthy _ _ _ Hv)).
      rewrite adv_inbox, adv_adv in IH.
      replace (send_chunks (buffer ++ concat (p :: ps)))
        with ((Sent ∘ binary_message <$> cs) ++ send_chunks (rest ++ concat ps)); [exact IH|].
      unfold send_chunks. simpl. by rewrite (app_assoc buffer), Hcs, fmap_app.
Qed.
End process.

Lemma exec_send_string_in_chunks s w :
  healthy w →
  exec (send_string_in_chunks s send_binary) w (Some (Ok ()))
    (adv (inbox w) (send_chunks (as_bytes s)) w).
Proof.
  intros Hw.
  pose proof (exec_process_in_chunks (λ rx, match rx with
      | x :: rx' => ret (Some x, rx') | [] => ret (None, []) end) id (λ _ w, w)
    (λ p ps w, runs_ret _ (Some p, ps) w) (λ w, runs_ret _ (None, []) w)
    (λ _ _ _, eq_refl) (λ _ _ H, H) [as_bytes s] w Hw) as Hex.
  simpl in Hex. rewrite app_nil_r in Hex. exact Hex.
Qed.

Definition put_current (ps : list bytes) (w : env) : env := set_files (files w) ps w.

Lemma exec_send_file_data ps w :
  healthy w → current w = ps →
  exec (process_in_chunks (λ rx, do! x := call NextData in ret (x, rx)) () send_binary) w
    (Some (Ok ())) (put_current [] (adv (inbox w) (send_chunks (concat ps)) w)).
Proof.
  intros Hw Hps.
  assert (w = put_current ps w) as Heq by (unfold put_current; destruct w; simpl in *; by subst).
  rewrite Heq at 1.
  apply (exec_process_in_chunks (λ rx, do! x := call NextData in ret (x, rx)) (λ _, ()) put_current); [..|done].
  - intros p qs v. eapply runs_tbind; [by apply runs_call|]. apply runs_ret.
  - intros v. eapply runs_tbind; [by apply runs_call|]. apply runs_ret.
  - done.
  - intros qs v []. by constructor.
Qed.

(** ** Receiving a text sent in chunks *)

Lemma exec_receive_string cs m rest w :
  is_string m = true → inbox w = (binary_message <$> cs) ++ m :: rest →
  exec receive_string_from_chunks w (Some (Ok (concat cs))) (adv rest [] w).
Proof.
  intros Hm. unfold receive_string_from_chunks.
  change (concat cs) with ([] ++ concat cs). generalize (@nil Byte.byte) as buffer.
  revert w. induction cs as [|c cs IH]; intros w buffer Hin.
  - simpl in *. rewrite app_nil_r. apply runs_loop_break.
    eapply runs_tbind; [by apply exec_recv|]. simpl. rewrite Hm. apply runs_ret.
  - simpl in Hin. eapply runs_loop_next.
    + eapply runs_tbind; [by apply exec_recv|]. simpl. apply runs_ret.
    + specialize (IH (adv ((binary_message <$> cs) ++ m :: rest) [] w) (buffer ++ c) eq_refl).
      rewrite adv_adv in IH. simpl. by rewrite app_assoc.
Qed.
