(* ===== verification/RtcSafety.v ===== *)
(** * What a transfer task can do in any environment

    Theorems about every run of the tasks of [Rtc], whatever the other peer,
    the user and the channels do: what has to happen before a transfer is
    connected, how many PINs can be tried, and which files can be written. *)

From S2P Require Import Prelude Serde Crypto CryptoProps RtcTypes Interaction Rtc RtcEnv.

(** ** Actions of a task

    [emits P t]: whatever [t] does satisfies [P]; [quiet t]: [t] receives
    nothing. *)

Definition adds (P : action → Prop) (w w' : env) : Prop :=
  ∃ l, log w' = log w ++ l ∧ Forall P l.

Definition keeps_inbox (w w' : env) : Prop := inbox w' = inbox w.

#[export] Instance adds_preorder P : PreOrder (adds P).
Proof. apply (PreOrder_logs log). Qed.

#[export] Instance keeps_inbox_preorder : PreOrder keeps_inbox.
Proof. unfold keeps_inbox. split; [done|]. intros w1 w2 w3 H1 H2. congruence. Qed.

Abbreviation emits P t := (respects handle (adds P) t).
Abbreviation quiet t := (respects handle keeps_inbox t).

Lemma respects_map_err {A} Rel f (t : rtc A) :
  respects handle Rel t → respects handle Rel (map_err f t).
Proof.
  intros Ht w o w' [(r & w1 & Hr1 & Hr2)|[_ Hr]]%runs_bind_inv; [|by eapply Ht].
  apply runs_Ret_inv in Hr2 as [_ ->]. by eapply Ht.
Qed.

Section emits.
Variable P : action → Prop.

(** The actions an event is logged as. *)
Definition event_ok {X} (e : rtcE X) : Prop :=
  match e with
  | SendText s => P (Sent (text_message s))
  | SendBinary b => P (Sent (binary_message b))
  | SendStatus s | TrySendStatus s => P (Reported s)
  | AskPin => P PinAsked
  | AskPair => P PairAsked
  | SendFileError e => P (ReportedError e)
  | PublishSelection ids => P (SelectionPublished ids)
  | PublishFiles fs => P (FilesPublished fs)
  | OpenFile id => P (FileOpened id)
  | FileData b => P (DataDelivered b)
  | CloseFile id => P (FileClosed id)
  | _ => True
  end.

Lemma handle_logs {X} (e : rtcE X) w x w' :
  event_ok e → handle X e w = Some (x, w') → ∃ l, log w' = log w ++ l ∧ Forall P l.
Proof.
  assert (∃ l, log w = log w ++ l ∧ Forall P l) as Hnone by (exists []; by rewrite app_nil_r).
  intros He Hh. destruct e; simpl in *; unfold answer_send in *; simplify_eq/=;
    repeat (case_match; simplify_eq/=);
    first [exact Hnone|eexists; split; [reflexivity|by apply Forall_singleton]].
Qed.

Lemma event_emits {X} (e : rtcE X) :
  event_ok e → event_respects handle (adds P) e.
Proof. intros He w x w' Hh. by eapply handle_logs. Qed.
End emits.

(** An action that the first part of a task never does comes after it. *)
Lemma emits_gate {A B} (P : action → Prop) (t : rtc A) (k : A → rtc B) w o w' a :
  emits P t → ¬ P a → exec (tbind t k) w o w' → a ∉ log w → a ∈ log w' →
  ∃ x w1, exec t w (Some (Ok x)) w1 ∧ exec (k x) w1 o w' ∧ a ∉ log w1.
Proof.
  intros Ht Ha Hr Hw Hw'.
  assert (∀ o1 w1, exec t w o1 w1 → a ∉ log w1) as Hpre.
  { intros o1 w1 (l & -> & HP)%Ht. rewrite elem_of_app. intros [?|Hl]; [done|].
    rewrite Forall_forall in HP. by apply Ha, HP. }
  apply runs_tbind_inv in Hr as [(x & w1 & Hr1 & Hr2)|(o' & Hr1 & _)].
  - exists x, w1. split; [done|]. split; [done|]. by eapply Hpre.
  - by apply Hpre in Hr1.
Qed.

(** Every event but [Recv] leaves the inbox alone. *)
Definition is_recv {X} (e : rtcE X) : bool := match e with Recv => true | _ => false end.

Lemma event_quiet {X} (e : rtcE X) :
  is_recv e = false → event_respects handle keeps_inbox e.
Proof.
  intros He w x w' Hh. unfold keeps_inbox. destruct e; simpl in *; unfold answer_send in *; simplify_eq/=;
    repeat (case_match; simplify_eq/=); done.
Qed.

Create HintDb routines.
#[export] Hint Unfold send_text send_binary recv send_status send_delimiter wait_buffer_empty
  wait_buffer_empty_timeout process_in_chunks send_string_in_chunks receive_string_from_chunks
  receive_nonce send_pin_guess handle_pin sender_nonce_exchange receiver_nonce_exchange sender_token_exchange
  receiver_token_exchange sender_send_result receiver_send_result receive_file_list
  receiver_receive_file_list sender_send_file_list : routines.

(** [run_through]: a goal [respects handle Rel t] is reduced to the events of [t]. *)
Ltac run_through :=
  repeat match goal with
  | |- respects _ _ (ret _) => apply respects_ret; apply _
  | |- respects _ _ (done _) => apply respects_done; apply _
  | |- respects _ _ (fail _) => apply respects_fail; apply _
  | |- respects _ _ (tbind _ _) => apply respects_tbind; [apply _| |intros ?]
  | |- respects _ _ (attempt _) => apply respects_attempt
  | |- respects _ _ (map_err _ _) => apply respects_map_err
  | |- respects _ _ (loop _ _) => apply respects_loop; [apply _|intros ?]
  | |- respects _ _ (call _) => apply respects_call; [apply _|]
  | |- respects _ _ (try_call _) => apply respects_try_call; [apply _|]
  | |- respects _ _ (match ?x with _ => _ end) => let E := fresh "E" in destruct x eqn:E
  | |- respects _ _ (let _ := _ in _) => cbv zeta
  | |- respects _ _ _ => progress autounfold with routines
  end.

Ltac solve_emits :=
  run_through; first [by apply event_emits|by apply event_quiet].

(** ** Tasks that do not panic *)

Definition no_panic {A} (t : rtc A) : Prop := ∀ w m w', ¬ exec t w (Some (Panic m)) w'.

Lemma no_panic_done {A} (r : anyres A) : ¬ is_panic r → no_panic (done r).
Proof. intros Hr w m w' [[= <-] _]%runs_done_inv. apply Hr. by eexists. Qed.

Lemma no_panic_ret {A} (a : A) : no_panic (ret a).
Proof. by intros w m w' [? _]%runs_ret_inv. Qed.

Lemma no_panic_fail {A} msg : no_panic (fail (A:=A) msg).
Proof. by intros w m w' [? _]%runs_fail_inv. Qed.

Lemma no_panic_tbind {A B} (t : rtc A) (k : A → rtc B) :
  no_panic t → (∀ a, no_panic (k a)) → no_panic (tbind t k).
Proof.
  intros Ht Hk w m w' [(a & w1 & _ & Hr)|([[|e|m']|] & Hr & Ho)]%runs_tbind_inv;
    simplify_eq; [by eapply Hk|done|by eapply Ht].
Qed.

Lemma no_panic_attempt {A} (t : rtc A) : no_panic t → no_panic (attempt t).
Proof.
  intros Ht w m w' ([[|e|m']|] & Hr & Ho)%runs_attempt_inv; simplify_eq. by eapply Ht.
Qed.

Lemma no_panic_map_err {A} f (t : rtc A) : no_panic t → no_panic (map_err f t).
Proof.
  intros Ht w m w' [([a|e|m'] & w1 & Hr1 & Hr2)|[? _]]%runs_bind_inv; [..|done];
    apply runs_Ret_inv in Hr2 as [? ->]; simplify_eq. by eapply Ht.
Qed.

Lemma no_panic_call {A} (e : rtcE A) : no_panic (call e).
Proof. by intros w m w' [(a & _ & ?)|(_ & ? & _)]%runs_call_inv. Qed.

Lemma no_panic_try_call {A} (e : rtcE (anyres A)) :
  (∀ w m w', handle _ e w ≠ Some (Panic m, w')) → no_panic (try_call e).
Proof. intros He w m w' [(r & Hh & [= <-])|(_ & ? & _)]%runs_try_call_inv; [by eapply He|done]. Qed.

Lemma no_panic_send_text s : no_panic (send_text s).
Proof. apply no_panic_try_call. intros w m w'. simpl. unfold answer_send. by case_match. Qed.

Lemma no_panic_send_binary b : no_panic (send_binary b).
Proof. apply no_panic_try_call. intros w m w'. simpl. unfold answer_send. by case_match. Qed.

Lemma no_panic_send_status s : no_panic (send_status s).
Proof. apply no_panic_try_call. intros w m w'. simpl. by case_match. Qed.

Lemma no_panic_loop {I R} (body : I → rtc (I + R)) i :
  (∀ i, no_panic (body i)) → no_panic (loop body i).
Proof.
  intros Hb w m w' Hr.
  refine (runs_loop_inv handle body (λ _ _, True) (λ o _, ∀ m, o ≠ Some (Panic m)) _
            i w _ w' Logic.I Hr m eq_refl).
  intros j w1 o w2 _ Hj. destruct o as [[[?|?]|?|?]|]; try done. by apply Hb in Hj.
Qed.

Ltac run_no_panic :=
  repeat match goal with
  | |- no_panic (ret _) => apply no_panic_ret
  | |- no_panic (fail _) => apply no_panic_fail
  | |- no_panic (tbind _ _) => apply no_panic_tbind; [|intros ?]
  | |- no_panic (attempt _) => apply no_panic_attempt
  | |- no_panic (map_err _ _) => apply no_panic_map_err
  | |- no_panic (loop _ _) => apply no_panic_loop; intros ?
  | |- no_panic (call _) => apply no_panic_call
  | |- no_panic (send_text _) => apply no_panic_send_text
  | |- no_panic (send_binary _) => apply no_panic_send_binary
  | |- no_panic (send_status _) => apply no_panic_send_status
  | |- no_panic (match ?x with _ => _ end) => destruct x
  | |- no_panic (let _ := _ in _) => cbv zeta
  | |- no_panic _ => progress autounfold with routines
  end.

(** ** PIN challenges *)

Section pins.
Context `{TokenCrypto, Base64, RtcCodec}.

Lemma quiet_sender_send_result r : quiet (sender_send_result r).
Proof. solve_emits. Qed.

Lemma quiet_receiver_send_result r : quiet (receiver_send_result r).
Proof. solve_emits. Qed.

Lemma no_panic_sender_send_result r : no_panic (sender_send_result r).
Proof. unfold sender_send_result, send_string_in_chunks, process_in_chunks, send_delimiter. run_no_panic. Qed.

Lemma no_panic_receiver_send_result r : no_panic (receiver_send_result r).
Proof. unfold receiver_send_result. run_no_panic. Qed.

Lemma quiet_wait_buffer_empty_timeout : quiet wait_buffer_empty_timeout.
Proof. solve_emits. Qed.

Lemma exec_recv_inv w o w' :
  exec recv w o w' →
  (∃ m ms, inbox w = m :: ms ∧ o = Some (Ok (Some m)) ∧ w' = set_inbox ms w) ∨
  (inbox w = [] ∧ w' = w ∧ (o = None ∨ o = Some (Ok None))).
Proof.
  intros [(a & Hh & ->)|(Hh & -> & ->)]%runs_call_inv; simpl in Hh;
    repeat (case_match; simplify_eq/=); eauto 10.
Qed.

(** The guesses [ms] that a challenge has read; the last one is [pin]. *)
Definition guessed (ms : list DataChannelMessage) (pin : string) : Prop :=
  match last ms with
  | None => pin = ""
  | Some m => parse (data m) = Ok (mk_RTCPinMessage pin)
  end.

(** What holds while a challenge runs: the guesses read so far, the last of
    which is in the loop state. *)
Definition challenge_inv (p : PinConfig) (w : env) (s : string * Z * bool) (w1 : env) : Prop :=
  ∃ ms, inbox w = ms ++ inbox w1 ∧ Z.of_nat (length ms) = s.1.2 ∧
    (s.1.2 ≤ pc_max_tries p)%Z ∧ guessed ms s.1.1.

(** How it can end. *)
Definition challenge_post (p : PinConfig) (w : env) (o : option (anyres ())) (w1 : env) : Prop :=
  ∃ ms, inbox w = ms ++ inbox w1 ∧ (Z.of_nat (length ms) ≤ pc_max_tries p)%Z ∧
    (o = Some (Ok ()) → guessed ms (pc_pin p)) ∧ (∀ m, o ≠ Some (Panic m)).

Lemma challenge_end p w s w1 w2 o :
  challenge_inv p w s w1 → keeps_inbox w1 w2 → o ≠ Some (Ok ()) →
  (∀ m, o ≠ Some (Panic m)) → challenge_post p w o w2.
Proof.
  intros (ms & Hin & Hlen & Hle & _) Hkeep Ho Hp. exists ms. rewrite Hin, Hkeep.
  split; [done|]. split; [lia|]. done.
Qed.

Lemma parse_no_panic {T} `{SerdeJson T} b m : parse (T:=T) b ≠ Panic m.
Proof. unfold parse. by destruct (from_json b). Qed.

(** One more guess. *)
Lemma challenge_guess p w rp tries notice w1 m ms pin :
  pin_config_ok p → challenge_inv p w (rp, tries, notice) w1 →
  (tries < pc_max_tries p)%Z → inbox w1 = m :: ms →
  parse (data m) = Ok (mk_RTCPinMessage pin) →
  u8_succ tries = Ok (tries + 1)%Z ∧ challenge_inv p w (pin, (tries + 1)%Z, false) (set_inbox ms w1).
Proof.
  intros [_ Hmax] (gs & Hin & Hlen & Hle & Hg) Hlt Hm Hpin. simpl in *. split.
  - unfold u8_succ. by rewrite decide_True by lia.
  - exists (gs ++ [m]). simpl. rewrite Hin, Hm, <- app_assoc. split; [done|].
    rewrite length_app. simpl. split; [lia|]. split; [lia|].
    unfold guessed. by rewrite last_snoc.
Qed.

(** A guess that does not parse. *)
Lemma challenge_bad_guess p w rp tries notice w1 m ms o :
  challenge_inv p w (rp, tries, notice) w1 → (tries < pc_max_tries p)%Z →
  inbox w1 = m :: ms → o ≠ Some (Ok ()) → (∀ m, o ≠ Some (Panic m)) →
  challenge_post p w o (set_inbox ms w1).
Proof.
  intros (gs & Hin & Hlen & Hle & _) Hlt Hm Ho Hp. exists (gs ++ [m]). simpl in *.
  rewrite Hin, Hm, <- app_assoc. split; [done|]. rewrite length_app. simpl. split; [lia|]. done.
Qed.

Lemma challenge_inv_quiet p w s w1 w2 :
  keeps_inbox w1 w2 → challenge_inv p w s w1 → challenge_inv p w s w2.
Proof. intros Hkeep (gs & ? & ?). exists gs. by rewrite Hkeep. Qed.

Lemma verify_pin_round_inv p sr w s w1 o w' :
  pin_config_ok p → (∀ r, quiet (sr r)) → (∀ r, no_panic (sr r)) →
  challenge_inv p w s w1 → exec (verify_pin_round p sr s) w1 o w' →
  match o with
  | Some (Ok (inl s')) => challenge_inv p w s' w'
  | Some (Ok (inr x)) => challenge_post p w (Some (Ok x)) w'
  | Some (Err e) => challenge_post p w (Some (Err e)) w'
  | Some (Panic m) => challenge_post p w (Some (Panic m)) w'
  | None => challenge_post p w None w'
  end.
Proof.
  intros Hp Hq Hnp Hinv. destruct s as [[rp tries] notice]. unfold verify_pin_round.
  case_decide as Hpin.
  { intros [-> ->]%runs_ret_inv. destruct Hinv as (gs & Hin & Hlen & Hle & Hg). simpl in *.
    exists gs. subst. split; [done|]. split; [lia|]. done. }
  case_decide as Hmax.
  - match goal with |- exec ?t _ _ _ → _ => assert (quiet t ∧ no_panic t ∧
      ∀ w o w', exec t w o w' → ∀ x, o ≠ Some (Ok x)) as (Hquiet & Hpanic & Herr) end.
    { split; [run_through; try apply Hq; by apply event_quiet|].
      split; [run_no_panic; apply Hnp|]. intros v o1 v' Hr x ->.
      apply runs_tbind_Ok_inv in Hr as (? & ? & _ & Hr).
      apply runs_tbind_Ok_inv in Hr as (? & ? & _ & Hr).
      apply runs_tbind_Ok_inv in Hr as (? & ? & _ & Hr). by apply runs_fail_inv in Hr as [? _]. }
    intros Hr. pose proof (Hquiet _ _ _ Hr). pose proof (Herr _ _ _ Hr) as Hne.
    destruct o as [[x|e|m]|]; [by destruct (Hne x)| |by apply Hpanic in Hr|];
      by eapply challenge_end.
  - intros [(? & w2 & Hsr & Hr)|(o' & Hsr & Ho')]%runs_tbind_inv.
    2: { assert (keeps_inbox w1 w' ∧ ∀ m, o' ≠ Some (Panic m)) as [Hkeep Hpanic].
         { destruct (_ || _); [|apply runs_ret_inv in Hsr as [-> ->]; done].
           split; [by eapply Hq|]. by intros m ->; apply Hnp in Hsr. }
         destruct o' as [[?|?|m]|]; [done| |by destruct (Hpanic m)|]; subst o;
           by eapply challenge_end. }
    assert (keeps_inbox w1 w2) as Hkeep.
    { revert Hsr. destruct (_ || _); [apply Hq|]. by intros [_ ->]%runs_ret_inv. }
    eapply challenge_inv_quiet in Hinv; [|exact Hkeep].
    apply runs_tbind_inv in Hr as [(msg & w3 & Hrecv & Hr)|(o' & Hrecv & Ho')];
      apply exec_recv_inv in Hrecv as [(m & ms & Hin & ? & ->)|(Hin & -> & [?|?])]; simplify_eq/=;
      [|by apply runs_fail_inv in Hr as [-> ->]; eapply challenge_end|by eapply challenge_end].
    apply runs_tbind_inv in Hr as [([pin] & w3 & Hreq & Hr)|(o' & Hreq & Ho')].
    + apply runs_done_inv in Hreq as [[= Hreq] ->].
      edestruct (challenge_guess p w rp tries notice w2) as [Hsucc Hguess]; [done..|lia|done|done|].
      apply runs_tbind_inv in Hr as [(n & w3 & Hn & Hr)|(o' & Hn & Ho')];
        apply runs_done_inv in Hn as [Hn ->]; rewrite Hsucc in Hn; simplify_eq/=.
      by apply runs_ret_inv in Hr as [-> ->].
    + apply runs_done_inv in Hreq as [-> ->].
      destruct (parse (data m)) as [|e|e] eqn:Hparse; simplify_eq/=;
        [|by apply parse_no_panic in Hparse].
      eapply challenge_bad_guess; [done|lia|done..].
Qed.

Lemma exec_verify_pin p notice sr w o w' :
  pin_config_ok p → (∀ r, quiet (sr r)) → (∀ r, no_panic (sr r)) →
  exec (verify_pin p notice sr) w o w' → challenge_post p w o w'.
Proof.
  intros Hp Hq Hnp [([] & w1 & Hs & Hl)|(o' & Hs & Ho')]%runs_tbind_inv.
  - assert (keeps_inbox w w1) as Hkeep by (revert Hs; apply (respects_try_call handle); [apply _|by apply event_quiet]).
    revert Hl. apply (runs_loop_inv handle _ (challenge_inv p w) (challenge_post p w)).
    + intros s w2 o1 w3. by apply verify_pin_round_inv.
    + exists []. simpl. rewrite Hkeep. destruct Hp. done.
  - exists []. assert (keeps_inbox w w') as -> by (revert Hs; apply (respects_try_call handle); [apply _|by apply event_quiet]).
    split; [done|]. split; [by destruct Hp|].
    destruct o' as [[|e|m]|]; try done; simplify_eq; [split; done| |split; done].
    by apply no_panic_send_status in Hs.
Qed.

(** C12. A PIN challenge reads at most [max_tries] guesses of the other peer,
    whatever they are, and never overflows its counter; it succeeds only when
    the last guess it has read is the PIN, or without a guess when the PIN is
    empty. *)
Theorem verify_pin_bounded p notice sr w o w' :
  pin_config_ok p → (∀ r, quiet (sr r)) → (∀ r, no_panic (sr r)) →
  exec (verify_pin p notice sr) w o w' →
  ∃ guesses, inbox w = guesses ++ inbox w' ∧ (Z.of_nat (length guesses) ≤ pc_max_tries p)%Z ∧
    (o = Some (Ok ()) → guessed guesses (pc_pin p)) ∧ (∀ m, o ≠ Some (Panic m)).
Proof. apply exec_verify_pin. Qed.
End pins.

(** ** Taking successful runs apart *)

Lemma exec_map_err_Ok_inv {A} f (t : rtc A) w a w' :
  exec (map_err f t) w (Some (Ok a)) w' → exec t w (Some (Ok a)) w'.
Proof.
  intros [([x|e|m] & w1 & Hr1 & Hr2)|[? _]]%runs_bind_inv; [..|done];
    apply runs_Ret_inv in Hr2 as [? ->]; by simplify_eq/=.
Qed.

Lemma exec_send_text_Ok_inv s w a w' :
  exec (send_text s) w (Some (Ok a)) w' →
  ∃ n, w' = note (Sent (text_message s)) (set_sends_left n w).
Proof.
  intros [(r & Hh & [= <-])|(_ & ? & _)]%runs_try_call_inv; [|done].
  simpl in Hh. unfold answer_send in Hh. case_match; simplify_eq. eauto.
Qed.

Lemma exec_call_Ok_inv {A} (e : rtcE A) w a w' :
  exec (call e) w (Some (Ok a)) w' → handle _ e w = Some (a, w').
Proof. intros [(x & Hh & [= ->])|(_ & ? & _)]%runs_call_inv; done. Qed.

(** The nonce that the task draws next. *)
Definition next_nonce (w : env) : bytes := hd (replicate 32 Byte.x00) (nonces w).
Arguments next_nonce : simpl never.

Lemma exec_generate_nonce_inv w n w' :
  exec (call GenerateNonce) w (Some (Ok n)) w' →
  n = next_nonce w ∧ w' = set_nonces (tl (nonces w)) w.
Proof.
  intros Hh%exec_call_Ok_inv. simpl in Hh. unfold next_nonce.
  case_match eqn:Hn; simplify_eq; [|done].
  split; [done|]. destruct w'. simpl in Hn. by subst.
Qed.

Lemma res_map_err_Ok_inv {E F A} (f : E → F) (r : res E A) a : res_map_err f r = Ok a → r = Ok a.
Proof. by destruct r; intros [=]; subst. Qed.

(** One step on the hypothesis about a successful run. *)
Ltac inv_step :=
  match goal with
  | H : runs handle (tbind _ _) _ (Some (Ok _)) _ |- _ =>
      apply runs_tbind_Ok_inv in H as (? & ? & ? & H)
  | H : runs handle (ret _) _ _ _ |- _ => apply runs_ret_inv in H as [H ->]; simplify_eq/=
  | H : runs handle (done _) _ _ _ |- _ => apply runs_done_inv in H as [H ->]; simplify_eq/=
  | H : runs handle (fail _) _ _ _ |- _ => by apply runs_fail_inv in H as [H _]
  | H : runs handle (map_err _ _) _ (Some (Ok _)) _ |- _ => apply exec_map_err_Ok_inv in H
  | H : runs handle (send_text _) _ (Some (Ok _)) _ |- _ =>
      apply exec_send_text_Ok_inv in H as [? ->]
  | H : runs handle (call GenerateNonce) _ (Some (Ok _)) _ |- _ =>
      apply exec_generate_nonce_inv in H as [-> ->]
  | H : runs handle recv _ (Some (Ok _)) _ |- _ =>
      let Hin := fresh "Hin" in
      apply exec_recv_inv in H as [(? & ? & Hin & H & ->)|(Hin & -> & [H|H])]; simplify_eq/=
  | H : runs handle (match ?x with _ => _ end) _ _ _ |- _ =>
      let E := fresh "E" in destruct x eqn:E; simplify_eq/=
  end.
Ltac inv_run := repeat inv_step.

(** ** Nonces and tokens *)

Section handshake.
Context `{TokenCrypto, Base64, RtcCodec}.

(** The message [m] carries the valid nonce [n]. *)
Definition nonce_message (m : DataChannelMessage) (n : bytes) : Prop :=
  ∃ nm, is_string m = true ∧ parse (data m) = Ok nm ∧ b64_decode (nm_nonce nm) = Some n ∧
        validate_nonce n = true.

Lemma receive_nonce_Ok_inv w n w' :
  exec receive_nonce w (Some (Ok n)) w' →
  ∃ m ms, inbox w = m :: ms ∧ w' = set_inbox ms w ∧ nonce_message m n.
Proof.
  unfold receive_nonce. intros Hr. inv_run.
  do 2 eexists. split; [done|]. split; [done|]. eexists. repeat split; try done.
  - by apply negb_false_iff.
  - by eapply ok_or_Ok.
  - by apply negb_false_iff.
Qed.

Definition nonce_text (n : bytes) : DataChannelMessage :=
  text_message (to_json (mk_RTCNonceMessage (b64_encode n))).

Definition token_request_text (token : string) : DataChannelMessage :=
  text_message (to_json (mk_RTCTokenRequest token)).

Definition pin_text (pin : string) : DataChannelMessage := text_message (to_json (mk_RTCPinMessage pin)).

Lemma sender_nonce_Ok_inv w n w' :
  exec sender_nonce_exchange w (Some (Ok n)) w' →
  ∃ m ms remote, inbox w = m :: ms ∧ inbox w' = ms ∧ nonce_message m remote ∧
    n = next_nonce w ++ remote ∧ log w' = log w ++ [Sent (nonce_text (next_nonce w))].
Proof.
  unfold sender_nonce_exchange. intros Hr. do 3 inv_step. inv_step. inv_step.
  match goal with H : exec receive_nonce _ _ _ |- _ =>
    apply receive_nonce_Ok_inv in H as (m & ms & Hin & -> & Hm) end.
  inv_run. simpl in Hin. eexists m, ms, _. by split_and!.
Qed.

Lemma receiver_nonce_Ok_inv w n w' :
  exec receiver_nonce_exchange w (Some (Ok n)) w' →
  ∃ m ms remote, inbox w = m :: ms ∧ inbox w' = ms ∧ nonce_message m remote ∧
    n = remote ++ next_nonce w ∧ log w' = log w ++ [Sent (nonce_text (next_nonce w))].
Proof.
  unfold receiver_nonce_exchange. intros Hr. inv_step.
  match goal with H : exec receive_nonce _ _ _ |- _ =>
    apply receive_nonce_Ok_inv in H as (m & ms & Hin & -> & Hm) end.
  inv_run. eexists m, ms, _. by split_and!.
Qed.

Lemma checked_token pk token nonce b :
  Ok b = verify_token_nonce pk token nonce → negb b = false → token_of pk nonce token.
Proof. intros Hb ->%negb_false_iff. by apply accepted_token_of. Qed.

Lemma receiver_token_Ok_inv sk expecting pin nonce w w' :
  exec (receiver_token_exchange sk expecting pin nonce) w (Some (Ok ())) w' →
  ∃ m ms token, inbox w = m :: ms ∧ inbox w' = ms ∧
    parse (data m) = Ok (mk_RTCTokenRequest token) ∧
    (∀ pk, expecting = Some pk → token_of pk nonce token).
Proof.
  unfold receiver_token_exchange. intros Hr.
  inv_run; match goal with r : RTCTokenRequest |- _ => destruct r end;
    (do 3 eexists); split_and!; eauto; intros pk [= <-]; eauto using checked_token.
Qed.

Lemma sender_token_Ok_inv sk expecting nonce w token pin_required w' :
  exec (sender_token_exchange sk expecting nonce) w (Some (Ok (token, pin_required))) w' →
  ∃ m ms, inbox w = m :: ms ∧ inbox w' = ms ∧
    parse (data m) = Ok (if pin_required : bool then TokenPinRequired token else TokenOk token) ∧
    (∀ pk, expecting = Some pk → token_of pk nonce token).
Proof.
  unfold sender_token_exchange. intros Hr.
  inv_run; (do 2 eexists); split_and!; eauto; intros pk [= <-]; eauto using checked_token.
Qed.

Context `{!Base64Laws, !RtcCodecLaws}.

Lemma nonce_text_message n n' : nonce_message (nonce_text n) n' → n' = n ∧ validate_nonce n = true.
Proof.
  intros (nm & _ & Hp & Hd & Hv). simpl in Hp. rewrite parse_to_json in Hp. simplify_eq/=.
  rewrite b64_decode_encode in Hd. by simplify_eq.
Qed.

Lemma validate_nonce_length n : validate_nonce n = true ↔ 16 ≤ length n ≤ 128.
Proof. unfold validate_nonce. rewrite andb_true_iff, !Nat.leb_le. done. Qed.

(** Two tasks that read each other's nonce message agree on the nonce of
    the session, whatever else their peers send: it is the sender's nonce
    followed by the receiver's, each of them of a valid length. *)
Theorem nonce_agreement ws ns ws' wr nr wr' :
  exec sender_nonce_exchange ws (Some (Ok ns)) ws' →
  exec receiver_nonce_exchange wr (Some (Ok nr)) wr' →
  head (inbox wr) = last (sent (log ws')) → head (inbox ws) = last (sent (log wr')) →
  ns = next_nonce ws ++ next_nonce wr ∧ nr = ns ∧ 32 ≤ length ns ≤ 256.
Proof.
  intros (ms & ? & rs & Hins & _ & Hms & -> & Hls)%sender_nonce_Ok_inv
    (mr & ? & rr & Hinr & _ & Hmr & -> & Hlr)%receiver_nonce_Ok_inv.
  rewrite Hins, Hinr, Hls, Hlr, !sent_app. simpl. rewrite !last_snoc. intros [= ->] [= ->].
  apply nonce_text_message in Hms as [-> Hvr], Hmr as [-> Hvs].
  apply validate_nonce_length in Hvr, Hvs. rewrite length_app. split_and!; [done..|lia|lia].
Qed.

(** ** What a connected transfer has been through *)

Abbreviation connected := (Reported Connected).

Lemma emits_verify_pin P p notice sr :
  (∀ r, emits P (sr r)) → P (Reported PinRequired) → P (Reported TooManyAttempts) →
  emits P (verify_pin p notice sr).
Proof.
  intros Hsr Hr1 Hr2. unfold verify_pin, verify_pin_round.
  run_through; first [apply Hsr|by apply event_emits].
Qed.

Lemma connected_gate {A} (t : rtc A) (k : A → rtc ()) v o v' :
  emits (λ a, a ≠ connected) t → exec (tbind t k) v o v' →
  connected ∉ log v → connected ∈ log v' →
  ∃ x v1, exec t v (Some (Ok x)) v1 ∧ exec (k x) v1 o v' ∧ connected ∉ log v1.
Proof.
  intros Ht Hex Hv Hv'.
  apply (emits_gate (λ a, a ≠ connected) t k v o v' connected); [done| |done..].
  intros Hp. by apply Hp.
Qed.

(** A task only takes messages from the front of its inbox. *)
Lemma exec_inbox {A} (t : rtc A) w o w' : exec t w o w' → ∃ ms, inbox w = ms ++ inbox w'.
Proof.
  intros Hr. refine (runs_preserves handle (λ v, ∃ ms, inbox w = ms ++ inbox v) t w o w' _ Hr _);
    [|by exists []].
  intros X e v x v' Hh (ms & ->). destruct (is_recv e) eqn:He.
  - destruct e; simpl in *; try done. destruct (inbox v) as [|m ms'] eqn:Hin; simplify_eq/=.
    + destruct (closed v); simplify_eq. exists ms. by rewrite Hin.
    + exists (ms ++ [m]). by rewrite <- app_assoc.
  - apply (event_quiet e He) in Hh. exists ms. by rewrite Hh.
Qed.

(** The challenge of one side, when it asks for a PIN at all. *)
Definition pin_settled (pin : option PinConfig) (guesses : list DataChannelMessage) : Prop :=
  ∀ p, pin = Some p →
    guessed guesses (pc_pin p) ∧ (Z.of_nat (length guesses) ≤ pc_max_tries p)%Z.

(** C2. A receiver is connected, and shows the files to the user, only after
    it has read a nonce and a token that its expected key, if it has one,
    accepts for that nonce joined with its own fresh nonce, and after the
    sender has found its PIN, if it has one, within [max_tries] guesses. *)
Theorem receiver_connected sk expecting pin w o w' :
  (∀ p, pin = Some p → pin_config_ok p) →
  exec (receive_task sk expecting pin) w o w' → connected ∉ log w → connected ∈ log w' →
  ∃ m1 m2 guesses rest remote token, inbox w = m1 :: m2 :: guesses ++ rest ∧
    nonce_message m1 remote ∧ parse (data m2) = Ok (mk_RTCTokenRequest token) ∧
    (∀ pk, expecting = Some pk → token_of pk (remote ++ next_nonce w) token) ∧
    pin_settled pin guesses.
Proof.
  intros Hpin Hr Hw Hw'. unfold receive_task in Hr.
  apply connected_gate in Hr as (opened & w1 & Hr1 & Hr & Hw1); [|solve_emits|done..]. 
  apply exec_call_Ok_inv in Hr1. simpl in Hr1. simplify_eq.
  destruct (negb (opened w1)); [by apply runs_fail_inv in Hr as [_ ->]|].
  apply connected_gate in Hr as (nonce & w2 & Hr2 & Hr & Hw2); [|solve_emits|done..].
  apply receiver_nonce_Ok_inv in Hr2 as (m1 & ms & remote & Hin1 & Hin2 & Hm1 & -> & _).
  apply connected_gate in Hr as ([] & w3 & Hr3 & Hr & Hw3); [|solve_emits|done..].
  apply receiver_token_Ok_inv in Hr3 as (m2 & ms' & token & Hin2' & Hin3 & Hm2 & Htok).
  apply connected_gate in Hr as ([] & w4 & Hr4 & Hr & Hw4); [|destruct pin; [|solve_emits]|done..].
  2: { apply respects_tbind; [apply _| |intros _; solve_emits].
       by apply emits_verify_pin; [intros r; solve_emits|..]. }
  assert (∃ guesses, inbox w3 = guesses ++ inbox w4 ∧ pin_settled pin guesses) as (gs & Hgs & Hset).
  { destruct pin as [p|].
    - apply runs_tbind_Ok_inv in Hr4 as ([] & w5 & Hr5 & Hr4).
      apply exec_send_text_Ok_inv in Hr4 as [n ->].
      apply exec_verify_pin in Hr5 as (gs & Hgs & Hlen & Hok & _); try done.
      + exists gs. split; [done|]. intros p' [= <-]. auto.
      + by apply Hpin.
      + apply quiet_receiver_send_result.
      + apply no_panic_receiver_send_result.
    - apply runs_ret_inv in Hr4 as [_ ->]. by exists []. }
  exists m1, m2, gs, (inbox w4), remote, token. split_and!; try done.
  rewrite Hin1. congruence.
Qed.

Definition keeps_nonces (w w' : env) : Prop := nonces w' = nonces w.

#[local] Instance keeps_nonces_preorder : PreOrder keeps_nonces.
Proof. unfold keeps_nonces. split; [done|]. intros w1 w2 w3 Hw1 Hw2. congruence. Qed.

Lemma wait_buffer_empty_nonces w o w' : exec wait_buffer_empty w o w' → nonces w' = nonces w.
Proof.
  enough (respects handle keeps_nonces wait_buffer_empty) as Hk by apply Hk.
  run_through; intros v x v' Hh; unfold keeps_nonces; simpl in Hh;
    repeat (case_match; simplify_eq/=); by simplify_eq.
Qed.

(** *** What a sender does before it trusts the receiver *)

(** A piece of a text. *)
Definition piece_of (s : string) (b : bytes) : Prop := ∃ before after, as_bytes s = before ++ b ++ after.

(** The messages of the handshake: the nonce, the token, guesses of the PIN,
    and the notices and the refusal of a challenge, sent in pieces. *)
Definition handshake_message (m : DataChannelMessage) : Prop :=
  (∃ n, m = nonce_text n) ∨ (∃ token, m = token_request_text token) ∨ (∃ pin, m = pin_text pin) ∨
  m = text_message DELIMITER ∨
  ∃ b, m = binary_message b ∧
    (piece_of (to_json PinSendingPinRequired) b ∨ piece_of (to_json PinSendingTooManyAttempts) b).

Definition handshake_action (a : action) : Prop :=
  match a with
  | Sent m => handshake_message m
  | Reported s => s ≠ Connected
  | PinAsked => True
  | _ => False
  end.

(** What comes after the handshake. *)
Definition past_handshake (w w' : env) : Prop :=
  ∃ l a, log w' = log w ++ l ∧ a ∈ l ∧ ¬ handshake_action a.

Section pieces.
Context (P : action → Prop) (s : string).
Hypothesis piece_ok : ∀ b, piece_of s b → P (Sent (binary_message b)).

Lemma emits_piece b : piece_of s b → emits P (send_binary b).
Proof.
  intros Hb. apply respects_try_call; [apply _|]. by apply event_emits, piece_ok.
Qed.

(** The inner loop of [process_in_chunks] on the text: [after] is still to be read. *)
Lemma drain_pieces after before buffer w o w' :
  as_bytes s = before ++ buffer ++ after →
  exec (loop (λ buffer,
    if decide (CHUNK_SIZE ≤ length buffer) then
      act! send_binary (take CHUNK_SIZE buffer) in ret (inl (drop CHUNK_SIZE buffer))
    else ret (inr buffer)) buffer) w o w' →
  adds P w w' ∧ ∀ rest, o = Some (Ok rest) → ∃ before, as_bytes s = before ++ rest ++ after.
Proof.
  intros Hs. apply (runs_loop_inv handle _
    (λ buffer w1, adds P w w1 ∧ ∃ before, as_bytes s = before ++ buffer ++ after)
    (λ o w1, adds P w w1 ∧ ∀ rest, o = Some (Ok rest) → ∃ before, as_bytes s = before ++ rest ++ after));
    [|split; [done|by exists before]].
  clear before buffer Hs. intros buffer w1 o1 w2 [Hw1 [before Hs]]. case_decide as Hb.
  - rewrite <- (take_drop CHUNK_SIZE buffer) in Hs. rewrite <- app_assoc in Hs.
    assert (emits P (send_binary (take CHUNK_SIZE buffer))) as Hsend by by eapply emits_piece; do 2 eexists.
    intros [(? & w3 & Hw3%Hsend & [-> ->]%runs_ret_inv)|(o' & Hw3%Hsend & Ho')]%runs_tbind_inv.
    + split; [by transitivity w1|]. exists (before ++ take CHUNK_SIZE buffer). by rewrite <- app_assoc.
    + assert (adds P w w2) by by transitivity w1. by destruct o' as [[?|?|?]|]; simplify_eq.
  - intros [-> ->]%runs_ret_inv. split; [done|]. intros rest [= <-]. by exists before.
Qed.

Lemma emits_send_string : emits P (send_string_in_chunks s send_binary).
Proof.
  intros w o w'. apply (runs_loop_inv handle _
    (λ st w1, adds P w w1 ∧ ∃ before, as_bytes s = before ++ st.2 ++ concat st.1) (λ _ w1, adds P w w1));
    [|split; [done|]; exists []; simpl; by rewrite app_nil_r].
  intros [rx buffer] w1 o1 w2 [Hw1 [before Hs]] Hr. simpl in Hs.
  assert (∀ v, adds P w1 v → adds P w v) as Htrans by (intros v Hv; by transitivity w1).
  destruct rx as [|d rx]; simpl in *;
    (apply runs_tbind_inv in Hr as [(next & w3 & Hr1 & Hr)|(o' & Hr1 & Ho')];
     apply runs_ret_inv in Hr1 as [Hnext ->]; simplify_eq/=; [|done]).
  - case_decide; [by apply runs_ret_inv in Hr as [-> ->]|].
    apply runs_tbind_inv in Hr as [(? & w4 & Hw4 & [-> ->]%runs_ret_inv)|(o' & Hw4 & Ho')];
      (apply (emits_piece buffer) in Hw4; [|by do 2 eexists]);
      [by apply Htrans|destruct o' as [[?|?|?]|]; [done|subst o1; by apply Htrans..]].
  - rewrite (app_assoc buffer) in Hs.
    apply runs_tbind_inv in Hr as [(rest & w4 & Hw4 & [-> ->]%runs_ret_inv)|(o' & Hw4 & Ho')];
      apply (drain_pieces _ _ _ _ _ _ Hs) in Hw4 as [Hw4 Hrest].
    + split; [by apply Htrans|]. by apply Hrest.
    + destruct o' as [[?|?|?]|]; [done|subst o1; by apply Htrans..].
Qed.
End pieces.


Lemma exec_log {A} (t : rtc A) w o w' : exec t w o w' → ∃ l, log w' = log w ++ l.
Proof.
  intros Hr. refine (runs_preserves handle (λ v, ∃ l, log v = log w ++ l) t w o w' _ Hr _).
  - intros X e v x v' Hh (l & Hl). eapply (handle_logs (λ _, True)) in Hh as (l' & Hl' & _).
    + exists (l ++ l'). by rewrite Hl', Hl, app_assoc.
    + by destruct e.
  - exists []. by rewrite app_nil_r.
Qed.

Lemma handshake_gate {A B} (t : rtc A) (k : A → rtc B) w o w' :
  emits handshake_action t → exec (tbind t k) w o w' → past_handshake w w' →
  ∃ x w1, exec t w (Some (Ok x)) w1 ∧ exec (k x) w1 o w' ∧ past_handshake w1 w'.
Proof.
  intros Ht Hr (l & a & Hl & Hin & Ha).
  assert (∀ o1 w1, exec t w o1 w1 → ∃ l1, log w1 = log w ++ l1 ∧ a ∉ l1) as Hpre.
  { intros o1 w1 (l1 & Hl1 & HP)%Ht. exists l1. split; [done|]. intros Hin1.
    rewrite Forall_forall in HP. by apply Ha, HP. }
  apply runs_tbind_inv in Hr as [(x & w1 & Hr1 & Hr2)|(o' & Hr1 & _)];
    destruct (Hpre _ _ Hr1) as (l1 & Hl1 & Hin1).
  - exists x, w1. split; [done|]. split; [done|]. destruct (exec_log _ _ _ _ Hr2) as [l2 Hl2].
    exists l2, a. split; [done|]. split; [|done].
    rewrite Hl2, Hl1, <- app_assoc in Hl. apply app_inv_head in Hl as <-.
    apply elem_of_app in Hin as [?|?]; done.
  - rewrite Hl1 in Hl. apply app_inv_head in Hl as <-. done.
Qed.

Lemma not_past_handshake w : ¬ past_handshake w w.
Proof.
  intros (l & a & Hl & Hin & _). rewrite <- (app_nil_r (log w)) in Hl at 1.
  apply app_inv_head in Hl as <-. by apply elem_of_nil in Hin.
Qed.

(** Each part of the handshake does what belongs to it. *)
Lemma nonce_handshake : emits handshake_action sender_nonce_exchange.
Proof. run_through; try by apply event_emits. apply event_emits. left. by eexists. Qed.

Lemma token_handshake sk expecting nonce : emits handshake_action (sender_token_exchange sk expecting nonce).
Proof. run_through; try by apply event_emits. apply event_emits. right. left. by eexists. Qed.

Lemma guesses_handshake {T} chunks (parse_response : bytes → ChallengePinResult T) :
  emits handshake_action (handle_pin chunks parse_response).
Proof. run_through; try by apply event_emits. apply event_emits. right. right. left. by eexists. Qed.

Lemma sender_result_handshake r : emits handshake_action (sender_send_result r).
Proof.
  apply respects_tbind; [apply _| |intros _; apply respects_try_call; [apply _|]; apply event_emits].
  - apply emits_send_string. intros b Hb. do 4 right. exists b. split; [done|]. destruct r; auto.
  - by do 3 right; left.
Qed.

(** C11. A sender that does anything but the handshake has verified the
    receiver: it reports [Connected], sends a message of its list of files or of
    a file, publishes a selection or asks for pairing only after it has read a
    nonce and a token that its expected key, if it has one, accepts for its own
    fresh nonce joined with that nonce, and after the receiver has found its PIN,
    if it has one, within [max_tries] guesses. *)
Theorem sender_connected sk expecting pin fs w o w' l a :
  (∀ p, pin = Some p → pin_config_ok p) →
  exec (send_task sk expecting pin fs) w o w' →
  log w' = log w ++ l → a ∈ l → ¬ handshake_action a →
  ∃ m1 m2 answers guesses rest remote token required,
    inbox w = m1 :: m2 :: answers ++ guesses ++ rest ∧
    nonce_message m1 remote ∧
    parse (data m2) = Ok (if required : bool then TokenPinRequired token else TokenOk token) ∧
    (∀ pk, expecting = Some pk → token_of pk (next_nonce w ++ remote) token) ∧
    pin_settled pin guesses.
Proof.
  intros Hpin Hr Hl Hin Ha. assert (past_handshake w w') as Hpast by by exists l, a. clear l a Hl Hin Ha.
  unfold send_task in Hr.
  apply handshake_gate in Hr as (opened & w1 & Hr1 & Hr & Hw1); [|solve_emits|done].
  apply exec_call_Ok_inv in Hr1. simpl in Hr1. simplify_eq.
  destruct (negb (opened w1)); [by apply runs_fail_inv in Hr as [_ ->]; destruct (not_past_handshake w1)|].
  apply handshake_gate in Hr as ([] & w0 & Hr0 & Hr & Hw0); [|solve_emits|done].
  assert (keeps_inbox w1 w0) as Hkeep by (revert Hr0; apply (respects_loop handle keeps_inbox);
    intros []; solve_emits).
  apply handshake_gate in Hr as (nonce & w2 & Hr2 & Hr & Hw2); [|apply nonce_handshake|done].
  apply sender_nonce_Ok_inv in Hr2 as (m1 & ms & remote & Hin1 & Hin2 & Hm1 & -> & _).
  assert (next_nonce w0 = next_nonce w1) as Hnonce
    by (unfold next_nonce; by erewrite wait_buffer_empty_nonces).
  apply handshake_gate in Hr as ([token required] & w3 & Hr3 & Hr & Hw3); [|apply token_handshake|done].
  apply sender_token_Ok_inv in Hr3 as (m2 & ms' & Hin2' & Hin3 & Hm2 & Htok).
  apply handshake_gate in Hr as ([] & w4 & Hr4 & Hr & Hw4);
    [|destruct required; [apply guesses_handshake|solve_emits]|done].
  apply exec_inbox in Hr4 as [answers Hans].
  apply handshake_gate in Hr as ([] & w5 & Hr5 & Hr & Hw5); [|destruct pin; [|solve_emits]|done].
  2: { by apply emits_verify_pin; [apply sender_result_handshake|..]. }
  assert (∃ guesses, inbox w4 = guesses ++ inbox w5 ∧ pin_settled pin guesses) as (gs & Hgs & Hset).
  { destruct pin as [p|]; [|apply runs_ret_inv in Hr5 as [_ ->]; by exists []].
    apply exec_verify_pin in Hr5 as (gs & Hgs & Hlen & Hok & _); try done.
    - exists gs. split; [done|]. intros p' [= <-]. auto.
    - by apply Hpin.
    - apply quiet_sender_send_result.
    - apply no_panic_sender_send_result. }
  exists m1, m2, answers, gs, (inbox w5), remote, token, required. rewrite <- Hnonce.
  split_and!; try done. rewrite <- Hkeep, Hin1. congruence.
Qed.

(** ** Which files a receiver writes *)

Lemma draw_tokens_dom sel w tokens w' :
  exec (draw_tokens sel) w (Some (Ok tokens)) w' → dom tokens = list_to_set sel.
Proof.
  revert w tokens w'. induction sel as [|id sel IH]; intros w tokens w' Hr; simpl in Hr.
  - inv_run. set_solver.
  - inv_step. inv_step. inv_run.
    match goal with Hd : exec (draw_tokens _) _ _ _ |- _ => apply IH in Hd end. set_solver.
Qed.

Lemma emits_draw_tokens P sel : emits P (draw_tokens sel).
Proof.
  induction sel as [|id sel IH]; simpl; run_through; [by apply event_emits|apply IH].
Qed.

(** [receive_files] opens a file only when it has a token for it and knows
    its entry in the list. *)
Definition opens_known (fs : list FileDto) (tokens : gmap string string) (a : action) : Prop :=
  match a with
  | FileOpened id => is_Some (tokens !! id) ∧ ∃ f, f ∈ fs ∧ fd_id f = id
  | _ => True
  end.

Lemma emits_receive_files fs tokens : emits (opens_known fs tokens) (receive_files fs tokens).
Proof.
  unfold receive_files, receive_files_from, receive_file_header. run_through; try by apply event_emits.
  apply event_emits. simpl. split; [by eexists|].
  match goal with Hf : list_find _ _ = Some (_, ?f) |- _ =>
    apply list_find_Some in Hf as (Hf & Hid & _); exists f end.
  split; [by eapply list_elem_of_lookup_2|done].
Qed.

Lemma exec_selected {A} (t : rtc A) w o w' : exec t w o w' → selected w' = selected w.
Proof.
  intros Hr. refine (runs_preserves handle (λ v, selected v = selected w) t w o w' _ Hr eq_refl).
  intros X e v x v' Hh <-. destruct e; simpl in *; unfold answer_send in *; simplify_eq/=;
    repeat (case_match; simplify_eq/=); done.
Qed.

Lemma opened_gate {A B} id (t : rtc A) (k : A → rtc B) v o v' :
  emits (λ a, a ≠ FileOpened id) t → exec (tbind t k) v o v' →
  FileOpened id ∉ log v → FileOpened id ∈ log v' →
  ∃ x v1, exec t v (Some (Ok x)) v1 ∧ exec (k x) v1 o v' ∧ FileOpened id ∉ log v1.
Proof.
  intros Ht Hex Hv Hv'.
  apply (emits_gate (λ a, a ≠ FileOpened id) t k v o v' (FileOpened id)); [done| |done..].
  intros Hp. by apply Hp.
Qed.

Lemma not_opened id (t : rtc ()) v o v' :
  emits (λ a, a ≠ FileOpened id) t → exec t v o v' → FileOpened id ∉ log v →
  FileOpened id ∉ log v'.
Proof.
  intros Ht Hex Hv. apply Ht in Hex as (l & -> & HP). rewrite elem_of_app. intros [?|Hl]; [done|].
  rewrite Forall_forall in HP. by apply (HP _ Hl).
Qed.

(** A receiver opens a file only when the user has selected its
    identifier and the list of files of the sender, shown to the user before,
    has an entry for it: whatever headers the other peer sends, no other file
    is written. *)
Theorem opened_files_are_selected sk expecting pin w o w' id :
  exec (receive_task sk expecting pin) w o w' → FileOpened id ∉ log w → FileOpened id ∈ log w' →
  ∃ sel fs, selected w = Some (Some (Some sel)) ∧ id ∈ sel ∧
    FilesPublished fs ∈ log w' ∧ ∃ f, f ∈ fs ∧ fd_id f = id.
Proof.
  intros Hr Hw Hw'. pose proof (exec_selected _ _ _ _ Hr) as Hsel. unfold receive_task in Hr.
  apply (opened_gate id) in Hr as (opened & w1 & _ & Hr & Hw1); [|solve_emits|done..].
  destruct (negb opened); [by apply runs_fail_inv in Hr as [_ ->]|].
  apply (opened_gate id) in Hr as (nonce & w2 & _ & Hr & Hw2); [|solve_emits|done..].
  apply (opened_gate id) in Hr as ([] & w3 & _ & Hr & Hw3); [|solve_emits|done..].
  apply (opened_gate id) in Hr as ([] & w4 & _ & Hr & Hw4); [|destruct pin; [|solve_emits]|done..].
  2: { apply respects_tbind; [apply _| |intros _; solve_emits].
       by apply emits_verify_pin; [intros r; solve_emits|..]. }
  apply (opened_gate id) in Hr as (fs & w5 & _ & Hr & Hw5); [|solve_emits|done..].
  apply (opened_gate id) in Hr as ([] & w6 & _ & Hr & Hw6); [|solve_emits|done..].
  apply (opened_gate id) in Hr as (published & w7 & Hr7 & Hr & Hw7); [|solve_emits|done..].
  destruct published; simpl in Hr; [|by apply runs_fail_inv in Hr as [_ ->]].
  assert (FilesPublished fs ∈ log w7) as Hpub.
  { apply exec_call_Ok_inv in Hr7. simpl in Hr7. case_match; simplify_eq/=. set_solver. }
  assert (FilesPublished fs ∈ log w') as Hpub'.
  { apply exec_log in Hr as [l ->]. set_solver. }
  apply (opened_gate id) in Hr as (answer & w8 & Hr8 & Hr & Hw8); [|solve_emits|done..].
  assert (selected w8 = Some answer) as Hans.
  { apply exec_call_Ok_inv in Hr8. simpl in Hr8. destruct (selected w7) eqn:Hs7; by simplify_eq. }
  pose proof (exec_selected _ _ _ _ Hr) as Hsel8.
  destruct answer as [[sel|]|].
  - apply (opened_gate id) in Hr as (tokens & w9 & Hr9 & Hr & Hw9); [|apply emits_draw_tokens|done..].
    apply (opened_gate id) in Hr as ([] & w10 & _ & Hr & Hw10); [|solve_emits|done..].
    apply (opened_gate id) in Hr as ([] & w11 & _ & Hr & Hw11); [|solve_emits|done..].
    apply draw_tokens_dom in Hr9. rewrite list_to_set_elements_L in Hr9.
    apply emits_receive_files in Hr as (l & Hl & HP). rewrite Forall_forall in HP.
    assert (FileOpened id ∈ l) as Hid by (rewrite Hl in Hw'; set_solver).
    apply HP in Hid as [[tok Htok] Hf]. exists sel, fs. split_and!; [congruence| |done..].
    rewrite <- Hr9. by eapply elem_of_dom_2.
  - exfalso. refine (not_opened id _ w8 o w' _ Hr Hw8 Hw'). solve_emits.
  - by apply runs_ret_inv in Hr as [_ ->].
Qed.
End handshake.
