(* ===== verification/RtcInstances.v ===== *)
(** * Concrete codecs for the messages of a transfer

    The instances of [Instances] at the types of [RtcTypes], and a zlib that
    stores its input, for concrete runs. *)

From stdpp Require Import countable.
From S2P Require Import Prelude Serde Crypto Instances RtcTypes Rtc.

#[export] Instance FileMetadata_countable : Countable FileMetadata.
Proof.
  refine (inj_countable' (λ m, (fm_modified m, fm_accessed m))
    (λ '(m, a), mk_FileMetadata m a) _).
  by intros [].
Defined.

#[export] Instance FileDto_countable : Countable FileDto.
Proof.
  refine (inj_countable'
    (λ f, (fd_id f, fd_file_name f, fd_size f, fd_file_type f,
           (fd_sha256 f, fd_preview f, fd_metadata f)))
    (λ '(i, n, s, t, (h, p, m)), mk_FileDto i n s t h p m) _).
  by intros [].
Defined.

#[export] Instance RTCNonceMessage_eq_dec : EqDecision RTCNonceMessage.
Proof. solve_decision. Defined.
#[export] Instance RTCNonceMessage_countable : Countable RTCNonceMessage.
Proof. refine (inj_countable' nm_nonce mk_RTCNonceMessage _). by intros []. Defined.

#[export] Instance RTCTokenRequest_eq_dec : EqDecision RTCTokenRequest.
Proof. solve_decision. Defined.
#[export] Instance RTCTokenRequest_countable : Countable RTCTokenRequest.
Proof. refine (inj_countable' tr_token mk_RTCTokenRequest _). by intros []. Defined.

#[export] Instance RTCTokenResponse_eq_dec : EqDecision RTCTokenResponse.
Proof. solve_decision. Defined.
#[export] Instance RTCTokenResponse_countable : Countable RTCTokenResponse.
Proof.
  refine (inj_countable'
    (λ r, match r with
          | TokenOk t => inl t | TokenPinRequired t => inr (Some t)
          | TokenInvalidSignature => inr None end)
    (λ x, match x with
          | inl t => TokenOk t | inr (Some t) => TokenPinRequired t
          | inr None => TokenInvalidSignature end) _).
  by intros [].
Defined.

#[export] Instance RTCPinMessage_eq_dec : EqDecision RTCPinMessage.
Proof. solve_decision. Defined.
#[export] Instance RTCPinMessage_countable : Countable RTCPinMessage.
Proof. refine (inj_countable' pm_pin mk_RTCPinMessage _). by intros []. Defined.

#[export] Instance RTCPinReceivingResponse_eq_dec : EqDecision RTCPinReceivingResponse.
Proof. solve_decision. Defined.
#[export] Instance RTCPinReceivingResponse_countable : Countable RTCPinReceivingResponse.
Proof.
  refine (inj_countable'
    (λ r, match r with
          | PinReceivingOk => 0 | PinReceivingPinRequired => 1
          | PinReceivingTooManyAttempts => 2 end)
    (λ n, match n with
          | 0 => PinReceivingOk | 1 => PinReceivingPinRequired
          | _ => PinReceivingTooManyAttempts end) _).
  by intros [].
Defined.

#[export] Instance RTCPinSendingResponse_eq_dec : EqDecision RTCPinSendingResponse.
Proof. solve_decision. Defined.
#[export] Instance RTCPinSendingResponse_countable : Countable RTCPinSendingResponse.
Proof.
  refine (inj_countable'
    (λ r, match r with
          | PinSendingOk fs => inl fs | PinSendingPinRequired => inr true
          | PinSendingTooManyAttempts => inr false end)
    (λ x, match x with
          | inl fs => PinSendingOk fs | inr true => PinSendingPinRequired
          | inr false => PinSendingTooManyAttempts end) _).
  by intros [].
Defined.

#[export] Instance RTCFileListResponse_eq_dec : EqDecision RTCFileListResponse.
Proof. solve_decision. Defined.
#[export] Instance RTCFileListResponse_countable : Countable RTCFileListResponse.
Proof.
  refine (inj_countable'
    (λ r, match r with
          | FileListOk fs => inl (inl fs) | FileListPair k => inl (inr k)
          | FileListDeclined => inr true
          | FileListInvalidSignature => inr false end)
    (λ x, match x with
          | inl (inl fs) => FileListOk fs | inl (inr k) => FileListPair k
          | inr true => FileListDeclined
          | inr false => FileListInvalidSignature end) _).
  by intros [].
Defined.

#[export] Instance RTCPairResponse_eq_dec : EqDecision RTCPairResponse.
Proof. solve_decision. Defined.
#[export] Instance RTCPairResponse_countable : Countable RTCPairResponse.
Proof.
  refine (inj_countable'
    (λ r, match r with
          | PairOk k => inl k | PairDeclined => inr true | PairInvalidSignature => inr false end)
    (λ x, match x with
          | inl k => PairOk k | inr true => PairDeclined
          | inr false => PairInvalidSignature end) _).
  by intros [].
Defined.

#[export] Instance RTCSendFileHeaderRequest_eq_dec : EqDecision RTCSendFileHeaderRequest.
Proof. solve_decision. Defined.
#[export] Instance RTCSendFileHeaderRequest_countable : Countable RTCSendFileHeaderRequest.
Proof.
  refine (inj_countable' (λ h, (fh_id h, fh_token h))
    (λ '(i, t), mk_RTCSendFileHeaderRequest i t) _).
  by intros [].
Defined.

#[export] Instance RTCSendFileResponse_eq_dec : EqDecision RTCSendFileResponse.
Proof. solve_decision. Defined.
#[export] Instance RTCSendFileResponse_countable : Countable RTCSendFileResponse.
Proof.
  refine (inj_countable' (λ r, (fr_id r, fr_success r, fr_error r))
    (λ '(i, s, e), mk_RTCSendFileResponse i s e) _).
  by intros [].
Defined.

#[export] Instance countable_rtc_codec : RtcCodec := {|
  nonce_message_json := countable_json;
  token_request_json := countable_json;
  token_response_json := countable_json;
  pin_message_json := countable_json;
  pin_receiving_json := countable_json;
  pin_sending_json := countable_json;
  file_list_json := countable_json;
  pair_json := countable_json;
  file_header_json := countable_json;
  file_response_json := countable_json
|}.

#[export] Instance countable_rtc_codec_laws : RtcCodecLaws.
Proof. constructor; apply countable_json_laws. Qed.

#[export] Instance stored_zlib : Zlib := {|
  zlib_compress := λ b, b;
  zlib_decompress := Some
|}.

#[export] Instance stored_zlib_laws : ZlibLaws.
Proof. by constructor. Qed.
