(* ===== verification/RtcTransfer.v ===== *)
(** * Transfers between two honest peers

    What the sender's loop puts on the data channel, what the receiver's loop
    makes of it, and the two together: the receiver writes exactly the files
    it has granted a token, byte for byte. *)

From S2P Require Import Prelude Serde Crypto RtcTypes Interaction Rtc RtcEnv RtcRoutines.

(** ** What the application sees

    The bytes delivered until the next file is opened, and the files written:
    every [FileOpened] starts one. *)

Fixpoint delivered (l : list action) : bytes :=
  match l with
  | [] => []
  | FileOpened _ :: _ => []
  | DataDelivered b :: l' => b ++ delivered l'
  | _ :: l' => delivered l'
  end.

Fixpoint written (l : list action) : list (string * bytes) :=
  match l with
  | [] => []
  | FileOpened id :: l' => (id, delivered l') :: written l'
  | _ :: l' => written l'
  end.

Lemma delivered_chunks cs l : delivered ((DataDelivered <$> cs) ++ l) = concat cs ++ delivered l.
Proof.
  induction cs as [|c cs IH]; [done|]. cbn. rewrite <- app_assoc. by f_equal.
Qed.

Lemma written_chunks cs l : written ((DataDelivered <$> cs) ++ l) = written l.
Proof. by induction cs. Qed.

Section transfer.
Context `{TokenCrypto, Base64, RtcCodec, !RtcCodecLaws}.

(** ** The sender's loop *)

Definition header_message (id token : string) : DataChannelMessage :=
  text_message (to_json (mk_RTCSendFileHeaderRequest id token)).

Definition no_token_error (id : string) : action :=
  ReportedError (mk_RTCFileError id "Failed to get file token").

(** The actions of the loop on the files [fs] of the application. *)
Definition sender_actions (tokens : gmap string string) (fs : list (string * list bytes))
    : list action :=
  fs ≫= λ f, match tokens !! f.1 with
             | Some token => Sent (header_message f.1 token) :: send_chunks (concat f.2)
             | None => [no_token_error f.1]
             end.

Lemma exec_sender_send_files tokens w :
  healthy w →
  ∃ rest, exec (sender_send_files tokens) w (Some (Ok ()))
            (set_files [] rest (adv (inbox w) (sender_actions tokens (files w)) w)).
Proof.
  intros Hw. remember (files w) as fs eqn:Hfs. revert w Hw Hfs.
  induction fs as [|[id ps] fs IH]; intros w Hw Hfs.
  - exists (current w). simpl. rewrite adv_nil. apply runs_loop_break.
    eapply runs_tbind; [apply runs_call; simpl; by rewrite <- Hfs|]. simpl.
    replace (set_files [] (current w) w) with w by (destruct w; simpl in *; by subst).
    apply runs_ret.
  - assert (handle _ NextFile w = Some (Some id, set_files fs ps w)) as Hnext
      by (simpl; by rewrite <- Hfs).
    unfold sender_actions. rewrite bind_cons. fold (sender_actions tokens fs). cbn [fst].
    destruct (tokens !! id) as [token|] eqn:Htok; cbn [snd].
    + destruct (IH (put_current [] (adv (inbox w)
        (Sent (header_message id token) :: send_chunks (concat ps)) (set_files fs ps w))))
        as [rest Hex]; [by apply set_files_healthy, adv_healthy, set_files_healthy|done|].
      exists rest. eapply runs_loop_next.
      * eapply runs_tbind; [by apply runs_call|]. cbn. rewrite Htok.
        eapply runs_tbind; [by apply runs_attempt_Ok, exec_send_text, set_files_healthy|].
        eapply runs_tbind; [apply runs_attempt_Ok, exec_send_file_data; [|done]|apply runs_ret].
        by apply adv_healthy, set_files_healthy.
      * unfold put_current in *. rewrite !adv_set_files, !set_files_twice, !adv_adv in *. exact Hex.
    + destruct (IH (adv (inbox w) [no_token_error id] (set_files fs ps w)))
        as [rest Hex]; [by apply adv_healthy, set_files_healthy|done|].
      exists rest. eapply runs_loop_next.
      * eapply runs_tbind; [by apply runs_call|]. cbn. rewrite Htok.
        eapply runs_tbind; [by apply runs_call|]. apply runs_ret.
      * rewrite !adv_set_files, !set_files_twice, !adv_adv in *. exact Hex.
Qed.

(** ** The receiver's loop *)

(** The messages of one file. *)
Definition file_messages (id token : string) (content : bytes) : list DataChannelMessage :=
  header_message id token :: (binary_message <$> chunks content).

(** The end of the file [id]: it is closed and its result is sent. *)
Definition closing (id : string) (rs : list RTCSendFileResponse) : list action :=
  let error := user_error (head rs) in
  [FileClosed id;
   Sent (text_message (to_json (mk_RTCSendFileResponse id (bool_decide (error = None)) error)))].

Definition closing_of (st : option string) (rs : list RTCSendFileResponse) : list action :=
  match st with Some id => closing id rs | None => [] end.

(** The actions of the loop on the granted files [fs], the file [st] being
    open, when the application answers with the results [rs]. *)
Fixpoint receive_actions (st : option string) (rs : list RTCSendFileResponse)
    (fs : list (string * bytes)) : list action :=
  closing_of st rs ++
  match fs with
  | [] => []
  | (id, b) :: fs' =>
      FileOpened id :: (DataDelivered <$> chunks b) ++
      receive_actions (Some id) (match st with Some _ => tail rs | None => rs end) fs'
  end.

Definition after_file (st : option string) (w : env) : env :=
  match st with Some _ => set_user_results (tail (user_results w)) w | None => w end.

(** What is sent for the granted files, up to the delimiter. *)
Definition transfer_messages (tokens : gmap string string) (fs : list (string * bytes))
    : list DataChannelMessage :=
  fs ≫= λ f, file_messages f.1 (default "" (tokens !! f.1)) f.2.

(** Every token belongs to a file of the list, every file has a token. *)
Definition granted (fl : list FileDto) (tokens : gmap string string)
    (fs : list (string * bytes)) : Prop :=
  Forall (λ f, is_Some (tokens !! f.1) ∧ ∃ d, d ∈ fl ∧ fd_id d = f.1) fs.

Lemma exec_user_result w :
  exec (call UserResult) w (Some (Ok (head (user_results w))))
    (set_user_results (tail (user_results w)) w).
Proof.
  apply runs_call. simpl. destruct w; simpl. by destruct user_results.
Qed.

Lemma exec_header fl tokens id token w :
  tokens !! id = Some token → (∃ d, d ∈ fl ∧ fd_id d = id) →
  ∃ size, exec (receive_file_header fl tokens (header_message id token)) w
    (Some (Ok (Some (mk_RTCFileState id size)))) (adv (inbox w) [FileOpened id] w).
Proof.
  intros Htok (d & Hd & Hid). unfold receive_file_header.
  assert (∃ n f, list_find (λ f, fd_id f = id) fl = Some (n, f)) as (n & f & Hf).
  { destruct (list_find_elem_of (λ f, fd_id f = id) fl d Hd Hid) as [[n f] Hf]. by exists n, f. }
  exists (fd_size f). simpl. rewrite parse_to_json.
  eapply runs_tbind; [apply runs_done|]. cbn. rewrite Htok.
  rewrite decide_False by (intros Hne; by apply Hne). rewrite Hf.
  eapply runs_tbind; [by eapply exec_note|]. apply runs_ret.
Qed.

(** Closing the open file, when there is one. *)
Lemma exec_close_file st w msg :
  healthy w → is_delimiter msg = false →
  exec (match st with
        | Some state =>
            act! call (CloseFile (fs_file_id state)) in
            do! answer := call UserResult in
            let error := user_error answer in
            act! send_text (to_json (mk_RTCSendFileResponse (fs_file_id state)
                                       (bool_decide (error = None)) error)) in
            if is_delimiter msg then act! wait_buffer_empty_timeout in ret true else ret false
        | None => ret false
        end) w (Some (Ok false))
    (adv (inbox w) (closing_of (fs_file_id <$> st) (user_results w))
       (after_file (fs_file_id <$> st) w)).
Proof.
  intros Hw Hmsg. destruct st as [state|]; simpl; [|rewrite adv_nil; apply runs_ret].
  eapply runs_tbind; [by eapply exec_note|].
  eapply runs_tbind; [apply exec_user_result|]. cbv zeta.
  eapply runs_tbind; [by apply exec_send_text, set_user_results_healthy, adv_healthy|].
  rewrite Hmsg, !adv_set_user_results, adv_adv. apply runs_ret.
Qed.

(** The pieces of the open file are delivered as they come. *)
Lemma exec_pieces fl tokens state cs ms w o w' :
  healthy w → inbox w = (binary_message <$> cs) ++ ms →
  exec (receive_files_from fl tokens (Some state)) (adv ms (DataDelivered <$> cs) w) o w' →
  exec (receive_files_from fl tokens (Some state)) w o w'.
Proof.
  revert w. induction cs as [|c cs IH]; intros w Hw Hin Hex; simpl in *.
  - rewrite <- Hin, adv_nil in Hex. done.
  - eapply runs_loop_next.
    + eapply runs_tbind; [by apply exec_recv|]. simpl.
      eapply runs_tbind; [by apply exec_file_data, adv_healthy|]. apply runs_ret.
    + apply IH; [by repeat apply adv_healthy|done|]. by rewrite !adv_adv.
Qed.

Lemma after_file_healthy st w : healthy w → healthy (after_file st w).
Proof. destruct st; [apply set_user_results_healthy|done]. Qed.

Lemma after_file_adv st ms l w : after_file st (adv ms l w) = adv ms l (after_file st w).
Proof. by destruct st. Qed.

(** The delimiter closes the last file and ends the loop. *)
Lemma exec_last fl tokens state rest w :
  healthy w → inbox w = text_message DELIMITER :: rest →
  ∃ w', exec (receive_files_from fl tokens (Some state)) w (Some (Ok ())) w' ∧
    inbox w' = rest ∧ log w' = log w ++ closing (fs_file_id state) (user_results w).
Proof.
  intros Hw Hin. eexists. split.
  - apply runs_loop_break. eapply runs_tbind; [by apply exec_recv|]. cbn [is_string text_message].
    eapply runs_tbind with (a := true); [|apply runs_ret].
    eapply runs_tbind; [by apply exec_note|].
    eapply runs_tbind; [apply exec_user_result|]. cbv zeta.
    assert (healthy (set_user_results (tail (user_results w))
      (adv rest [FileClosed (fs_file_id state)] w))) as Hw' by by apply set_user_results_healthy, adv_healthy.
    rewrite adv_adv. simpl.
    eapply runs_tbind; [by apply exec_send_text|].
    eapply runs_tbind; [by apply exec_wait_buffer_empty_timeout, adv_healthy|apply runs_ret].
  - split; [done|]. simpl. by rewrite <- app_assoc.
Qed.

Lemma exec_next_file fl tokens st id token w ms :
  healthy w → tokens !! id = Some token → (∃ d, d ∈ fl ∧ fd_id d = id) →
  inbox w = header_message id token :: ms →
  ∃ size, ∀ o w',
    exec (receive_files_from fl tokens (Some (mk_RTCFileState id size)))
      (adv ms (closing_of (fs_file_id <$> st) (user_results w) ++ [FileOpened id])
         (after_file (fs_file_id <$> st) w)) o w' →
    exec (receive_files_from fl tokens st) w o w'.
Proof.
  intros Hw Htok Hd Hin.
  set (w1 := adv ms [] w). assert (healthy w1) as Hw1 by by apply adv_healthy.
  pose proof (exec_close_file st w1 (header_message id token) Hw1 (document_not_delimiter _)) as Hclose.
  match type of Hclose with exec _ _ _ ?v => destruct (exec_header fl tokens id token v Htok Hd) as [size Hheader] end.
  exists size. intros o w' Hex. eapply runs_loop_next; [|exact Hex].
  eapply runs_tbind; [by apply exec_recv|]. cbn [is_string header_message text_message].
  eapply runs_tbind; [exact Hclose|]. cbv iota. eapply runs_tbind; [exact Hheader|].
  unfold w1. rewrite after_file_adv, !adv_adv. apply runs_ret.
Qed.

Lemma exec_receive_from fl tokens rest fs : ∀ st w,
  healthy w → granted fl tokens fs → st ≠ None ∨ fs ≠ [] →
  inbox w = transfer_messages tokens fs ++ text_message DELIMITER :: rest →
  ∃ w', exec (receive_files_from fl tokens st) w (Some (Ok ())) w' ∧ inbox w' = rest ∧
    log w' = log w ++ receive_actions (fs_file_id <$> st) (user_results w) fs.
Proof.
  induction fs as [|[id b] fs IH]; intros st w Hw Hg Hne Hin.
  - destruct st as [state|]; [|by destruct Hne]. by apply exec_last.
  - inversion Hg as [|? ? [[token Htok] Hd] Hg']; subst. simpl in Htok, Hd.
    unfold transfer_messages in Hin. rewrite bind_cons in Hin. cbn [fst snd] in Hin.
    fold (transfer_messages tokens fs) in Hin. rewrite Htok in Hin. simpl in Hin.
    rewrite <- app_assoc in Hin.
    destruct (exec_next_file fl tokens st id token w _ Hw Htok Hd Hin) as [size Hnext].
    set (st' := Some (mk_RTCFileState id size)).
    set (w1 := adv (transfer_messages tokens fs ++ text_message DELIMITER :: rest)
      ((closing_of (fs_file_id <$> st) (user_results w) ++ [FileOpened id]) ++
       (DataDelivered <$> chunks b)) (after_file (fs_file_id <$> st) w)).
    destruct (IH st' w1) as (w' & Hex & Hin' & Hlog); [|done|by left|done|].
    { by apply adv_healthy, after_file_healthy. }
    exists w'. split; [|split; [done|]].
    + apply Hnext. eapply exec_pieces; [by apply adv_healthy, after_file_healthy|done|].
      by rewrite adv_adv.
    + rewrite Hlog. unfold w1. simpl. rewrite <- !app_assoc. destruct st; by rewrite <- ?app_assoc.
Qed.

(** ** The two loops together *)

(** The files of the application that have a token, with their contents. *)
Definition granted_files (tokens : gmap string string) (fs : list (string * list bytes))
    : list (string * bytes) :=
  (λ f, (f.1, concat f.2)) <$> filter (λ f, is_Some (tokens !! f.1)) fs.

Lemma sent_chunks b : sent (send_chunks b) = binary_message <$> chunks b.
Proof. unfold send_chunks. induction (chunks b) as [|c cs IH]; [done|]. cbn. by f_equal. Qed.

Lemma sent_sender_actions tokens fs :
  sent (sender_actions tokens fs) = transfer_messages tokens (granted_files tokens fs).
Proof.
  induction fs as [|[id ps] fs IH]; [done|].
  unfold sender_actions. rewrite bind_cons. fold (sender_actions tokens fs). rewrite sent_app, IH.
  unfold granted_files. rewrite filter_cons. cbn [fst snd]. destruct (tokens !! id) as [token|] eqn:Htok.
  - rewrite decide_True by done. rewrite fmap_cons. unfold transfer_messages at 2. rewrite bind_cons.
    cbn [fst snd]. rewrite Htok. simpl. by rewrite sent_chunks.
  - rewrite decide_False by (by intros []). done.
Qed.

Lemma delivered_receive_actions id rs fs : delivered (receive_actions (Some id) rs fs) = [].
Proof. by destruct fs as [|[? ?] ?]. Qed.

Lemma written_receive_actions st rs fs : written (receive_actions st rs fs) = fs.
Proof.
  revert st rs. induction fs as [|[id b] fs IH]; intros st rs; [by destruct st|].
  assert (∀ l, written (closing_of st rs ++ l) = written l) as Hclose by by destruct st.
  simpl. rewrite Hclose. cbn [written].
  rewrite delivered_chunks, delivered_receive_actions, written_chunks, IH, app_nil_r.
  by rewrite chunks_concat.
Qed.

Definition send_all_files (tokens : gmap string string) : rtc () :=
  act! sender_send_files tokens in act! wait_buffer_empty in send_delimiter.

Lemma send_all_files_sent tokens ws ws' ls :
  healthy ws → exec (send_all_files tokens) ws (Some (Ok ())) ws' → log ws' = log ws ++ ls →
  sent ls = transfer_messages tokens (granted_files tokens (files ws)) ++ [text_message DELIMITER].
Proof.
  intros Hw Hex Hls. destruct (exec_sender_send_files tokens ws Hw) as [left Hfiles].
  match type of Hfiles with exec _ _ _ ?v => assert (healthy v) as Hv
    by by apply set_files_healthy, adv_healthy end.
  assert (exec (send_all_files tokens) ws (Some (Ok ()))
    (set_files [] left (adv (inbox ws)
       (sender_actions tokens (files ws) ++ [Sent (text_message DELIMITER)]) ws))) as Hex'.
  { unfold send_all_files. eapply runs_tbind; [exact Hfiles|].
    eapply runs_tbind; [by apply exec_wait_buffer_empty|].
    pose proof (exec_send_text _ Hv DELIMITER) as Hd.
    rewrite adv_set_files, adv_adv in Hd. exact Hd. }
  destruct (runs_det _ Hex Hex') as [_ ->]. simpl in Hls.
  apply app_inv_head in Hls as <-. by rewrite sent_app, sent_sender_actions.
Qed.

(** Over a data channel that keeps the order, the receiver writes exactly
    the files of the sender that were granted a token, in order and byte for
    byte, however the application cuts them into pieces; it ends without an
    error and leaves the rest of its inbox alone. *)
Theorem transfer_delivers tokens fl ws ws' ls wr rest :
  healthy ws → healthy wr →
  exec (send_all_files tokens) ws (Some (Ok ())) ws' → log ws' = log ws ++ ls →
  inbox wr = sent ls ++ rest →
  granted_files tokens (files ws) ≠ [] →
  (∀ id, is_Some (tokens !! id) → ∃ d, d ∈ fl ∧ fd_id d = id) →
  ∃ wr' lr, exec (receive_files fl tokens) wr (Some (Ok ())) wr' ∧ inbox wr' = rest ∧
    log wr' = log wr ++ lr ∧ written lr = granted_files tokens (files ws).
Proof.
  intros Hws Hwr Hex Hls Hin Hne Hfl.
  rewrite (send_all_files_sent _ _ _ _ Hws Hex Hls), <- app_assoc in Hin.
  destruct (exec_receive_from fl tokens rest (granted_files tokens (files ws)) None wr)
    as (wr' & Hrec & Hrest & Hlog); [done| |by right|done|].
  { apply Forall_fmap, Forall_forall. intros f [Hf _]%list_elem_of_filter. simpl. auto. }
  do 2 eexists. split; [exact Hrec|]. split; [done|]. split; [exact Hlog|].
  apply written_receive_actions.
Qed.

(** A transfer in which no file is sent ends with an error at the
    receiver: it only looks for the delimiter while a file is open, and takes
    the delimiter for the header of a file. *)
Theorem empty_transfer_fails tokens fl ws ws' ls wr rest :
  healthy ws →
  exec (send_all_files tokens) ws (Some (Ok ())) ws' → log ws' = log ws ++ ls →
  inbox wr = sent ls ++ rest →
  granted_files tokens (files ws) = [] →
  exec (receive_files fl tokens) wr (Some (Err "serde_json")) (adv rest [] wr).
Proof.
  intros Hws Hex Hls Hin Hempty.
  rewrite (send_all_files_sent _ _ _ _ Hws Hex Hls), Hempty in Hin. simpl in Hin.
  apply runs_loop_Err. eapply runs_tbind; [by apply exec_recv|]. cbn.
  eapply runs_tbind; [apply runs_ret|]. cbv iota. apply runs_tbind_Err.
  unfold receive_file_header. apply runs_tbind_Err.
  change (data (mk_DataChannelMessage true [Byte.x30])) with (as_bytes DELIMITER).
  rewrite parse_delimiter. apply runs_done.
Qed.
End transfer.
