(* ===== verification/RtcPair.v ===== *)
(** * Two tasks on one data channel

    The two tasks of a transfer side by side: a step of one of them puts what
    it sends at the end of the inbox of the other one, and a task that has to
    receive waits until something is there.  [run_pair] runs a schedule, any
    sequence of steps of the two sides.  The channel is ordered and loses
    nothing while the tasks run.

    The tasks are deterministic and share nothing but the channel, so the
    order of their steps does not matter ([pair_diamond]): when one schedule
    ends, all of them do, after the same number of steps and in the same state
    ([always_ends_intro]). *)

From ITree Require Import ITree.
From S2P Require Import Prelude Serde Crypto RtcTypes Interaction Rtc RtcEnv RtcRoutines RtcSafety.

(** ** One task *)

Section task_steps.
Context {R : Type}.

(** One event of a task; [None] when it has returned or has to wait. *)
Definition task_step (t : itree rtcE R) (w : env) : option (itree rtcE R * env) :=
  match observe t with
  | RetF _ => None
  | TauF t' => Some (t', w)
  | VisF e k => '(x, w') ← handle _ e w; Some (k x, w')
  end.

(** What a task has returned. *)
Definition result (t : itree rtcE R) : option R :=
  match observe t with RetF r => Some r | _ => None end.

(** [steps t w t' w']: in [w] the task [t] comes to [t'] and [w'].  Trees that
    are observed alike are not told apart. *)
Inductive steps : itree rtcE R → env → itree rtcE R → env → Prop :=
| steps_here t t' w : observe t = observe t' → steps t w t' w
| steps_next t w t1 w1 t' w' : task_step t w = Some (t1, w1) → steps t1 w1 t' w' → steps t w t' w'.

Lemma task_step_observe t t' w : observe t = observe t' → task_step t w = task_step t' w.
Proof. unfold task_step. by intros ->. Qed.

Lemma result_observe t t' : observe t = observe t' → result t = result t'.
Proof. unfold result. by intros ->. Qed.

Lemma steps_observe t0 t w t' w' : observe t0 = observe t → steps t w t' w' → steps t0 w t' w'.
Proof.
  intros Ho. destruct 1 as [t t' w Ht|t w t1 w1 t' w' Hs Ht].
  - apply steps_here. congruence.
  - eapply steps_next; [by rewrite (task_step_observe _ t)|done].
Qed.

Lemma steps_trans t w t1 w1 t' w' : steps t w t1 w1 → steps t1 w1 t' w' → steps t w t' w'.
Proof.
  induction 1 as [t t1 w Ho|t w t0 w0 t1 w1 Hs _ IH]; intros Ht; [by eapply steps_observe|].
  eapply steps_next; [done|]. by apply IH.
Qed.

Lemma runs_steps t w r w' : exec t w (Some r) w' → steps t w (Ret r) w'.
Proof.
  remember (Some r) as o eqn:Ho.
  induction 1 as [t w r' Ht|t w t' o w' Ht _ IH|t w X e k x w1 o w' Ht Hh _ IH|]; simplify_eq.
  - by apply steps_here.
  - eapply steps_next; [unfold task_step; by rewrite Ht|]. by apply IH.
  - eapply steps_next; [unfold task_step; by rewrite Ht, Hh|]. by apply IH.
Qed.
End task_steps.

Lemma steps_bind {R T} (t : itree rtcE R) (k : R → itree rtcE T) w t' w' :
  steps t w t' w' → steps (ITree.bind t k) w (ITree.bind t' k) w'.
Proof.
  induction 1 as [t t' w Ho|t w t1 w1 t' w' Hs _ IH].
  - apply steps_here. by rewrite !observe_bind, Ho.
  - eapply steps_next; [|exact IH]. unfold task_step in *. rewrite observe_bind.
    destruct (observe t) as [r|t0|X e h]; [done|by simplify_eq|].
    destruct (handle X e w) as [[x w2]|]; by simplify_eq/=.
Qed.

Lemma steps_tbind {R T} (t : rtc R) (k : R → rtc T) w t' w' :
  steps t w t' w' → steps (tbind t k) w (tbind t' k) w'.
Proof. apply steps_bind. Qed.

(** The first part of a task has returned. *)
Lemma steps_tbind_Ok {R T} (t : rtc R) (k : R → rtc T) w a w' :
  exec t w (Some (Ok a)) w' → steps (tbind t k) w (k a) w'.
Proof.
  intros Ht. eapply steps_trans; [by apply steps_tbind, runs_steps|].
  apply steps_here. unfold tbind. by rewrite observe_bind.
Qed.

Lemma steps_tbind_ret {R T} (t : rtc R) (k : R → rtc T) w a w' :
  steps t w (ret a) w' → steps (tbind t k) w (k a) w'.
Proof.
  intros Ht. eapply steps_trans; [by apply steps_tbind|].
  apply steps_here. unfold tbind. by rewrite observe_bind.
Qed.

Lemma steps_tbind_Err {R T} (t : rtc R) (k : R → rtc T) w e w' :
  exec t w (Some (Err e)) w' → steps (tbind t k) w (Ret (Err e)) w'.
Proof.
  intros Ht. eapply steps_trans; [by apply steps_tbind, runs_steps|].
  apply steps_here. unfold tbind. by rewrite observe_bind.
Qed.

(** A loop in the middle of a round, the rest of which is [t]. *)
Definition loop_from {I R} (body : I → rtc (I + R)) (t : rtc (I + R)) : rtc R :=
  ITree.bind (ITree.bind t (λ r,
    match r with
    | Ok (inl i) => Ret (inl i)
    | Ok (inr x) => Ret (inr (Ok x))
    | Err e => Ret (inr (Err e))
    | Panic m => Ret (inr (Panic m))
    end)) (λ lr, match lr with inl i => Tau (loop body i) | inr r => Ret r end).

Lemma steps_loop {I R} (body : I → rtc (I + R)) i w t w' :
  steps (body i) w t w' → steps (loop body i) w (loop_from body t) w'.
Proof.
  intros Hb. eapply steps_observe; [apply (observe_iter (E := rtcE))|]. by do 2 apply steps_bind.
Qed.

Lemma steps_loop_next {I R} (body : I → rtc (I + R)) t i w w' :
  exec t w (Some (Ok (inl i))) w' → steps (loop_from body t) w (loop body i) w'.
Proof.
  intros Ht%runs_steps. eapply steps_trans; [by do 2 apply steps_bind|].
  eapply steps_next; [|by apply steps_here]. unfold task_step. by rewrite !observe_bind.
Qed.

Lemma steps_loop_break {I R} (body : I → rtc (I + R)) t x w w' :
  exec t w (Some (Ok (inr x))) w' → steps (loop_from body t) w (ret x) w'.
Proof.
  intros Ht%runs_steps. eapply steps_trans; [by do 2 apply steps_bind|].
  apply steps_here. by rewrite !observe_bind.
Qed.

Lemma steps_loop_Err {I R} (body : I → rtc (I + R)) t e w w' :
  exec t w (Some (Err e)) w' → steps (loop_from body t) w (Ret (Err e)) w'.
Proof.
  intros Ht%runs_steps. eapply steps_trans; [by do 2 apply steps_bind|].
  apply steps_here. by rewrite !observe_bind.
Qed.

(** ** Two tasks *)

(** The messages that a step has sent. *)
Definition new_messages (w w' : env) : list DataChannelMessage :=
  sent (drop (length (log w)) (log w')).

Definition arrive (ms : list DataChannelMessage) (w : env) : env := set_inbox (inbox w ++ ms) w.

Inductive Side := LeftSide | RightSide.

#[export] Instance side_eq_dec : EqDecision Side.
Proof. solve_decision. Defined.

Record Pair (A B : Type) := mk_Pair {
  pr_left : itree rtcE A;
  pr_left_env : env;
  pr_right : itree rtcE B;
  pr_right_env : env
}.
#[global] Arguments mk_Pair {A B} pr_left pr_left_env pr_right pr_right_env.
#[global] Arguments pr_left {A B} p.
#[global] Arguments pr_left_env {A B} p.
#[global] Arguments pr_right {A B} p.
#[global] Arguments pr_right_env {A B} p.

Section pairs.
Context {A B : Type}.
Implicit Types p : Pair A B.

Definition pair_step (s : Side) (p : Pair A B) : option (Pair A B) :=
  match s with
  | LeftSide =>
      '(t, w) ← task_step (pr_left p) (pr_left_env p);
      Some (mk_Pair t w (pr_right p) (arrive (new_messages (pr_left_env p) w) (pr_right_env p)))
  | RightSide =>
      '(t, w) ← task_step (pr_right p) (pr_right_env p);
      Some (mk_Pair (pr_left p) (arrive (new_messages (pr_right_env p) w) (pr_left_env p)) t w)
  end.

Fixpoint run_pair (schedule : list Side) (p : Pair A B) : option (Pair A B) :=
  match schedule with
  | [] => Some p
  | s :: schedule => p ← pair_step s p; run_pair schedule p
  end.

(** Neither side can go on. *)
Definition halted (p : Pair A B) : Prop := ∀ s, pair_step s p = None.

(** What the two tasks have returned, and their environments. *)
Definition holds_at (Q : option A → env → option B → env → Prop) (p : Pair A B) : Prop :=
  Q (result (pr_left p)) (pr_left_env p) (result (pr_right p)) (pr_right_env p).

(** However the steps of the two sides are interleaved, after a bounded number
    of them neither side can go on, and then [Q] holds. *)
Definition always_ends (p : Pair A B) (Q : option A → env → option B → env → Prop) : Prop :=
  ∃ n, ∀ schedule p', run_pair schedule p = Some p' →
    length schedule ≤ n ∧ (halted p' → holds_at Q p').

(** Some schedule ends so. *)
Definition can_end (p : Pair A B) (Q : option A → env → option B → env → Prop) : Prop :=
  ∃ schedule p', run_pair schedule p = Some p' ∧ halted p' ∧ holds_at Q p'.
End pairs.

(** ** The order of the steps does not matter *)

Definition open_channel (w : env) : Prop := closed w = false.

Lemma handle_closed {X} (e : rtcE X) w x w' : handle X e w = Some (x, w') → closed w' = closed w.
Proof.
  intros Hh. destruct e; simpl in *; unfold answer_send in *; simplify_eq/=;
    repeat (case_match; simplify_eq/=); done.
Qed.

(** Messages that arrive meanwhile do not change a step. *)
Lemma handle_arrive {X} (e : rtcE X) ms w x w' :
  open_channel w → handle X e w = Some (x, w') → handle X e (arrive ms w) = Some (x, arrive ms w').
Proof.
  unfold open_channel. intros Hopen Hh. destruct e; simpl in *; unfold answer_send in *; simplify_eq/=;
    repeat (case_match; simplify_eq/=); done.
Qed.

Lemma task_step_closed {R} (t : itree rtcE R) w t' w' :
  task_step t w = Some (t', w') → closed w' = closed w.
Proof.
  unfold task_step. destruct (observe t) as [r|t0|X e k]; intros Hs; simplify_eq; [done|].
  destruct (handle X e w) as [[x w1]|] eqn:Hh; simplify_eq/=. by eapply handle_closed.
Qed.

Lemma task_step_arrive {R} (t : itree rtcE R) ms w t' w' :
  open_channel w → task_step t w = Some (t', w') →
  task_step t (arrive ms w) = Some (t', arrive ms w').
Proof.
  unfold task_step. intros Hopen. destruct (observe t) as [r|t0|X e k]; intros Hs; simplify_eq; [done|].
  destruct (handle X e w) as [[x w1]|] eqn:Hh; simplify_eq/=. by rewrite (handle_arrive e ms w x w').
Qed.

(** The channel of a task has just been opened. *)
Definition fresh (w : env) : Prop := inbox w = [] ∧ closed w = false.

Section confluence.
Context {A B : Type}.
Implicit Types p : Pair A B.

Definition open_pair (p : Pair A B) : Prop := open_channel (pr_left_env p) ∧ open_channel (pr_right_env p).

Lemma pair_step_open s p p' : open_pair p → pair_step s p = Some p' → open_pair p'.
Proof.
  intros [HL HR] Hs. destruct s; simpl in Hs; unfold open_pair, open_channel in *.
  - destruct (task_step (pr_left p) _) as [[t w]|] eqn:Ht; simplify_eq/=.
    by rewrite (task_step_closed _ _ _ _ Ht).
  - destruct (task_step (pr_right p) _) as [[t w]|] eqn:Ht; simplify_eq/=.
    by rewrite (task_step_closed _ _ _ _ Ht).
Qed.

(** Steps of different sides commute. *)
Lemma pair_diamond p p1 p2 :
  open_pair p → pair_step LeftSide p = Some p1 → pair_step RightSide p = Some p2 →
  ∃ p3, pair_step RightSide p1 = Some p3 ∧ pair_step LeftSide p2 = Some p3.
Proof.
  intros [HL HR] H1 H2. simpl in *.
  destruct (task_step (pr_left p) _) as [[tl wl]|] eqn:Hl; simplify_eq/=.
  destruct (task_step (pr_right p) _) as [[tr wr]|] eqn:Hr; simplify_eq/=.
  rewrite (task_step_arrive _ _ _ _ _ HL Hl), (task_step_arrive _ _ _ _ _ HR Hr). simpl. eauto.
Qed.

Lemma pair_commutes s1 s2 p p1 p2 :
  open_pair p → s1 ≠ s2 → pair_step s1 p = Some p1 → pair_step s2 p = Some p2 →
  ∃ p3, pair_step s2 p1 = Some p3 ∧ pair_step s1 p2 = Some p3.
Proof.
  intros Ho Hne H1 H2. destruct s1, s2; try done.
  - by eapply pair_diamond.
  - destruct (pair_diamond p p2 p1) as (p3 & ? & ?); eauto.
Qed.

(** A run that ends still ends, one step later, after any first step. *)
Lemma run_pair_strip schedule p q s p1 :
  open_pair p → run_pair schedule p = Some q → halted q → pair_step s p = Some p1 →
  ∃ schedule', run_pair schedule' p1 = Some q ∧ length schedule = S (length schedule').
Proof.
  revert p p1. induction schedule as [|s' schedule IH]; intros p p1 Ho Hrun Hq Hs; simplify_eq/=.
  - by rewrite Hq in Hs.
  - destruct (pair_step s' p) as [p'|] eqn:Hs'; simplify_eq/=.
    destruct (decide (s' = s)) as [->|Hne].
    + simplify_eq. eauto.
    + destruct (pair_commutes s' s p p' p1) as (p3 & Hp3 & Hp3'); try done.
      destruct (IH p' p3) as (schedule' & Hrun' & Hlen); [by eapply pair_step_open|done..|].
      exists (s' :: schedule'). simpl. rewrite Hp3'. split; [done|]. by f_equal.
Qed.

Lemma run_pair_confluent schedule1 schedule2 p q p' :
  open_pair p → run_pair schedule1 p = Some q → halted q → run_pair schedule2 p = Some p' →
  ∃ rest, run_pair rest p' = Some q ∧ length schedule1 = length schedule2 + length rest.
Proof.
  revert schedule1 p. induction schedule2 as [|s schedule2 IH]; intros schedule1 p Ho Hrun Hq Hrun'.
  - simplify_eq/=. eauto.
  - simpl in Hrun'. destruct (pair_step s p) as [p1|] eqn:Hs; simplify_eq/=.
    destruct (run_pair_strip schedule1 p q s p1) as (schedule1' & Hrun1 & ->); try done.
    destruct (IH schedule1' p1) as (rest & Hrest & ->); try done; [by eapply pair_step_open|].
    exists rest. split; [done|]. simpl. lia.
Qed.

Lemma always_ends_intro p Q : open_pair p → can_end p Q → always_ends p Q.
Proof.
  intros Ho (schedule & q & Hrun & Hq & HQ). exists (length schedule). intros schedule' p' Hrun'.
  destruct (run_pair_confluent schedule schedule' p q p') as (rest & Hrest & Hlen); try done.
  split; [lia|]. intros Hp'. destruct rest as [|s rest]; simplify_eq/=; [done|].
  by rewrite Hp' in Hrest.
Qed.
End confluence.

(** ** Making a schedule *)

Lemma task_step_log {R} (t : itree rtcE R) w t' w' :
  task_step t w = Some (t', w') → ∃ l, log w' = log w ++ l.
Proof.
  unfold task_step. destruct (observe t) as [r|t0|X e k]; intros Hs; simplify_eq.
  - exists []. by rewrite app_nil_r.
  - destruct (handle X e w) as [[x w1]|] eqn:Hh; simplify_eq/=.
    apply (handle_logs (λ _, True)) in Hh as (l & Hl & _); [by exists l|by destruct e].
Qed.

Lemma steps_log {R} (t : itree rtcE R) w t' w' : steps t w t' w' → ∃ l, log w' = log w ++ l.
Proof.
  induction 1 as [t t' w Ho|t w t1 w1 t' w' [l Hl]%task_step_log _ [l' Hl']].
  - exists []. by rewrite app_nil_r.
  - exists (l ++ l'). by rewrite Hl', Hl, app_assoc.
Qed.

Lemma new_messages_app w w' l : log w' = log w ++ l → new_messages w w' = sent l.
Proof. intros Hl. unfold new_messages. by rewrite Hl, drop_app_length. Qed.

Lemma arrive_nil w : arrive [] w = w.
Proof. unfold arrive, set_inbox. rewrite app_nil_r. by destruct w. Qed.

Lemma arrive_arrive ms1 ms2 w : arrive ms2 (arrive ms1 w) = arrive (ms1 ++ ms2) w.
Proof. unfold arrive, set_inbox. simpl. by rewrite app_assoc. Qed.

Section schedules.
Context {A B : Type}.
Implicit Types Q : option A → env → option B → env → Prop.

(** Pairs whose trees are observed alike. *)
Definition alike (p q : Pair A B) : Prop :=
  observe (pr_left p) = observe (pr_left q) ∧ pr_left_env p = pr_left_env q ∧
  observe (pr_right p) = observe (pr_right q) ∧ pr_right_env p = pr_right_env q.

Lemma pair_step_alike s p q :
  alike p q →
  match pair_step s p, pair_step s q with
  | Some p', Some q' => alike p' q'
  | None, None => True
  | _, _ => False
  end.
Proof.
  intros (Hl & Hwl & Hr & Hwr). destruct s; simpl.
  - rewrite (task_step_observe _ (pr_left q)), Hwl, Hwr by done.
    by destruct (task_step _ _) as [[t w]|].
  - rewrite (task_step_observe _ (pr_right q)), Hwl, Hwr by done.
    by destruct (task_step _ _) as [[t w]|].
Qed.

Lemma can_end_alike p q Q : alike p q → can_end p Q → can_end q Q.
Proof.
  intros Hpq (schedule & p' & Hrun & Hp' & HQ). revert p q Hpq Hrun.
  induction schedule as [|s schedule IH]; intros p q Hpq Hrun; simplify_eq/=.
  - exists [], q. split_and!; [done|..].
    + intros s. pose proof (pair_step_alike s _ _ Hpq) as Hs. rewrite Hp' in Hs. by case_match.
    + destruct Hpq as (Hl & Hwl & Hr & Hwr). unfold holds_at in *.
      by rewrite <- (result_observe _ _ Hl), <- (result_observe _ _ Hr), <- Hwl, <- Hwr.
  - pose proof (pair_step_alike s _ _ Hpq) as Hs.
    destruct (pair_step s p) as [p1|]; [|done]. simpl in Hrun.
    destruct (pair_step s q) as [q1|] eqn:Hq; [|done].
    destruct (IH p1 q1 Hs Hrun) as (schedule' & q' & Hrun' & ?). exists (s :: schedule'), q'.
    simpl. by rewrite Hq.
Qed.

Lemma can_end_next s p p' Q : pair_step s p = Some p' → can_end p' Q → can_end p Q.
Proof.
  intros Hs (schedule & q & Hrun & ?). exists (s :: schedule), q. simpl. by rewrite Hs.
Qed.

(** One side goes on as long as it likes. *)
Lemma can_end_left t w t' w' l u v Q :
  steps t w t' w' → log w' = log w ++ l → can_end (mk_Pair t' w' u (arrive (sent l) v)) Q →
  can_end (mk_Pair t w u v) Q.
Proof.
  intros Ht. revert l v. induction Ht as [t t' w Ho|t w t1 w1 t' w' Hs Ht IH]; intros l v Hl Hend.
  - rewrite <- (app_nil_r (log w)) in Hl at 1. apply app_inv_head in Hl as <-.
    rewrite arrive_nil in Hend. eapply can_end_alike; [|done]. by split_and!.
  - destruct (task_step_log _ _ _ _ Hs) as [l1 Hl1]. destruct (steps_log _ _ _ _ Ht) as [l2 Hl2].
    eapply (can_end_next LeftSide); [simpl; by rewrite Hs|]. simpl.
    rewrite (new_messages_app _ _ _ Hl1). apply (IH l2); [done|]. rewrite arrive_arrive, <- sent_app.
    rewrite Hl2, Hl1, <- app_assoc in Hl. by apply app_inv_head in Hl as ->.
Qed.

Lemma can_end_returned a w b v Q : Q (Some a) w (Some b) v → can_end (mk_Pair (Ret a) w (Ret b) v) Q.
Proof. intros HQ. exists [], (mk_Pair (Ret a) w (Ret b) v). split_and!; [done|by intros []|done]. Qed.

Lemma always_ends_impl p Q Q' :
  (∀ a w b v, Q a w b v → Q' a w b v) → always_ends p Q → always_ends p Q'.
Proof.
  intros HQ [n Hn]. exists n. intros schedule p' Hrun. destruct (Hn _ _ Hrun) as [Hlen Hend].
  split; [done|]. intros Hp'. by apply HQ, Hend.
Qed.

Lemma can_end_impl p Q Q' : (∀ a w b v, Q a w b v → Q' a w b v) → can_end p Q → can_end p Q'.
Proof. intros HQ (schedule & p' & ? & ? & ?). exists schedule, p'. split_and!; auto. by apply HQ. Qed.
End schedules.

(** Left and right can be exchanged. *)
Definition swap {A B} (p : Pair A B) : Pair B A :=
  mk_Pair (pr_right p) (pr_right_env p) (pr_left p) (pr_left_env p).

Definition other (s : Side) : Side := match s with LeftSide => RightSide | RightSide => LeftSide end.

Lemma pair_step_swap {A B} s (p : Pair A B) : pair_step (other s) (swap p) = swap <$> pair_step s p.
Proof. destruct s; simpl; by destruct (task_step _ _) as [[t w]|]. Qed.

Lemma can_end_swap {A B} (p : Pair A B) Q : can_end (swap p) (λ b v a w, Q a w b v) → can_end p Q.
Proof.
  intros (schedule & q & Hrun & Hq & HQ). exists (other <$> schedule), (swap q). split_and!.
  - clear Hq HQ. revert p Hrun. induction schedule as [|s schedule IH]; intros p Hrun; simplify_eq/=.
    + by destruct p.
    + pose proof (pair_step_swap (other s) p) as Hs. replace (other (other s)) with s in Hs by by destruct s.
      rewrite Hs in Hrun. destruct (pair_step (other s) p) as [p1|]; simplify_eq/=. by apply IH.
  - intros s. pose proof (pair_step_swap (other s) q) as Hs.
    replace (other (other s)) with s in Hs by by destruct s. by rewrite Hs, Hq.
  - exact HQ.
Qed.

Section sides.
Context {A B : Type}.
Implicit Types Q : option A → env → option B → env → Prop.

Lemma can_end_right t w t' w' l u v Q :
  steps t w t' w' → log w' = log w ++ l → can_end (mk_Pair u (arrive (sent l) v) t' w') Q →
  can_end (mk_Pair u v t w) Q.
Proof.
  intros Ht Hl Hend. apply can_end_swap. eapply can_end_left; [exact Ht|exact Hl|].
  by apply (can_end_swap (mk_Pair t' w' u (arrive (sent l) v)) (λ b v a w, Q a w b v)).
Qed.

End sides.

Section parts.
Context {A B : Type}.

(** A first part returns, in the state [adv ms l w0]. *)
Lemma can_end_left_Ok {R} (t : rtc R) (k : R → itree rtcE (anyres A)) w a ms l w0 u v
    (Q : option (anyres A) → env → option B → env → Prop) :
  exec t w (Some (Ok a)) (adv ms l w0) → log w = log w0 →
  can_end (mk_Pair (k a) (adv ms l w0) u (arrive (sent l) v)) Q → can_end (mk_Pair (tbind t k) w u v) Q.
Proof. intros Ht Hw. eapply can_end_left; [by apply steps_tbind_Ok|]. simpl. by rewrite Hw. Qed.

Lemma can_end_right_Ok {R} (t : rtc R) (k : R → itree rtcE (anyres B)) w b ms l w0 u v
    (Q : option A → env → option (anyres B) → env → Prop) :
  exec t w (Some (Ok b)) (adv ms l w0) → log w = log w0 →
  can_end (mk_Pair u (arrive (sent l) v) (k b) (adv ms l w0)) Q → can_end (mk_Pair u v (tbind t k) w) Q.
Proof. intros Ht Hw. eapply can_end_right; [by apply steps_tbind_Ok|]. simpl. by rewrite Hw. Qed.
End parts.

Lemma arrive_adv ms' ms l w : arrive ms' (adv ms l w) = adv (ms ++ ms') l w.
Proof. done. Qed.

Lemma adv_here w : inbox w = [] → adv [] [] w = w.
Proof. intros Hin. pose proof (adv_nil w) as Hw. by rewrite Hin in Hw. Qed.

(** What arrives and is read at once leaves no trace. *)
Lemma adv_arrive ms w : inbox w = [] → adv [] [] (arrive ms w) = w.
Proof. intros Hin. rewrite <- (adv_here w Hin) at 2. done. Qed.

Lemma arrive_inbox ms w : inbox w = [] → inbox (arrive ms w) = ms.
Proof. intros Hin. unfold arrive. simpl. by rewrite Hin. Qed.

Lemma arrive_healthy ms w : healthy w → healthy (arrive ms w).
Proof. by intros [? ? ? ?]; constructor. Qed.

#[export] Hint Resolve arrive_healthy : rtc.
