(* ===== verification/RtcChallenge.v ===== *)
(** * PIN challenges

    The two loops of a challenge, [verify_pin] of the side that asks and
    [handle_pin] of the side that guesses, run against each other on one data
    channel, whichever peer asks: the receiver sends its notices as texts, the
    sender in chunks. *)

From ITree Require Import ITree.
From S2P Require Import Prelude Serde Crypto RtcTypes Interaction Rtc RtcEnv RtcRoutines RtcSafety RtcPair.
Local Open Scope Z_scope.

Lemma set_inbox_healthy ms w : healthy w → healthy (set_inbox ms w).
Proof. by intros [? ? ? ?]; constructor. Qed.

Lemma adv_set_pins ms l ps w : adv ms l (set_pins ps w) = set_pins ps (adv ms l w).
Proof. done. Qed.

Lemma set_pins_twice ps qs w : set_pins ps (set_pins qs w) = set_pins ps w.
Proof. done. Qed.

Lemma set_pins_healthy ps w : healthy w → healthy (set_pins ps w).
Proof. by intros [? ? ? ?]; constructor. Qed.

#[export] Hint Resolve set_inbox_healthy set_pins_healthy : rtc.

Lemma sent_Sent ms : sent (Sent <$> ms) = ms.
Proof. induction ms as [|m ms IH]; [done|]. cbn. by f_equal. Qed.

Section chunked.
Context `{TokenCrypto, Base64, RtcCodec, !RtcCodecLaws}.

(** A text in chunks and its delimiter. *)
Definition chunked (s : string) : list DataChannelMessage :=
  (binary_message <$> chunks (as_bytes s)) ++ [text_message DELIMITER].

Lemma exec_send_chunked s w :
  healthy w →
  exec (act! send_string_in_chunks s send_binary in send_delimiter) w (Some (Ok ()))
    (adv (inbox w) (Sent <$> chunked s) w).
Proof.
  intros Hw. eapply runs_tbind; [by apply exec_send_string_in_chunks|].
  pose proof (exec_send_text _ (adv_healthy (inbox w) (send_chunks (as_bytes s)) w Hw) DELIMITER) as Hs.
  rewrite adv_adv in Hs. unfold chunked. rewrite fmap_app, <- list_fmap_compose. exact Hs.
Qed.

Lemma exec_receive_chunked s w ms :
  inbox w = chunked s ++ ms → exec receive_string_from_chunks w (Some (Ok (as_bytes s))) (adv ms [] w).
Proof.
  unfold chunked. rewrite <- app_assoc. intros Hin.
  rewrite <- (chunks_concat (as_bytes s)) at 1.
  by apply (exec_receive_string _ (text_message DELIMITER)).
Qed.
End chunked.

(** ** The side that asks *)

Section verify.
Context `{TokenCrypto, Base64, RtcCodec, !RtcCodecLaws}.

(** How this side sends its notices and its refusal. *)
Context (send_result : VerifyPinResult → rtc ()) (notice refusal : list DataChannelMessage).
Hypothesis send_notice : ∀ w, healthy w →
  exec (send_result VerifyPinRequired) w (Some (Ok ())) (adv (inbox w) (Sent <$> notice) w).
Hypothesis send_refusal : ∀ w, healthy w →
  exec (send_result VerifyTooManyAttempts) w (Some (Ok ())) (adv (inbox w) (Sent <$> refusal) w).

(** The notice of a round: before the first guess only when asked for. *)
Definition round_notice (initial : bool) (tries : Z) : list action :=
  if initial || bool_decide (0 < tries) then Sent <$> notice else [].

Lemma round_notice_again tries : 0 < tries → round_notice false tries = Sent <$> notice.
Proof using. intros Htries. unfold round_notice. by rewrite bool_decide_true. Qed.

(** The rest of a round of [verify_pin], once the notice is sent. *)
Definition read_guess (tries : Z) : rtc (string * Z * bool + ()) :=
  do! msg := recv in
  match msg with
  | Some msg =>
      do! pin_req := done (parse (data msg)) in
      do! pin_try := done (u8_succ tries) in
      ret (inl (pm_pin pin_req, pin_try, false))
  | None => fail "Failed to receive pin"
  end.

Lemma steps_round p rp tries initial w :
  healthy w → rp ≠ pc_pin p → tries < pc_max_tries p →
  steps (verify_pin_round p send_result (rp, tries, initial)) w (read_guess tries)
    (adv (inbox w) (round_notice initial tries) w).
Proof.
  intros Hw Hrp Htries. unfold verify_pin_round.
  rewrite decide_False by done. rewrite decide_False by lia.
  apply (steps_tbind_Ok _ (λ _, read_guess tries) w ()).
  unfold round_notice. destruct (_ || _); [by apply send_notice|]. rewrite adv_nil. apply runs_ret.
Qed.

Lemma exec_read_guess p tries g w ms :
  pin_config_ok p → 0 ≤ tries < pc_max_tries p → inbox w = pin_text g :: ms →
  exec (read_guess tries) w (Some (Ok (inl (g, tries + 1, false)))) (adv ms [] w).
Proof.
  intros [_ Hmax] Htries Hin. eapply runs_tbind; [by apply exec_recv|]. cbn.
  fold (as_bytes (to_json (mk_RTCPinMessage g))). rewrite parse_to_json.
  eapply runs_tbind; [apply runs_done|]. unfold u8_succ. rewrite decide_True by lia.
  eapply runs_tbind; [apply runs_done|]. apply runs_ret.
Qed.

(** The last round, when the last guess was the PIN, and when it was wrong. *)
Lemma exec_round_found p tries initial w :
  exec (verify_pin_round p send_result (pc_pin p, tries, initial)) w (Some (Ok (inr ()))) w.
Proof. unfold verify_pin_round. rewrite decide_True by done. apply runs_ret. Qed.

Lemma exec_round_exhausted p g tries initial w :
  healthy w → g ≠ pc_pin p → pc_max_tries p ≤ tries →
  exec (verify_pin_round p send_result (g, tries, initial)) w (Some (Err "Too many requests"))
    (adv (inbox w) ((Sent <$> refusal) ++ [Reported TooManyAttempts]) w).
Proof.
  intros Hw Hg Htries. unfold verify_pin_round. rewrite decide_False by done. rewrite decide_True by lia.
  eapply runs_tbind; [by apply runs_attempt_Ok, send_refusal|].
  eapply runs_tbind; [apply exec_wait_buffer_empty_timeout; auto with rtc|].
  eapply runs_tbind; [apply exec_send_status; auto with rtc|]. rewrite adv_adv. apply runs_fail.
Qed.

(** The notices of [n] rounds after the first. *)
Definition notices (n : nat) : list action := concat (replicate n (Sent <$> notice)).

(** The guesses that meet the challenge: some wrong ones, and the PIN. *)
Definition pin_met (p : PinConfig) (gs : list string) : Prop :=
  pin_config_ok p ∧ pc_pin p ≠ "" ∧ Forall (λ g, g ≠ pc_pin p) gs ∧
  Z.of_nat (length gs) < pc_max_tries p.

Definition verify_log (initial : bool) (n : nat) : list action :=
  [Reported PinRequired] ++ (if initial then Sent <$> notice else []) ++ notices n.

(** [verify_pin] up to its first guess. *)
Lemma steps_verify_pin p initial w :
  healthy w → pin_config_ok p → pc_pin p ≠ "" → 0 < pc_max_tries p →
  steps (verify_pin p initial send_result) w
    (loop_from (verify_pin_round p send_result) (read_guess 0)) (adv (inbox w) (verify_log initial 0) w).
Proof.
  intros Hw Hp Hne Hmax. eapply steps_trans; [by apply steps_tbind_Ok, exec_send_status|].
  eapply steps_trans; [apply steps_loop, steps_round; [auto with rtc|congruence|done]|].
  unfold round_notice, verify_log, notices. rewrite adv_adv. simpl.
  rewrite orb_false_r, app_nil_r. by apply steps_here.
Qed.
End verify.

(** ** The side that guesses *)

Section guess.
Context `{TokenCrypto, Base64, RtcCodec, !RtcCodecLaws}.

Definition guess_log (g : string) : list action :=
  [Reported PinRequired; PinAsked; Sent (pin_text g)].

Lemma sent_guesses gs : sent (gs ≫= guess_log) = pin_text <$> gs.
Proof. induction gs as [|g gs IH]; [done|]. by rewrite bind_cons, sent_app, IH. Qed.

Context {T : Type} (receive_in_chunks : bool) (parse_response : bytes → ChallengePinResult T).

(** The messages of an answer to a guess. *)
Definition answer_messages (s : string) : list DataChannelMessage :=
  if receive_in_chunks then chunked s else [text_message s].

(** The rest of [send_pin_guess], once the guess is sent. *)
Definition receive_answer : rtc bytes :=
  if receive_in_chunks then receive_string_from_chunks
  else
    do! init_status := recv in
    match init_status with
    | None => fail "Failed to receive initial message"
    | Some init_status =>
        if negb (is_string init_status) then fail "Expected string message"
        else ret (data init_status)
    end.

Lemma steps_guess g ps w :
  healthy w → pins w = Some (Some g) :: ps →
  steps (send_pin_guess receive_in_chunks) w receive_answer
    (adv (inbox w) (guess_log g) (set_pins ps w)).
Proof.
  intros Hw Hpins. eapply steps_trans; [by apply steps_tbind_Ok, exec_send_status|].
  eapply steps_trans.
  { apply (steps_tbind_Ok _ _ _ (Some (Some g)) (adv (inbox w) [Reported PinRequired; PinAsked] (set_pins ps w))).
    apply runs_call. simpl. rewrite Hpins. unfold note, adv, set_inbox, set_log, set_pins. simpl.
    by rewrite <- app_assoc. }
  eapply steps_trans; [by apply steps_tbind_Ok, exec_send_text, adv_healthy, set_pins_healthy|].
  rewrite adv_adv. by apply steps_here.
Qed.

Lemma exec_answer s w ms :
  inbox w = answer_messages s ++ ms → exec receive_answer w (Some (Ok (as_bytes s))) (adv ms [] w).
Proof.
  unfold answer_messages, receive_answer. intros Hin. destruct receive_in_chunks; cbv iota.
  - by apply exec_receive_chunked.
  - eapply runs_tbind; [by apply exec_recv|]. apply runs_ret.
Qed.

(** The rest of a round of [handle_pin]. *)
Definition judge_answer : rtc (() + T) :=
  do! bytes := receive_answer in
  match parse_response bytes with
  | ChallengeOk result => ret (inr result)
  | ChallengePinRequired => ret (inl ())
  | ChallengeTooManyAttempts => act! send_status TooManyAttempts in fail "Too many requests"
  | ChallengeParseError e => fail e
  end.

Definition guess_round : rtc (() + T) :=
  do! bytes := send_pin_guess receive_in_chunks in
  match parse_response bytes with
  | ChallengeOk result => ret (inr result)
  | ChallengePinRequired => ret (inl ())
  | ChallengeTooManyAttempts => act! send_status TooManyAttempts in fail "Too many requests"
  | ChallengeParseError e => fail e
  end.

(** Waiting for the answer to a guess. *)
Definition guessing : rtc T := loop_from (λ _, guess_round) judge_answer.

Lemma steps_handle_pin g ps w :
  healthy w → pins w = Some (Some g) :: ps →
  steps (handle_pin receive_in_chunks parse_response) w guessing
    (adv (inbox w) (guess_log g) (set_pins ps w)).
Proof. intros Hw Hpins. by apply (steps_loop (λ _, guess_round) ()), steps_tbind, steps_guess. Qed.

Lemma steps_again again w ms :
  parse_response (as_bytes again) = ChallengePinRequired → inbox w = answer_messages again ++ ms →
  steps guessing w (handle_pin receive_in_chunks parse_response) (adv ms [] w).
Proof.
  intros Hagain Hin. apply (steps_loop_next (λ _, guess_round) _ ()).
  eapply runs_tbind; [by apply exec_answer|]. rewrite Hagain. apply runs_ret.
Qed.

Lemma steps_accepted s t w ms :
  parse_response (as_bytes s) = ChallengeOk t → inbox w = answer_messages s ++ ms →
  steps guessing w (ret t) (adv ms [] w).
Proof.
  intros Ht Hin. apply steps_loop_break. eapply runs_tbind; [by apply exec_answer|].
  rewrite Ht. apply runs_ret.
Qed.

Lemma steps_refused refused w ms :
  healthy w → parse_response (as_bytes refused) = ChallengeTooManyAttempts →
  inbox w = answer_messages refused ++ ms →
  steps guessing w (fail "Too many requests") (adv ms [Reported TooManyAttempts] w).
Proof.
  intros Hw Hrefused Hin. apply steps_loop_Err. eapply runs_tbind; [by apply exec_answer|].
  rewrite Hrefused. eapply runs_tbind; [apply exec_send_status; auto with rtc|].
  rewrite adv_adv. apply runs_fail.
Qed.
End guess.

(** ** A challenge *)

Section rounds.
Context `{TokenCrypto, Base64, RtcCodec, laws : !RtcCodecLaws}.

(** The side that guesses, on the left, and how it reads the answers. *)
Context {A B T : Type} (receive_in_chunks : bool) (parse_response : bytes → ChallengePinResult T).
Context (again : string).
Hypothesis parse_again : parse_response (as_bytes again) = ChallengePinRequired.

(** The side that asks, on the right; its notices are read as such. *)
Context (p : PinConfig) (send_result : VerifyPinResult → rtc ()).
Abbreviation notice := (answer_messages receive_in_chunks again).
Hypothesis send_notice : ∀ w, healthy w →
  exec (send_result VerifyPinRequired) w (Some (Ok ())) (adv (inbox w) (Sent <$> notice) w).
Hypothesis pin_ok : pin_config_ok p.

(** What both do afterwards. *)
Context (left : rtc T → itree rtcE A) (right : rtc () → itree rtcE B).
Hypothesis left_steps : ∀ t w t' w', steps t w t' w' → steps (left t) w (left t') w'.
Hypothesis right_steps : ∀ t w t' w', steps t w t' w' → steps (right t) w (right t') w'.
Context (Q : option A → env → option B → env → Prop).

(** The two sides when a guess has been sent and read. *)
Definition judging (g : string) (tries : Z) (wG wA : env) : Pair A B :=
  mk_Pair (left (guessing receive_in_chunks parse_response)) wG
    (right (loop (verify_pin_round p send_result) (g, tries, false))) wA.

(** A guess is sent and read. *)
Lemma guess_read g tries ps wG wA :
  healthy wG → inbox wG = [] → inbox wA = [] → pins wG = Some (Some g) :: ps →
  0 ≤ tries < pc_max_tries p →
  can_end (judging g (tries + 1) (adv [] (guess_log g) (set_pins ps wG)) wA) Q →
  can_end (mk_Pair (left (handle_pin receive_in_chunks parse_response)) wG
             (right (loop_from (verify_pin_round p send_result) (read_guess tries))) wA) Q.
Proof using pin_ok left_steps right_steps laws.
  intros HG HinG HinA Hpins Htries Hend.
  eapply can_end_left; [by apply left_steps, (steps_handle_pin _ _ g ps)|done|]. rewrite HinG.
  eapply (can_end_right _ _ _ _ []).
  { apply right_steps, steps_loop_next. eapply exec_read_guess; [done..|by apply arrive_inbox]. }
  { done. }
  by rewrite arrive_nil, adv_arrive.
Qed.

(** After a wrong guess one more is asked for. *)
Lemma wrong_guess g tries wG wA :
  healthy wA → inbox wG = [] → inbox wA = [] → g ≠ pc_pin p → 0 < tries < pc_max_tries p →
  can_end (mk_Pair (left (handle_pin receive_in_chunks parse_response)) wG
             (right (loop_from (verify_pin_round p send_result) (read_guess tries)))
             (adv [] (Sent <$> notice) wA)) Q →
  can_end (judging g tries wG wA) Q.
Proof using parse_again send_notice left_steps right_steps.
  intros HA HinG HinA Hg Htries Hend. unfold judging.
  eapply can_end_right; [apply right_steps, steps_loop; eapply (steps_round _ notice); try done; lia|done|].
  rewrite round_notice_again, sent_Sent, HinA by lia.
  eapply (can_end_left _ _ _ _ []).
  { apply left_steps, (steps_again _ _ again _ []); [done|]. by rewrite arrive_inbox, app_nil_r. }
  { done. }
  by rewrite arrive_nil, adv_arrive.
Qed.

(** The challenge up to the judgement of the guess [g]. *)
Lemma challenge_rounds gs : ∀ tries g ps wG wA,
  healthy wG → healthy wA → inbox wG = [] → inbox wA = [] →
  pins wG = (Some ∘ Some <$> gs ++ [g]) ++ ps → Forall (λ g, g ≠ pc_pin p) gs →
  0 ≤ tries → tries + Z.of_nat (length gs) < pc_max_tries p →
  can_end (judging g (tries + Z.of_nat (length gs) + 1)
             (adv [] ((gs ++ [g]) ≫= guess_log) (set_pins ps wG))
             (adv [] (notices notice (length gs)) wA)) Q →
  can_end (mk_Pair (left (handle_pin receive_in_chunks parse_response)) wG
             (right (loop_from (verify_pin_round p send_result) (read_guess tries))) wA) Q.
Proof using parse_again send_notice pin_ok left_steps right_steps laws.
  induction gs as [|g0 gs IH]; intros tries g ps wG wA HG HA HinG HinA Hpins Hgs Htries Hmax Hend;
    simpl in Hpins, Hmax.
  - eapply guess_read; [done..|lia|]. rewrite Z.add_0_r in Hend. revert Hend.
    unfold notices. simpl. rewrite <- HinA, adv_nil. done.
  - inversion Hgs; subst. eapply guess_read; [done..|lia|].
    eapply wrong_guess; [done..|lia|].
    eapply (IH (tries + 1) g ps); [auto with rtc..| | |lia|]; try done; [lia|].
    change (set_pins ps (adv [] (guess_log g0) (set_pins _ wG)))
      with (adv [] (guess_log g0) (set_pins ps wG)).
    rewrite !adv_adv.
    replace (tries + 1 + Z.of_nat (length gs) + 1) with (tries + Z.of_nat (length (g0 :: gs)) + 1)
      by (simpl; lia).
    exact Hend.
Qed.
End rounds.

(** ** The challenges of both peers *)

Section peers.
Context `{TokenCrypto, Base64, RtcCodec, !RtcCodecLaws}.

Definition notice_text : DataChannelMessage := text_message (to_json PinReceivingPinRequired).
Definition refused_text : DataChannelMessage := text_message (to_json PinReceivingTooManyAttempts).
Definition accepted_text : DataChannelMessage := text_message (to_json PinReceivingOk).

(** The PIN part of [receive_task]. *)
Definition receiver_pin (p : PinConfig) : rtc () :=
  act! verify_pin p false receiver_send_result in send_text (to_json PinReceivingOk).

(** The log of [receiver_pin], and the messages in it, after [n] wrong guesses
    and the right one. *)
Definition receiver_pin_log (n : nat) : list action :=
  verify_log [notice_text] false n ++ [Sent accepted_text].

Lemma sent_notices notice n : sent (notices notice n) = concat (replicate n notice).
Proof.
  induction n as [|n IH]; [done|]. unfold notices in *. simpl. by rewrite sent_app, sent_Sent, IH.
Qed.

Lemma concat_singletons {A} (x : A) n : concat (replicate n [x]) = replicate n x.
Proof. induction n as [|n IH]; [done|]. simpl. by rewrite IH. Qed.

Lemma sent_receiver_pin_log n : sent (receiver_pin_log n) = replicate n notice_text ++ [accepted_text].
Proof.
  unfold receiver_pin_log, verify_log. rewrite !sent_app, sent_notices, concat_singletons. done.
Qed.

(** The messages by which the sender asks for a PIN and refuses a guess. *)
Definition sender_notice : list DataChannelMessage := chunked (to_json PinSendingPinRequired).
Definition sender_refusal : list DataChannelMessage := chunked (to_json PinSendingTooManyAttempts).

(** *** Challenges that are not met *)

Lemma sent_guess_refused gs : sent ((gs ≫= guess_log) ++ [Reported TooManyAttempts]) = pin_text <$> gs.
Proof. by rewrite sent_app, sent_guesses, app_nil_r. Qed.

Lemma sent_verify_refused notice initial n refusal :
  sent (verify_log notice initial n ++ (Sent <$> refusal) ++ [Reported TooManyAttempts]) =
  (if initial then notice else []) ++ concat (replicate n notice) ++ refusal.
Proof.
  unfold verify_log. rewrite !sent_app, sent_notices, sent_Sent. simpl. rewrite app_nil_r, <- app_assoc.
  by destruct initial; rewrite ?sent_Sent.
Qed.

(** ** Challenges that may be absent *)

(** The guesses by which a challenge is met: some wrong ones and the PIN. *)
Definition pin_guesses (pin : option PinConfig) (gs : list string) : list string :=
  match pin with Some p => gs ++ [pc_pin p] | None => [] end.

Definition challenge_met (pin : option PinConfig) (gs : list string) : Prop :=
  match pin with Some p => pin_met p gs | None => True end.

Definition receiver_challenge (pin : option PinConfig) (gs : list string) : list action :=
  match pin with Some _ => receiver_pin_log (length gs) | None => [] end.

Definition sender_challenge (pin : option PinConfig) (gs : list string) : list action :=
  match pin with Some _ => verify_log sender_notice true (length gs) | None => [] end.

Lemma set_pins_same w : set_pins (pins w) w = w.
Proof. by destruct w. Qed.

Lemma sent_sender_challenge pin gs :
  sent (sender_challenge pin gs) =
  match pin with
  | Some _ => sender_notice ++ concat (replicate (length gs) sender_notice)
  | None => []
  end.
Proof.
  destruct pin as [p|]; [|done]. unfold sender_challenge, verify_log.
  by rewrite !sent_app, sent_Sent, sent_notices.
Qed.

Lemma parse_receiving m :
  parse_pin_receiving (as_bytes (to_json m)) =
  match m with
  | PinReceivingOk => ChallengeOk ()
  | PinReceivingPinRequired => ChallengePinRequired
  | PinReceivingTooManyAttempts => ChallengeTooManyAttempts
  end.
Proof. unfold parse_pin_receiving. rewrite from_to_json. by destruct m. Qed.

Lemma parse_sending m :
  parse_pin_sending (as_bytes (to_json m)) =
  match m with
  | PinSendingOk files => ChallengeOk files
  | PinSendingPinRequired => ChallengePinRequired
  | PinSendingTooManyAttempts => ChallengeTooManyAttempts
  end.
Proof. unfold parse_pin_sending. rewrite from_to_json. by destruct m. Qed.

(** The sender asks first: its notice takes the place of the list of files. *)
Lemma steps_first_notice w ms :
  inbox w = sender_notice ++ ms →
  steps receiver_receive_file_list w (handle_pin true parse_pin_sending) (adv ms [] w).
Proof.
  intros Hin. eapply steps_trans; [by apply steps_tbind_Ok, exec_receive_chunked|].
  rewrite parse_to_json. by apply steps_here.
Qed.

(** How the receiver waits for the list of files, after its last guess if it
    has been asked for a PIN. *)
Definition reading_list (pin : option PinConfig) : rtc (list FileDto) :=
  match pin with Some _ => guessing true parse_pin_sending | None => receiver_receive_file_list end.

Lemma steps_reading_list pin fs w ms :
  inbox w = chunked (to_json (PinSendingOk fs)) ++ ms → steps (reading_list pin) w (ret fs) (adv ms [] w).
Proof.
  intros Hin. destruct pin; simpl.
  - apply (steps_accepted _ _ (to_json (PinSendingOk fs))); [by rewrite parse_sending|done].
  - apply runs_steps. eapply runs_tbind; [by apply exec_receive_chunked|].
    rewrite parse_to_json. eapply runs_tbind; [apply runs_done|]. apply runs_ret.
Qed.
End peers.

(** ** A challenge of the receiver, and one of the sender *)

Section challenges.
Context `{TokenCrypto, Base64, RtcCodec, laws : !RtcCodecLaws}.
Context {A B : Type} (p : PinConfig) (gs : list string) (g : string) (ps : list (option (option string))).
Context (wG wA : env) (Q : option A → env → option B → env → Prop).

(** What the two sides do afterwards. *)
Context (right : rtc () → itree rtcE B) (gets : rtc (list FileDto) → itree rtcE A)
  (guesses : rtc () → itree rtcE A).

(** The guesses are those of the user; all but the last one are wrong. *)
Hypothesis guesser_ready : healthy wG ∧ inbox wG = [] ∧ pins wG = (Some ∘ Some <$> gs ++ [g]) ++ ps.
Hypothesis asker_ready : healthy wA ∧ inbox wA = [].
Hypothesis pin_fine : pin_config_ok p ∧ pc_pin p ≠ "".
Hypothesis wrong_before : Forall (λ g, g ≠ pc_pin p) gs ∧ Z.of_nat (length gs) < pc_max_tries p.

Hypothesis right_steps : ∀ t w t' w', steps t w t' w' → steps (right t) w (right t') w'.
Hypothesis gets_steps : ∀ t w t' w', steps t w t' w' → steps (gets t) w (gets t') w'.
Hypothesis guesses_steps : ∀ t w t' w', steps t w t' w' → steps (guesses t) w (guesses t') w'.

(** The receiver asks: up to the judgement of the last guess. *)
Lemma receiver_challenge_judged :
  can_end (judging false parse_pin_receiving p receiver_send_result guesses
             (λ t, right (act! t in send_text (to_json PinReceivingOk))) g (Z.of_nat (length gs) + 1)
             (adv [] ((gs ++ [g]) ≫= guess_log) (set_pins ps wG))
             (adv [] (verify_log [notice_text] false (length gs)) wA)) Q →
  can_end (mk_Pair (guesses (handle_pin false parse_pin_receiving)) wG (right (receiver_pin p)) wA) Q.
Proof using guesser_ready asker_ready pin_fine wrong_before right_steps guesses_steps laws.
  destruct guesser_ready as (HG & HinG & Hpins), asker_ready as [HA HinA], pin_fine, wrong_before.
  intros Hend. eapply can_end_right.
  { apply right_steps, steps_tbind, (steps_verify_pin _ [notice_text]); try done; [|lia].
    intros w Hw. by apply exec_send_text. }
  { done. }
  simpl sent. rewrite arrive_nil, HinA.
  eapply (challenge_rounds false parse_pin_receiving (to_json PinReceivingPinRequired) ltac:(by rewrite parse_receiving)
    p receiver_send_result) with (gs := gs) (g := g) (ps := ps) (tries := 0)
    (right := λ t, right (act! t in send_text (to_json PinReceivingOk))); try done; auto with rtc; try lia.
  - intros w Hw. by apply exec_send_text.
  - intros. by apply right_steps, steps_tbind.
  - rewrite adv_adv. exact Hend.
Qed.

(** The sender asks. *)
Lemma sender_challenge_judged :
  can_end (judging true parse_pin_sending p sender_send_result gets right g (Z.of_nat (length gs) + 1)
             (adv [] ((gs ++ [g]) ≫= guess_log) (set_pins ps wG))
             (adv [] (verify_log sender_notice true (length gs)) wA)) Q →
  can_end (mk_Pair (gets receiver_receive_file_list) wG
             (right (verify_pin p true sender_send_result)) wA) Q.
Proof using guesser_ready asker_ready pin_fine wrong_before right_steps gets_steps laws.
  destruct guesser_ready as (HG & HinG & Hpins), asker_ready as [HA HinA], pin_fine, wrong_before.
  intros Hend. eapply can_end_right.
  { apply right_steps, (steps_verify_pin _ sender_notice); try done; [|lia].
    intros w Hw. by apply exec_send_chunked. }
  { done. }
  rewrite HinA. eapply (can_end_left _ _ _ _ []).
  { apply gets_steps, (steps_first_notice _ []). rewrite arrive_inbox by done.
    unfold verify_log. by rewrite !sent_app, sent_Sent. }
  { done. }
  rewrite arrive_nil.
  rewrite adv_arrive by done.
  eapply (challenge_rounds true parse_pin_sending (to_json PinSendingPinRequired) ltac:(by rewrite parse_sending)
    p sender_send_result) with (gs := gs) (g := g) (ps := ps) (tries := 0); try done; auto with rtc; try lia.
  - intros w Hw. by apply exec_send_chunked.
  - rewrite adv_adv. unfold verify_log in *. rewrite <- !app_assoc. exact Hend.
Qed.
End challenges.

(** ** Challenges that are met *)

Section met.
Context `{TokenCrypto, Base64, RtcCodec, laws : !RtcCodecLaws}.
Context {A B : Type} (Q : option (anyres A) → env → option (anyres B) → env → Prop).

(** The receiver goes on, and its acceptance lets the sender go on. *)
Lemma receiver_pin_found p gs ps wS wR (left : rtc () → rtc A) (right : rtc () → rtc B) :
  (∀ t w t' w', steps t w t' w' → steps (left t) w (left t') w') →
  (∀ t w t' w', steps t w t' w' → steps (right t) w (right t') w') →
  healthy wS → inbox wS = [] → healthy wR → inbox wR = [] →
  pins wS = (Some ∘ Some <$> gs ++ [pc_pin p]) ++ ps → pin_met p gs →
  can_end (mk_Pair (left (ret ())) (adv [] ((gs ++ [pc_pin p]) ≫= guess_log) (set_pins ps wS))
             (right (ret ())) (adv [] (receiver_pin_log (length gs)) wR)) Q →
  can_end (mk_Pair (left (handle_pin false parse_pin_receiving)) wS (right (receiver_pin p)) wR) Q.
Proof using laws.
  intros Hl Hr HS HinS HR HinR Hpins (Hp & Hne & Hgs & Hmax) Hend.
  eapply (receiver_challenge_judged p gs (pc_pin p) ps wS wR Q right left); try done.
  eapply can_end_right.
  { apply Hr, runs_steps. eapply runs_tbind; [apply runs_loop_break, exec_round_found|].
    apply exec_send_text. auto with rtc. }
  { done. }
  rewrite adv_adv. eapply (can_end_left _ _ _ _ []).
  { apply Hl, (steps_accepted _ _ (to_json PinReceivingOk) () _ []); [by rewrite parse_receiving|done]. }
  { simpl. by rewrite app_nil_r. }
  rewrite arrive_nil, arrive_adv, adv_adv, app_nil_r. exact Hend.
Qed.

Lemma receiver_challenge_met pin gs ps wS wR (left : () → rtc A) (right : () → rtc B) :
  healthy wS → inbox wS = [] → healthy wR → inbox wR = [] →
  pins wS = (Some ∘ Some <$> pin_guesses pin gs) ++ ps → challenge_met pin gs →
  can_end (mk_Pair (left ()) (adv [] (pin_guesses pin gs ≫= guess_log) (set_pins ps wS))
             (right ()) (adv [] (receiver_challenge pin gs) wR)) Q →
  can_end (mk_Pair
    (tbind (if bool_decide (is_Some pin) then handle_pin false parse_pin_receiving else ret ()) left) wS
    (tbind (match pin with Some pin => receiver_pin pin | None => ret () end) right) wR) Q.
Proof using laws.
  intros HS HinS HR HinR Hpins Hmet Hend. destruct pin as [p|].
  - rewrite bool_decide_true by done.
    apply (receiver_pin_found p gs ps _ _ (λ t, tbind t left) (λ t, tbind t right));
      [auto using steps_tbind..|]. by eapply can_end_alike; [|exact Hend].
  - simpl in Hpins, Hend. rewrite <- Hpins, set_pins_same, !adv_here in Hend by done.
    by eapply can_end_alike; [|exact Hend].
Qed.

(** The sender goes on, and the receiver waits for the list of files. *)
Lemma sender_challenge_met pin gs ps wS wR (left : () → rtc A) (right : list FileDto → rtc B) :
  healthy wS → inbox wS = [] → healthy wR → inbox wR = [] →
  pins wR = (Some ∘ Some <$> pin_guesses pin gs) ++ ps → challenge_met pin gs →
  can_end (mk_Pair (left ()) (adv [] (sender_challenge pin gs) wS)
             (tbind (reading_list pin) right)
             (adv [] (pin_guesses pin gs ≫= guess_log) (set_pins ps wR))) Q →
  can_end (mk_Pair
    (tbind (match pin with Some pin => verify_pin pin true sender_send_result | None => ret () end) left) wS
    (tbind receiver_receive_file_list right) wR) Q.
Proof using laws.
  intros HS HinS HR HinR Hpins Hmet Hend. destruct pin as [p|].
  - destruct Hmet as (Hp & Hne & Hgs & Hmax). apply can_end_swap.
    eapply (sender_challenge_judged p gs (pc_pin p) ps wR wS _ (λ t, tbind t left) (λ t, tbind t right)); try done;
      [auto using steps_tbind..|].
    eapply (can_end_right _ _ _ _ []).
    { eapply steps_tbind_Ok, runs_loop_break, exec_round_found. }
    { by rewrite app_nil_r. }
    rewrite arrive_nil. by apply (can_end_swap (mk_Pair _ _ _ _)).
  - simpl in Hpins, Hend. rewrite <- Hpins, set_pins_same, !adv_here in Hend by done.
    by eapply can_end_alike; [|exact Hend].
Qed.
End met.
