(* ===== verification/RtcSession.v ===== *)
(** * Whole sessions between two honest peers

    Every phase of [send_task] and [receive_task] when the other peer follows
    the protocol, and the two tasks run against each other on one data channel:
    what one of them sends arrives at the other one, in any interleaving of
    their steps. *)

From S2P Require Import Prelude Serde Crypto CryptoProps RtcTypes Interaction Rtc RtcEnv.
From S2P Require Import RtcRoutines RtcSafety RtcPair RtcTransfer RtcChallenge.

Lemma adv_set_nonces ms l ns w : adv ms l (set_nonces ns w) = set_nonces ns (adv ms l w).
Proof. done. Qed.

Lemma adv_set_uuids ms l us w : adv ms l (set_uuids us w) = set_uuids us (adv ms l w).
Proof. done. Qed.

Lemma set_nonces_healthy ns w : healthy w → healthy (set_nonces ns w).
Proof. by intros [? ? ? ?]; constructor. Qed.

Lemma set_uuids_healthy us w : healthy w → healthy (set_uuids us w).
Proof. by intros [? ? ? ?]; constructor. Qed.

#[export] Hint Resolve set_nonces_healthy set_uuids_healthy : rtc.

Section phases.
Context `{TokenCrypto, Base64, RtcCodec, !Base64Laws, !RtcCodecLaws}.

Lemma exec_map_err {A} f (t : rtc A) w a w' :
  exec t w (Some (Ok a)) w' → exec (map_err f t) w (Some (Ok a)) w'.
Proof. intros Ht. eapply runs_bind; [exact Ht|]. by apply runs_Ret. Qed.

(** ** Nonces *)

Lemma exec_generate_nonce w :
  exec (call GenerateNonce) w (Some (Ok (next_nonce w))) (set_nonces (tail (nonces w)) w).
Proof. apply runs_call. unfold next_nonce. simpl. destruct w; simpl. by destruct nonces. Qed.

Lemma exec_receive_nonce n w ms :
  validate_nonce n = true → inbox w = nonce_text n :: ms →
  exec receive_nonce w (Some (Ok n)) (adv ms [] w).
Proof.
  intros Hn Hin. eapply runs_tbind; [by apply exec_recv|]. cbn.
  fold (as_bytes (to_json (mk_RTCNonceMessage (b64_encode n)))). rewrite parse_to_json.
  eapply runs_tbind; [apply runs_done|]. simpl. rewrite b64_decode_encode.
  eapply runs_tbind; [apply runs_done|]. rewrite Hn. apply runs_ret.
Qed.

(** The sender of a nonce, up to the nonce of the other peer. *)
Definition reading_nonce (local_nonce : bytes) : rtc bytes :=
  do! remote_nonce := receive_nonce in ret (local_nonce ++ remote_nonce).

Lemma steps_sender_nonce w :
  healthy w →
  steps sender_nonce_exchange w (reading_nonce (next_nonce w))
    (adv (inbox w) [Sent (nonce_text (next_nonce w))] (set_nonces (tail (nonces w)) w)).
Proof.
  intros Hw. eapply steps_trans; [apply steps_tbind_Ok, exec_generate_nonce|].
  eapply steps_trans; [apply steps_tbind_Ok, exec_map_err, exec_send_text; auto with rtc|].
  by apply steps_here.
Qed.

Lemma exec_reading_nonce local n w ms :
  validate_nonce n = true → inbox w = nonce_text n :: ms →
  exec (reading_nonce local) w (Some (Ok (local ++ n))) (adv ms [] w).
Proof.
  intros Hn Hin. eapply runs_tbind; [by apply exec_receive_nonce|]. apply runs_ret.
Qed.

Lemma exec_receiver_nonce n w ms :
  healthy w → validate_nonce n = true → inbox w = nonce_text n :: ms →
  exec receiver_nonce_exchange w (Some (Ok (n ++ next_nonce w)))
    (adv ms [Sent (nonce_text (next_nonce w))] (set_nonces (tail (nonces w)) w)).
Proof.
  intros Hw Hn Hin. eapply runs_tbind; [by apply exec_receive_nonce|].
  eapply runs_tbind; [apply exec_generate_nonce|].
  eapply runs_tbind; [apply exec_map_err, exec_send_text; auto with rtc|].
  change (nonces (adv ms [] w)) with (nonces w).
  rewrite !adv_set_nonces, adv_adv. apply runs_ret.
Qed.

(** ** Tokens *)

(** The answer with the token of the receiver, which also says whether it asks
    for a PIN. *)
Definition token_response_text (pin : option PinConfig) (token : string) : DataChannelMessage :=
  text_message (to_json (match pin with
                         | Some _ => TokenPinRequired token
                         | None => TokenOk token
                         end)).

(** The expected key of a peer, when there is one, accepts the token. *)
Definition accepts (expecting : option VerifyingTokenKey) (nonce : bytes) (token : string) : Prop :=
  ∀ pk, expecting = Some pk → verify_token_nonce pk token nonce = Ok true.

(** [sender_token_exchange] once its own token is sent. *)
Definition reading_token (expecting_public_key : option VerifyingTokenKey) (nonce : bytes)
    : rtc (string * bool) :=
  do! msg := recv in
  do! token_response :=
    match msg with
    | Some msg =>
        if negb (is_string msg) then fail "Expected string message" else done (parse (data msg))
    | None => fail "Failed to receive token response"
    end in
  let verified (token : string) (pin_required : bool) :=
    match expecting_public_key with
    | Some expecting_public_key =>
        do! valid := done (verify_token_nonce expecting_public_key token nonce) in
        if negb valid then fail "Invalid token signature or nonce" else ret (token, pin_required)
    | None => ret (token, pin_required)
    end in
  match token_response with
  | TokenOk token => verified token false
  | TokenPinRequired token => verified token true
  | TokenInvalidSignature => fail "Invalid token signature from receiving peer"
  end.

Lemma steps_sender_token sk expecting nonce token w :
  healthy w → generate_token_nonce sk nonce = Ok token →
  steps (sender_token_exchange sk expecting nonce) w (reading_token expecting nonce)
    (adv (inbox w) [Sent (token_request_text token)] w).
Proof.
  intros Hw Hgen. unfold sender_token_exchange. rewrite Hgen.
  eapply steps_trans; [apply steps_tbind_Ok, runs_done|].
  eapply steps_trans; [by apply steps_tbind_Ok, exec_map_err, exec_send_text|]. by apply steps_here.
Qed.

Lemma exec_reading_token expecting nonce pin token' w ms :
  accepts expecting nonce token' → inbox w = token_response_text pin token' :: ms →
  exec (reading_token expecting nonce) w (Some (Ok (token', bool_decide (is_Some pin)))) (adv ms [] w).
Proof.
  intros Hacc Hin. unfold reading_token.
  eapply runs_tbind; [by apply exec_recv|]. cbn [is_string negb token_response_text text_message data].
  rewrite parse_to_json. eapply runs_tbind; [apply runs_done|].
  destruct pin as [p|]; cbn; (destruct expecting as [pk|]; [|apply runs_ret]);
    (rewrite (Hacc pk) by done; eapply runs_tbind; [apply runs_done|apply runs_ret]).
Qed.

Lemma exec_receiver_token sk expecting nonce pin token token' w ms :
  healthy w → generate_token_nonce sk nonce = Ok token → accepts expecting nonce token' →
  inbox w = token_request_text token' :: ms →
  exec (receiver_token_exchange sk expecting pin nonce) w (Some (Ok ()))
    (adv ms [Sent (token_response_text pin token)] w).
Proof.
  intros Hw Hgen Hacc Hin. unfold receiver_token_exchange. rewrite Hgen.
  eapply runs_tbind; [by apply exec_recv|]. cbn.
  fold (as_bytes (to_json (mk_RTCTokenRequest token'))). rewrite parse_to_json.
  eapply runs_tbind; [eapply runs_tbind; [apply runs_done|apply runs_ret]|]. cbn.
  eapply runs_tbind with (a := ()) (w1 := adv ms [] w).
  { destruct expecting as [pk|]; [|apply runs_ret].
    rewrite (Hacc pk) by done. eapply runs_tbind; [apply runs_done|]. apply runs_ret. }
  eapply runs_tbind; [apply runs_done|]. apply exec_map_err.
  eapply eq_rect with (P := exec _ _ _); [apply exec_send_text; auto with rtc|]. by rewrite adv_adv.
Qed.

(** ** Lists of files *)

(** A text sent in chunks arrives whole: the receiver reads back its bytes
    and leaves what follows the delimiter; no chunk is empty or longer than
    [CHUNK_SIZE]. *)
Theorem text_roundtrip s ws ws' l wr rest :
  healthy ws →
  exec (act! send_string_in_chunks s send_binary in send_delimiter) ws (Some (Ok ())) ws' →
  log ws' = log ws ++ l → inbox wr = sent l ++ rest →
  exec receive_string_from_chunks wr (Some (Ok (as_bytes s))) (adv rest [] wr) ∧
  Forall (λ m, is_string m = false → 0 < length (data m) ≤ CHUNK_SIZE) (sent l).
Proof.
  intros Hw Hex Hl Hin. destruct (runs_det _ Hex (exec_send_chunked s ws Hw)) as [_ ->].
  simpl in Hl. apply app_inv_head in Hl as <-. rewrite sent_Sent in *. split.
  - by apply exec_receive_chunked.
  - unfold chunked. apply Forall_app. split; [|by repeat constructor].
    apply Forall_fmap. eapply Forall_impl; [apply chunks_size|]. by intros c Hc _.
Qed.

Lemma exec_sender_send_file_list fs w :
  healthy w →
  exec (sender_send_file_list fs) w (Some (Ok ()))
    (adv (inbox w) (Sent <$> chunked (to_json (PinSendingOk fs))) w).
Proof.
  intros Hw. unfold sender_send_file_list.
  eapply runs_tbind; [by apply runs_attempt_Ok, exec_send_string_in_chunks|]. cbv iota.
  pose proof (exec_send_text _ (adv_healthy (inbox w)
    (send_chunks (as_bytes (to_json (PinSendingOk fs)))) w Hw) DELIMITER) as Hs.
  rewrite adv_adv in Hs.
  eapply runs_tbind; [apply runs_attempt_Ok; exact Hs|]. cbv iota.
  unfold chunked. rewrite fmap_app, <- list_fmap_compose. apply runs_ret.
Qed.

Lemma exec_sender_selection token nonce tokens w ms :
  inbox w = chunked (to_json (FileListOk tokens)) ++ ms →
  exec (sender_receive_selection token nonce) w (Some (Ok (Some tokens))) (adv ms [] w).
Proof.
  intros Hin. eapply runs_tbind.
  { eapply runs_tbind; [by apply exec_receive_chunked|]. rewrite parse_to_json. apply runs_done. }
  apply runs_ret.
Qed.

(** The tokens drawn for a selection. *)
Fixpoint drawn_tokens (us : list string) (sel : list string) : gmap string string :=
  match sel with
  | [] => ∅
  | id :: sel' => <[id := hd "" us]> (drawn_tokens (tail us) sel')
  end.

Lemma exec_draw_tokens sel w :
  exec (draw_tokens sel) w (Some (Ok (drawn_tokens (uuids w) sel)))
    (set_uuids (drop (length sel) (uuids w)) w).
Proof.
  revert w. induction sel as [|id sel IH]; intros w; simpl.
  - rewrite drop_0. replace (set_uuids (uuids w) w) with w by by destruct w. apply runs_ret.
  - eapply runs_tbind with (a := hd "" (uuids w)) (w1 := set_uuids (tail (uuids w)) w).
    { apply runs_call. simpl. destruct w; simpl. by destruct uuids. }
    eapply runs_tbind; [apply IH|]. simpl.
    replace (set_uuids (drop (length sel) (tail (uuids w))) (set_uuids (tail (uuids w)) w))
      with (set_uuids (drop (S (length sel)) (uuids w)) w); [apply runs_ret|].
    destruct w; simpl. destruct uuids; simpl; by rewrite ?drop_nil.
Qed.

Lemma dom_drawn_tokens us sel : dom (drawn_tokens us sel) =@{gset string} list_to_set sel.
Proof. revert us. induction sel as [|id sel IH]; intros us; simpl; [done|]. rewrite dom_insert_L, IH. done. Qed.

(** ** The two tasks *)

(** The PINs both sides ask for, with the guesses of the other side's user. *)
Record challenges := mk_challenges {
  ch_receiver : option PinConfig;
  ch_sender : option PinConfig;
  ch_sender_guesses : list string;
  ch_receiver_guesses : list string
}.

(** The messages of the guesses of each side, and of its challenge. *)
Definition guesses_of_sender (c : challenges) : list string :=
  pin_guesses (ch_receiver c) (ch_sender_guesses c).
Definition guesses_of_receiver (c : challenges) : list string :=
  pin_guesses (ch_sender c) (ch_receiver_guesses c).
Definition challenge_of_receiver (c : challenges) : list action :=
  receiver_challenge (ch_receiver c) (ch_sender_guesses c).
Definition challenge_of_sender (c : challenges) : list action :=
  sender_challenge (ch_sender c) (ch_receiver_guesses c).

(** What the sender does after the challenges, and what the receiver does once
    it has the list of files. *)
Definition sender_transfer_log (fs : list FileDto) (tokens : gmap string string)
    (content : list (string * list bytes)) : list action :=
  [Reported Connected] ++ (Sent <$> chunked (to_json (PinSendingOk fs))) ++
  [SelectionPublished (dom tokens)] ++
  sender_actions tokens content ++ [Sent (text_message DELIMITER)].

Definition receiver_transfer_log (fs : list FileDto) (tokens : gmap string string)
    (rs : list RTCSendFileResponse) (content : list (string * bytes)) : list action :=
  [Reported Connected; FilesPublished fs] ++
  (Sent <$> chunked (to_json (FileListOk tokens))) ++ receive_actions None rs content.

(** What the sender does once the channel is open, when the tokens [tokens]
    are granted for its files. *)
Definition sender_log (c : challenges) (local token : string) (fs : list FileDto)
    (tokens : gmap string string) (content : list (string * list bytes)) : list action :=
  [Sent (text_message local); Sent (token_request_text token)] ++
  (guesses_of_sender c ≫= guess_log) ++ challenge_of_sender c ++
  sender_transfer_log fs tokens content.

(** What the receiver does once the channel is open, when the user selects the
    files of [tokens] out of [fs]. *)
Definition receiver_log (c : challenges) (local token : string) (fs : list FileDto)
    (tokens : gmap string string) (rs : list RTCSendFileResponse) (content : list (string * bytes))
    : list action :=
  [Sent (text_message local); Sent (token_response_text (ch_receiver c) token)] ++
  challenge_of_receiver c ++ (guesses_of_receiver c ≫= guess_log) ++
  receiver_transfer_log fs tokens rs content.

(** The receiver answers every file with one result. *)
Lemma sent_pieces b l : sent ((DataDelivered <$> chunks b) ++ l) = sent l.
Proof. by induction (chunks b). Qed.

Lemma results_length st rs content :
  length (sent (receive_actions st rs content)) =
  (match st with Some _ => 1 | None => 0 end) + length content.
Proof.
  revert st rs. induction content as [|[id b] content IH]; intros st rs; [by destruct st|].
  simpl. rewrite sent_app. cbn. rewrite sent_pieces, length_app, IH. by destruct st.
Qed.

(** ** The phases of the two tasks *)

Section meetings.
Context {A B : Type} (Q : option (anyres A) → env → option (anyres B) → env → Prop).

(** Nonces and tokens go over; each side reads what the other one has sent. *)
Lemma handshakes_meet skS skR expS expR pin tS tR ws wr
    (left : bytes → string * bool → rtc A) (right : bytes → rtc B) :
  let nonce := next_nonce ws ++ next_nonce wr in
  healthy ws → healthy wr → inbox ws = [] → inbox wr = [] →
  validate_nonce (next_nonce ws) = true → validate_nonce (next_nonce wr) = true →
  generate_token_nonce skS nonce = Ok tS → generate_token_nonce skR nonce = Ok tR →
  accepts expS nonce tR → accepts expR nonce tS →
  can_end (mk_Pair
    (left nonce (tR, bool_decide (is_Some pin)))
    (adv [] [Sent (nonce_text (next_nonce ws)); Sent (token_request_text tS)] (set_nonces (tail (nonces ws)) ws))
    (right nonce)
    (adv [] [Sent (nonce_text (next_nonce wr)); Sent (token_response_text pin tR)]
       (set_nonces (tail (nonces wr)) wr))) Q →
  can_end (mk_Pair
    (do! nonce := sender_nonce_exchange in
     do! answer := sender_token_exchange skS expS nonce in left nonce answer) ws
    (do! nonce := receiver_nonce_exchange in
     act! receiver_token_exchange skR expR pin nonce in right nonce) wr) Q.
Proof.
  intros nonce HS HR HinS HinR HnS HnR HtS HtR HaS HaR Hend.
  eapply can_end_left; [by apply steps_tbind, steps_sender_nonce|done|].
  eapply can_end_right; [apply steps_tbind_Ok, (exec_receiver_nonce (next_nonce ws) _ []);
    [auto with rtc|done|by rewrite arrive_inbox]|done|].
  eapply (can_end_left _ _ _ _ []).
  { apply steps_tbind_Ok, (exec_reading_nonce _ (next_nonce wr) _ []); [done|].
    simpl. by rewrite HinS. }
  { simpl. by rewrite app_nil_r. }
  rewrite arrive_nil, HinS, arrive_adv, adv_adv.
  eapply can_end_left; [by apply steps_tbind, steps_sender_token; auto with rtc|done|].
  eapply can_end_right; [apply steps_tbind_Ok, (exec_receiver_token _ _ _ pin tR tS _ []);
    auto with rtc|done|].
  eapply (can_end_left _ _ _ _ []).
  { by apply steps_tbind_Ok, (exec_reading_token _ _ pin tR _ []). }
  { simpl. by rewrite app_nil_r. }
  rewrite arrive_nil, !arrive_adv, !adv_adv, app_nil_r.
  change (set_nonces (tail (nonces (arrive ?ms wr))) (arrive ?ms wr))
    with (arrive ms (set_nonces (tail (nonces wr)) wr)). exact Hend.
Qed.

(** The rest of [send_task] after the challenges, and of [receive_task] once
    it has the list of files. *)
Definition sender_transfer (files : list FileDto) (nonce : bytes) (remote_token : string) : rtc () :=
  act! send_status Connected in
  act! sender_send_file_list files in
  do! selection := sender_receive_selection remote_token nonce in
  match selection with
  | None => ret ()
  | Some file_map =>
      do! published := call (PublishSelection (dom file_map)) in
      if negb published then fail "Could not publish selection"
      else
        act! sender_send_files file_map in
        act! wait_buffer_empty in
        act! send_delimiter in
        act! recv in
        ret ()
  end.

Definition receiver_transfer (file_list : list FileDto) : rtc () :=
  act! send_status Connected in
  do! published := call (PublishFiles file_list) in
  if negb published then fail "Failed to send file list"
  else
    do! selected_files := call SelectedFiles in
    match selected_files with
    | None => ret ()
    | Some None =>
        act! send_string_in_chunks (to_json FileListDeclined) send_binary in
        send_delimiter
    | Some (Some selected_files) =>
        do! file_tokens := draw_tokens (elements selected_files) in
        act! send_string_in_chunks (to_json (FileListOk file_tokens)) send_binary in
        act! send_delimiter in
        receive_files file_list file_tokens
    end.

(** The files go over. *)
Lemma transfers_meet pinS fs sel nonce token ws wr
    (Q' : option (anyres ()) → env → option (anyres ()) → env → Prop) :
  let tokens := drawn_tokens (uuids wr) (elements sel) in
  let content := granted_files tokens (files ws) in
  healthy ws → healthy wr → inbox ws = [] → inbox wr = [] → listening ws = true → listening wr = true →
  selected wr = Some (Some (Some sel)) → granted fs tokens content → content ≠ [] →
  (∀ ws' wr', length (inbox ws') = length content - 1 → inbox wr' = [] →
     log ws' = log ws ++ sender_transfer_log fs tokens (files ws) →
     log wr' = log wr ++ receiver_transfer_log fs tokens (user_results wr) content →
     Q' (Some (Ok ())) ws' (Some (Ok ())) wr') →
  can_end (mk_Pair (sender_transfer fs nonce token) ws
             (tbind (reading_list pinS) receiver_transfer) wr) Q'.
Proof.
  intros tokens content HS HR HinS HinR HlS HlR Hsel Hgr Hne HQ.
  eapply can_end_left; [by apply steps_tbind_Ok, exec_send_status|done|].
  eapply can_end_left; [apply steps_tbind_Ok, exec_sender_send_file_list; auto with rtc|done|].
  simpl sent. rewrite sent_Sent, arrive_arrive, adv_adv, HinS. simpl app at 1.
  eapply (can_end_right _ _ _ _ []).
  { apply steps_tbind_ret, (steps_reading_list pinS fs _ []). rewrite arrive_inbox, app_nil_r by done. done. }
  { simpl. by rewrite app_nil_r. }
  rewrite arrive_nil, adv_arrive by done.
  eapply can_end_right; [by apply steps_tbind_Ok, exec_send_status|done|].
  eapply can_end_right; [apply steps_tbind_Ok, exec_note; simpl; by rewrite HlR|done|].
  cbn [negb]. cbv iota. rewrite !adv_adv.
  eapply (can_end_right _ _ _ _ []).
  { apply steps_tbind_Ok, runs_call. simpl. by rewrite Hsel. }
  { by rewrite app_nil_r. }
  cbv iota. eapply (can_end_right _ _ _ _ []); [apply steps_tbind_Ok, exec_draw_tokens|by rewrite app_nil_r|].
  rewrite !arrive_nil. change (uuids (adv _ _ wr)) with (uuids wr). fold tokens.
  change (set_uuids ?us (adv ?ms ?l wr)) with (adv ms l (set_uuids us wr)).
  eapply can_end_right; [apply steps_tbind_Ok, exec_send_string_in_chunks; auto with rtc|done|].
  eapply can_end_right; [apply steps_tbind_Ok, exec_send_text; auto with rtc|done|].
  rewrite arrive_arrive, <- sent_app, !adv_adv, !adv_inbox, HinR.
  set (wr1 := set_uuids _ wr). assert (healthy wr1) as HR1 by by apply set_uuids_healthy.
  replace (send_chunks (as_bytes (to_json (FileListOk tokens))) ++ [Sent (text_message DELIMITER)])
    with (Sent <$> chunked (to_json (FileListOk tokens)))
    by (unfold chunked; by rewrite fmap_app, <- list_fmap_compose).
  rewrite sent_Sent, arrive_adv. simpl app at 1.
  eapply (can_end_left _ _ _ _ []).
  { apply steps_tbind_Ok, (exec_sender_selection _ _ tokens _ []). by rewrite app_nil_r. }
  { simpl. by rewrite app_nil_r. }
  cbv iota. rewrite arrive_nil, adv_adv, app_nil_r.
  eapply can_end_left; [apply steps_tbind_Ok, exec_note; simpl; by rewrite HlS|done|].
  cbn [negb]. cbv iota. rewrite adv_adv, adv_inbox.
  match goal with |- can_end (mk_Pair _ (adv [] ?l _) _ _) _ =>
    destruct (exec_sender_send_files tokens (adv [] l ws)) as [left' Hfiles]; [auto with rtc|] end.
  eapply can_end_left; [apply steps_tbind_Ok; exact Hfiles|done|].
  change (files (adv _ _ ws)) with (files ws). rewrite <- !adv_set_files, adv_adv, adv_inbox.
  set (ws1 := set_files [] left' ws). assert (healthy ws1) as HS1 by by apply set_files_healthy.
  simpl (sent [SelectionPublished _]). rewrite arrive_nil, arrive_adv. simpl app at 3.
  eapply (can_end_left _ _ _ _ []).
  { apply steps_tbind_Ok, exec_wait_buffer_empty. auto with rtc. }
  { by rewrite app_nil_r. }
  rewrite arrive_nil. eapply can_end_left; [apply steps_tbind_Ok, exec_send_text; auto with rtc|done|].
  rewrite arrive_adv, adv_adv, adv_inbox, sent_sender_actions. fold content. simpl sent.
  match goal with |- can_end (mk_Pair _ _ _ ?w) _ =>
    destruct (exec_receive_from fs tokens [] content None w) as (wr' & Hrec & Hin & Hlog);
      [auto with rtc|done|by right|done|] end.
  eapply can_end_right; [by apply runs_steps|exact Hlog|]. simpl user_results.
  pose proof (results_length None (user_results wr) content) as Hlen.
  destruct (sent (receive_actions None (user_results wr) content)) as [|m ms] eqn:Hms.
  { destruct content; [done|simpl in Hlen; lia]. }
  eapply (can_end_left _ _ _ _ []); [by apply steps_tbind_Ok, exec_recv|done|].
  rewrite arrive_nil. apply can_end_returned. apply HQ; [|done|..].
  - simpl in Hlen |- *. lia.
  - simpl. unfold sender_transfer_log. simpl. by rewrite app_nil_r, <- !app_assoc.
  - rewrite Hlog. simpl. unfold receiver_transfer_log. by rewrite <- !app_assoc.
Qed.
End meetings.
Lemma written_sent ms l : written ((Sent <$> ms) ++ l) = written l.
Proof. by induction ms. Qed.

(** The conditions under which two peers complete a session: the channel has
    just been opened and nothing has come over it, their nonces are valid, their tokens are made and accepted,
    the users find the PINs that are asked for, and the user of the receiver
    selects some of the files [fs] that the sender then sends. *)
Record session_ready (skS skR : Ed25519Signing) (expS expR : option VerifyingTokenKey)
    (c : challenges) (fs : list FileDto) (sel : gset string) (ws wr : env) (tS tR : string)
    : Prop := {
  ready_sender : healthy ws ∧ opened ws = true ∧ listening ws = true;
  ready_receiver : healthy wr ∧ opened wr = true ∧ listening wr = true;
  ready_channel : fresh ws ∧ fresh wr;
  ready_nonces : validate_nonce (next_nonce ws) = true ∧ validate_nonce (next_nonce wr) = true;
  ready_tokens :
    generate_token_nonce skS (next_nonce ws ++ next_nonce wr) = Ok tS ∧
    generate_token_nonce skR (next_nonce ws ++ next_nonce wr) = Ok tR;
  ready_keys :
    accepts expS (next_nonce ws ++ next_nonce wr) tR ∧
    accepts expR (next_nonce ws ++ next_nonce wr) tS;
  ready_receiver_pin :
    challenge_met (ch_receiver c) (ch_sender_guesses c) ∧
    ∃ ps, pins ws = (Some ∘ Some <$> guesses_of_sender c) ++ ps;
  ready_sender_pin :
    challenge_met (ch_sender c) (ch_receiver_guesses c) ∧
    ∃ ps, pins wr = (Some ∘ Some <$> guesses_of_receiver c) ++ ps;
  ready_selection :
    selected wr = Some (Some (Some sel)) ∧ (∀ id, id ∈ sel → ∃ d, d ∈ fs ∧ fd_id d = id);
  ready_files : granted_files (drawn_tokens (uuids wr) (elements sel)) (files ws) ≠ []
}.

(** The content that goes over, and the two logs of a session. *)
Definition session_content (sel : gset string) (ws wr : env) : list (string * bytes) :=
  granted_files (drawn_tokens (uuids wr) (elements sel)) (files ws).

Definition session_sender_log (c : challenges) (fs : list FileDto) (sel : gset string)
    (ws wr : env) (tS : string) : list action :=
  sender_log c (to_json (mk_RTCNonceMessage (b64_encode (next_nonce ws)))) tS fs
    (drawn_tokens (uuids wr) (elements sel)) (files ws).

Definition session_receiver_log (c : challenges) (fs : list FileDto) (sel : gset string)
    (ws wr : env) (tR : string) : list action :=
  receiver_log c (to_json (mk_RTCNonceMessage (b64_encode (next_nonce wr)))) tR fs
    (drawn_tokens (uuids wr) (elements sel)) (user_results wr) (session_content sel ws wr).

(** Actions that open no file write nothing. *)
Definition opens_none (a : action) : Prop := match a with FileOpened _ => False | _ => True end.

Lemma written_opens_none l l' : Forall opens_none l → written (l ++ l') = written l'.
Proof. induction 1 as [|a l Ha _ IH]; [done|]. destruct a; try done. Qed.

Lemma opens_none_sent ms : Forall opens_none (Sent <$> ms).
Proof. by apply Forall_fmap, Forall_forall. Qed.

Lemma opens_none_notices notice n : Forall opens_none (notices notice n).
Proof.
  induction n as [|n IH]; [constructor|]. unfold notices in *. simpl.
  apply Forall_app; split; [apply opens_none_sent|exact IH].
Qed.

Lemma opens_none_guesses gs : Forall opens_none (gs ≫= guess_log).
Proof. induction gs as [|g gs IH]; [constructor|]. rewrite bind_cons. by repeat constructor. Qed.

Lemma opens_none_receiver_challenge pin gs : Forall opens_none (receiver_challenge pin gs).
Proof.
  destruct pin; [|constructor]. unfold receiver_challenge, receiver_pin_log, verify_log.
  rewrite !Forall_app. repeat constructor. apply opens_none_notices.
Qed.

Lemma written_session c fs sel ws wr tR :
  written (session_receiver_log c fs sel ws wr tR) = session_content sel ws wr.
Proof.
  unfold session_receiver_log, receiver_log, receiver_transfer_log.
  rewrite (written_opens_none [_; _]) by by repeat constructor.
  rewrite (written_opens_none (challenge_of_receiver c)) by apply opens_none_receiver_challenge.
  rewrite written_opens_none by apply opens_none_guesses.
  rewrite (written_opens_none [_; _]) by by repeat constructor.
  rewrite written_opens_none by apply opens_none_sent. apply written_receive_actions.
Qed.

(** The two tasks run against each other on one channel. *)
Lemma session_ends skS skR expS expR c fs sel ws wr tS tR :
  session_ready skS skR expS expR c fs sel ws wr tS tR →
  always_ends (mk_Pair (send_task skS expS (ch_sender c) fs) ws
                 (receive_task skR expR (ch_receiver c)) wr)
    (λ rS ws' rR wr', rS = Some (Ok ()) ∧ rR = Some (Ok ()) ∧
       length (inbox ws') = length (session_content sel ws wr) - 1 ∧ inbox wr' = [] ∧
       log ws' = log ws ++ session_sender_log c fs sel ws wr tS ∧
       log wr' = log wr ++ session_receiver_log c fs sel ws wr tR).
Proof.
  intros [(HwS & HoS & HlS) (HwR & HoR & HlR) [[HinS HcS] [HinR HcR]] [HnS HnR] [HtS HtR] [HaS HaR]
          [HmR [psS HpS]] [HmS [psR HpR]] [Hsel Hfs] Hne].
  apply always_ends_intro; [by split|].
  eapply (can_end_left _ _ _ _ []).
  { eapply steps_trans; [by apply steps_tbind_Ok, runs_call|]. rewrite HoS.
    cbn [negb]. cbv iota. by apply steps_tbind_Ok, exec_wait_buffer_empty. }
  { by rewrite app_nil_r. }
  eapply (can_end_right _ _ _ _ []); [by apply steps_tbind_Ok, runs_call|by rewrite app_nil_r|].
  rewrite !arrive_nil. cbv beta. rewrite HoR. cbn [negb]. cbv iota.
  eapply (handshakes_meet _ skS skR expS expR (ch_receiver c) tS tR ws wr); try done.
  eapply (receiver_challenge_met _ (ch_receiver c) (ch_sender_guesses c) psS); auto with rtc; try done.
  eapply (sender_challenge_met _ (ch_sender c) (ch_receiver_guesses c) psR); auto with rtc; try done.
  apply (transfers_meet (ch_sender c) fs sel (next_nonce ws ++ next_nonce wr) tR); try done;
    [by repeat (apply adv_healthy || apply set_pins_healthy || apply set_nonces_healthy)..| |].
  - apply Forall_fmap, Forall_forall. intros [id ps] [Hid _]%list_elem_of_filter. simpl in *.
    split; [done|]. apply Hfs. apply elem_of_dom in Hid. rewrite dom_drawn_tokens in Hid. set_solver.
  - intros ws' wr' Hlen Hin HlogS HlogR. split_and!; try done.
    + rewrite HlogS. unfold session_sender_log, sender_log. by do 3 (simpl; rewrite <- ?app_assoc).
    + rewrite HlogR. unfold session_receiver_log, receiver_log. by do 3 (simpl; rewrite <- ?app_assoc).
Qed.

(** C8. Two honest peers complete a session, with or without PINs on either
    side.  The two tasks run against each other on a channel that is empty at
    first and open until both have returned; what one sends arrives at the other
    after it was sent.  In
    every interleaving of their steps there is an end, after a bounded number
    of steps, and never one where a task waits: both have returned without an
    error; the user of each side has found the PIN the other side asks for
    within its number of tries; the sender has published the selection of the
    user, and the receiver has written exactly the selected files that the
    sender has, byte for byte, and has read everything.  Of the results of the
    files the sender has read only the first. *)
Theorem session_completes skS skR expS expR c fs sel ws wr tS tR :
  session_ready skS skR expS expR c fs sel ws wr tS tR →
  always_ends (mk_Pair (send_task skS expS (ch_sender c) fs) ws
                 (receive_task skR expR (ch_receiver c)) wr)
    (λ rS ws' rR wr', rS = Some (Ok ()) ∧ rR = Some (Ok ()) ∧
       ∃ ls lr, log ws' = log ws ++ ls ∧ log wr' = log wr ++ lr ∧
         SelectionPublished sel ∈ ls ∧ FilesPublished fs ∈ lr ∧
         written lr = granted_files (drawn_tokens (uuids wr) (elements sel)) (files ws) ∧
         inbox wr' = [] ∧ length (inbox ws') = length (written lr) - 1).
Proof.
  intros Hready. eapply always_ends_impl; [|by apply session_ends].
  intros rS ws' rR wr' (-> & -> & Hlen & Hin & HlS & HlR). split_and!; [done..|].
  do 2 eexists. split_and!; [exact HlS|exact HlR|..|by rewrite written_session|done|by rewrite written_session].
  - unfold session_sender_log, sender_log, sender_transfer_log.
    rewrite dom_drawn_tokens, list_to_set_elements_L, !elem_of_app, !elem_of_cons. tauto.
  - unfold session_receiver_log, receiver_log, receiver_transfer_log.
    rewrite !elem_of_app, !elem_of_cons. tauto.
Qed.
End phases.
