(* ===== verification/RtcPin.v ===== *)
(** * PIN challenges between two honest peers

    The receiver asks for a PIN and the user of the sender guesses: the two
    loops [verify_pin] and [handle_pin] against each other, the challenges
    that cannot be met, and the SDP codec. *)

From S2P Require Import Prelude Serde Crypto CryptoProps RtcTypes Interaction Rtc RtcEnv.
From S2P Require Import RtcRoutines RtcSafety RtcPair RtcTransfer RtcChallenge.
Local Open Scope Z_scope.

Section pins.
Context `{TokenCrypto, Base64, RtcCodec, !RtcCodecLaws}.

(** When the user of the sender finds the PIN within [max_tries] guesses,
    both peers get past the challenge, however their steps are interleaved:
    the receiver has sent a notice for every wrong guess but none before the
    first, and no message is left over. *)
Theorem pin_found p gs ps ws wr :
  pin_met p gs → healthy ws → healthy wr → fresh ws → fresh wr →
  pins ws = (Some ∘ Some <$> gs ++ [pc_pin p]) ++ ps →
  always_ends (mk_Pair (handle_pin false parse_pin_receiving) ws (receiver_pin p) wr)
    (λ rs ws' rr wr', rs = Some (Ok ()) ∧ rr = Some (Ok ()) ∧
      inbox ws' = [] ∧ inbox wr' = [] ∧ pins ws' = ps ∧
      ∃ ls lr, log ws' = log ws ++ ls ∧ log wr' = log wr ++ lr ∧
        sent ls = pin_text <$> gs ++ [pc_pin p] ∧
        sent lr = replicate (length gs) notice_text ++ [accepted_text]).
Proof.
  intros Hmet HwS HwR [HinS HcS] [HinR HcR] Hpins. apply always_ends_intro; [by split|].
  apply (receiver_pin_found _ p gs ps ws wr (λ t, t) (λ t, t)); try done.
  apply can_end_returned. split_and!; try done.
  exists ((gs ++ [pc_pin p]) ≫= guess_log), (receiver_pin_log (length gs)).
  by rewrite sent_guesses, sent_receiver_pin_log.
Qed.

(** Both sides of a challenge have failed: the one that guesses has sent
    [guesses] and the one that asks [answers], and each has reported it last. *)
Definition both_refused {A B} (guesses answers : list DataChannelMessage) (wg wv : env)
    (rg : option (anyres A)) (wg' : env) (rv : option (anyres B)) (wv' : env) : Prop :=
  rg = Some (Err "Too many requests") ∧ rv = Some (Err "Too many requests") ∧
  ∃ lg lv, log wg' = log wg ++ lg ∧ log wv' = log wv ++ lv ∧ sent lg = guesses ∧ sent lv = answers ∧
    last lg = Some (Reported TooManyAttempts) ∧ last lv = Some (Reported TooManyAttempts).

(** C19. When [max_tries] guesses are wrong both peers fail, whichever of them
    has asked, and both report too many attempts to their applications: the
    side that asks has sent a refusal instead of one more notice, and the side
    that guesses has sent nothing but its guesses.  The two sides run against
    each other on one channel: in every interleaving of their steps neither
    waits for ever. *)
Theorem pin_exhausted p gs g ps wg wv :
  pin_config_ok p → pc_pin p ≠ "" → Forall (λ g, g ≠ pc_pin p) (gs ++ [g]) →
  Z.of_nat (length gs) + 1 = pc_max_tries p →
  healthy wg → healthy wv → fresh wg → fresh wv → pins wg = (Some ∘ Some <$> gs ++ [g]) ++ ps →
  always_ends (mk_Pair (handle_pin false parse_pin_receiving) wg (receiver_pin p) wv)
    (both_refused (pin_text <$> gs ++ [g]) (replicate (length gs) notice_text ++ [refused_text]) wg wv) ∧
  always_ends (mk_Pair receiver_receive_file_list wg (verify_pin p true sender_send_result) wv)
    (both_refused (pin_text <$> gs ++ [g])
       (sender_notice ++ concat (replicate (length gs) sender_notice) ++ sender_refusal) wg wv).
Proof.
  intros Hp Hne [Hgs Hg]%Forall_app Hmax HwG HwV [HinG HcG] [HinV HcV] Hpins.
  inversion Hg as [|? ? Hg' _]; subst. split; (apply always_ends_intro; [by split|]).
  - apply (receiver_challenge_judged p gs g ps wg wv _ (λ t, t) (λ t, t)); try done; [by auto with lia|].
    eapply can_end_right; [apply runs_steps, runs_tbind_Err, runs_loop_Err;
      apply (exec_round_exhausted _ [refused_text])|..]; try done; [|auto with rtc|lia|].
    { intros w Hw. by apply exec_send_text. }
    eapply can_end_left; [eapply (steps_refused _ _ (to_json PinReceivingTooManyAttempts) _ []);
      [auto with rtc|by rewrite parse_receiving|done]|done|].
    rewrite !arrive_adv, !adv_adv. apply can_end_returned. split_and!; try done.
    do 2 eexists. split_and!; [done..| | | |].
    + by rewrite sent_guess_refused.
    + rewrite sent_verify_refused. by rewrite concat_singletons.
    + by rewrite last_snoc.
    + by rewrite app_assoc, last_snoc.
  - apply (sender_challenge_judged p gs g ps wg wv _ (λ t, t) (λ t, t)); try done; [by auto with lia|].
    eapply can_end_right; [apply runs_steps, runs_loop_Err;
      apply (exec_round_exhausted _ sender_refusal)|..]; try done; [|auto with rtc|lia|].
    { intros w Hw. by apply exec_send_chunked. }
    eapply can_end_left; [eapply (steps_refused _ _ (to_json PinSendingTooManyAttempts) _ []);
      [auto with rtc|by rewrite parse_sending|]|done|].
    { unfold answer_messages. simpl inbox. rewrite sent_app, sent_Sent. done. }
    rewrite !arrive_adv, !adv_adv. apply can_end_returned. split_and!; try done.
    do 2 eexists. split_and!; [done..| | | |].
    + by rewrite sent_guess_refused.
    + by rewrite sent_verify_refused.
    + by rewrite last_snoc.
    + by rewrite app_assoc, last_snoc.
Qed.

(** A receiver whose PIN is the empty text asks for a PIN and then does
    not wait for one: the guess that the sender has to send is taken for the
    end of its list of files, and the receiver fails while the sender believes
    that its guess was right. *)
Theorem empty_pin_breaks p g ps ws wr :
  pc_pin p = "" → healthy ws → healthy wr → fresh ws → fresh wr → pins ws = Some (Some g) :: ps →
  always_ends (mk_Pair (handle_pin false parse_pin_receiving) ws
                 (act! receiver_pin p in receiver_receive_file_list) wr)
    (λ rs ws' rr wr', rs = Some (Ok ()) ∧
      rr = Some (Err "Failed to deserialize file list response: serde_json") ∧
      log ws' = log ws ++ guess_log g ∧ log wr' = log wr ++ [Reported PinRequired; Sent accepted_text]).
Proof.
  intros Hempty HwS HwR [HinS HcS] [HinR HcR] Hpins. apply always_ends_intro; [by split|].
  eapply can_end_left; [by apply (steps_handle_pin _ _ g ps)|done|]. rewrite HinS.
  eapply can_end_right.
  { eapply (steps_tbind_Ok _ _ _ () (adv [pin_text g] [Reported PinRequired; Sent accepted_text] wr)).
    eapply runs_tbind; [eapply runs_tbind; [by apply exec_send_status, arrive_healthy|]|].
    - apply runs_loop_break. unfold verify_pin_round. rewrite decide_True by done. apply runs_ret.
    - eapply eq_rect with (P := exec _ _ _); [apply exec_send_text; auto with rtc|].
      rewrite adv_adv, adv_inbox, arrive_inbox by done. reflexivity. }
  { done. }
  eapply (can_end_left _ _ _ _ []).
  { apply (steps_accepted _ _ (to_json PinReceivingOk) () _ []); [by rewrite parse_receiving|done]. }
  { simpl. by rewrite app_nil_r. }
  rewrite arrive_nil. eapply (can_end_right _ _ _ _ []).
  { apply runs_steps. eapply runs_tbind; [by apply (exec_receive_string [] (pin_text g))|]. apply runs_tbind_Err.
    unfold parse. rewrite from_json_short by (simpl; lia). apply runs_done. }
  { simpl. by rewrite app_nil_r. }
  apply can_end_returned. by rewrite arrive_nil, arrive_adv, !adv_adv, app_nil_r.
Qed.

(** ** SDP *)

(** A session description survives the codec that both peers use. *)
Lemma sdp_roundtrip `{Zlib, !ZlibLaws, !Base64Laws} s :
  utf8_valid (as_bytes s) = true → decode_sdp (encode_sdp s) = Ok s.
Proof.
  intros Hs. unfold decode_sdp, encode_sdp. rewrite b64_decode_encode. simpl.
  rewrite zlib_decompress_compress. simpl. unfold string_from_utf8.
  by rewrite Hs, from_as_bytes.
Qed.
End pins.
