(* ===== verification/RtcWitnesses.v ===== *)
(** * Concrete runs of transfers

    The theorems about transfers at concrete environments, with the codecs of
    [Instances] and [RtcInstances]. *)

From S2P Require Import Prelude Serde Crypto CryptoProps Instances RtcTypes Interaction Rtc RtcEnv.
From S2P Require Import RtcRoutines RtcSafety RtcInstances RtcPair RtcTransfer RtcChallenge RtcSession RtcPin.

Definition base_env : env :=
  mk_env [] true None None None [] [] [] ["t1"; "t2"] [] [] None [] [] [] true true [].

Lemma base_env_healthy : healthy base_env.
Proof. by constructor. Qed.

Definition zeros : bytes := next_nonce base_env.
Definition photo : FileDto := mk_FileDto "a" "photo.jpg" 3 "image/jpeg" None None None.
Definition photo_pieces : list bytes := [as_bytes "ph"; as_bytes "oto"].

Definition sender_key : @Ed25519Signing tag_crypto := "sender".
Definition receiver_key : @Ed25519Signing tag_crypto := "receiver".

Definition token_for (key : @Ed25519Signing tag_crypto) : string :=
  match generate_token_nonce key (zeros ++ zeros) with Ok t => t | _ => "" end.

Lemma text_roundtrip_witness :
  ∃ ws' l, log ws' = log base_env ++ l ∧
    exec receive_string_from_chunks (set_inbox (sent l ++ []) base_env)
      (Some (Ok (as_bytes "hello"))) (adv [] [] (set_inbox (sent l ++ []) base_env)).
Proof.
  exists (adv [] (Sent <$> chunked "hello") base_env), (Sent <$> chunked "hello").
  split; [done|].
  refine (proj1 (text_roundtrip "hello" base_env (adv [] (Sent <$> chunked "hello") base_env)
    (Sent <$> chunked "hello") _ [] base_env_healthy _ _ _)); [|reflexivity..].
  apply exec_send_chunked, base_env_healthy.
Defined.

Definition pin_1 : PinConfig := mk_PinConfig "1" 3.

Lemma pin_1_ok : pin_config_ok pin_1.
Proof. by unfold pin_config_ok. Qed.

Definition guess_env : env := set_inbox [pin_text "0"; pin_text "1"; pin_text "2"] base_env.

(** The state in which the run of a task ends. *)
Definition final (n : nat) {A} (t : rtc A) (w : env) : env :=
  match run handle n t w with Some (_, w') => w' | None => w end.

Definition guess_run : rtc () := verify_pin pin_1 false receiver_send_result.

Lemma guess_run_ok : exec guess_run guess_env (Some (Ok ())) (final 100 guess_run guess_env).
Proof. apply (run_runs _ 100). vm_compute. reflexivity. Qed.

Lemma verify_pin_bounded_witness :
  ∃ guesses, inbox guess_env = guesses ++ inbox (final 100 guess_run guess_env) ∧
    (Z.of_nat (length guesses) ≤ 3)%Z ∧ guessed guesses "1".
Proof.
  destruct (verify_pin_bounded pin_1 false receiver_send_result guess_env (Some (Ok ()))
    (final 100 guess_run guess_env)) as (gs & Hin & Hlen & Hok & _);
    [apply pin_1_ok|apply quiet_receiver_send_result|apply no_panic_receiver_send_result|
     apply guess_run_ok|].
  exists gs. auto.
Defined.

(** The two nonce exchanges, each with the message of the other. *)
Definition nonce_env : env := set_inbox [nonce_text zeros] base_env.

Lemma nonce_agreement_witness :
  ∃ ns, exec sender_nonce_exchange nonce_env (Some (Ok ns))
          (final 100 sender_nonce_exchange nonce_env) ∧
        exec receiver_nonce_exchange nonce_env (Some (Ok ns))
          (final 100 receiver_nonce_exchange nonce_env) ∧ 32 ≤ length ns ≤ 256.
Proof.
  assert (exec sender_nonce_exchange nonce_env (Some (Ok (zeros ++ zeros)))
    (final 100 sender_nonce_exchange nonce_env)) as HS
    by (apply (run_runs _ 100); vm_compute; reflexivity).
  assert (exec receiver_nonce_exchange nonce_env (Some (Ok (zeros ++ zeros)))
    (final 100 receiver_nonce_exchange nonce_env)) as HR
    by (apply (run_runs _ 100); vm_compute; reflexivity).
  exists (zeros ++ zeros). split; [exact HS|]. split; [exact HR|].
  refine (proj2 (proj2 (nonce_agreement _ _ _ _ _ _ HS HR _ _))); vm_compute; reflexivity.
Defined.

(** A receiver with an expected key and a PIN, and the messages of a sender
    that knows both and sends one of the two files it offers. *)
Definition key_of (k : @Ed25519Signing tag_crypto) : VerifyingTokenKey := to_verifying_key k.

Definition sel_a : gset string := {["a"]}.

Definition receiver_env : env :=
  mk_env ([nonce_text zeros; token_request_text (token_for sender_key); pin_text "0"; pin_text "1"] ++
          chunked (to_json (PinSendingOk [photo])) ++
          [header_message "a" "t1"; binary_message (as_bytes "photo"); text_message DELIMITER])
    true None None None [] [] [] ["t1"] [] [] (Some (Some (Some sel_a))) [] []
    [mk_RTCSendFileResponse "a" true None] true true [].

Definition receiver_run : rtc () := receive_task receiver_key (Some (key_of sender_key)) (Some pin_1).

Lemma receiver_run_ok :
  exec receiver_run receiver_env (Some (Ok ())) (final 2000 receiver_run receiver_env).
Proof. apply (run_runs _ 2000). vm_compute. reflexivity. Qed.

Lemma receiver_connected_witness :
  ∃ m1 m2 guesses rest remote token, inbox receiver_env = m1 :: m2 :: guesses ++ rest ∧
    nonce_message m1 remote ∧ parse (data m2) = Ok (mk_RTCTokenRequest token) ∧
    token_of (key_of sender_key) (remote ++ zeros) token ∧ pin_settled (Some pin_1) guesses.
Proof.
  destruct (receiver_connected receiver_key (Some (key_of sender_key)) (Some pin_1) receiver_env
    (Some (Ok ())) (final 2000 receiver_run receiver_env))
    as (m1 & m2 & gs & rest & remote & token & Hin & Hm1 & Hm2 & Htok & Hpin).
  - intros p [= <-]. apply pin_1_ok.
  - apply receiver_run_ok.
  - apply not_elem_of_nil.
  - apply (bool_decide_unpack _). vm_compute. exact I.
  - exists m1, m2, gs, rest, remote, token. split_and!; auto.
Defined.

Lemma opened_files_are_selected_witness :
  ∃ sel fs, selected receiver_env = Some (Some (Some sel)) ∧ "a" ∈ sel ∧
    FilesPublished fs ∈ log (final 2000 receiver_run receiver_env) ∧ ∃ f, f ∈ fs ∧ fd_id f = "a".
Proof.
  apply (opened_files_are_selected receiver_key (Some (key_of sender_key)) (Some pin_1) receiver_env
    (Some (Ok ())) (final 2000 receiver_run receiver_env) "a").
  - apply receiver_run_ok.
  - apply not_elem_of_nil.
  - apply (bool_decide_unpack _). vm_compute. exact I.
Defined.

(** A sender with an expected key, challenged by the receiver, that sends one
    file in two pieces. *)
Definition sender_env : env :=
  mk_env ([nonce_text zeros; text_message (to_json (TokenPinRequired (token_for receiver_key)));
           notice_text; accepted_text] ++
          chunked (to_json (FileListOk {["a" := "t1"]})) ++ [text_message "{}"])
    true None None None [] [] [] [] [Some (Some "0"); Some (Some "1")] [] None
    [("a", photo_pieces)] [] [] true true [].

Definition sender_run : rtc () :=
  send_task sender_key (Some (key_of receiver_key)) None [photo].

Lemma sender_run_ok :
  exec sender_run sender_env (Some (Ok ())) (final 2000 sender_run sender_env).
Proof. apply (run_runs _ 2000). vm_compute. reflexivity. Qed.

(** The list of files is one message, and too long for a notice of a challenge. *)
Definition list_message : DataChannelMessage := binary_message (as_bytes (to_json (PinSendingOk [photo]))).

Lemma list_not_handshake : ¬ handshake_action (Sent list_message).
Proof.
  assert (∀ s b, piece_of s b → length b ≤ length (as_bytes s)) as Hlen.
  { intros s b (before & after & ->). rewrite !length_app. lia. }
  intros [[n ?]|[[token ?]|[[pin ?]|[?|(b & Hb & Hpiece)]]]]; try discriminate.
  injection Hb as <-. destruct Hpiece as [Hpiece%Hlen|Hpiece%Hlen];
    vm_compute in Hpiece; lia.
Qed.

Lemma sender_connected_witness :
  ∃ m1 m2 answers guesses rest remote token required,
    inbox sender_env = m1 :: m2 :: answers ++ guesses ++ rest ∧
    nonce_message m1 remote ∧
    parse (data m2) = Ok (if required : bool then TokenPinRequired token else TokenOk token) ∧
    token_of (key_of receiver_key) (zeros ++ remote) token.
Proof.
  destruct (sender_connected sender_key (Some (key_of receiver_key)) None [photo] sender_env
    (Some (Ok ())) (final 2000 sender_run sender_env) (log (final 2000 sender_run sender_env))
    (Sent list_message))
    as (m1 & m2 & ans & gs & rest & remote & token & required & Hin & Hm1 & Hm2 & Htok & _).
  - done.
  - apply sender_run_ok.
  - change (log sender_env) with (@nil action). symmetry. apply app_nil_l.
  - apply (bool_decide_unpack _). vm_compute. exact I.
  - apply list_not_handshake.
  - exists m1, m2, ans, gs, rest, remote, token, required. auto.
Defined.

(** ** The loops of the files *)

Definition files_env (fs : list (string * list bytes)) : env :=
  mk_env [] true None None None [] [] [] [] [] [] None fs [] [] true true [].

Definition tokens_a : gmap string string := {["a" := "t1"]}.

Definition send_env : env := files_env [("a", photo_pieces); ("b", [])].

Lemma send_all_files_log tokens w o w' :
  exec (send_all_files tokens) w o w' → ∃ ls, log w' = log w ++ ls.
Proof. apply exec_log. Qed.

Lemma send_run_ok : ∃ ws', exec (send_all_files tokens_a) send_env (Some (Ok ())) ws'.
Proof. eexists. apply (run_runs _ 500). vm_compute. reflexivity. Qed.

Lemma transfer_delivers_witness :
  ∃ wr wr' lr, exec (receive_files [photo] tokens_a) wr (Some (Ok ())) wr' ∧
    log wr' = log wr ++ lr ∧ written lr = [("a", as_bytes "photo")].
Proof.
  destruct send_run_ok as [ws' HS]. destruct (send_all_files_log _ _ _ _ HS) as [ls Hls].
  destruct (transfer_delivers tokens_a [photo] send_env ws' ls (set_inbox (sent ls ++ []) base_env) [])
    as (wr' & lr & HR & _ & Hlr & Hw).
  - by constructor.
  - by constructor.
  - exact HS.
  - exact Hls.
  - reflexivity.
  - vm_compute. discriminate.
  - intros id [t Ht]. exists photo. split; [apply list_elem_of_here|].
    unfold tokens_a in Ht. by apply lookup_singleton_Some in Ht as [<- _].
  - exists (set_inbox (sent ls ++ []) base_env), wr', lr. auto.
Defined.

Definition nothing_env : env := files_env [("b", [])].

Lemma nothing_run_ok : ∃ ws', exec (send_all_files tokens_a) nothing_env (Some (Ok ())) ws'.
Proof. eexists. apply (run_runs _ 500). vm_compute. reflexivity. Qed.

Lemma empty_transfer_fails_witness :
  ∃ wr wr', exec (receive_files [photo] tokens_a) wr (Some (Err "serde_json")) wr'.
Proof.
  destruct nothing_run_ok as [ws' HS]. destruct (send_all_files_log _ _ _ _ HS) as [ls Hls].
  exists (set_inbox (sent ls ++ []) base_env), (adv [] [] (set_inbox (sent ls ++ []) base_env)).
  apply (empty_transfer_fails tokens_a [photo] nothing_env ws' ls _ []).
  - by constructor.
  - exact HS.
  - exact Hls.
  - reflexivity.
  - vm_compute. reflexivity.
Defined.

(** ** Whole sessions *)

(** Both sides ask for the PIN [1]: one wrong guess on one side, two on the
    other. *)
Definition session_pins : challenges :=
  mk_challenges (Some pin_1) (Some pin_1) ["0"] ["2"; "3"].

Definition session_sender : env :=
  mk_env [] false None None None [] [] [] [] (Some ∘ Some <$> ["0"; "1"]) [] None
    [("a", photo_pieces)] [] [] true true [].
Definition session_receiver : env :=
  mk_env [] false None None None [] [] [] ["t1"] (Some ∘ Some <$> ["2"; "3"; "1"]) []
    (Some (Some (Some sel_a))) [] [] [mk_RTCSendFileResponse "a" true None] true true [].

Lemma sample_session_ready :
  session_ready sender_key receiver_key (Some (key_of receiver_key)) None session_pins [photo] sel_a
    session_sender session_receiver (token_for sender_key) (token_for receiver_key).
Proof.
  constructor.
  - split; [by constructor|done].
  - split; [by constructor|done].
  - done.
  - split; vm_compute; reflexivity.
  - split; vm_compute; reflexivity.
  - split; intros pk [= <-]. vm_compute. reflexivity.
  - split; [|by exists []]. split; [apply pin_1_ok|]. split; [done|]. by repeat constructor.
  - split; [|by exists []]. split; [apply pin_1_ok|]. split; [done|]. by repeat constructor.
  - split; [done|]. intros id ->%elem_of_singleton. exists photo.
    split; [apply list_elem_of_here|done].
  - vm_compute. discriminate.
Qed.

Lemma session_completes_witness :
  always_ends (mk_Pair (send_task sender_key (Some (key_of receiver_key)) (Some pin_1) [photo]) session_sender
                 (receive_task receiver_key None (Some pin_1)) session_receiver)
    (λ rS ws' rR wr', rS = Some (Ok ()) ∧ rR = Some (Ok ()) ∧
       ∃ ls lr, log ws' = [] ++ ls ∧ log wr' = [] ++ lr ∧
         SelectionPublished sel_a ∈ ls ∧ FilesPublished [photo] ∈ lr ∧
         written lr = granted_files (drawn_tokens ["t1"] (elements sel_a)) [("a", photo_pieces)] ∧
         inbox wr' = [] ∧ length (inbox ws') = length (written lr) - 1).
Proof.
  apply (session_completes sender_key receiver_key (Some (key_of receiver_key)) None session_pins [photo]
    sel_a session_sender session_receiver (token_for sender_key) (token_for receiver_key)
    sample_session_ready).
Defined.

(** The session, one step of each side in turn: it ends, and the receiver has
    written the file. *)
Definition session_pair : Pair (anyres ()) (anyres ()) :=
  mk_Pair (send_task sender_key (Some (key_of receiver_key)) (Some pin_1) [photo]) session_sender
    (receive_task receiver_key None (Some pin_1)) session_receiver.

Fixpoint in_turn {A B} (n : nat) (p : Pair A B) : Pair A B :=
  match n with
  | O => p
  | S n =>
      let p := default p (pair_step LeftSide p) in
      in_turn n (default p (pair_step RightSide p))
  end.

Example session_in_turn :
  let p := in_turn 300 session_pair in
  result (pr_left p) = Some (Ok ()) ∧ result (pr_right p) = Some (Ok ()) ∧
  written (log (pr_right_env p)) = [("a", as_bytes "photo")].
Proof. vm_compute. auto. Qed.

(** ** Challenges *)

Definition guesser (gs : list string) : env :=
  mk_env [] false None None None [] [] [] [] (Some ∘ Some <$> gs) [] None [] [] [] true true [].

Lemma guesser_healthy gs : healthy (guesser gs).
Proof. by constructor. Qed.

Lemma pin_found_witness :
  always_ends (mk_Pair (handle_pin false parse_pin_receiving) (guesser ["0"; "1"]) (receiver_pin pin_1) (guesser []))
    (λ rs _ rr _, rs = Some (Ok ()) ∧ rr = Some (Ok ())).
Proof.
  eapply always_ends_impl; [|apply (pin_found pin_1 ["0"] [] (guesser ["0"; "1"]) (guesser []))].
  - intros rs ws' rr wr' (Hs & Hr & _). by split.
  - split; [apply pin_1_ok|]. split; [done|]. by repeat constructor.
  - apply guesser_healthy.
  - apply guesser_healthy.
  - done.
  - done.
  - reflexivity.
Defined.

Lemma pin_exhausted_witness :
  always_ends (mk_Pair (handle_pin false parse_pin_receiving) (guesser ["0"; "2"; "3"])
                 (receiver_pin pin_1) (guesser []))
    (both_refused (pin_text <$> ["0"; "2"; "3"]) [notice_text; notice_text; refused_text]
       (guesser ["0"; "2"; "3"]) (guesser [])).
Proof.
  refine (proj1 (pin_exhausted pin_1 ["0"; "2"] "3" [] (guesser ["0"; "2"; "3"]) (guesser []) _ _ _ _ _ _ _ _ _)).
  - apply pin_1_ok.
  - done.
  - by repeat constructor.
  - reflexivity.
  - apply guesser_healthy.
  - apply guesser_healthy.
  - done.
  - done.
  - reflexivity.
Defined.

Lemma empty_pin_breaks_witness :
  always_ends (mk_Pair (handle_pin false parse_pin_receiving) (guesser ["0"])
                 (act! receiver_pin (mk_PinConfig "" 3) in receiver_receive_file_list) (guesser []))
    (λ _ _ rr _, rr = Some (Err "Failed to deserialize file list response: serde_json")).
Proof.
  eapply always_ends_impl;
    [|apply (empty_pin_breaks (mk_PinConfig "" 3) "0" [] (guesser ["0"]) (guesser []))].
  - intros rs ws' rr wr' (_ & Hr & _). exact Hr.
  - done.
  - apply guesser_healthy.
  - apply guesser_healthy.
  - done.
  - done.
  - reflexivity.
Defined.

Lemma sdp_roundtrip_witness : decode_sdp (encode_sdp "v=0") = Ok "v=0".
Proof. apply sdp_roundtrip. vm_compute. reflexivity. Defined.
