(* ===== verification/WsServer.v ===== *)
(** * The signaling server

    [server/src/controller/ws_controller.rs], [server/src/config/state.rs],
    [server/src/config/scheduler.rs] and [server/src/config/error.rs].

    The critical sections (what runs while a mutex is held) are functions on
    the shared state; [handle_socket] with the two tasks it spawns is a state
    machine per connection, and the server a step function on all connections
    together, one label per await point that another task can interleave
    with. *)

From stdpp Require Import sets.
From S2P Require Import Prelude Net Serde Signaling.

(** ** Errors ([config/error.rs]) *)

Record AppError := mk_AppError {
  ae_status : Z;
  ae_message : option string;
  ae_error : option string
}.

(** [AppError::status]. *)
Definition app_error_status (status : Z) (message : option string) : AppError :=
  {| ae_status := status; ae_message := message; ae_error := None |}.

(** [impl From<E> for AppError]. *)
Definition app_error_from (err : string) : AppError :=
  {| ae_status := 500; ae_message := None; ae_error := Some err |}.

(** [into_response]: the status and the body; the cause of an internal error
    is logged, never sent. *)
Definition app_error_into_response (e : AppError) : Z * string :=
  match ae_message e with
  | Some message => (ae_status e, message)
  | None => (ae_status e, "")
  end.

Definition BAD_REQUEST : Z := 400.
Definition TOO_MANY_REQUESTS : Z := 429.

(** ** Limits (the [LazyLock] statics)

    The value of the environment variable, or the default; a value that does
    not parse panics on the first use. *)

Definition MAX_CONNECTIONS (var : option string) : res AppError Z :=
  match parse_unsigned (u64_modulus - 1) (default "10" var) with
  | Some n => Ok n
  | None => Panic "called `Result::unwrap()` on an `Err` value"
  end.

Definition MAX_REQUESTS (var : option string) : res AppError Z :=
  match parse_unsigned u32_max (default "1000" var) with
  | Some n => Ok n
  | None => Panic "called `Result::unwrap()` on an `Err` value"
  end.

(** ** Shared state ([config/state.rs]) *)

(** A sender is a handle on the channel of one connection; the channel is
    created by the [handle_socket] of that connection and named after it. *)
Abbreviation Sender := N.

Record ClientState := mk_ClientState {
  cs_client : ClientInfoWithoutId;
  cs_tx : Sender
}.

#[export] Instance ClientState_eq_dec : EqDecision ClientState.
Proof. solve_decision. Defined.

(** IP group -> peer id -> peer info and message sender. *)
Abbreviation TxMap := (gmap string (gmap Uuid ClientState)).
Abbreviation IpRequestCountMap := (gmap string Z).

Record AppState := mk_AppState {
  tx_map : TxMap;
  request_count_map : IpRequestCountMap
}.

(** [AppState::new]. *)
Definition app_state_new : AppState := {| tx_map := ∅; request_count_map := ∅ |}.

(** The hourly job of [config/scheduler.rs]. *)
Definition clear_request_counts (st : AppState) : AppState :=
  {| tx_map := tx_map st; request_count_map := ∅ |}.

(** ** The websocket handshake *)

(** The client address: the last component of [x-forwarded-for] when it is an
    address, the peer address of the connection otherwise. *)
Definition client_ip (x_forwarded_for : option string) (addr : IpAddr) : IpAddr :=
  let raw_forwarded :=
    v ← x_forwarded_for;
    v ← last (str_split "," v);
    ip_from_str (str_trim v) in
  default addr raw_forwarded.

Section ws_handler.
Context `{Base64, SerdeJson ClientInfoWithoutId}.

(** [ws_handler]: the arguments [handle_socket] is started with, or the
    error response.  [new_id] is the result of [Uuid::new_v4]. *)
Definition ws_handler (d : string) (x_forwarded_for : option string) (addr : IpAddr)
    (new_id : Uuid) : res AppError (string * ClientInfo) :=
  let? base64_decoded := ok_or (b64_decode d) (app_error_status BAD_REQUEST None) in
  let? base64_decoded :=
    ok_or (string_from_utf8 base64_decoded) (app_error_status BAD_REQUEST None) in
  let? register_dto :=
    ok_or (from_json (as_bytes base64_decoded)) (app_error_status BAD_REQUEST None) in
  let peer_info := client_info_from register_dto new_id in
  let ip := client_ip x_forwarded_for addr in
  Ok (get_ip_group ip, peer_info).
End ws_handler.

(** ** Critical sections *)

Section operations.
(** The values of the two limits. *)
Context (max_connections max_requests : Z).

(** [protect_ddos_request_count], under the lock of the request counts. *)
Definition protect_ddos_request_count (counts : IpRequestCountMap) (ip_group : string)
    : res AppError () * IpRequestCountMap :=
  let count := default 0%Z (counts !! ip_group) in
  if decide (max_requests ≤ count)%Z then
    (Err (app_error_status TOO_MANY_REQUESTS None), <[ip_group := count]> counts)
  else if decide (count + 1 ≤ u32_max)%Z then
    (Ok (), <[ip_group := (count + 1)%Z]> counts)
  else (Panic "attempt to add with overflow", <[ip_group := count]> counts).

(** [tx_local_map.values().map(|p| p.tx.clone())]. *)
Definition senders (local : gmap Uuid ClientState) : list Sender :=
  (λ p, cs_tx p.2) <$> map_to_list local.

(** [tx_local_map.iter().map(|(k, v)| ClientInfo::from(v.client.clone(), *k))]. *)
Definition peer_infos (local : gmap Uuid ClientState) : list ClientInfo :=
  (λ p, client_info_from (cs_client p.2) p.1) <$> map_to_list local.

(** What the ['lock] block of [handle_socket] computes: whether a limit was
    reached, the senders of the other peers and the peers to greet with. *)
Record Admission := mk_Admission {
  limit_reached : bool;
  peers_tx : list Sender;
  peers : list ClientInfo
}.

(** The ['lock] block, under the lock of the peers.  [entry().or_insert_with]
    creates the group before the limits are tested. *)
Definition handle_socket_lock (st : AppState) (ip_group : string) (peer : ClientInfo)
    (tx : Sender) : Admission * AppState :=
  let local := default ∅ (tx_map st !! ip_group) in
  let tx_map1 := <[ip_group := local]> (tx_map st) in
  if decide (max_connections ≤ Z.of_nat (size local))%Z then
    (mk_Admission true [] [], {| tx_map := tx_map1; request_count_map := request_count_map st |})
  else
    let '(r, counts) := protect_ddos_request_count (request_count_map st) ip_group in
    match r with
    | Ok _ =>
        let local' := <[ci_id peer := mk_ClientState (client_info_without_id peer) tx]> local in
        (mk_Admission false (senders local) (peer_infos local),
         {| tx_map := <[ip_group := local']> tx_map1; request_count_map := counts |})
    | _ => (mk_Admission true [] [], {| tx_map := tx_map1; request_count_map := counts |})
    end.

(** The section of [send_update_to_other_peers_with_lock]: the senders of
    the other peers of the group, when the updating peer is still in it. *)
Definition send_update_lock (tm : TxMap) (ip_group : string) (peer_id : Uuid)
    (info : ClientInfoWithoutId) : list Sender * TxMap :=
  match tm !! ip_group with
  | Some local =>
      match local !! peer_id with
      | Some peer_state =>
          let local' := <[peer_id := mk_ClientState info (cs_tx peer_state)]> local in
          (senders (filter (λ p, p.1 ≠ peer_id) local'), <[ip_group := local']> tm)
      | None => ([], tm)
      end
  | None => ([], tm)
  end.

Inductive WsClientSdpMessageWrapper :=
| WOffer (m : WsClientSdpMessage)
| WAnswer (m : WsClientSdpMessage).

Definition wrapper_target (w : WsClientSdpMessageWrapper) : Uuid :=
  match w with WOffer inner => sc_target inner | WAnswer inner => sc_target inner end.

(** The message [send_to_peer_with_lock] sends to the target. *)
Definition server_message (origin_peer : ClientInfo) (w : WsClientSdpMessageWrapper)
    : WsServerMessage :=
  match w with
  | WOffer inner => Offer (mk_WsServerSdpMessage origin_peer (sc_session_id inner) (sc_sdp inner))
  | WAnswer inner => Answer (mk_WsServerSdpMessage origin_peer (sc_session_id inner) (sc_sdp inner))
  end.

(** The section of [send_to_peer_with_lock]: the sender of the target, when
    it is in the group. *)
Definition send_to_peer_lock (tm : TxMap) (ip_group : string) (target : Uuid) : option Sender :=
  local ← tm !! ip_group;
  peer_state ← local !! target;
  Some (cs_tx peer_state).

(** The last section of [handle_socket]: the peer leaves, and an empty group
    is removed. *)
Definition disconnect_lock (tm : TxMap) (ip_group : string) (peer_id : Uuid)
    : list Sender * TxMap :=
  match tm !! ip_group with
  | Some local =>
      let local' := delete peer_id local in
      if decide (local' = ∅) then ([], delete ip_group tm)
      else (senders local', <[ip_group := local']> tm)
  | None => ([], tm)
  end.
End operations.

(** ** Connections

    [handle_socket] runs the join phase itself, then spawns the send task (it
    forwards the channel to the socket) and the receive task (it handles the
    messages of the client), waits for either to end, and disconnects. *)

(** What the receive task is doing between two await points. *)
Inductive RecvTask :=
| RIdle
| RHandle (msg : WsClientMessage)
| RSend (pending : list Sender) (m : WsServerMessage)
| RReject.

Inductive Phase :=
| PJoin (pending : list Sender) (peers : list ClientInfo)
| PRun (recv_task : RecvTask)
| PEnd
| PLeave (pending : list Sender)
| PDone.

Record Conn := mk_Conn {
  c_group : string;
  c_peer : ClientInfo;
  (** The receiving end of the channel with its content, [None] once dropped. *)
  c_rx : option (list WsServerMessage);
  c_phase : Phase;
  (** The messages written to the socket, the latest last. *)
  c_out : list WsServerMessage
}.

Definition set_phase (p : Phase) (c : Conn) : Conn :=
  mk_Conn (c_group c) (c_peer c) (c_rx c) p (c_out c).
Definition set_rx (rx : option (list WsServerMessage)) (c : Conn) : Conn :=
  mk_Conn (c_group c) (c_peer c) rx (c_phase c) (c_out c).
Definition push_out (m : WsServerMessage) (c : Conn) : Conn :=
  mk_Conn (c_group c) (c_peer c) (c_rx c) (c_phase c) (c_out c ++ [m]).

Record World := mk_World {
  w_app : AppState;
  w_conns : gmap Uuid Conn
}.

Definition world_new : World := {| w_app := app_state_new; w_conns := ∅ |}.

Definition on_conn (f : Conn → Conn) (id : Uuid) (w : World) : World :=
  {| w_app := w_app w; w_conns := alter f id (w_conns w) |}.

Definition with_tx_map (tm : TxMap) (w : World) : World :=
  {| w_app := {| tx_map := tm; request_count_map := request_count_map (w_app w) |};
     w_conns := w_conns w |}.

(** [mpsc::channel(4)]. *)
Definition CHANNEL_CAPACITY : nat := 4.

(** [tx.send(m).await], whose result the server ignores: an error on a closed
    channel is immediate, a full channel blocks ([None]). *)
Definition send (tx : Sender) (m : WsServerMessage) (w : World) : option World :=
  match w_conns w !! tx with
  | Some c =>
      match c_rx c with
      | Some q =>
          if decide (length q < CHANNEL_CAPACITY)%nat
          then Some (on_conn (set_rx (Some (q ++ [m]))) tx w)
          else None
      | None => Some w
      end
  | None => Some w
  end.

Inductive Label :=
| LConnect (id : Uuid) (ip_group : string) (info : ClientInfoWithoutId)
| LJoin (id : Uuid)
| LHello (id : Uuid)
| LPump (id : Uuid)
| LSendFail (id : Uuid)
| LText (id : Uuid) (text : bytes)
| LStreamEnd (id : Uuid)
| LHandle (id : Uuid)
| LSendNext (id : Uuid)
| LReject (id : Uuid)
| LAbort (id : Uuid)
| LDisconnect (id : Uuid)
| LLeave (id : Uuid)
| LHour.

Section steps.
Context (max_connections max_requests : Z).
Context `{SerdeJson WsClientMessage}.

(** A connection is accepted: the channel is created and the ['lock] block
    runs.  A refused connection ends here. *)
Definition connect (id : Uuid) (ip_group : string) (info : ClientInfoWithoutId)
    (w : World) : option World :=
  match w_conns w !! id with
  | Some _ => None
  | None =>
      let peer := client_info_from info id in
      let '(adm, st) :=
        handle_socket_lock max_connections max_requests (w_app w) ip_group peer id in
      let c := if limit_reached adm
               then mk_Conn ip_group peer None PDone []
               else mk_Conn ip_group peer (Some []) (PJoin (peers_tx adm) (peers adm)) [] in
      Some {| w_app := st; w_conns := <[id := c]> (w_conns w) |}
  end.

(** The receive task gets a text frame: what does not parse is ignored, what
    parses counts as a request. *)
Definition recv_text (id : Uuid) (c : Conn) (text : bytes) (w : World) : World :=
  match from_json text with
  | Some msg =>
      let '(r, counts) :=
        protect_ddos_request_count max_requests (request_count_map (w_app w)) (c_group c) in
      let w' := {| w_app := {| tx_map := tx_map (w_app w); request_count_map := counts |};
                   w_conns := w_conns w |} in
      match r with
      | Ok _ => on_conn (set_phase (PRun (RHandle msg))) id w'
      | Err _ => on_conn (set_phase (PRun RReject)) id w'
      | Panic _ => on_conn (set_phase PEnd) id w'
      end
  | None => w
  end.

(** The receive task after its remaining sends. *)
Definition sending (pending : list Sender) (m : WsServerMessage) : Phase :=
  match pending with [] => PRun RIdle | _ => PRun (RSend pending m) end.

(** The receive task handles a message: the lookup under the lock, which
    decides who is sent what. *)
Definition handle_message (id : Uuid) (c : Conn) (msg : WsClientMessage) (w : World) : World :=
  let route (wrapped : WsClientSdpMessageWrapper) :=
    match send_to_peer_lock (tx_map (w_app w)) (c_group c) (wrapper_target wrapped) with
    | Some tx => on_conn (set_phase (sending [tx] (server_message (c_peer c) wrapped))) id w
    | None => on_conn (set_phase (PRun RIdle)) id w
    end in
  match msg with
  | CUpdate info =>
      let '(txs, tm) := send_update_lock (tx_map (w_app w)) (c_group c) id info in
      on_conn (set_phase (sending txs (Update (client_info_from info id)))) id (with_tx_map tm w)
  | COffer sdp => route (WOffer sdp)
  | CAnswer sdp => route (WAnswer sdp)
  end.

Definition step_fn (l : Label) (w : World) : option World :=
  match l with
  | LConnect id ip_group info => connect id ip_group info w
  | LJoin id =>
      c ← w_conns w !! id;
      match c_phase c with
      | PJoin (tx :: pending) prs =>
          on_conn (set_phase (PJoin pending prs)) id <$> send tx (Join (c_peer c)) w
      | _ => None
      end
  | LHello id =>
      c ← w_conns w !! id;
      match c_phase c with
      | PJoin [] prs => on_conn (set_phase (PRun RIdle)) id <$> send id (Hello (c_peer c) prs) w
      | _ => None
      end
  | LPump id =>
      c ← w_conns w !! id;
      match c_rx c, c_phase c with
      | Some (m :: q), (PRun _ | PEnd) => Some (on_conn (push_out m ∘ set_rx (Some q)) id w)
      | _, _ => None
      end
  | LSendFail id =>
      c ← w_conns w !! id;
      match c_rx c, c_phase c with
      | Some (m :: q), PRun _ => Some (on_conn (set_rx None) id w)
      | _, _ => None
      end
  | LText id text =>
      c ← w_conns w !! id;
      match c_phase c with PRun RIdle => Some (recv_text id c text w) | _ => None end
  | LStreamEnd id =>
      c ← w_conns w !! id;
      match c_phase c with PRun RIdle => Some (on_conn (set_phase PEnd) id w) | _ => None end
  | LHandle id =>
      c ← w_conns w !! id;
      match c_phase c with
      | PRun (RHandle msg) => Some (handle_message id c msg w)
      | _ => None
      end
  | LSendNext id =>
      c ← w_conns w !! id;
      match c_phase c with
      | PRun (RSend (tx :: pending) m) => on_conn (set_phase (sending pending m)) id <$> send tx m w
      | _ => None
      end
  | LReject id =>
      c ← w_conns w !! id;
      match c_phase c with
      | PRun RReject => on_conn (set_phase PEnd) id <$> send id (WsError TOO_MANY_REQUESTS) w
      | _ => None
      end
  | LAbort id =>
      c ← w_conns w !! id;
      match c_rx c, c_phase c with
      | None, PRun _ => Some (on_conn (set_phase PEnd) id w)
      | _, _ => None
      end
  | LDisconnect id =>
      c ← w_conns w !! id;
      match c_phase c with
      | PEnd =>
          let '(txs, tm) := disconnect_lock (tx_map (w_app w)) (c_group c) id in
          Some (on_conn (set_rx None ∘ set_phase (PLeave txs)) id (with_tx_map tm w))
      | _ => None
      end
  | LLeave id =>
      c ← w_conns w !! id;
      match c_phase c with
      | PLeave (tx :: pending) => on_conn (set_phase (PLeave pending)) id <$> send tx (Left id) w
      | PLeave [] => Some (on_conn (set_phase PDone) id w)
      | _ => None
      end
  | LHour => Some {| w_app := clear_request_counts (w_app w); w_conns := w_conns w |}
  end.

Definition step (w w' : World) : Prop := ∃ l, step_fn l w = Some w'.

(** The worlds the server can be in. *)
Inductive reachable : World → Prop :=
| reachable_new : reachable world_new
| reachable_step w w' : reachable w → step w w' → reachable w'.

(** A run of labels, for concrete scenarios. *)
Fixpoint run (ls : list Label) (w : World) : option World :=
  match ls with [] => Some w | l :: ls' => w' ← step_fn l w; run ls' w' end.

Lemma run_reachable ls w w' : reachable w → run ls w = Some w' → reachable w'.
Proof.
  revert w. induction ls as [|l ls IH]; intros w Hw Hrun; simpl in Hrun; [by simplify_eq|].
  destruct (step_fn l w) as [w1|] eqn:Hl; [|done].
  apply (IH w1); [|done]. eapply reachable_step; [done|by exists l].
Qed.
End steps.
