(* ===== verification/WsServerSafety.v ===== *)
(** * Safety of the signaling server

    The invariant of the server state and of all connections, its
    preservation by every step, and what it gives: the limits, the agreement
    of the peer map with the live connections, and the isolation of the IP
    groups. *)

From stdpp Require Import sets.
From S2P Require Import Prelude Net Serde Signaling WsServer.

(** ** Views of a world *)

(** A connection is in its room from the ['lock] block to the disconnection. *)
Definition in_room (p : Phase) : bool :=
  match p with PJoin _ _ | PRun _ | PEnd => true | PLeave _ | PDone => false end.

Definition conn_view (c : Conn) : string * bool := (c_group c, in_room (c_phase c)).
Definition view (w : World) : gmap Uuid (string * bool) := conn_view <$> w_conns w.
Definition groups (w : World) : gmap Uuid string := c_group <$> w_conns w.

(** ** The invariant *)

(** The peer map and the connections in a room agree, and every sender of the
    map is the channel of the peer it is filed under. *)
Record rooms_ok (V : gmap Uuid (string * bool)) (tm : TxMap) : Prop := {
  ro_entry g local id cs :
    tm !! g = Some local → local !! id = Some cs → cs_tx cs = id ∧ V !! id = Some (g, true);
  ro_member id g :
    V !! id = Some (g, true) → ∃ local cs, tm !! g = Some local ∧ local !! id = Some cs
}.

(** The limits on connections and requests. *)
Record limits_ok (max_connections max_requests : Z) (st : AppState) : Prop := {
  lo_size g local :
    tx_map st !! g = Some local → (Z.of_nat (size local) ≤ max_connections)%Z;
  lo_count g n :
    request_count_map st !! g = Some n → (0 ≤ n ≤ max_requests)%Z
}.

Definition in_group (G : gmap Uuid string) (g : string) (id : Uuid) : Prop := G !! id = Some g.

(** A message for group [g] is about peers of [g] only. *)
Definition msg_ok (G : gmap Uuid string) (g : string) (m : WsServerMessage) : Prop :=
  Forall (in_group G g) (mentioned m).

Definition phase_ok (G : gmap Uuid string) (g : string) (p : Phase) : Prop :=
  match p with
  | PJoin pending prs => Forall (in_group G g) pending ∧ Forall (in_group G g) (ci_id <$> prs)
  | PRun (RSend pending m) => Forall (in_group G g) pending ∧ msg_ok G g m
  | PLeave pending => Forall (in_group G g) pending
  | PRun _ | PEnd | PDone => True
  end.

Record conn_ok (G : gmap Uuid string) (id : Uuid) (c : Conn) : Prop := {
  co_id : ci_id (c_peer c) = id;
  co_phase : phase_ok G (c_group c) (c_phase c);
  co_rx q : c_rx c = Some q → length q ≤ CHANNEL_CAPACITY ∧ Forall (msg_ok G (c_group c)) q;
  co_out : Forall (msg_ok G (c_group c)) (c_out c)
}.

Definition conns_ok (w : World) : Prop := map_Forall (conn_ok (groups w)) (w_conns w).

Record world_ok (max_connections max_requests : Z) (w : World) : Prop := {
  wo_rooms : rooms_ok (view w) (tx_map (w_app w));
  wo_limits : limits_ok max_connections max_requests (w_app w);
  wo_conns : conns_ok w
}.

Create HintDb ws.

Lemma Forall_one {A} (P : A → Prop) x : P x → Forall P [x].
Proof. intros. by apply Forall_singleton. Qed.

(** ** Monotonicity in the groups *)

Lemma in_group_mono G G' g id : G ⊆ G' → in_group G g id → in_group G' g id.
Proof. unfold in_group. intros ? ?. by eapply lookup_weaken. Qed.

Lemma Forall_in_group_mono G G' g ids :
  G ⊆ G' → Forall (in_group G g) ids → Forall (in_group G' g) ids.
Proof. intros. eapply Forall_impl; [done|]. eauto using in_group_mono. Qed.
#[local] Hint Resolve Forall_in_group_mono : ws.

Lemma msgs_ok_mono G G' g ms : G ⊆ G' → Forall (msg_ok G g) ms → Forall (msg_ok G' g) ms.
Proof. intros. eapply Forall_impl; [done|]. unfold msg_ok. eauto with ws. Qed.
#[local] Hint Resolve msgs_ok_mono : ws.

Lemma phase_ok_mono G G' g p : G ⊆ G' → phase_ok G g p → phase_ok G' g p.
Proof.
  destruct p as [pending prs|[]| |pending|]; simpl; unfold msg_ok; intuition eauto with ws.
Qed.
#[local] Hint Resolve phase_ok_mono : ws.

Lemma conn_ok_mono G G' id c : G ⊆ G' → conn_ok G id c → conn_ok G' id c.
Proof.
  intros HG []. constructor; eauto with ws.
  intros q Hq. destruct (co_rx0 q Hq). eauto with ws.
Qed.
#[local] Hint Resolve conn_ok_mono : ws.

(** ** Updating one connection *)

Lemma groups_on_conn f id w :
  (∀ c, c_group (f c) = c_group c) → groups (on_conn f id w) = groups w.
Proof.
  intros Hf. unfold groups, on_conn; simpl. apply map_eq. intros i.
  rewrite !lookup_fmap, lookup_alter. case_decide; [subst|done].
  destruct (w_conns w !! i); simpl; [by rewrite Hf|done].
Qed.

Lemma view_on_conn f id w :
  (∀ c, w_conns w !! id = Some c → conn_view (f c) = conn_view c) →
  view (on_conn f id w) = view w.
Proof.
  intros Hf. unfold view, on_conn; simpl. apply map_eq. intros i.
  rewrite !lookup_fmap, lookup_alter. case_decide; [subst|done].
  destruct (w_conns w !! i) eqn:Hi; simpl; [by rewrite Hf|done].
Qed.

Lemma conns_ok_on_conn f id w :
  (∀ c, c_group (f c) = c_group c) →
  (∀ c, w_conns w !! id = Some c → conn_ok (groups w) id c → conn_ok (groups w) id (f c)) →
  conns_ok w → conns_ok (on_conn f id w).
Proof.
  intros Hg Hf Hw. unfold conns_ok. rewrite groups_on_conn by done.
  intros i c. unfold on_conn; simpl. rewrite lookup_alter. case_decide; [subst|by apply Hw].
  destruct (w_conns w !! i) as [c0|] eqn:Hi; simpl; [|done].
  intros [= <-]. eauto.
Qed.

Lemma conn_ok_set_phase G id c p :
  phase_ok G (c_group c) p → conn_ok G id c → conn_ok G id (set_phase p c).
Proof. intros Hp []. by constructor. Qed.
#[local] Hint Resolve conn_ok_set_phase : ws.

Lemma conn_ok_set_rx G id c q :
  length q ≤ CHANNEL_CAPACITY → Forall (msg_ok G (c_group c)) q →
  conn_ok G id c → conn_ok G id (set_rx (Some q) c).
Proof. intros Hl Hq []. constructor; simpl; try done. by intros ? [= <-]. Qed.

Lemma conn_ok_close_rx G id c : conn_ok G id c → conn_ok G id (set_rx None c).
Proof. intros []. by constructor. Qed.
#[local] Hint Resolve conn_ok_close_rx : ws.

(** A step inside one connection that stays on the same side of the door. *)
Lemma world_ok_local mc mr f id w :
  (∀ c, c_group (f c) = c_group c) →
  (∀ c, w_conns w !! id = Some c →
     in_room (c_phase (f c)) = in_room (c_phase c) ∧
     (conn_ok (groups w) id c → conn_ok (groups w) id (f c))) →
  world_ok mc mr w → world_ok mc mr (on_conn f id w).
Proof.
  intros Hg Hf []. constructor; [|done|].
  - rewrite view_on_conn; [done|]. intros c Hc. unfold conn_view.
    by rewrite Hg, (proj1 (Hf c Hc)).
  - apply conns_ok_on_conn; [done| |done]. intros c Hc. by apply Hf.
Qed.

(** The same for a change of phase only. *)
Lemma world_ok_phase mc mr id c p w :
  w_conns w !! id = Some c → in_room p = in_room (c_phase c) →
  phase_ok (groups w) (c_group c) p →
  world_ok mc mr w → world_ok mc mr (on_conn (set_phase p) id w).
Proof.
  intros Hc Hroom Hp. apply world_ok_local; [done|].
  intros c' Hc'. simplify_eq. eauto with ws.
Qed.

(** ** Sending *)

(** What [send] leaves of a connection. *)
Definition same_conn (c c' : Conn) : Prop :=
  c_group c' = c_group c ∧ c_peer c' = c_peer c ∧ c_phase c' = c_phase c ∧ c_out c' = c_out c.

Lemma send_conns tx m w w' id c :
  send tx m w = Some w' → w_conns w !! id = Some c →
  ∃ c', w_conns w' !! id = Some c' ∧ same_conn c c'.
Proof.
  unfold send. intros Hs Hc. unfold same_conn.
  destruct (w_conns w !! tx) as [d|] eqn:Hd; [|by simplify_eq; eauto 10].
  destruct (c_rx d) as [q|]; [|by simplify_eq; eauto 10].
  case_decide; simplify_eq. unfold on_conn; simpl. rewrite lookup_alter, Hc.
  case_decide; [subst; rewrite Hc|]; simpl; eauto 10.
Qed.

Lemma send_groups tx m w w' : send tx m w = Some w' → groups w' = groups w.
Proof.
  unfold send. intros Hs.
  destruct (w_conns w !! tx) as [d|]; [|by simplify_eq].
  destruct (c_rx d) as [q|]; [|by simplify_eq].
  case_decide; simplify_eq. by apply groups_on_conn.
Qed.

Lemma send_world_ok mc mr tx m w w' :
  send tx m w = Some w' →
  (∀ g, in_group (groups w) g tx → msg_ok (groups w) g m) →
  world_ok mc mr w → world_ok mc mr w'.
Proof.
  unfold send. intros Hs Hm Hw.
  destruct (w_conns w !! tx) as [d|] eqn:Hd; [|by simplify_eq].
  destruct (c_rx d) as [q|] eqn:Hq0; [|by simplify_eq].
  case_decide; simplify_eq.
  apply world_ok_local; [done| |done]. intros c' Hc'. split; [done|]. simplify_eq.
  intros Hok. destruct (co_rx _ _ _ Hok _ Hq0) as [Hl Hq].
  apply conn_ok_set_rx; [rewrite length_app; simpl; lia| |done].
  apply Forall_app. split; [done|]. repeat constructor. apply Hm.
  unfold in_group, groups. by rewrite lookup_fmap, Hd.
Qed.

(** [send] followed by a change of phase of the sender. *)
Lemma send_phase_ok mc mr tx m id c p w w' :
  w_conns w !! id = Some c → in_room p = in_room (c_phase c) →
  phase_ok (groups w) (c_group c) p →
  in_group (groups w) (c_group c) tx → msg_ok (groups w) (c_group c) m →
  world_ok mc mr w → on_conn (set_phase p) id <$> send tx m w = Some w' →
  world_ok mc mr w'.
Proof.
  intros Hc Hroom Hp Htx Hm Hw Hw'.
  destruct (send tx m w) as [w1|] eqn:Hs; [|done]. simplify_eq/=.
  destruct (send_conns _ _ _ _ _ _ Hs Hc) as (c1 & Hc1 & Hg & _ & Hph & _).
  eapply world_ok_phase; [done|by rewrite Hph| |].
  - by rewrite Hg, (send_groups _ _ _ _ Hs).
  - eapply send_world_ok; [done| |done]. intros g Hg'.
    unfold in_group in *. congruence.
Qed.

Lemma groups_lookup w id c : w_conns w !! id = Some c → in_group (groups w) (c_group c) id.
Proof. intros Hc. unfold in_group, groups. by rewrite lookup_fmap, Hc. Qed.
#[local] Hint Resolve groups_lookup : ws.

Lemma view_groups w id g b : view w !! id = Some (g, b) → in_group (groups w) g id.
Proof.
  unfold view, in_group, groups, conn_view. rewrite !lookup_fmap.
  destruct (w_conns w !! id); simpl; naive_solver.
Qed.

Lemma view_lookup w id c :
  w_conns w !! id = Some c → view w !! id = Some (c_group c, in_room (c_phase c)).
Proof. intros Hc. unfold view. by rewrite lookup_fmap, Hc. Qed.

(** ** Critical sections *)

(** Everything a section reads from a group is a member of it. *)
Lemma senders_in_group G g local :
  (∀ id cs, local !! id = Some cs → cs_tx cs = id ∧ in_group G g id) →
  Forall (in_group G g) (senders local).
Proof.
  intros Hl. unfold senders. apply Forall_fmap, Forall_forall.
  intros [id cs] Hin. apply elem_of_map_to_list in Hin. simpl.
  destruct (Hl _ _ Hin) as [-> ?]. done.
Qed.

Lemma peer_infos_in_group G g local :
  (∀ id cs, local !! id = Some cs → cs_tx cs = id ∧ in_group G g id) →
  Forall (in_group G g) (ci_id <$> peer_infos local).
Proof.
  intros Hl. unfold peer_infos. rewrite <- list_fmap_compose. apply Forall_fmap, Forall_forall.
  intros [id cs] Hin. apply elem_of_map_to_list in Hin. simpl. by apply (Hl id cs).
Qed.

Lemma rooms_in_group w tm g local :
  rooms_ok (view w) tm → tm !! g = Some local →
  ∀ id cs, local !! id = Some cs → cs_tx cs = id ∧ in_group (groups w) g id.
Proof.
  intros Hr Hg id cs Hid. destruct (ro_entry _ _ Hr _ _ _ _ Hg Hid) as [? Hv].
  eauto using view_groups.
Qed.

(** The request counter stays within its limit and never overflows. *)
Lemma protect_ok mr counts g r counts' :
  (0 ≤ mr ≤ u32_max)%Z →
  (∀ g n, counts !! g = Some n → 0 ≤ n ≤ mr)%Z →
  protect_ddos_request_count mr counts g = (r, counts') →
  (∀ g n, counts' !! g = Some n → 0 ≤ n ≤ mr)%Z ∧ ¬ is_panic r.
Proof.
  intros Hmr Hc. unfold protect_ddos_request_count.
  assert (0 ≤ default 0 (counts !! g) ≤ mr)%Z as Hn.
  { destruct (counts !! g) as [n|] eqn:Hg; simpl; [by eapply Hc|lia]. }
  set (n := default 0%Z (counts !! g)) in *. clearbody n.
  assert (∀ z, (0 ≤ z ≤ mr)%Z →
    ∀ g' n', <[g:=z]> counts !! g' = Some n' → (0 ≤ n' ≤ mr)%Z) as Hins.
  { intros z Hz g' n' Hg'. destruct (decide (g = g')) as [->|]; simplify_map_eq; eauto. }
  repeat case_decide; intros [= <- <-]; (split; [apply Hins; lia|]); unfold is_panic;
    try naive_solver.
  lia.
Qed.

(** The ['lock] block with a group that is there: either the peer is filed in
    the group, or no peer map changes; either way the limits hold. *)
Lemma lock_admitted mc mr st g peer tx adm st' :
  handle_socket_lock mc mr st g peer tx = (adm, st') →
  let local := default ∅ (tx_map st !! g) in
  if limit_reached adm
  then tx_map st' = <[g := local]> (tx_map st)
  else tx_map st' =
         <[g := <[ci_id peer := mk_ClientState (client_info_without_id peer) tx]> local]> (tx_map st)
       ∧ peers_tx adm = senders local ∧ peers adm = peer_infos local
       ∧ (Z.of_nat (size local) < mc)%Z.
Proof.
  unfold handle_socket_lock. intros Heq.
  case_decide; simplify_eq/=; [done|].
  destruct (protect_ddos_request_count _ _ _) as [[] ?]; simplify_eq/=; try done.
  rewrite insert_insert_eq. repeat split; auto; lia.
Qed.

Lemma lock_limits mc mr st g peer tx adm st' :
  (0 ≤ mc)%Z → (0 ≤ mr ≤ u32_max)%Z → limits_ok mc mr st →
  handle_socket_lock mc mr st g peer tx = (adm, st') → limits_ok mc mr st'.
Proof.
  intros Hmc Hmr [Hsize Hcount] Heq.
  assert (Z.of_nat (size (default ∅ (tx_map st !! g))) ≤ mc)%Z as Hlocal.
  { destruct (tx_map st !! g) eqn:Hg; simpl; [by eapply Hsize|by rewrite map_size_empty]. }
  pose proof (lock_admitted _ _ _ _ _ _ _ _ Heq) as Hadm. cbv zeta in Hadm.
  constructor.
  - assert (∃ local', tx_map st' = <[g := local']> (tx_map st) ∧ (Z.of_nat (size local') ≤ mc)%Z)
      as (local' & Htm & Hle).
    { destruct (limit_reached adm); [by eauto|].
      destruct Hadm as (-> & _ & _ & Hlt). eexists; split; [done|].
      generalize dependent (default ∅ (tx_map st !! g)). intros local **.
      rewrite map_size_insert. case_match; unfold id; lia. }
    intros g' l' Hl'. rewrite Htm in Hl'.
    destruct (decide (g = g')) as [->|]; simplify_map_eq; eauto.
  - unfold handle_socket_lock in Heq. case_decide; simplify_eq/=; [done|].
    destruct (protect_ddos_request_count _ _ _) as [r counts] eqn:Hp.
    destruct (protect_ok _ _ _ _ _ Hmr Hcount Hp) as [Hc _].
    destruct r; simplify_eq/=; eauto.
Qed.

(** ** The rooms under the critical sections *)

Section rooms.
Implicit Types (V : gmap Uuid (string * bool)) (tm : TxMap).

Lemma rooms_ok_touch V tm g : rooms_ok V tm → rooms_ok V (<[g := default ∅ (tm !! g)]> tm).
Proof.
  intros [He Hm]. constructor.
  - intros g' local id cs Hg' Hid. destruct (decide (g = g')) as [<-|]; simplify_map_eq; eauto.
    destruct (tm !! g) eqn:?; simplify_map_eq; eauto.
  - intros id g' Hid. destruct (Hm _ _ Hid) as (local & cs & Hl & Hc).
    exists local, cs. split; [|done].
    destruct (decide (g = g')) as [<-|]; simplify_map_eq; done.
Qed.

Lemma rooms_ok_out V tm id g :
  V !! id = None → rooms_ok V tm → rooms_ok (<[id := (g, false)]> V) tm.
Proof.
  intros Hid [He Hm]. constructor.
  - intros g' local id' cs Hg' Hid'. destruct (He _ _ _ _ Hg' Hid') as [? HV].
    rewrite lookup_insert_ne by congruence. done.
  - intros id' g' HV. destruct (decide (id = id')) as [<-|]; simplify_map_eq; eauto.
Qed.

Lemma rooms_ok_add V tm g id cs :
  V !! id = None → cs_tx cs = id → rooms_ok V tm →
  rooms_ok (<[id := (g, true)]> V) (<[g := <[id := cs]> (default ∅ (tm !! g))]> tm).
Proof.
  intros Hid Htx Hr. pose proof (rooms_ok_touch V tm g Hr) as [He Hm]. constructor.
  - intros g' local id' cs' Hg' Hid'.
    destruct (decide (g = g')) as [<-|]; simplify_map_eq.
    + destruct (decide (cs_tx cs = id')) as [<-|]; simplify_map_eq; [done|].
      apply (He g (default ∅ (tm !! g))); [by simplify_map_eq|done].
    + assert (V !! id' = Some (g', true)) as HV.
      { apply (He g' local id' cs'); [by simplify_map_eq|done]. }
      split; [apply (He g' local id' cs'); [by simplify_map_eq|done]|].
      by rewrite lookup_insert_ne by congruence.
  - intros id' g' HV. destruct (decide (id = id')) as [<-|]; simplify_map_eq.
    + do 2 eexists. by rewrite !lookup_insert_eq.
    + destruct (Hm _ _ HV) as (local & cs' & Hl & Hc).
      destruct (decide (g = g')) as [<-|]; simplify_map_eq; [|by eauto].
      do 2 eexists. split; [by simplify_map_eq|]. by simplify_map_eq.
Qed.

Lemma rooms_ok_update V tm g id local cs cs' :
  tm !! g = Some local → local !! id = Some cs → cs_tx cs' = cs_tx cs →
  rooms_ok V tm → rooms_ok V (<[g := <[id := cs']> local]> tm).
Proof.
  intros Hg Hid Htx [He Hm]. constructor.
  - intros g' l' id' c' Hg' Hid'.
    destruct (decide (g = g')) as [<-|]; simplify_map_eq; [|by eauto].
    destruct (decide (id = id')) as [<-|]; simplify_map_eq; [|by eauto].
    rewrite Htx. eauto.
  - intros id' g' HV. destruct (Hm _ _ HV) as (l' & c' & Hl & Hc).
    destruct (decide (g = g')) as [<-|]; simplify_map_eq; [|by eauto].
    destruct (decide (id = id')) as [<-|]; eexists _, _; (split; [by simplify_map_eq|]);
      by simplify_map_eq.
Qed.

(** An empty group is as good as no group. *)
Lemma rooms_ok_drop V tm g :
  tm !! g = Some ∅ → rooms_ok V tm → rooms_ok V (delete g tm).
Proof.
  intros Hg [He Hm]. constructor.
  - intros g' l id cs Hg' Hid. destruct (decide (g = g')) as [<-|]; simplify_map_eq; eauto.
  - intros id g' HV. destruct (Hm _ _ HV) as (l & cs & Hl & Hc).
    destruct (decide (g = g')) as [<-|]; simplify_map_eq; eauto.
Qed.

Lemma rooms_ok_delete V tm g id local :
  tm !! g = Some local → V !! id = Some (g, true) → rooms_ok V tm →
  rooms_ok (<[id := (g, false)]> V) (<[g := delete id local]> tm).
Proof.
  intros Hg HVid [He Hm]. constructor.
  - intros g' l' id' c' Hg' Hid'.
    destruct (decide (id = id')) as [<-|Hne].
    + destruct (decide (g = g')) as [<-|]; simplify_map_eq.
      destruct (He _ _ _ _ Hg' Hid') as [_ HV]. congruence.
    + rewrite lookup_insert_ne by done.
      destruct (decide (g = g')) as [<-|]; simplify_map_eq; eauto.
  - intros id' g' HV.
    destruct (decide (id = id')) as [<-|Hne]; simplify_map_eq.
    destruct (Hm _ _ HV) as (l' & c' & Hl & Hc).
    destruct (decide (g = g')) as [<-|]; simplify_map_eq; [|by eauto].
    do 2 eexists. split; [by simplify_map_eq|]. by simplify_map_eq.
Qed.

Lemma rooms_ok_disconnect V tm g id :
  V !! id = Some (g, true) → rooms_ok V tm →
  rooms_ok (<[id := (g, false)]> V) (disconnect_lock tm g id).2.
Proof.
  intros HV Hr. destruct (ro_member _ _ Hr _ _ HV) as (local & cs & Hg & Hid).
  unfold disconnect_lock. rewrite Hg.
  pose proof (rooms_ok_delete _ _ _ _ _ Hg HV Hr) as Hd.
  case_decide as Hempty; simpl; [|done].
  rewrite <- (delete_insert_eq tm g (delete id local)). apply rooms_ok_drop; [|done].
  by rewrite lookup_insert_eq, Hempty.
Qed.
End rooms.

(** ** Preservation *)

Lemma view_insert id c w conns :
  conns = <[id := c]> (w_conns w) → conn_view <$> conns = <[id := conn_view c]> (view w).
Proof. intros ->. apply fmap_insert. Qed.

Lemma in_groups_of_view w id g b : view w !! id = Some (g, b) → groups w !! id = Some g.
Proof. apply view_groups. Qed.

Section preservation.
Context (mc mr : Z).
Context (Hmc : (0 ≤ mc)%Z) (Hmr : (0 ≤ mr ≤ u32_max)%Z).
Context `{SerdeJson WsClientMessage}.

Lemma connect_ok id g info w w' :
  connect mc mr id g info w = Some w' → world_ok mc mr w → world_ok mc mr w'.
Proof using Hmc Hmr.
  unfold connect. destruct (w_conns w !! id) as [|] eqn:Hid; [done|].
  destruct (handle_socket_lock _ _ _ _ _ _) as [adm st] eqn:Hlock.
  intros [= <-] [Hr Hl Hc].
  pose proof (lock_admitted _ _ _ _ _ _ _ _ Hlock) as Hadm. cbv zeta in Hadm.
  assert (view w !! id = None) as HVid by (unfold view; by rewrite lookup_fmap, Hid).
  assert (groups w !! id = None) as HGid by (unfold groups; by rewrite lookup_fmap, Hid).
  assert (groups w ⊆ <[id := g]> (groups w)) as HG by (by apply insert_subseteq).
  assert (∀ i cs, default ∅ (tx_map (w_app w) !! g) !! i = Some cs →
    cs_tx cs = i ∧ in_group (<[id := g]> (groups w)) g i) as Hlocal.
  { intros i cs. destruct (tx_map (w_app w) !! g) eqn:Hg; simpl; [|by rewrite lookup_empty].
    intros Hi. destruct (rooms_in_group _ _ _ _ Hr Hg _ _ Hi). eauto using in_group_mono. }
  constructor; simpl; [|by eapply lock_limits|].
  - unfold view; simpl. rewrite (view_insert id _ w _ eq_refl).
    destruct (limit_reached adm); simpl.
    + rewrite Hadm. by apply rooms_ok_out, rooms_ok_touch.
    + destruct Hadm as (-> & _). by apply rooms_ok_add.
  - unfold conns_ok, groups; simpl. rewrite fmap_insert.
    apply map_Forall_insert; [done|]. split.
    + destruct (limit_reached adm); simpl; constructor; simpl; try done.
      * destruct Hadm as (_ & -> & -> & _).
        split; [by apply senders_in_group|by apply peer_infos_in_group].
      * intros q [= <-]. split; [unfold CHANNEL_CAPACITY; simpl; lia|constructor].
    + intros i c Hi. assert (c_group (if limit_reached adm
        then mk_Conn g (client_info_from info id) None PDone []
        else mk_Conn g (client_info_from info id) (Some []) (PJoin (peers_tx adm) (peers adm)) [])
        = g) as -> by (by destruct (limit_reached adm)).
      eapply conn_ok_mono; [exact HG|]. by apply Hc.
Qed.

Lemma with_counts_ok counts w :
  (∀ g n, counts !! g = Some n → 0 ≤ n ≤ mr)%Z → world_ok mc mr w →
  world_ok mc mr {| w_app := {| tx_map := tx_map (w_app w); request_count_map := counts |};
                    w_conns := w_conns w |}.
Proof using. intros Hcounts [Hr [Hs _] Hc]. constructor; [done|by constructor|done]. Qed.

Lemma recv_text_ok id c text w :
  w_conns w !! id = Some c → c_phase c = PRun RIdle →
  world_ok mc mr w → world_ok mc mr (recv_text mr id c text w).
Proof using Hmr.
  intros Hid Hp Hw. unfold recv_text. destruct (from_json text); [|done].
  destruct (protect_ddos_request_count _ _ _) as [r counts] eqn:Hprot.
  destruct (protect_ok _ _ _ _ _ Hmr (lo_count _ _ _ (wo_limits _ _ _ Hw)) Hprot) as [Hc _].
  destruct r; (eapply world_ok_phase; [simpl; exact Hid|by rewrite Hp|done|by apply with_counts_ok]).
Qed.

Lemma sending_room pending m : in_room (sending pending m) = true.
Proof using. by destruct pending. Qed.

Lemma sending_ok G g pending m :
  Forall (in_group G g) pending → msg_ok G g m → phase_ok G g (sending pending m).
Proof using. by destruct pending. Qed.

Lemma update_lock_ok w id g info txs tm :
  world_ok mc mr w →
  send_update_lock (tx_map (w_app w)) g id info = (txs, tm) →
  world_ok mc mr (with_tx_map tm w) ∧ Forall (in_group (groups w) g) txs.
Proof using.
  unfold send_update_lock. intros Hw Heq.
  assert (with_tx_map (tx_map (w_app w)) w = w) as Hsame by (by destruct w as [[] ?]).
  destruct (tx_map (w_app w) !! g) as [local|] eqn:Hg; [|simplify_eq; by rewrite Hsame].
  destruct (local !! id) as [cs|] eqn:Hid; [|simplify_eq; by rewrite Hsame].
  simplify_eq. destruct Hw as [Hr [Hs Hcnt] Hc].
  pose proof (rooms_ok_update _ _ _ _ _ _ (mk_ClientState info (cs_tx cs)) Hg Hid eq_refl Hr) as Hr'.
  split; [constructor; [exact Hr'|constructor; simpl; [|done]|exact Hc]|].
  - intros g' l' Hl'. destruct (decide (g = g')) as [<-|]; simplify_map_eq; [|by eauto].
    rewrite map_size_insert, Hid. by eapply Hs.
  - apply senders_in_group. intros i cs' Hi. apply map_lookup_filter_Some in Hi as [Hi _].
    eapply rooms_in_group; [exact Hr'|by rewrite lookup_insert_eq|done].
Qed.

Lemma peer_in_group w id c :
  conns_ok w → w_conns w !! id = Some c → in_group (groups w) (c_group c) (ci_id (c_peer c)).
Proof using. intros Hc Hid. rewrite (co_id _ _ _ (Hc _ _ Hid)). by apply groups_lookup. Qed.

Lemma send_to_peer_in_group w tm g target tx :
  rooms_ok (view w) tm → send_to_peer_lock tm g target = Some tx →
  in_group (groups w) g tx ∧ tx = target.
Proof using.
  unfold send_to_peer_lock. intros Hr Ht.
  destruct (tm !! g) as [local|] eqn:Hg; simplify_eq/=.
  destruct (local !! target) as [cs|] eqn:Hid; simplify_eq/=.
  by destruct (rooms_in_group _ _ _ _ Hr Hg _ _ Hid) as [-> ?].
Qed.

Lemma handle_message_ok id c msg w :
  w_conns w !! id = Some c → c_phase c = PRun (RHandle msg) →
  world_ok mc mr w → world_ok mc mr (handle_message id c msg w).
Proof using.
  intros Hid Hp Hw. pose proof (wo_conns _ _ _ Hw) as Hc.
  assert (∀ wr, world_ok mc mr
    (match send_to_peer_lock (tx_map (w_app w)) (c_group c) (wrapper_target wr) with
     | Some tx => on_conn (set_phase (sending [tx] (server_message (c_peer c) wr))) id w
     | None => on_conn (set_phase (PRun RIdle)) id w
     end)) as Hroute.
  { intros wr. destruct (send_to_peer_lock _ _ _) as [tx|] eqn:Ht.
    - eapply world_ok_phase; [done|by rewrite sending_room, Hp| |done].
      apply sending_ok.
      + eapply Forall_one, send_to_peer_in_group; [apply Hw|exact Ht].
      + destruct wr; apply Forall_one; by eapply peer_in_group.
    - by eapply world_ok_phase; [done|rewrite Hp|..]. }
  unfold handle_message. destruct msg as [info|sdp|sdp]; [|apply (Hroute (WOffer sdp))|
    apply (Hroute (WAnswer sdp))].
  destruct (send_update_lock _ _ _ _) as [txs tm] eqn:Hu.
  destruct (update_lock_ok _ _ _ _ _ _ Hw Hu) as [Hw' Htxs].
  eapply world_ok_phase; [exact Hid|by rewrite sending_room, Hp| |done].
  apply sending_ok; [exact Htxs|]. apply Forall_one. by apply (groups_lookup w).
Qed.

Lemma disconnect_ok id c txs tm w :
  w_conns w !! id = Some c → c_phase c = PEnd →
  disconnect_lock (tx_map (w_app w)) (c_group c) id = (txs, tm) →
  world_ok mc mr w →
  world_ok mc mr (on_conn (set_rx None ∘ set_phase (PLeave txs)) id (with_tx_map tm w)).
Proof using.
  intros Hid Hp Hd [Hr [Hs Hcnt] Hc].
  assert (view w !! id = Some (c_group c, true)) as HV
    by (by rewrite (view_lookup _ _ _ Hid), Hp).
  pose proof (rooms_ok_disconnect _ _ _ _ HV Hr) as Hr'. rewrite Hd in Hr'; simpl in Hr'.
  assert (w_conns (on_conn (set_rx None ∘ set_phase (PLeave txs)) id w)
    = <[id := set_rx None (set_phase (PLeave txs) c)]> (w_conns w)) as Hconns.
  { by apply (alter_alt_Some (set_rx None ∘ set_phase (PLeave txs))). }
  constructor; simpl.
  - change (rooms_ok (view (on_conn (set_rx None ∘ set_phase (PLeave txs)) id w)) tm).
    unfold view. by rewrite Hconns, (view_insert id _ w _ eq_refl).
  - constructor; simpl; [|done]. unfold disconnect_lock in Hd.
    destruct (tx_map (w_app w) !! (c_group c)) as [local|] eqn:Hg; [|by simplify_eq].
    intros g' l' Hl'. case_decide; simplify_eq/=.
    + apply lookup_delete_Some in Hl' as [_ Hl']. by eapply Hs.
    + destruct (decide (c_group c = g')) as [<-|]; simplify_map_eq; [|by eapply Hs].
      etransitivity; [|by eapply Hs]. apply Nat2Z.inj_le, map_subseteq_size, delete_subseteq.
  - apply (conns_ok_on_conn (set_rx None ∘ set_phase (PLeave txs)) id w); [done| |done].
    intros c' Hc' Hok. simplify_eq. apply conn_ok_close_rx, conn_ok_set_phase; [|done]. simpl.
    unfold disconnect_lock in Hd.
    destruct (tx_map (w_app w) !! (c_group c)) as [local|] eqn:Hg; [|by simplify_eq].
    case_decide; simplify_eq; [done|]. apply senders_in_group. intros i cs Hi.
    apply lookup_delete_Some in Hi as [_ Hi]. by eapply rooms_in_group.
Qed.

Lemma pump_ok id c m q w :
  w_conns w !! id = Some c → c_rx c = Some (m :: q) → world_ok mc mr w →
  world_ok mc mr (on_conn (push_out m ∘ set_rx (Some q)) id w).
Proof using.
  intros Hid Hrx. apply world_ok_local; [done|]. intros c' Hc'. simplify_eq.
  split; [done|]. intros [Hi Hp Hq Ho]. destruct (Hq _ Hrx) as [Hlen [Hm Hqs]%Forall_cons].
  constructor; simpl; [done|done| |].
  - intros ? [= <-]. simpl in Hlen. split; [lia|done].
  - apply Forall_app. split; [done|]. by apply Forall_one.
Qed.

Lemma close_ok id w : world_ok mc mr w → world_ok mc mr (on_conn (set_rx None) id w).
Proof using. apply world_ok_local; [done|]. intros c Hc. split; [done|apply conn_ok_close_rx]. Qed.

Lemma step_fn_ok l w w' :
  step_fn mc mr l w = Some w' → world_ok mc mr w → world_ok mc mr w'.
Proof using Hmc Hmr.
  intros Hstep Hw. pose proof (wo_conns _ _ _ Hw) as Hc.
  destruct l; simpl in Hstep; [by eapply connect_ok|..|simplify_eq; by apply with_counts_ok].
  all: destruct (w_conns w !! id) as [c|] eqn:Hid; [|done]; simpl in Hstep;
    pose proof (co_phase _ _ _ (Hc _ _ Hid)) as Hph;
    pose proof (peer_in_group _ _ _ Hc Hid) as Hpeer;
    pose proof (groups_lookup _ _ _ Hid) as Hself.
  all: try (destruct (c_rx c) as [[|m q]|] eqn:Hrx; [done| |done]).
  all: try (destruct (c_rx c) as [q|] eqn:Hrx; [done|]).
  all: destruct (c_phase c) as [[|tx pending] prs|[|msg|[|tx pending] m'|]| |[|tx pending]|] eqn:Hp;
    simplify_eq; simpl in Hph.
  all: try (apply (f_equal in_room) in Hp as Hroom; simpl in Hroom).
  all: try (by eapply pump_ok); try (by apply close_ok).
  all: try (by eapply world_ok_phase; [exact Hid|rewrite Hroom|..]).
  - (* LJoin *)
    destruct Hph as [[Htx Hpd]%Forall_cons Hprs].
    refine (send_phase_ok _ _ _ _ _ _ _ _ _ Hid _ _ Htx _ Hw Hstep); [done..|].
    by apply Forall_one.
  - (* LHello *)
    refine (send_phase_ok _ _ _ _ _ _ _ _ _ Hid _ _ Hself _ Hw Hstep); [done..|].
    destruct Hph. by constructor.
  - (* LText *)
    by apply recv_text_ok.
  - (* LHandle *)
    by apply handle_message_ok.
  - (* LSendNext *)
    destruct Hph as [[Htx Hpd]%Forall_cons Hm].
    refine (send_phase_ok _ _ _ _ _ _ _ _ _ Hid _ _ Htx Hm Hw Hstep).
    + by rewrite sending_room.
    + by apply sending_ok.
  - (* LReject *)
    refine (send_phase_ok _ _ _ _ _ _ _ _ _ Hid _ _ Hself _ Hw Hstep); [done..|].
    by constructor.
  - (* LDisconnect *)
    destruct (disconnect_lock _ _ _) as [txs tm] eqn:Hd. simplify_eq.
    by eapply disconnect_ok.
  - (* LLeave *)
    apply Forall_cons in Hph as [Htx Hpd].
    refine (send_phase_ok _ _ _ _ _ _ _ _ _ Hid _ _ Htx _ Hw Hstep); [done..|].
    apply Forall_one. by rewrite <- (co_id _ _ _ (Hc _ _ Hid)).
Qed.

Lemma world_new_ok : world_ok mc mr world_new.
Proof using. 
  constructor.
  - constructor; intros; simpl in *; [by rewrite lookup_empty in *|].
    unfold view in *; simpl in *. by rewrite fmap_empty, lookup_empty in *.
  - constructor; intros; simpl in *; by rewrite lookup_empty in *.
  - apply map_Forall_empty.
Qed.

Lemma reachable_ok w : reachable mc mr w → world_ok mc mr w.
Proof using Hmc Hmr.
  induction 1 as [|w w' _ IH [l Hl]]; [apply world_new_ok|by eapply step_fn_ok].
Qed.
End preservation.

(** ** What the invariant gives *)

Section safety.
Context (max_connections max_requests : Z).
Context (Hmc : (0 ≤ max_connections)%Z) (Hmr : (0 ≤ max_requests ≤ u32_max)%Z).
Context `{SerdeJson WsClientMessage}.

(** C13. In every reachable state an IP group holds at most
    [MAX_CONNECTIONS_PER_IP] connections and its request counter stays
    within [MAX_REQUESTS_PER_IP_PER_HOUR]. *)
Theorem server_limits w g :
  reachable max_connections max_requests w →
  (∀ local, tx_map (w_app w) !! g = Some local → (Z.of_nat (size local) ≤ max_connections)%Z) ∧
  (∀ n, request_count_map (w_app w) !! g = Some n → (0 ≤ n ≤ max_requests)%Z).
Proof using Hmc Hmr.
  intros Hw. destruct (wo_limits _ _ _ (reachable_ok _ _ Hmc Hmr _ Hw)) as [Hs Hc].
  split; eauto.
Qed.

(** C14. The peer map is exact: a peer is filed under a group exactly while
    its connection is in that group's room, and the sender filed with it is
    the channel of that connection. *)
Theorem server_rooms_exact w g id :
  reachable max_connections max_requests w →
  (∃ local, tx_map (w_app w) !! g = Some local ∧ ∃ cs, local !! id = Some cs ∧ cs_tx cs = id)
  ↔ ∃ c, w_conns w !! id = Some c ∧ c_group c = g ∧ in_room (c_phase c) = true.
Proof using Hmc Hmr.
  intros Hw. pose proof (wo_rooms _ _ _ (reachable_ok _ _ Hmc Hmr _ Hw)) as Hr. split.
  - intros (local & Hg & cs & Hid & _). destruct (ro_entry _ _ Hr _ _ _ _ Hg Hid) as [_ HV].
    unfold view, conn_view in HV. rewrite lookup_fmap in HV.
    destruct (w_conns w !! id) as [c|]; simplify_eq/=; eauto.
  - intros (c & Hid & <- & Hroom). pose proof (view_lookup _ _ _ Hid) as HV. rewrite Hroom in HV.
    destruct (ro_member _ _ Hr _ _ HV) as (local & cs & Hg & Hcs).
    exists local. split; [done|]. exists cs. split; [done|]. by eapply ro_entry.
Qed.

(** Isolation: every message written to the socket of a connection, or
    waiting in its channel, tells of peers of its own IP group only. *)
Lemma server_isolation w id c m pid :
  reachable max_connections max_requests w →
  w_conns w !! id = Some c → m ∈ c_out c ++ default [] (c_rx c) → pid ∈ mentioned m →
  ∃ d, w_conns w !! pid = Some d ∧ c_group d = c_group c.
Proof using Hmc Hmr.
  intros Hw Hid Hm Hpid.
  destruct (wo_conns _ _ _ (reachable_ok _ _ Hmc Hmr _ Hw) _ _ Hid) as [_ _ Hq Ho].
  assert (Forall (msg_ok (groups w) (c_group c)) (c_out c ++ default [] (c_rx c))) as Hall.
  { apply Forall_app. split; [done|]. destruct (c_rx c); simpl; [by apply Hq|done]. }
  rewrite Forall_forall in Hall. specialize (Hall _ Hm).
  unfold msg_ok in Hall. rewrite Forall_forall in Hall. specialize (Hall _ Hpid).
  unfold in_group, groups in Hall. rewrite lookup_fmap in Hall.
  destruct (w_conns w !! pid); simplify_eq/=; eauto.
Qed.

(** No connection is left behind: when every connection has left its
    room, no group holds a peer. *)
Theorem server_no_stale_peer w g local :
  reachable max_connections max_requests w →
  (∀ id c, w_conns w !! id = Some c → in_room (c_phase c) = false) →
  tx_map (w_app w) !! g = Some local → local = ∅.
Proof using Hmc Hmr.
  intros Hw Hout Hg. apply map_empty. intros id.
  destruct (local !! id) as [cs|] eqn:Hid; [|done]. exfalso.
  destruct (ro_entry _ _ (wo_rooms _ _ _ (reachable_ok _ _ Hmc Hmr _ Hw)) _ _ _ _ Hg Hid)
    as [_ HV].
  unfold view, conn_view in HV. rewrite lookup_fmap in HV.
  destruct (w_conns w !! id) as [c|] eqn:Hc; simplify_eq/=.
  rewrite (Hout _ _ Hc) in *. done.
Qed.
End safety.

(** ** Rate limiting over a run *)

(** The request counter of a group. *)
Definition count (w : World) (g : string) : Z := default 0%Z (request_count_map (w_app w) !! g).

(** The step let a connection or a message of group [g] through: the
    connection is in its room, or the receive task holds the message. *)
Definition admits (g : string) (l : Label) (w' : World) : bool :=
  match l with
  | LConnect id g' _ =>
      bool_decide (g' = g) &&
      match w_conns w' !! id with Some c => in_room (c_phase c) | None => false end
  | LText id _ =>
      match w_conns w' !! id with
      | Some c =>
          bool_decide (c_group c = g) &&
          match c_phase c with PRun (RHandle _) => true | _ => false end
      | None => false
      end
  | _ => false
  end.

Section rate.
Context (max_connections max_requests : Z).
Context (Hmc : (0 ≤ max_connections)%Z) (Hmr : (0 ≤ max_requests ≤ u32_max)%Z).
Context `{SerdeJson WsClientMessage}.

(** How many connections and messages of group [g] a run lets through. *)
Fixpoint admitted (g : string) (ls : list Label) (w : World) : Z :=
  match ls with
  | [] => 0
  | l :: ls' =>
      match step_fn max_connections max_requests l w with
      | Some w' => (if admits g l w' then 1 else 0) + admitted g ls' w'
      | None => 0
      end
  end.

Lemma protect_count counts g0 r counts' g :
  (∀ n, counts !! g0 = Some n → n ≤ max_requests)%Z →
  protect_ddos_request_count max_requests counts g0 = (r, counts') →
  default 0%Z (counts' !! g) =
    (default 0 (counts !! g) +
     match r with Ok _ => if bool_decide (g0 = g) then 1 else 0 | _ => 0 end)%Z
  ∧ ¬ is_panic r.
Proof using Hmr.
  unfold protect_ddos_request_count. intros Hn Heq.
  assert (default 0 (counts !! g0) ≤ max_requests)%Z as Hle
    by (destruct (counts !! g0); simpl; [by apply Hn|lia]).
  case_decide; [|case_decide; [|lia]]; simplify_eq/=;
    (split; [|by intros [? ?]]);
    (destruct (decide (g0 = g)) as [<-|Hne];
     [rewrite lookup_insert_eq; simpl; rewrite ?bool_decide_eq_true_2 by done
     |rewrite lookup_insert_ne by done; rewrite ?bool_decide_eq_false_2 by done]; lia).
Qed.

Lemma send_app tx m w w' : send tx m w = Some w' → w_app w' = w_app w.
Proof using.
  unfold send. intros Hs.
  destruct (w_conns w !! tx) as [d|]; [|by simplify_eq].
  destruct (c_rx d) as [q|]; [|by simplify_eq]. by case_decide; simplify_eq.
Qed.

Lemma send_phase_app f tx m id w w' :
  on_conn f id <$> send tx m w = Some w' → w_app w' = w_app w.
Proof using.
  destruct (send tx m w) as [w1|] eqn:Hs; [|done]. simpl. intros [= <-]. simpl.
  by eapply send_app.
Qed.

Lemma connect_count g id g0 info w w' :
  (∀ n, request_count_map (w_app w) !! g0 = Some n → n ≤ max_requests)%Z →
  connect max_connections max_requests id g0 info w = Some w' →
  count w' g = (count w g + if admits g (LConnect id g0 info) w' then 1 else 0)%Z.
Proof using Hmr.
  unfold connect. intros Hn. destruct (w_conns w !! id) as [|] eqn:Hid; [done|].
  unfold handle_socket_lock. case_decide.
  - intros [= <-]. unfold count, admits; simpl. rewrite lookup_insert_eq; simpl.
    rewrite andb_false_r. lia.
  - destruct (protect_ddos_request_count _ _ _) as [r counts] eqn:Hp.
    destruct (protect_count _ _ _ _ g Hn Hp) as [Hcount Hnp].
    destruct r; intros [= <-]; unfold count, admits; simpl;
      rewrite lookup_insert_eq; simpl; rewrite ?andb_true_r, ?andb_false_r; exact Hcount.
Qed.

Lemma text_count g id c text w :
  (∀ n, request_count_map (w_app w) !! (c_group c) = Some n → n ≤ max_requests)%Z →
  w_conns w !! id = Some c → c_phase c = PRun RIdle →
  let w' := recv_text max_requests id c text w in
  count w' g = (count w g + if admits g (LText id text) w' then 1 else 0)%Z.
Proof using Hmr.
  intros Hn Hid Hph. unfold recv_text. destruct (from_json text) as [msg|]; cbv zeta.
  - destruct (protect_ddos_request_count _ _ _) as [r counts] eqn:Hp.
    destruct (protect_count _ _ _ _ g Hn Hp) as [Hcount Hnp].
    destruct r; unfold count, admits; simpl; rewrite lookup_alter, decide_True, Hid by done;
      simpl; rewrite ?andb_true_r, ?andb_false_r; exact Hcount.
  - unfold admits. rewrite Hid, Hph, andb_false_r. lia.
Qed.

Lemma step_count g l w w' :
  world_ok max_connections max_requests w → l ≠ LHour →
  step_fn max_connections max_requests l w = Some w' →
  count w' g = (count w g + if admits g l w' then 1 else 0)%Z.
Proof using Hmr.
  intros Hw Hl Hs. pose proof (lo_count _ _ _ (wo_limits _ _ _ Hw)) as Hn.
  assert (∀ g n, request_count_map (w_app w) !! g = Some n → n ≤ max_requests)%Z as Hn'
    by (intros g' n' ?; by apply (Hn g')).
  assert (request_count_map (w_app w') = request_count_map (w_app w) → admits g l w' = false →
    count w' g = count w g + if admits g l w' then 1 else 0)%Z as Hquiet
    by (intros Hc ->; unfold count; rewrite Hc; lia).
  destruct l; simpl in Hs; [eapply connect_count; [apply Hn'|exact Hs]| | | | | | | | | | | | |done].
  5: { destruct (w_conns w !! id) as [c|] eqn:Hid; [|done]; simpl in Hs.
       destruct (c_phase c) as [|[]| | |] eqn:Hp; simplify_eq. apply text_count; [apply Hn'|done..]. }
  all: apply Hquiet; [|done].
  all: destruct (w_conns w !! id) as [c|] eqn:Hid; [|done]; simpl in Hs.
  all: repeat (case_match; try done); simplify_eq; try done;
       try (by apply send_phase_app in Hs as ->).
  unfold handle_message. destruct msg; repeat case_match; done.
Qed.

(** C18. Rate limit: while the hourly job does not run, the connections and
    messages of a group that get through are counted one by one, and with
    those counted before they never exceed [MAX_REQUESTS_PER_IP_PER_HOUR]. *)
Theorem server_rate_limit g ls w w' :
  reachable max_connections max_requests w →
  run max_connections max_requests ls w = Some w' → Forall (λ l, l ≠ LHour) ls →
  (count w g + admitted g ls w = count w' g)%Z ∧ (count w' g ≤ max_requests)%Z.
Proof using Hmc Hmr.
  revert w. induction ls as [|l ls IH]; intros w Hw Hrun Hls; simpl in Hrun.
  - simplify_eq/=. split; [lia|]. unfold count.
    destruct (request_count_map (w_app w') !! g) as [n|] eqn:Hg; simpl; [|lia].
    by apply (lo_count _ _ _ (wo_limits _ _ _ (reachable_ok _ _ Hmc Hmr _ Hw)) g).
  - apply Forall_cons in Hls as [Hl Hls]. simpl.
    destruct (step_fn _ _ l w) as [w1|] eqn:Hs; [|done].
    assert (reachable max_connections max_requests w1) as Hw1
      by (eapply reachable_step; [done|by exists l]).
    destruct (IH w1 Hw1 Hrun Hls) as [Heq Hle]. split; [|done].
    rewrite <- Heq, (step_count g l w w1); [lia|by eapply reachable_ok|done|done].
Qed.
End rate.
