(* ===== verification/WsServerBehaviour.v ===== *)
(** * Behaviour of the signaling server

    What the handshake, the routing of updates and SDP messages and the
    clean-up do on each branch, and three consequences of the order in which
    [handle_socket] works: a connection can block for ever before its greeting,
    a refused connection leaves an empty group behind, and SDP messages carry
    the information a peer connected with. *)

From stdpp Require Import sets relations.
From S2P Require Import Prelude Net Serde Signaling Instances WsServer WsServerSafety.

(** ** The handshake *)

Section handshake.
Context `{Base64Laws, SerdeJsonLaws ClientInfoWithoutId}.

(** The query of a client that announces [info], as
    [SignalingConnection::connect] builds it. *)
Definition encoded_info (info : ClientInfoWithoutId) : string :=
  b64_encode (as_bytes (to_json info)).

(** The server reads back what a client announces: the connection is
    filed under the group of the client address, with the announced
    information and the fresh id. *)
Lemma ws_handler_roundtrip info fwd addr id :
  ws_handler (encoded_info info) fwd addr id =
    Ok (get_ip_group (client_ip fwd addr), client_info_from info id).
Proof.
  unfold ws_handler, encoded_info. rewrite b64_decode_encode. simpl.
  unfold string_from_utf8. rewrite to_json_utf8. simpl.
  rewrite as_from_bytes, from_to_json. done.
Qed.
End handshake.

(** A malformed query is refused with status 400 and an empty body, never
    with a panic or an internal error. *)
Theorem ws_handler_errors `{Base64, SerdeJson ClientInfoWithoutId} d fwd addr id :
  (∃ r, ws_handler d fwd addr id = Ok r) ∨
  (∃ e, ws_handler d fwd addr id = Err e ∧ app_error_into_response e = (BAD_REQUEST, "")).
Proof.
  unfold ws_handler. destruct (b64_decode d) as [b|]; simpl; [|eauto].
  destruct (string_from_utf8 b) as [s|]; simpl; [|eauto].
  destruct (from_json (as_bytes s)); simpl; eauto.
Qed.

(** Only the last component of [x-forwarded-for] decides the address, so
    what a client puts in front of it is ignored. *)
Theorem client_ip_last_component h s addr :
  str_contains "," s = false →
  client_ip (Some (h +:+ "," +:+ s)) addr = default addr (ip_from_str (str_trim s)).
Proof.
  intros Hs. unfold client_ip. simpl.
  change ("," +:+ s) with (String "," s).
  by rewrite str_split_app, (str_split_plain "," s), last_snoc by done.
Qed.

(** ** Fan-out of updates and routing of SDP messages *)

(** Every entry of a group is filed under the peer whose channel it holds. *)
Definition local_ok (local : gmap Uuid ClientState) : Prop :=
  ∀ id cs, local !! id = Some cs → cs_tx cs = id.

Lemma senders_elem local tx : local_ok local → tx ∈ senders local ↔ is_Some (local !! tx).
Proof.
  intros Hl. unfold senders. rewrite list_elem_of_fmap. split.
  - intros ([id cs] & -> & Hin). apply elem_of_map_to_list in Hin. simpl.
    rewrite (Hl _ _ Hin). by eexists.
  - intros [cs Hcs]. exists (tx, cs). simpl. split; [by rewrite (Hl _ _ Hcs)|].
    by apply elem_of_map_to_list.
Qed.

Lemma senders_keys local : local_ok local → senders local = (map_to_list local).*1.
Proof.
  intros Hl. unfold senders. apply list_fmap_ext. intros i [id cs] Hi. simpl.
  apply (Hl id). apply elem_of_map_to_list. by eapply list_elem_of_lookup_2.
Qed.

Lemma senders_nodup local : local_ok local → NoDup (senders local).
Proof. intros Hl. rewrite senders_keys by done. apply NoDup_fst_map_to_list. Qed.

(** An update stores the new information of the peer and nothing else,
    and is sent once to each other peer of the group, never to the peer
    itself; the update of a peer that is not in the group does nothing. *)
Theorem send_update_fanout tm g id info local :
  tm !! g = Some local → local_ok local →
  let '(txs, tm') := send_update_lock tm g id info in
  match local !! id with
  | Some cs =>
      tm' = <[g := <[id := mk_ClientState info (cs_tx cs)]> local]> tm ∧
      NoDup txs ∧ ∀ tx, tx ∈ txs ↔ tx ≠ id ∧ is_Some (local !! tx)
  | None => txs = [] ∧ tm' = tm
  end.
Proof.
  intros Hg Hl. unfold send_update_lock. rewrite Hg.
  destruct (local !! id) as [cs|] eqn:Hid; [|done].
  set (local' := <[id := mk_ClientState info (cs_tx cs)]> local).
  assert (∀ i c, filter (λ p, p.1 ≠ id) local' !! i = Some c ↔ i ≠ id ∧ local !! i = Some c)
    as Hfilter.
  { intros i c. rewrite map_lookup_filter_Some. simpl. unfold local'.
    destruct (decide (i = id)) as [->|]; [naive_solver|].
    rewrite lookup_insert_ne by done. naive_solver. }
  assert (local_ok (filter (λ p, p.1 ≠ id) local')) as Hok
    by (intros i c [_ Hi]%Hfilter; by apply (Hl i)).
  split; [done|]. split; [by apply senders_nodup|].
  intros tx. rewrite senders_elem by done. unfold is_Some. setoid_rewrite Hfilter. naive_solver.
Qed.

(** The target is in its room, and the room is the one of [c]. *)
Definition colocated (w : World) (c : Conn) (target : Uuid) : bool :=
  match w_conns w !! target with
  | Some d => bool_decide (c_group d = c_group c) && in_room (c_phase d)
  | None => false
  end.

Lemma send_to_peer_colocated w c target :
  rooms_ok (view w) (tx_map (w_app w)) →
  send_to_peer_lock (tx_map (w_app w)) (c_group c) target =
    if colocated w c target then Some target else None.
Proof.
  intros Hr. unfold colocated.
  destruct (send_to_peer_lock _ _ _) as [tx|] eqn:Ht.
  - unfold send_to_peer_lock in Ht.
    destruct (tx_map (w_app w) !! c_group c) as [local|] eqn:Hg; simplify_eq/=.
    destruct (local !! target) as [cs|] eqn:Hid; simplify_eq/=.
    destruct (ro_entry _ _ Hr _ _ _ _ Hg Hid) as [-> HV].
    unfold view, conn_view in HV. rewrite lookup_fmap in HV.
    destruct (w_conns w !! target) as [d|]; [|done]. simpl in HV.
    injection HV as Hgd Hrd. by rewrite Hgd, Hrd, bool_decide_eq_true_2.
  - destruct (w_conns w !! target) as [d|] eqn:Hd; [|done].
    case_bool_decide as Hg; [|done]. destruct (in_room (c_phase d)) eqn:Hroom; [|done].
    exfalso. pose proof (view_lookup _ _ _ Hd) as HV. rewrite Hroom in HV.
    destruct (ro_member _ _ Hr _ _ HV) as (local & cs & Hl & Hcs).
    unfold send_to_peer_lock in Ht. rewrite <- Hg, Hl in Ht. simpl in Ht.
    rewrite Hcs in Ht. done.
Qed.

(** An SDP message goes to its target exactly when the target is in the
    room of its author, and to no one else; it carries the author, the
    session id and the SDP unchanged. *)
Theorem sdp_routing mc mr `{SerdeJson WsClientMessage} w id c sdp :
  (0 ≤ mc)%Z → (0 ≤ mr ≤ u32_max)%Z → reachable mc mr w → w_conns w !! id = Some c →
  let deliver m := on_conn (set_phase
    (if colocated w c (sc_target sdp) then PRun (RSend [sc_target sdp] m) else PRun RIdle)) id w in
  let body := mk_WsServerSdpMessage (c_peer c) (sc_session_id sdp) (sc_sdp sdp) in
  handle_message id c (COffer sdp) w = deliver (Offer body) ∧
  handle_message id c (CAnswer sdp) w = deliver (Answer body).
Proof.
  intros Hmc Hmr Hw Hid. unfold handle_message; simpl.
  rewrite send_to_peer_colocated by apply (reachable_ok _ _ Hmc Hmr _ Hw).
  by destruct (colocated _ _ _).
Qed.

(** ** Clean-up *)

(** A connection refused while its group does not exist leaves an empty
    group in the peer map; nothing but a later connection and disconnection of
    the same group removes it. *)
Theorem refused_connection_leaks_group mc mr st g peer tx :
  (0 < mc)%Z → tx_map st !! g = None →
  (mr ≤ default 0 (request_count_map st !! g))%Z →
  ∃ adm st', handle_socket_lock mc mr st g peer tx = (adm, st') ∧
    limit_reached adm = true ∧ tx_map st' !! g = Some ∅.
Proof.
  intros Hmc Hg Hmr. unfold handle_socket_lock. rewrite Hg. simpl.
  rewrite map_size_empty, decide_False by (simpl; lia).
  unfold protect_ddos_request_count. rewrite decide_True by done.
  do 2 eexists. split; [done|]. split; [done|]. simpl. by rewrite lookup_insert_eq.
Qed.

(** ** Blocking before the greeting *)

(** The connection of a label. *)
Definition label_conn (l : Label) : option Uuid :=
  match l with
  | LConnect id _ _ | LJoin id | LHello id | LPump id | LSendFail id | LText id _ | LStreamEnd id
  | LHandle id | LSendNext id | LReject id | LAbort id | LDisconnect id | LLeave id => Some id
  | LHour => None
  end.

(** The connection [c] waits to put its own greeting into its own channel,
    which is full, and has written nothing to its websocket. *)
Definition hello_blocked (c : Conn) : Prop :=
  ∃ q prs, c_phase c = PJoin [] prs ∧ c_rx c = Some q ∧ CHANNEL_CAPACITY ≤ length q ∧ c_out c = [].

(** The connection still has to announce itself to [id]. *)
Definition announcing_to (id j : Uuid) (w : World) : Prop :=
  ∃ d pending prs, w_conns w !! j = Some d ∧ c_phase d = PJoin pending prs ∧ id ∈ pending.

Section blocked.
Context (mc mr : Z) `{SerdeJson WsClientMessage}.

(** A connection whose channel is full is left alone by every send. *)
Lemma send_full tx m w w' id c q :
  w_conns w !! id = Some c → c_rx c = Some q → CHANNEL_CAPACITY ≤ length q →
  send tx m w = Some w' → tx ≠ id ∧ w_conns w' !! id = Some c.
Proof using.
  unfold send. intros Hid Hrx Hq Hs.
  destruct (decide (tx = id)) as [->|Hne].
  - rewrite Hid, Hrx, decide_False in Hs by lia. done.
  - split; [done|].
    destruct (w_conns w !! tx) as [d|]; [|by simplify_eq].
    destruct (c_rx d) as [q'|]; [|by simplify_eq].
    case_decide; simplify_eq. simpl. by rewrite lookup_alter_ne.
Qed.

Lemma send_to_blocked id c m w : w_conns w !! id = Some c → hello_blocked c → send id m w = None.
Proof using. intros Hid (q & prs & _ & Hrx & Hq & _). unfold send. by rewrite Hid, Hrx, decide_False by lia. Qed.

(** A blocked connection takes no step. *)
Lemma hello_blocked_stuck id c w l :
  w_conns w !! id = Some c → hello_blocked c → label_conn l = Some id → step_fn mc mr l w = None.
Proof using.
  intros Hid Hb Hl. pose proof (λ m, send_to_blocked id c m w Hid Hb) as Hs.
  destruct Hb as (q & prs & Hp & Hrx & Hq & _).
  destruct l; simplify_eq/=; rewrite ?Hid; simpl; rewrite ?Hp, ?Hrx, ?Hs; try done.
  - unfold connect. by rewrite Hid.
  - by destruct q.
  - by destruct q.
Qed.

Lemma phase_on_conn f i j w :
  i ≠ j ∨ (∀ c, c_phase (f c) = c_phase c) →
  c_phase <$> w_conns (on_conn f i w) !! j = c_phase <$> w_conns w !! j.
Proof using.
  intros Hf. unfold on_conn. simpl. rewrite lookup_alter. case_decide as Hij; [|done]. subst.
  destruct Hf as [?|Hf]; [done|]. destruct (w_conns w !! j); [|done]. simpl. by rewrite Hf.
Qed.

Lemma phase_send tx m j w w' :
  send tx m w = Some w' → c_phase <$> w_conns w' !! j = c_phase <$> w_conns w !! j.
Proof using.
  unfold send. intros Hs. repeat case_match; simplify_eq; try done. apply phase_on_conn. by right.
Qed.

(** The phase of a connection changes in its own steps only. *)
Lemma phase_step l w w' j :
  step_fn mc mr l w = Some w' → is_Some (w_conns w !! j) → label_conn l ≠ Some j →
  c_phase <$> w_conns w' !! j = c_phase <$> w_conns w !! j.
Proof using.
  intros Hs [d Hd] Hl.
  assert (∀ i f tx m, Some i ≠ Some j → on_conn f i <$> send tx m w = Some w' →
    c_phase <$> w_conns w' !! j = c_phase <$> w_conns w !! j) as Hsend.
  { intros i f tx m Hi Heq. destruct (send tx m w) as [w1|] eqn:Hw1; [|done]. injection Heq as <-.
    rewrite phase_on_conn by (left; congruence). by eapply phase_send. }
  destruct l as [i g info|i|i|i|i|i text|i|i|i|i|i|i|i|]; simpl in Hs, Hl; [| |..|by simplify_eq].
  { unfold connect in Hs. destruct (w_conns w !! i) eqn:Hi; [done|].
    destruct (handle_socket_lock _ _ _ _ _ _). simplify_eq/=. by rewrite lookup_insert_ne by congruence. }
  all: destruct (w_conns w !! i) as [c|]; [simpl in Hs|done].
  all: repeat (case_match; try done); simplify_eq/=; eauto;
    unfold recv_text, handle_message; repeat case_match; try done;
    simpl; by rewrite lookup_alter_ne by congruence.
Qed.

(** Nothing changes a blocked connection, and a connection that has to announce
    itself to it never gets further. *)
Lemma hello_blocked_step id c w w' :
  step mc mr w w' → w_conns w !! id = Some c → hello_blocked c → w_conns w' !! id = Some c.
Proof using.
  intros [l Hl] Hid Hb. destruct (decide (label_conn l = Some id)) as [Hown|Hown].
  { by rewrite (hello_blocked_stuck id c) in Hl. }
  destruct Hb as (q & prs & Hp & Hrx & Hq & _).
  assert (∀ f i w1, w_conns w1 !! id = Some c → Some i ≠ Some id →
    w_conns (on_conn f i w1) !! id = Some c) as Hother
    by (intros f i w1 ? ?; simpl; by rewrite lookup_alter_ne by congruence).
  assert (∀ f i tx m, Some i ≠ Some id → on_conn f i <$> send tx m w = Some w' →
    w_conns w' !! id = Some c) as Hsend.
  { intros f i tx m Hi Heq. destruct (send tx m w) as [w1|] eqn:Hs; simplify_eq/=.
    destruct (send_full _ _ _ _ _ _ _ Hid Hrx Hq Hs) as [_ ?]. by rewrite lookup_alter_ne by congruence. }
  destruct l as [i g info|i|i|i|i|i text|i|i|i|i|i|i|i|]; simpl in Hl, Hown; [| |..|by simplify_eq].
  { unfold connect in Hl. destruct (w_conns w !! i) eqn:Hi; [done|].
    destruct (handle_socket_lock _ _ _ _ _ _). simplify_eq/=. by rewrite lookup_insert_ne by congruence. }
  all: destruct (w_conns w !! i) as [d|] eqn:Hd; [simpl in Hl|done].
  all: repeat (case_match; try done); simplify_eq/=; eauto;
    unfold recv_text, handle_message; repeat case_match; try done; by apply Hother.
Qed.

Lemma announcing_step id c j w w' :
  step mc mr w w' → w_conns w !! id = Some c → hello_blocked c → announcing_to id j w → announcing_to id j w'.
Proof using.
  intros [l Hl] Hid Hb (d & pending & prs & Hd & Hp & Hin).
  destruct (decide (label_conn l = Some j)) as [Hown|Hown].
  - destruct l as [i g info|i|i|i|i|i text|i|i|i|i|i|i|i|]; simplify_eq/=;
      try (rewrite Hd in Hl; simpl in Hl; rewrite Hp in Hl); try done; try (by repeat case_match).
    + unfold connect in Hl. by rewrite Hd in Hl.
    + destruct pending as [|tx pending]; [by apply elem_of_nil in Hin|].
      destruct (send tx _ w) as [w1|] eqn:Hs; simplify_eq/=.
      apply elem_of_cons in Hin as [<-|Hin]; [by rewrite (send_to_blocked id c) in Hs|].
      assert (∃ d1, w_conns w1 !! j = Some d1) as [d1 Hd1].
      { pose proof (phase_send _ _ j _ _ Hs) as Hph. rewrite Hd in Hph.
        destruct (w_conns w1 !! j); [eauto|done]. }
      exists (set_phase (PJoin pending prs) d1), pending, prs.
      split_and!; [|done..]. simpl. by rewrite lookup_alter_eq, Hd1.
    + destruct pending; [by apply elem_of_nil in Hin|done].
  - pose proof (phase_step l w w' j Hl ltac:(by eexists) Hown) as Hph. rewrite Hd in Hph. simpl in Hph.
    destruct (w_conns w' !! j) as [d'|] eqn:Hd'; simplify_eq/=.
    exists d', pending, prs. split_and!; [done|congruence|done].
Qed.

Lemma hello_blocked_forever id c w w' :
  rtc (step mc mr) w w' → w_conns w !! id = Some c → hello_blocked c → w_conns w' !! id = Some c.
Proof using. induction 1; eauto using hello_blocked_step. Qed.

Lemma announcing_forever id c j w w' :
  rtc (step mc mr) w w' → w_conns w !! id = Some c → hello_blocked c →
  announcing_to id j w → announcing_to id j w'.
Proof using. induction 1; eauto using hello_blocked_step, announcing_step. Qed.
End blocked.

Definition some_info : ClientInfoWithoutId :=
  {| cw_alias := "Cute Apple"; cw_version := "2.3"; cw_device_model := None;
     cw_device_type := Some Desktop; cw_token := "123" |}.

(** Five devices connect at once: the four later ones announce themselves to
    the first before it has greeted itself. *)
Definition crowded_start : list Label :=
  let c id := LConnect id "1.2.3.4" some_info in
  [c 1%N; c 2%N; LJoin 2; c 3%N; LJoin 3; LJoin 3; c 4%N; LJoin 4; LJoin 4; LJoin 4;
   c 5%N; LJoin 5; LJoin 5; LJoin 5; LJoin 5].

Definition crowded_world `{SerdeJson WsClientMessage} : option World :=
  run 10 1000 crowded_start world_new.

(** C21. With the default limits the server reaches a state in which a
    connection waits to put its greeting into its own full channel, which nobody
    reads before the greeting is sent.  There it waits for ever: in every later
    state the connection is the same, still without its greeting, and takes no
    step.  The state spreads: the next device of the group has to announce
    itself to this connection, and a connection that has to do so never gets
    any further. *)
Theorem hello_deadlock `{SerdeJson WsClientMessage} :
  ∃ w c, reachable 10 1000 w ∧ w_conns w !! 1%N = Some c ∧ hello_blocked c ∧
    (∃ w6, step_fn 10 1000 (LConnect 6 "1.2.3.4" some_info) w = Some w6 ∧ announcing_to 1 6 w6) ∧
    ∀ w', rtc (step 10 1000) w w' →
      w_conns w' !! 1%N = Some c ∧
      (∀ l, label_conn l = Some 1%N → step_fn 10 1000 l w' = None) ∧
      ∀ j, announcing_to 1 j w' → ∀ w'', rtc (step 10 1000) w' w'' → announcing_to 1 j w''.
Proof.
  destruct crowded_world as [w|] eqn:Hw; [|by vm_compute in Hw].
  destruct (w_conns w !! 1%N) as [c|] eqn:Hc; [|vm_compute in Hw; injection Hw as <-; by vm_compute in Hc].
  assert (hello_blocked c) as Hb.
  { vm_compute in Hw. injection Hw as <-. vm_compute in Hc. injection Hc as <-.
    do 2 eexists. split_and!; done. }
  exists w, c. split_and!; [by eapply run_reachable; [constructor|exact Hw]|done|done|..].
  - vm_compute in Hw. injection Hw as <-. eexists. split; [vm_compute; reflexivity|].
    do 3 eexists. split_and!; [vm_compute; reflexivity|reflexivity|].
    apply (bool_decide_unpack _). vm_compute. exact I.
  - intros w' Hw'. pose proof (hello_blocked_forever _ _ _ _ _ _ Hw' Hc Hb) as Hc'. split_and!; [done|..].
    + intros l. by apply (hello_blocked_stuck _ _ 1%N c).
    + intros j Hj w'' Hw''. by eapply announcing_forever.
Qed.

(** ** Stale information *)

(** After an update the server files the new information of a peer, yet
    the SDP messages the peer sends afterwards still introduce it with the
    information it connected with. *)
Theorem sdp_after_update_is_stale mc mr `{SerdeJson WsClientMessage} w id c info sdp :
  (0 ≤ mc)%Z → (0 ≤ mr ≤ u32_max)%Z → reachable mc mr w →
  w_conns w !! id = Some c → c_phase c = PRun (RHandle (CUpdate info)) →
  let w' := handle_message id c (CUpdate info) w in
  (∃ local cs, tx_map (w_app w') !! c_group c = Some local ∧ local !! id = Some cs ∧
     cs_client cs = info) ∧
  ∃ c', w_conns w' !! id = Some c' ∧
    (colocated w' c' (sc_target sdp) = true →
     handle_message id c' (COffer sdp) w' =
       on_conn (set_phase (PRun (RSend [sc_target sdp]
         (Offer (mk_WsServerSdpMessage (c_peer c) (sc_session_id sdp) (sc_sdp sdp)))))) id w').
Proof.
  intros Hmc Hmr Hw Hid Hp w'.
  pose proof (reachable_ok _ _ Hmc Hmr _ Hw) as Hok.
  pose proof (handle_message_ok _ _ _ _ _ _ Hid Hp Hok) as Hok'. fold w' in Hok'.
  pose proof (view_lookup _ _ _ Hid) as HV. rewrite Hp in HV. simpl in HV.
  destruct (ro_member _ _ (wo_rooms _ _ _ Hok) _ _ HV) as (local & cs & Hg & Hcs).
  assert (∃ txs, send_update_lock (tx_map (w_app w)) (c_group c) id info =
    (txs, <[c_group c := <[id := mk_ClientState info (cs_tx cs)]> local]> (tx_map (w_app w))))
    as [txs Hu] by (unfold send_update_lock; rewrite Hg, Hcs; by eexists).
  assert (w' = on_conn (set_phase (sending txs (Update (client_info_from info id)))) id
    (with_tx_map (<[c_group c := <[id := mk_ClientState info (cs_tx cs)]> local]>
       (tx_map (w_app w))) w)) as Hw' by (subst w'; unfold handle_message; by rewrite Hu).
  split.
  - rewrite Hw'. simpl. do 2 eexists. split; [by rewrite lookup_insert_eq|].
    split; [by rewrite lookup_insert_eq|done].
  - eexists. split; [rewrite Hw'; simpl; by rewrite lookup_alter, decide_True, Hid by done|].
    intros Hco. unfold handle_message; simpl.
    pose proof (send_to_peer_colocated w' (set_phase (sending txs (Update (client_info_from info id))) c)
      (sc_target sdp) (wo_rooms _ _ _ Hok')) as Ht.
    simpl in Hco. rewrite Hco in Ht. simpl in Ht. by rewrite Ht.
Qed.

(** ** Concrete runs *)

Section witnesses.
#[local] Instance client_message_json : SerdeJson WsClientMessage := countable_json.

(** Two devices of one group; the first updates itself. *)
Definition two_devices : list Label :=
  let c id := LConnect id "1.2.3.4" some_info in
  [c 1%N; LHello 1; c 2%N; LJoin 2; LHello 2; LPump 1; LPump 1;
   LText 1 (as_bytes (to_json (CUpdate some_info)))].

Definition two_world : World := default world_new (run 10 1000 two_devices world_new).

Lemma two_world_run : run 10 1000 two_devices world_new = Some two_world.
Proof. vm_compute. reflexivity. Qed.

Lemma two_world_reachable : reachable 10 1000 two_world.
Proof. eapply run_reachable; [constructor|exact two_world_run]. Qed.

Definition lan : string := "1.2.3.4".
Lemma limits_10_1000 : (0 ≤ 10)%Z ∧ (0 ≤ 1000 ≤ u32_max)%Z.
Proof. unfold u32_max. lia. Qed.

Lemma server_limits_witness :
  (∀ local, tx_map (w_app two_world) !! lan = Some local → (Z.of_nat (size local) ≤ 10)%Z) ∧
  (∀ n, request_count_map (w_app two_world) !! lan = Some n → (0 ≤ n ≤ 1000)%Z).
Proof.
  eapply (server_limits 10 1000); [apply limits_10_1000..|exact two_world_reachable].
Defined.

Lemma server_rooms_exact_witness :
  ∃ c, w_conns two_world !! 2%N = Some c ∧ c_group c = lan ∧ in_room (c_phase c) = true.
Proof.
  eapply (server_rooms_exact 10 1000); [apply limits_10_1000..|exact two_world_reachable|].
  eexists. split; [vm_compute; reflexivity|].
  eexists. split; [vm_compute; reflexivity|reflexivity].
Defined.

Lemma server_isolation_witness :
  ∃ d, w_conns two_world !! 2%N = Some d ∧ c_group d = lan.
Proof.
  destruct (w_conns two_world !! 1%N) as [c|] eqn:Hc; [|vm_compute in Hc; discriminate].
  assert (c_group c = lan ∧ Join (client_info_from some_info 2) ∈ c_out c ++ default [] (c_rx c))
    as [Hg Hin].
  { vm_compute in Hc. injection Hc as <-. split; [reflexivity|].
    simpl. right. left. }
  destruct (server_isolation 10 1000 (proj1 limits_10_1000) (proj2 limits_10_1000)
    two_world 1%N c (Join (client_info_from some_info 2)) 2%N two_world_reachable Hc Hin
    ltac:(left)) as (d & Hd & Hdg).
  exists d. rewrite Hdg. auto.
Defined.

(** The only device leaves, and the next one is refused. *)
Definition one_leaves : list Label :=
  [LConnect 1 lan some_info; LHello 1; LStreamEnd 1; LDisconnect 1; LLeave 1;
   LConnect 2 lan some_info].

Definition left_world : World := default world_new (run 10 1 one_leaves world_new).

Lemma left_world_reachable : reachable 10 1 left_world.
Proof. eapply (run_reachable _ _ one_leaves); [constructor|]. vm_compute. reflexivity. Qed.

Lemma server_no_stale_peer_witness :
  ∃ local, tx_map (w_app left_world) !! lan = Some local ∧ local = ∅.
Proof.
  eexists. split; [vm_compute; reflexivity|].
  eapply (server_no_stale_peer 10 1 ltac:(lia) ltac:(unfold u32_max; lia) left_world lan);
    [exact left_world_reachable| |vm_compute; reflexivity].
  assert (map_Forall (λ _ c, in_room (c_phase c) = false) (w_conns left_world)) as Hall
    by (apply (bool_decide_unpack _); vm_compute; exact I).
  exact Hall.
Defined.

Lemma server_rate_limit_witness :
  (count world_new lan + admitted 10 1000 lan two_devices world_new = count two_world lan)%Z ∧
  (count two_world lan ≤ 1000)%Z.
Proof.
  eapply (server_rate_limit 10 1000 (proj1 limits_10_1000) (proj2 limits_10_1000));
    [constructor|exact two_world_run|].
  unfold two_devices. repeat (constructor; [discriminate|]). constructor.
Defined.

Lemma client_ip_last_component_witness :
  client_ip (Some "10.0.0.1, 192.168.0.7") (V4 (V4Octets 1 1 1 1)) = V4 (V4Octets 192 168 0 7).
Proof.
  apply (client_ip_last_component "10.0.0.1" " 192.168.0.7" (V4 (V4Octets 1 1 1 1))).
  reflexivity.
Defined.

Definition room_of_two : gmap Uuid ClientState :=
  {[ 1%N := mk_ClientState some_info 1%N; 2%N := mk_ClientState some_info 2%N ]}.

Definition room_map : TxMap := {[ lan := room_of_two ]}.

Lemma room_of_two_ok : local_ok room_of_two.
Proof.
  intros id cs. unfold room_of_two. rewrite lookup_insert_Some, lookup_singleton_Some.
  by intros [[<- <-]|(_ & <- & <-)].
Qed.

Lemma send_update_fanout_witness :
  2%N ∈ (send_update_lock room_map lan 1 some_info).1 ∧
  1%N ∉ (send_update_lock room_map lan 1 some_info).1.
Proof.
  pose proof (send_update_fanout room_map lan 1%N some_info room_of_two
    eq_refl room_of_two_ok) as H.
  destruct (send_update_lock _ _ _ _) as [txs tm]. simpl in *.
  destruct H as (_ & _ & Htx). rewrite !Htx. split; [split; [done|by eexists]|naive_solver].
Defined.

Lemma sdp_routing_witness :
  match w_conns two_world !! 1%N with
  | Some c =>
      handle_message 1 c (COffer (mk_WsClientSdpMessage "s" 2 "sdp")) two_world =
        on_conn (set_phase (PRun (RSend [2%N]
          (Offer (mk_WsServerSdpMessage (c_peer c) "s" "sdp"))))) 1 two_world
  | None => False
  end.
Proof.
  destruct (w_conns two_world !! 1%N) as [c|] eqn:Hc; [|vm_compute in Hc; discriminate].
  pose proof (sdp_routing 10 1000 two_world 1%N c (mk_WsClientSdpMessage "s" 2 "sdp")
    (proj1 limits_10_1000) (proj2 limits_10_1000) two_world_reachable Hc) as [H _].
  rewrite H. vm_compute in Hc. injection Hc as <-. reflexivity.
Defined.

Lemma refused_connection_leaks_group_witness :
  ∃ adm st', handle_socket_lock 10 0 app_state_new lan (client_info_from some_info 1) 1 = (adm, st') ∧
    limit_reached adm = true ∧ tx_map st' !! lan = Some ∅.
Proof. apply refused_connection_leaks_group; [lia|reflexivity|reflexivity]. Defined.

Lemma sdp_after_update_is_stale_witness :
  match w_conns two_world !! 1%N with
  | Some c =>
      ∃ local cs,
        tx_map (w_app (handle_message 1 c (CUpdate some_info) two_world)) !! lan = Some local ∧
        local !! 1%N = Some cs ∧ cs_client cs = some_info
  | None => False
  end.
Proof.
  destruct (w_conns two_world !! 1%N) as [c|] eqn:Hc; [|vm_compute in Hc; discriminate].
  assert (c_phase c = PRun (RHandle (CUpdate some_info)) ∧ c_group c = lan) as [Hp Hg]
    by (vm_compute in Hc; injection Hc as <-; split; reflexivity).
  pose proof (sdp_after_update_is_stale 10 1000 two_world 1%N c some_info
    (mk_WsClientSdpMessage "s" 2 "sdp")
    (proj1 limits_10_1000) (proj2 limits_10_1000) two_world_reachable Hc Hp) as [H _].
  rewrite Hg in H. exact H.
Defined.

Lemma ws_handler_roundtrip_witness :
  @ws_handler hex_base64 (@countable_json ClientInfoWithoutId _ _)
    (@encoded_info hex_base64 (@countable_json ClientInfoWithoutId _ _) some_info)
    None (V4 (V4Octets 1 2 3 4)) 7 = Ok (lan, client_info_from some_info 7).
Proof.
  apply (@ws_handler_roundtrip hex_base64 hex_base64_laws
    (@countable_json ClientInfoWithoutId _ _) countable_json_laws).
Defined.
End witnesses.
