(* ===== verification/HttpTypes.v ===== *)
(** * Data of the HTTP server and client

    [core/src/http/dto.rs], [core/src/http/state.rs], [core/src/http/mod.rs],
    the URLs of [core/src/http/client/url.rs], and the interfaces of the crates
    both sides call: [serde_json] at these types, the [lru] cache and the
    status texts of [http]. *)

From S2P Require Import Prelude Net Serde Signaling RtcTypes.

(** ** Transfer objects ([http/dto.rs]) *)

Record NonceRequest := mk_NonceRequest { nq_nonce : string }.
Record NonceResponse := mk_NonceResponse { nr_nonce : string }.
Record ErrorResponse := mk_ErrorResponse { er_message : string }.

Inductive ProtocolType := Http | Https.

#[export] Instance ProtocolType_eq_dec : EqDecision ProtocolType.
Proof. solve_decision. Defined.

(** [ProtocolType::as_str]. *)
Definition protocol_as_str (p : ProtocolType) : string :=
  match p with Http => "http" | Https => "https" end.

(** [port] is a [u16]. *)
Record RegisterDto := mk_RegisterDto {
  rd_alias : string;
  rd_version : string;
  rd_device_model : option string;
  rd_device_type : option DeviceType;
  rd_token : string;
  rd_port : Z;
  rd_protocol : ProtocolType;
  rd_has_web_interface : bool
}.

Record RegisterResponseDto := mk_RegisterResponseDto {
  rr_alias : string;
  rr_version : string;
  rr_device_model : option string;
  rr_device_type : option DeviceType;
  rr_token : string;
  rr_has_web_interface : bool
}.

Record PrepareUploadRequestDto := mk_PrepareUploadRequestDto {
  pq_info : RegisterDto;
  pq_files : gmap string FileDto
}.

Record PrepareUploadResponseDto := mk_PrepareUploadResponseDto {
  pr_session_id : string;
  pr_files : gmap string string
}.

(** The information of the server about itself ([http/state.rs]). *)
Record HttpClientInfo := mk_HttpClientInfo {
  hi_alias : string;
  hi_version : string;
  hi_device_model : option string;
  hi_device_type : option DeviceType;
  hi_token : string
}.

(** [StatusCodeError] ([http/mod.rs]) and the other errors, by message. *)
Inductive HttpError :=
| StatusCodeError (status : Z) (message : option string)
| OtherError (message : string).

Definition other {A} (r : anyres A) : res HttpError A := res_map_err OtherError r.

(** ** URLs ([http/client/url.rs]) *)

Inductive ApiVersion := ApiV2 | ApiV3.

Record TargetUrl := mk_TargetUrl {
  tu_version : ApiVersion;
  tu_protocol : ProtocolType;
  tu_host : string;
  tu_port : Z;
  tu_path : string
}.

(** [TargetUrl::to_string]. *)
Definition target_url_to_string (u : TargetUrl) : string :=
  protocol_as_str (tu_protocol u) +:+ "://" +:+
  (if str_contains ":" (tu_host u) then "[" +:+ tu_host u +:+ "]" else tu_host u) +:+
  ":" +:+ show_dec (tu_port u) +:+ "/api/localsend/" +:+
  match tu_version u with ApiV2 => "v2" | ApiV3 => "v3" end +:+ tu_path u.

(** ** The crates *)

(** What the client and the server parse and print. *)
Class HttpCodec := {
  nonce_request_json :: SerdeJson NonceRequest;
  nonce_response_json :: SerdeJson NonceResponse;
  error_response_json :: SerdeJson ErrorResponse;
  register_json :: SerdeJson RegisterDto;
  register_response_json :: SerdeJson RegisterResponseDto;
  prepare_upload_request_json :: SerdeJson PrepareUploadRequestDto;
  prepare_upload_response_json :: SerdeJson PrepareUploadResponseDto;
  (** [Display for StatusCode]. *)
  status_display : Z → string
}.

Class HttpCodecLaws `{HttpCodec} := {
  nonce_request_laws :: SerdeJsonLaws NonceRequest;
  nonce_response_laws :: SerdeJsonLaws NonceResponse;
  error_response_laws :: SerdeJsonLaws ErrorResponse;
  register_laws :: SerdeJsonLaws RegisterDto;
  register_response_laws :: SerdeJsonLaws RegisterResponseDto;
  prepare_upload_request_laws :: SerdeJsonLaws PrepareUploadRequestDto;
  prepare_upload_response_laws :: SerdeJsonLaws PrepareUploadResponseDto
}.

(** [lru::LruCache<String, Vec<u8>>].  [lru_keys] lists the keys from the most
    to the least recently used; [lru_peek] looks a value up without using it;
    [get] uses the key and looks it up. *)
Class LruCache := {
  lru : Type;
  lru_new : nat → lru;
  lru_put : string → bytes → lru → lru;
  lru_touch : string → lru → lru;
  lru_peek : lru → string → option bytes;
  lru_keys : lru → list string;
  lru_cap : lru → nat
}.

(** A key that is put or got becomes the most recent one; beyond the capacity
    the least recent one is dropped. *)
Definition used (k : string) (ks : list string) : list string := k :: filter (.≠ k) ks.

Class LruCacheLaws `{LruCache} := {
  lru_cap_new n : lru_cap (lru_new n) = n;
  lru_keys_new n : lru_keys (lru_new n) = [];
  lru_peek_keys c k : is_Some (lru_peek c k) ↔ k ∈ lru_keys c;
  lru_cap_put k v c : lru_cap (lru_put k v c) = lru_cap c;
  lru_keys_put k v c : lru_keys (lru_put k v c) = take (lru_cap c) (used k (lru_keys c));
  lru_peek_put_same k v c : 0 < lru_cap c → lru_peek (lru_put k v c) k = Some v;
  lru_peek_put_other k v c k' :
    k' ≠ k → k' ∈ lru_keys (lru_put k v c) → lru_peek (lru_put k v c) k' = lru_peek c k';
  lru_cap_touch k c : lru_cap (lru_touch k c) = lru_cap c;
  lru_keys_touch k c :
    lru_keys (lru_touch k c) = if decide (k ∈ lru_keys c) then used k (lru_keys c) else lru_keys c;
  lru_peek_touch k c k' : lru_peek (lru_touch k c) k' = lru_peek c k'
}.

(** [LruCache::get]. *)
Definition lru_get `{LruCache} (k : string) (c : lru) : option bytes * lru :=
  (lru_peek c k, lru_touch k c).

(** [NonZeroUsize::new(200)], the capacity of every nonce map. *)
Definition NONCE_MAP_CAPACITY : nat := 200.
