(* ===== verification/JsonMessages.v ===== *)
(** * The documents of the signaling messages

    The attributes of [core/src/webrtc/signaling.rs] and
    [core/src/model/discovery.rs]: the names of the members, the tags, the
    members that are left out. *)

From S2P Require Import Prelude Json Signaling.

(** [Serialize] and [Deserialize] of the [uuid] crate: the hyphenated text. *)
Class UuidText := {
  uuid_text : Uuid → string;
  uuid_parse : string → option Uuid
}.

Class UuidTextLaws `{UuidText} := {
  uuid_parse_text id : uuid_parse (uuid_text id) = Some id;
  uuid_text_nil : uuid_text 0 = "00000000-0000-0000-0000-000000000000"
}.

Definition serde_u16 : Serde Z := serde_unsigned u16_max.

(** [rename_all = "SCREAMING_SNAKE_CASE"]. *)
Definition device_type_name (d : DeviceType) : string :=
  match d with
  | Mobile => "MOBILE" | Desktop => "DESKTOP" | Web => "WEB" | Headless => "HEADLESS"
  | Server => "SERVER"
  end.

(** The variant of a name; a unit variant is read from its name, or from an
    object that maps the name to [null]. *)
Definition unit_variant {A} (name : A → string) (variants : list A) (v : Json) : option A :=
  let variant t := List.find (λ x, String.eqb (name x) t) variants in
  match v with
  | JString t => variant t
  | JObject [(t, JNull)] => variant t
  | _ => None
  end.

Definition device_types : list DeviceType := [Mobile; Desktop; Web; Headless; Server].

#[export] Instance serde_device_type : Serde DeviceType := {|
  to_value d := JString (device_type_name d);
  from_value := unit_variant device_type_name device_types;
  serde_valid _ := True
|}.

Section messages.
Context `{UuidText}.

#[export] Instance serde_uuid : Serde Uuid := {|
  to_value id := JString (uuid_text id);
  from_value v := match v with JString t => uuid_parse t | _ => None end;
  serde_valid _ := True
|}.

(** ** Information about a client *)

Definition client_info_fields : list string :=
  ["id"; "alias"; "version"; "deviceModel"; "deviceType"; "token"].

Definition client_info_members (p : ClientInfo) : members :=
  field "id" (ci_id p) ++ field "alias" (ci_alias p) ++ field "version" (ci_version p) ++
  opt_field "deviceModel" (ci_device_model p) ++ opt_field "deviceType" (ci_device_type p) ++
  field "token" (ci_token p).

Definition client_info_read (v : Json) : option ClientInfo :=
    ms ← struct_members client_info_fields 0 v;
    id ← req "id" ms; alias ← req "alias" ms; version ← req "version" ms;
    device_model ← opt "deviceModel" ms; device_type ← opt "deviceType" ms;
    token ← req "token" ms;
    Some (mk_ClientInfo id alias version device_model device_type token).

#[export] Instance serde_client_info : Serde ClientInfo := {|
  to_value x := JObject (client_info_members x);
  from_value := client_info_read;
  serde_valid _ := True
|}.

Definition client_info_without_id_fields : list string :=
  ["alias"; "version"; "deviceModel"; "deviceType"; "token"].

Definition client_info_without_id_members (p : ClientInfoWithoutId) : members :=
  field "alias" (cw_alias p) ++ field "version" (cw_version p) ++
  opt_field "deviceModel" (cw_device_model p) ++ opt_field "deviceType" (cw_device_type p) ++
  field "token" (cw_token p).

Definition client_info_without_id_read (v : Json) : option ClientInfoWithoutId :=
    ms ← struct_members client_info_without_id_fields 0 v;
    alias ← req "alias" ms; version ← req "version" ms;
    device_model ← opt "deviceModel" ms; device_type ← opt "deviceType" ms;
    token ← req "token" ms;
    Some (mk_ClientInfoWithoutId alias version device_model device_type token).

#[export] Instance serde_client_info_without_id : Serde ClientInfoWithoutId := {|
  to_value x := JObject (client_info_without_id_members x);
  from_value := client_info_without_id_read;
  serde_valid _ := True
|}.

(** ** Messages of the server *)

Definition server_sdp_fields : list string := ["peer"; "sessionId"; "sdp"].

Definition server_sdp_members (m : WsServerSdpMessage) : members :=
  field "peer" (ss_peer m) ++ field "sessionId" (ss_session_id m) ++ field "sdp" (ss_sdp m).

Definition server_sdp_read (v : Json) : option WsServerSdpMessage :=
    ms ← struct_members server_sdp_fields 0 v;
    peer ← req "peer" ms; session_id ← req "sessionId" ms; sdp ← req "sdp" ms;
    Some (mk_WsServerSdpMessage peer session_id sdp).

#[export] Instance serde_server_sdp : Serde WsServerSdpMessage := {|
  to_value x := JObject (server_sdp_members x);
  from_value := server_sdp_read;
  serde_valid _ := True
|}.

Definition server_message_members (m : WsServerMessage) : members :=
  match m with
  | Hello client peers => ("type", JString "HELLO") :: field "client" client ++ field "peers" peers
  | Join peer => ("type", JString "JOIN") :: field "peer" peer
  | Update peer => ("type", JString "UPDATE") :: field "peer" peer
  | Left peer_id => ("type", JString "LEFT") :: field "peerId" peer_id
  | Offer m => ("type", JString "OFFER") :: server_sdp_members m
  | Answer m => ("type", JString "ANSWER") :: server_sdp_members m
  | WsError code => ("type", JString "ERROR") :: @field _ serde_u16 "code" code
  end.

Definition server_message_variant (variant : string) (v : Json) : option WsServerMessage :=
  if String.eqb variant "HELLO" then
    ms ← struct_members ["client"; "peers"] 0 v;
    client ← req "client" ms; peers ← req "peers" ms; Some (Hello client peers)
  else if String.eqb variant "JOIN" then ms ← struct_members ["peer"] 0 v; Join <$> req "peer" ms
  else if String.eqb variant "UPDATE" then ms ← struct_members ["peer"] 0 v; Update <$> req "peer" ms
  else if String.eqb variant "LEFT" then ms ← struct_members ["peerId"] 0 v; Left <$> req "peerId" ms
  else if String.eqb variant "OFFER" then Offer <$> from_value v
  else if String.eqb variant "ANSWER" then Answer <$> from_value v
  else if String.eqb variant "ERROR" then
    ms ← struct_members ["code"] 0 v; WsError <$> @req _ serde_u16 "code" ms
  else None.

Definition server_message_read (v : Json) : option WsServerMessage := '(variant, v) ← untag "type" v; server_message_variant variant v.

#[export] Instance serde_server_message : Serde WsServerMessage := {|
  to_value x := JObject (server_message_members x);
  from_value := server_message_read;
  serde_valid m := match m with WsError code => (0 ≤ code ≤ u16_max)%Z | _ => True end
|}.

(** ** Messages of the client *)

Definition client_sdp_fields : list string := ["sessionId"; "target"; "sdp"].

Definition client_sdp_members (m : WsClientSdpMessage) : members :=
  field "sessionId" (sc_session_id m) ++ field "target" (sc_target m) ++ field "sdp" (sc_sdp m).

Definition client_sdp_read (v : Json) : option WsClientSdpMessage :=
    ms ← struct_members client_sdp_fields 0 v;
    session_id ← req "sessionId" ms; target ← req "target" ms; sdp ← req "sdp" ms;
    Some (mk_WsClientSdpMessage session_id target sdp).

#[export] Instance serde_client_sdp : Serde WsClientSdpMessage := {|
  to_value x := JObject (client_sdp_members x);
  from_value := client_sdp_read;
  serde_valid _ := True
|}.

Definition client_message_members (m : WsClientMessage) : members :=
  match m with
  | CUpdate info => ("type", JString "UPDATE") :: field "info" info
  | COffer m => ("type", JString "OFFER") :: client_sdp_members m
  | CAnswer m => ("type", JString "ANSWER") :: client_sdp_members m
  end.

Definition client_message_variant (variant : string) (v : Json) : option WsClientMessage :=
  if String.eqb variant "UPDATE" then ms ← struct_members ["info"] 0 v; CUpdate <$> req "info" ms
  else if String.eqb variant "OFFER" then COffer <$> from_value v
  else if String.eqb variant "ANSWER" then CAnswer <$> from_value v
  else None.

Definition client_message_read (v : Json) : option WsClientMessage := '(variant, v) ← untag "type" v; client_message_variant variant v.

#[export] Instance serde_client_message : Serde WsClientMessage := {|
  to_value x := JObject (client_message_members x);
  from_value := client_message_read;
  serde_valid _ := True
|}.
End messages.

(** ** Round trips *)

Section roundtrips.
Context `{UuidTextLaws}.

#[export] Instance serde_device_type_laws : SerdeLaws DeviceType.
Proof. split; [by intros []|done]. Qed.

#[export] Instance serde_uuid_laws : SerdeLaws Uuid.
Proof. split; [|done]. intros id _. apply uuid_parse_text. Qed.

#[export] Instance serde_client_info_laws : SerdeLaws ClientInfo.
Proof.
  split; [|done]. intros x _. change (client_info_read (JObject (client_info_members x)) = Some x).
  destruct x as [id alias version [dm|] [dt|] token]; unfold client_info_read; serde_struct.
Qed.

#[export] Instance serde_client_info_open : SerdeMembers ClientInfo.
Proof.
  refine {| known := client_info_fields; to_members := client_info_members |}; [done|].
  intros ms ms' Hms. change (client_info_read (JObject ms') = client_info_read (JObject ms)).
  unfold client_info_read. serde_looks Hms.
Defined.

#[export] Instance serde_client_info_without_id_laws : SerdeLaws ClientInfoWithoutId.
Proof.
  split; [|done]. intros x _.
  change (client_info_without_id_read (JObject (client_info_without_id_members x)) = Some x).
  destruct x as [alias version [dm|] [dt|] token]; unfold client_info_without_id_read; serde_struct.
Qed.

#[export] Instance serde_client_info_without_id_open : SerdeMembers ClientInfoWithoutId.
Proof.
  refine {| known := client_info_without_id_fields; to_members := client_info_without_id_members |}; [done|].
  intros ms ms' Hms.
  change (client_info_without_id_read (JObject ms') = client_info_without_id_read (JObject ms)).
  unfold client_info_without_id_read. serde_looks Hms.
Defined.

#[export] Instance serde_server_sdp_laws : SerdeLaws WsServerSdpMessage.
Proof.
  split; [|done]. intros x _. change (server_sdp_read (JObject (server_sdp_members x)) = Some x).
  destruct x as [peer sid sdp]. unfold server_sdp_read. serde_struct.
Qed.

#[export] Instance serde_server_sdp_open : SerdeMembers WsServerSdpMessage.
Proof.
  refine {| known := server_sdp_fields; to_members := server_sdp_members |}; [done|].
  intros ms ms' Hms. change (server_sdp_read (JObject ms') = server_sdp_read (JObject ms)).
  unfold server_sdp_read. serde_looks Hms.
Defined.

#[export] Instance serde_client_sdp_laws : SerdeLaws WsClientSdpMessage.
Proof.
  split; [|done]. intros x _. change (client_sdp_read (JObject (client_sdp_members x)) = Some x).
  destruct x as [sid target sdp]. unfold client_sdp_read. serde_struct.
Qed.

#[export] Instance serde_client_sdp_open : SerdeMembers WsClientSdpMessage.
Proof.
  refine {| known := client_sdp_fields; to_members := client_sdp_members |}; [done|].
  intros ms ms' Hms. change (client_sdp_read (JObject ms') = client_sdp_read (JObject ms)).
  unfold client_sdp_read. serde_looks Hms.
Defined.

(** The document of a tagged message: its tag is taken away, and its variant is
    read like a struct. *)
Lemma server_message_written variant (ms : members) :
  List.filter (named "type") ms = [] →
  server_message_read (JObject (("type", JString variant) :: ms)) =
    server_message_variant variant (JObject ms).
Proof. intros Hms. unfold server_message_read. by rewrite untag_written. Qed.

#[export] Instance serde_server_message_laws : SerdeLaws WsServerMessage.
Proof.
  split; [|done]. intros x Hx. change (server_message_read (JObject (server_message_members x)) = Some x).
  destruct x as [client peers|peer|peer|peer_id|m|m|code]; simpl;
    rewrite server_message_written by done; unfold server_message_variant; cbn [String.eqb Ascii.eqb Bool.eqb].
  - serde_struct.
  - serde_struct.
  - serde_struct.
  - serde_struct.
  - change (Offer <$> from_value (to_value m) = Some (Offer m)). by rewrite from_to_value.
  - change (Answer <$> from_value (to_value m) = Some (Answer m)). by rewrite from_to_value.
  - serde_run. rewrite (@req_written _ serde_u16 (serde_unsigned_laws _) "code" _ code); done.
Qed.

Lemma server_message_looks t ms ms' :
  (∀ name, name ∈ ["client"; "peers"; "peer"; "peerId"; "code"; "sessionId"; "sdp"] →
    member name ms' = member name ms) →
  server_message_variant t (JObject ms') = server_message_variant t (JObject ms).
Proof.
  intros Hms. unfold server_message_variant. repeat case_match; try done; try serde_looks Hms;
    f_equal; apply from_value_members; intros name Hname; apply Hms; set_solver.
Qed.

#[export] Instance serde_server_message_open : SerdeMembers WsServerMessage.
Proof.
  refine {| known := "type" :: ["client"; "peers"; "peer"; "peerId"; "code"; "sessionId"; "sdp"];
            to_members := server_message_members |}; [done|].
  intros ms ms' Hms. apply tagged_members with (3 := Hms).
  - intros t ms1 ms1'. apply server_message_looks.
  - by apply (bool_decide_unpack _).
Defined.

Lemma client_message_written variant (ms : members) :
  List.filter (named "type") ms = [] →
  client_message_read (JObject (("type", JString variant) :: ms)) =
    client_message_variant variant (JObject ms).
Proof. intros Hms. unfold client_message_read. by rewrite untag_written. Qed.

#[export] Instance serde_client_message_laws : SerdeLaws WsClientMessage.
Proof.
  split; [|done]. intros x Hx. change (client_message_read (JObject (client_message_members x)) = Some x).
  destruct x as [info|m|m]; simpl;
    rewrite client_message_written by done; unfold client_message_variant; cbn [String.eqb Ascii.eqb Bool.eqb].
  - serde_struct.
  - change (COffer <$> from_value (to_value m) = Some (COffer m)). by rewrite from_to_value.
  - change (CAnswer <$> from_value (to_value m) = Some (CAnswer m)). by rewrite from_to_value.
Qed.

Lemma client_message_looks t ms ms' :
  (∀ name, name ∈ ["info"; "sessionId"; "target"; "sdp"] → member name ms' = member name ms) →
  client_message_variant t (JObject ms') = client_message_variant t (JObject ms).
Proof.
  intros Hms. unfold client_message_variant. repeat case_match; try done; try serde_looks Hms;
    f_equal; apply from_value_members; intros name Hname; apply Hms; set_solver.
Qed.

#[export] Instance serde_client_message_open : SerdeMembers WsClientMessage.
Proof.
  refine {| known := "type" :: ["info"; "sessionId"; "target"; "sdp"];
            to_members := client_message_members |}; [done|].
  intros ms ms' Hms. apply tagged_members with (3 := Hms).
  - intros t ms1 ms1'. apply client_message_looks.
  - by apply (bool_decide_unpack _).
Defined.
End roundtrips.
