(* ===== verification/JsonTransfer.v ===== *)
(** * The documents of a transfer and of the HTTP API

    The attributes of [core/src/model/transfer.rs], of the messages of
    [core/src/webrtc/webrtc.rs] and of [core/src/http/dto.rs]. *)

From S2P Require Import Prelude Json Signaling JsonMessages RtcTypes HttpTypes.

Definition serde_u64 : Serde Z := serde_unsigned (u64_modulus - 1).

(** ** Files *)

Definition file_metadata_fields : list string := ["modified"; "accessed"].

Definition file_metadata_members (m : FileMetadata) : members :=
  opt_field "modified" (fm_modified m) ++ opt_field "accessed" (fm_accessed m).

Definition file_metadata_read (v : Json) : option FileMetadata :=
  ms ← struct_members file_metadata_fields 0 v;
  modified ← opt "modified" ms; accessed ← opt "accessed" ms;
  Some (mk_FileMetadata modified accessed).

#[export] Instance serde_file_metadata : Serde FileMetadata := {|
  to_value x := JObject (file_metadata_members x);
  from_value := file_metadata_read;
  serde_valid _ := True
|}.

Definition file_fields : list string :=
  ["id"; "fileName"; "size"; "fileType"; "sha256"; "preview"; "metadata"].

Definition file_members (f : FileDto) : members :=
  field "id" (fd_id f) ++ field "fileName" (fd_file_name f) ++
  @field _ serde_u64 "size" (fd_size f) ++ field "fileType" (fd_file_type f) ++
  opt_field "sha256" (fd_sha256 f) ++ opt_field "preview" (fd_preview f) ++
  opt_field "metadata" (fd_metadata f).

Definition file_read (v : Json) : option FileDto :=
  ms ← struct_members file_fields 0 v;
  id ← req "id" ms; file_name ← req "fileName" ms; size ← @req _ serde_u64 "size" ms;
  file_type ← req "fileType" ms; sha256 ← opt "sha256" ms; preview ← opt "preview" ms;
  metadata ← opt "metadata" ms;
  Some (mk_FileDto id file_name size file_type sha256 preview metadata).

#[export] Instance serde_file : Serde FileDto := {|
  to_value x := JObject (file_members x);
  from_value := file_read;
  serde_valid f := (0 ≤ fd_size f ≤ u64_modulus - 1)%Z
|}.

(** ** Messages of a transfer *)

#[export] Instance serde_nonce_message : Serde RTCNonceMessage :=
  serde_single "nonce" mk_RTCNonceMessage nm_nonce.
#[export] Instance serde_token_request : Serde RTCTokenRequest :=
  serde_single "token" mk_RTCTokenRequest tr_token.
#[export] Instance serde_pin_message : Serde RTCPinMessage :=
  serde_single "pin" mk_RTCPinMessage pm_pin.

(** The tag of the answers. *)
Definition status (variant : string) : string * Json := ("status", JString variant).

Definition token_response_members (m : RTCTokenResponse) : members :=
  match m with
  | TokenOk token => status "OK" :: field "token" token
  | TokenPinRequired token => status "PIN_REQUIRED" :: field "token" token
  | TokenInvalidSignature => [status "INVALID_SIGNATURE"]
  end.

Definition token_response_variant (variant : string) (v : Json) : option RTCTokenResponse :=
  if String.eqb variant "OK" then ms ← struct_members ["token"] 0 v; TokenOk <$> req "token" ms
  else if String.eqb variant "PIN_REQUIRED" then
    ms ← struct_members ["token"] 0 v; TokenPinRequired <$> req "token" ms
  else if String.eqb variant "INVALID_SIGNATURE" then Some TokenInvalidSignature
  else None.

Definition pin_receiving_members (m : RTCPinReceivingResponse) : members :=
  match m with
  | PinReceivingOk => [status "OK"]
  | PinReceivingPinRequired => [status "PIN_REQUIRED"]
  | PinReceivingTooManyAttempts => [status "TOO_MANY_ATTEMPTS"]
  end.

Definition pin_receiving_variant (variant : string) (v : Json) : option RTCPinReceivingResponse :=
  if String.eqb variant "OK" then Some PinReceivingOk
  else if String.eqb variant "PIN_REQUIRED" then Some PinReceivingPinRequired
  else if String.eqb variant "TOO_MANY_ATTEMPTS" then Some PinReceivingTooManyAttempts
  else None.

Definition pin_sending_members (m : RTCPinSendingResponse) : members :=
  match m with
  | PinSendingOk files => status "OK" :: field "files" files
  | PinSendingPinRequired => [status "PIN_REQUIRED"]
  | PinSendingTooManyAttempts => [status "TOO_MANY_ATTEMPTS"]
  end.

Definition pin_sending_variant (variant : string) (v : Json) : option RTCPinSendingResponse :=
  if String.eqb variant "OK" then ms ← struct_members ["files"] 0 v; PinSendingOk <$> req "files" ms
  else if String.eqb variant "PIN_REQUIRED" then Some PinSendingPinRequired
  else if String.eqb variant "TOO_MANY_ATTEMPTS" then Some PinSendingTooManyAttempts
  else None.

Definition file_list_members (m : RTCFileListResponse) : members :=
  match m with
  | FileListOk files => status "OK" :: field "files" files
  | FileListPair public_key => status "PAIR" :: field "publicKey" public_key
  | FileListDeclined => [status "DECLINED"]
  | FileListInvalidSignature => [status "INVALID_SIGNATURE"]
  end.

Definition file_list_variant (variant : string) (v : Json) : option RTCFileListResponse :=
  if String.eqb variant "OK" then ms ← struct_members ["files"] 0 v; FileListOk <$> req "files" ms
  else if String.eqb variant "PAIR" then
    ms ← struct_members ["publicKey"] 0 v; FileListPair <$> req "publicKey" ms
  else if String.eqb variant "DECLINED" then Some FileListDeclined
  else if String.eqb variant "INVALID_SIGNATURE" then Some FileListInvalidSignature
  else None.

Definition pair_members (m : RTCPairResponse) : members :=
  match m with
  | PairOk public_key => status "OK" :: field "publicKey" public_key
  | PairDeclined => [status "PAIR_DECLINED"]
  | PairInvalidSignature => [status "INVALID_SIGNATURE"]
  end.

Definition pair_variant (variant : string) (v : Json) : option RTCPairResponse :=
  if String.eqb variant "OK" then ms ← struct_members ["publicKey"] 0 v; PairOk <$> req "publicKey" ms
  else if String.eqb variant "PAIR_DECLINED" then Some PairDeclined
  else if String.eqb variant "INVALID_SIGNATURE" then Some PairInvalidSignature
  else None.

(** An enum with [tag = "status"]. *)
Definition serde_status {T} (write : T → members) (variant : string → Json → option T)
    (valid : T → Prop) : Serde T := {|
  to_value x := JObject (write x);
  from_value v := '(t, v) ← untag "status" v; variant t v;
  serde_valid := valid
|}.

#[export] Instance serde_token_response : Serde RTCTokenResponse :=
  serde_status token_response_members token_response_variant (λ _, True).
#[export] Instance serde_pin_receiving : Serde RTCPinReceivingResponse :=
  serde_status pin_receiving_members pin_receiving_variant (λ _, True).
#[export] Instance serde_pin_sending : Serde RTCPinSendingResponse :=
  serde_status pin_sending_members pin_sending_variant
    (λ m, match m with PinSendingOk files => serde_valid files | _ => True end).
#[export] Instance serde_file_list : Serde RTCFileListResponse :=
  serde_status file_list_members file_list_variant (λ _, True).
#[export] Instance serde_pair : Serde RTCPairResponse :=
  serde_status pair_members pair_variant (λ _, True).

Definition file_header_fields : list string := ["id"; "token"].
Definition file_header_members (m : RTCSendFileHeaderRequest) : members :=
  field "id" (fh_id m) ++ field "token" (fh_token m).
Definition file_header_read (v : Json) : option RTCSendFileHeaderRequest :=
  ms ← struct_members file_header_fields 0 v;
  id ← req "id" ms; token ← req "token" ms; Some (mk_RTCSendFileHeaderRequest id token).

#[export] Instance serde_file_header : Serde RTCSendFileHeaderRequest := {|
  to_value x := JObject (file_header_members x);
  from_value := file_header_read;
  serde_valid _ := True
|}.

Definition file_response_fields : list string := ["id"; "success"; "error"].
Definition file_response_members (m : RTCSendFileResponse) : members :=
  field "id" (fr_id m) ++ field "success" (fr_success m) ++ opt_field "error" (fr_error m).
Definition file_response_read (v : Json) : option RTCSendFileResponse :=
  ms ← struct_members file_response_fields 0 v;
  id ← req "id" ms; success ← req "success" ms; error ← opt "error" ms;
  Some (mk_RTCSendFileResponse id success error).

#[export] Instance serde_file_response : Serde RTCSendFileResponse := {|
  to_value x := JObject (file_response_members x);
  from_value := file_response_read;
  serde_valid _ := True
|}.

(** ** The HTTP API *)

#[export] Instance serde_nonce_request : Serde NonceRequest :=
  serde_single "nonce" mk_NonceRequest nq_nonce.
#[export] Instance serde_nonce_response : Serde NonceResponse :=
  serde_single "nonce" mk_NonceResponse nr_nonce.
#[export] Instance serde_error_response : Serde ErrorResponse :=
  serde_single "message" mk_ErrorResponse er_message.

Definition protocol_name (p : ProtocolType) : string :=
  match p with Http => "HTTP" | Https => "HTTPS" end.

#[export] Instance serde_protocol : Serde ProtocolType := {|
  to_value p := JString (protocol_name p);
  from_value := unit_variant protocol_name [Http; Https];
  serde_valid _ := True
|}.

(** [default, skip_serializing_if = "is_default"]. *)
Definition flag_field (name : string) (b : bool) : members := if b then field name b else [].

Definition register_fields : list string :=
  ["alias"; "version"; "deviceModel"; "deviceType"; "token"; "port"; "protocol"; "hasWebInterface"].

Definition register_members (r : RegisterDto) : members :=
  field "alias" (rd_alias r) ++ field "version" (rd_version r) ++
  opt_field "deviceModel" (rd_device_model r) ++ opt_field "deviceType" (rd_device_type r) ++
  field "token" (rd_token r) ++ @field _ serde_u16 "port" (rd_port r) ++
  field "protocol" (rd_protocol r) ++ flag_field "hasWebInterface" (rd_has_web_interface r).

Definition register_read (v : Json) : option RegisterDto :=
  ms ← struct_members register_fields 1 v;
  alias ← req "alias" ms; version ← req "version" ms;
  device_model ← opt "deviceModel" ms; device_type ← opt "deviceType" ms; token ← req "token" ms;
  port ← @req _ serde_u16 "port" ms; protocol ← req "protocol" ms;
  web ← with_default false "hasWebInterface" ms;
  Some (mk_RegisterDto alias version device_model device_type token port protocol web).

#[export] Instance serde_register : Serde RegisterDto := {|
  to_value x := JObject (register_members x);
  from_value := register_read;
  serde_valid r := (0 ≤ rd_port r ≤ u16_max)%Z
|}.

Definition register_response_fields : list string :=
  ["alias"; "version"; "deviceModel"; "deviceType"; "token"; "hasWebInterface"].

Definition register_response_members (r : RegisterResponseDto) : members :=
  field "alias" (rr_alias r) ++ field "version" (rr_version r) ++
  opt_field "deviceModel" (rr_device_model r) ++ opt_field "deviceType" (rr_device_type r) ++
  field "token" (rr_token r) ++ flag_field "hasWebInterface" (rr_has_web_interface r).

Definition register_response_read (v : Json) : option RegisterResponseDto :=
  ms ← struct_members register_response_fields 1 v;
  alias ← req "alias" ms; version ← req "version" ms;
  device_model ← opt "deviceModel" ms; device_type ← opt "deviceType" ms; token ← req "token" ms;
  web ← with_default false "hasWebInterface" ms;
  Some (mk_RegisterResponseDto alias version device_model device_type token web).

#[export] Instance serde_register_response : Serde RegisterResponseDto := {|
  to_value x := JObject (register_response_members x);
  from_value := register_response_read;
  serde_valid _ := True
|}.

Definition prepare_upload_request_fields : list string := ["info"; "files"].
Definition prepare_upload_request_members (r : PrepareUploadRequestDto) : members :=
  field "info" (pq_info r) ++ field "files" (pq_files r).
Definition prepare_upload_request_read (v : Json) : option PrepareUploadRequestDto :=
  ms ← struct_members prepare_upload_request_fields 0 v;
  info ← req "info" ms; files ← req "files" ms; Some (mk_PrepareUploadRequestDto info files).

#[export] Instance serde_prepare_upload_request : Serde PrepareUploadRequestDto := {|
  to_value x := JObject (prepare_upload_request_members x);
  from_value := prepare_upload_request_read;
  serde_valid r := serde_valid (pq_info r) ∧ serde_valid (pq_files r)
|}.

Definition prepare_upload_response_fields : list string := ["sessionId"; "files"].
Definition prepare_upload_response_members (r : PrepareUploadResponseDto) : members :=
  field "sessionId" (pr_session_id r) ++ field "files" (pr_files r).
Definition prepare_upload_response_read (v : Json) : option PrepareUploadResponseDto :=
  ms ← struct_members prepare_upload_response_fields 0 v;
  session_id ← req "sessionId" ms; files ← req "files" ms;
  Some (mk_PrepareUploadResponseDto session_id files).

#[export] Instance serde_prepare_upload_response : Serde PrepareUploadResponseDto := {|
  to_value x := JObject (prepare_upload_response_members x);
  from_value := prepare_upload_response_read;
  serde_valid _ := True
|}.

(** ** Round trips *)

#[local] Instance serde_u16_laws : @SerdeLaws Z serde_u16 := serde_unsigned_laws _.
#[local] Instance serde_u64_laws : @SerdeLaws Z serde_u64 := serde_unsigned_laws _.

#[export] Instance serde_nonce_message_laws : SerdeLaws RTCNonceMessage.
Proof. apply serde_single_laws; [apply _|by intros []]. Qed.
#[export] Instance serde_nonce_message_open : SerdeMembers RTCNonceMessage := serde_single_open _ _ _.
#[export] Instance serde_token_request_laws : SerdeLaws RTCTokenRequest.
Proof. apply serde_single_laws; [apply _|by intros []]. Qed.
#[export] Instance serde_token_request_open : SerdeMembers RTCTokenRequest := serde_single_open _ _ _.
#[export] Instance serde_pin_message_laws : SerdeLaws RTCPinMessage.
Proof. apply serde_single_laws; [apply _|by intros []]. Qed.
#[export] Instance serde_pin_message_open : SerdeMembers RTCPinMessage := serde_single_open _ _ _.
#[export] Instance serde_nonce_request_laws : SerdeLaws NonceRequest.
Proof. apply serde_single_laws; [apply _|by intros []]. Qed.
#[export] Instance serde_nonce_request_open : SerdeMembers NonceRequest := serde_single_open _ _ _.
#[export] Instance serde_nonce_response_laws : SerdeLaws NonceResponse.
Proof. apply serde_single_laws; [apply _|by intros []]. Qed.
#[export] Instance serde_nonce_response_open : SerdeMembers NonceResponse := serde_single_open _ _ _.
#[export] Instance serde_error_response_laws : SerdeLaws ErrorResponse.
Proof. apply serde_single_laws; [apply _|by intros []]. Qed.
#[export] Instance serde_error_response_open : SerdeMembers ErrorResponse := serde_single_open _ _ _.

#[export] Instance serde_file_metadata_laws : SerdeLaws FileMetadata.
Proof.
  split; [|done]. intros x _. change (file_metadata_read (JObject (file_metadata_members x)) = Some x).
  destruct x as [[m|] [a|]]; unfold file_metadata_read; serde_struct.
Qed.

#[export] Instance serde_file_metadata_open : SerdeMembers FileMetadata.
Proof.
  refine {| known := file_metadata_fields; to_members := file_metadata_members |}; [done|].
  intros ms ms' Hms. change (file_metadata_read (JObject ms') = file_metadata_read (JObject ms)).
  unfold file_metadata_read. serde_looks Hms.
Defined.

#[export] Instance serde_file_laws : SerdeLaws FileDto.
Proof.
  split; [|done]. intros x Hx. change (file_read (JObject (file_members x)) = Some x).
  destruct x as [id file_name size file_type [h|] [p|] [m|]]; unfold file_read; serde_struct.
Qed.

#[export] Instance serde_file_open : SerdeMembers FileDto.
Proof.
  refine {| known := file_fields; to_members := file_members |}; [done|].
  intros ms ms' Hms. change (file_read (JObject ms') = file_read (JObject ms)).
  unfold file_read. serde_looks Hms.
Defined.

#[export] Instance serde_file_header_laws : SerdeLaws RTCSendFileHeaderRequest.
Proof.
  split; [|done]. intros x _. change (file_header_read (JObject (file_header_members x)) = Some x).
  destruct x as [id token]; unfold file_header_read; serde_struct.
Qed.

#[export] Instance serde_file_header_open : SerdeMembers RTCSendFileHeaderRequest.
Proof.
  refine {| known := file_header_fields; to_members := file_header_members |}; [done|].
  intros ms ms' Hms. change (file_header_read (JObject ms') = file_header_read (JObject ms)).
  unfold file_header_read. serde_looks Hms.
Defined.

#[export] Instance serde_file_response_laws : SerdeLaws RTCSendFileResponse.
Proof.
  split; [|done]. intros x _. change (file_response_read (JObject (file_response_members x)) = Some x).
  destruct x as [id success [e|]]; unfold file_response_read; serde_struct.
Qed.

#[export] Instance serde_file_response_open : SerdeMembers RTCSendFileResponse.
Proof.
  refine {| known := file_response_fields; to_members := file_response_members |}; [done|].
  intros ms ms' Hms. change (file_response_read (JObject ms') = file_response_read (JObject ms)).
  unfold file_response_read. serde_looks Hms.
Defined.

(** *** The answers *)

Section status.
Context {T : Type} (write : T → members) (variant : string → Json → option T) (valid : T → Prop).

Definition status_written (x : T) : Prop :=
  ∃ t ms, write x = status t :: ms ∧ List.filter (named "status") ms = [] ∧
    variant t (JObject ms) = Some x.

Lemma serde_status_laws :
  (∀ x, valid x → status_written x) → @SerdeLaws T (serde_status write variant valid).
Proof.
  intros Hw. split; [|done]. intros x (t & ms & Hx & Hms & Hv)%Hw.
  change (('(t, v) ← untag "status" (JObject (write x)); variant t v) = Some x).
  rewrite Hx. unfold status. rewrite untag_written by done. done.
Qed.

Definition serde_status_open (names : list string) :
  (∀ t ms ms', (∀ name, name ∈ names → member name ms' = member name ms) →
    variant t (JObject ms') = variant t (JObject ms)) →
  "status" ∉ names →
  @SerdeMembers T (serde_status write variant valid).
Proof.
  intros Hv Hn.
  refine (Build_SerdeMembers T (serde_status write variant valid) ("status" :: names) write _ _); [done|].
  intros ms ms' Hms. by apply tagged_members with (3 := Hms).
Defined.
End status.

Ltac status_variant := eexists _, _; split; [reflexivity|]; split; [reflexivity|];
  cbn [String.eqb Ascii.eqb Bool.eqb]; serde_struct.
Ltac status_looks Hms := repeat case_match; try done; serde_looks Hms.

#[export] Instance serde_token_response_laws : SerdeLaws RTCTokenResponse.
Proof. apply serde_status_laws. intros [t|t|] _; unfold status_written, token_response_variant; status_variant. Qed.

#[export] Instance serde_token_response_open : SerdeMembers RTCTokenResponse.
Proof.
  apply (serde_status_open _ _ _ ["token"]); [|by apply (bool_decide_unpack _)].
  intros t ms ms' Hms. unfold token_response_variant. status_looks Hms.
Defined.

#[export] Instance serde_pin_receiving_laws : SerdeLaws RTCPinReceivingResponse.
Proof. apply serde_status_laws. intros [] _; unfold status_written, pin_receiving_variant; status_variant. Qed.

#[export] Instance serde_pin_receiving_open : SerdeMembers RTCPinReceivingResponse.
Proof.
  apply (serde_status_open _ _ _ []); [|by apply (bool_decide_unpack _)].
  intros t ms ms' Hms. unfold pin_receiving_variant. status_looks Hms.
Defined.

#[export] Instance serde_pin_sending_laws : SerdeLaws RTCPinSendingResponse.
Proof. apply serde_status_laws. intros [fs| |] Hx; unfold status_written, pin_sending_variant; status_variant. Qed.

#[export] Instance serde_pin_sending_open : SerdeMembers RTCPinSendingResponse.
Proof.
  apply (serde_status_open _ _ _ ["files"]); [|by apply (bool_decide_unpack _)].
  intros t ms ms' Hms. unfold pin_sending_variant. status_looks Hms.
Defined.

#[export] Instance serde_file_list_laws : SerdeLaws RTCFileListResponse.
Proof. apply serde_status_laws. intros [fs|k| |] _; unfold status_written, file_list_variant; status_variant. Qed.

#[export] Instance serde_file_list_open : SerdeMembers RTCFileListResponse.
Proof.
  apply (serde_status_open _ _ _ ["files"; "publicKey"]); [|by apply (bool_decide_unpack _)].
  intros t ms ms' Hms. unfold file_list_variant. status_looks Hms.
Defined.

#[export] Instance serde_pair_laws : SerdeLaws RTCPairResponse.
Proof. apply serde_status_laws. intros [k| |] _; unfold status_written, pair_variant; status_variant. Qed.

#[export] Instance serde_pair_open : SerdeMembers RTCPairResponse.
Proof.
  apply (serde_status_open _ _ _ ["publicKey"]); [|by apply (bool_decide_unpack _)].
  intros t ms ms' Hms. unfold pair_variant. status_looks Hms.
Defined.

(** *** The HTTP API *)

#[export] Instance serde_protocol_laws : SerdeLaws ProtocolType.
Proof. split; [by intros []|done]. Qed.

#[export] Instance serde_register_laws : SerdeLaws RegisterDto.
Proof.
  split; [|done]. intros x Hx. change (register_read (JObject (register_members x)) = Some x).
  destruct x as [alias version [dm|] [dt|] token port protocol []]; unfold register_read; serde_struct.
Qed.

#[export] Instance serde_register_open : SerdeMembers RegisterDto.
Proof.
  refine {| known := register_fields; to_members := register_members |}; [done|].
  intros ms ms' Hms. change (register_read (JObject ms') = register_read (JObject ms)).
  unfold register_read. serde_looks Hms.
Defined.

#[export] Instance serde_register_response_laws : SerdeLaws RegisterResponseDto.
Proof.
  split; [|done]. intros x Hx.
  change (register_response_read (JObject (register_response_members x)) = Some x).
  destruct x as [alias version [dm|] [dt|] token []]; unfold register_response_read; serde_struct.
Qed.

#[export] Instance serde_register_response_open : SerdeMembers RegisterResponseDto.
Proof.
  refine {| known := register_response_fields; to_members := register_response_members |}; [done|].
  intros ms ms' Hms. change (register_response_read (JObject ms') = register_response_read (JObject ms)).
  unfold register_response_read. serde_looks Hms.
Defined.

#[export] Instance serde_prepare_upload_request_laws : SerdeLaws PrepareUploadRequestDto.
Proof.
  split; [|done]. intros x Hx.
  change (prepare_upload_request_read (JObject (prepare_upload_request_members x)) = Some x).
  destruct x as [info files], Hx as [Hi Hf]; unfold prepare_upload_request_read; serde_struct.
Qed.

#[export] Instance serde_prepare_upload_request_open : SerdeMembers PrepareUploadRequestDto.
Proof.
  refine {| known := prepare_upload_request_fields; to_members := prepare_upload_request_members |}; [done|].
  intros ms ms' Hms.
  change (prepare_upload_request_read (JObject ms') = prepare_upload_request_read (JObject ms)).
  unfold prepare_upload_request_read. serde_looks Hms.
Defined.

#[export] Instance serde_prepare_upload_response_laws : SerdeLaws PrepareUploadResponseDto.
Proof.
  split; [|done]. intros x Hx.
  change (prepare_upload_response_read (JObject (prepare_upload_response_members x)) = Some x).
  destruct x as [sid files]; unfold prepare_upload_response_read; serde_struct.
Qed.

#[export] Instance serde_prepare_upload_response_open : SerdeMembers PrepareUploadResponseDto.
Proof.
  refine {| known := prepare_upload_response_fields; to_members := prepare_upload_response_members |}; [done|].
  intros ms ms' Hms.
  change (prepare_upload_response_read (JObject ms') = prepare_upload_response_read (JObject ms)).
  unfold prepare_upload_response_read. serde_looks Hms.
Defined.
