(* ===== verification/JsonText.v ===== *)
(** * The texts of the documents

    [serde_json] between a type and its text: the derived codec of the type and
    the printer and parser of the crate, which are parameters.  It meets the
    interface of [Serde] at every type without integers; the tests of the
    encoding in [core/src/webrtc/signaling.rs] and [core/src/webrtc/webrtc.rs]. *)

From S2P Require Import Prelude Serde Json Signaling RtcTypes HttpTypes JsonMessages JsonTransfer.

(** What [to_string] and [from_slice] do to a document, and
    [to_string_pretty]. *)
Class JsonText := {
  json_print : Json → string;
  json_pretty : Json → string;
  json_parse : bytes → option Json
}.

(** A document without fractions whose integers have 64 bits. *)
Fixpoint json_exact (v : Json) : bool :=
  match v with
  | JFloat _ => false
  | JNumber z => bool_decide (- 2 ^ 63 ≤ z < 2 ^ 64)%Z
  | JArray l => forallb json_exact l
  | JObject ms => forallb (λ m, json_exact m.2) ms
  | _ => true
  end.

Definition is_container (v : Json) : bool :=
  match v with JArray _ | JObject _ => true | _ => false end.

Class JsonTextLaws `{JsonText} := {
  json_parse_print v : json_exact v = true → json_parse (as_bytes (json_print v)) = Some v;
  json_parse_pretty v : json_exact v = true → json_parse (as_bytes (json_pretty v)) = Some v;
  json_print_utf8 v : json_exact v = true → utf8_valid (as_bytes (json_print v)) = true;
  json_parse_container b v : json_parse b = Some v → is_container v = true → 2 ≤ length b
}.

(** [serde_json] at a type that derives its codec. *)
Definition serde_json (T : Type) `{JsonText, Serde T} : SerdeJson T := {|
  to_json x := json_print (to_value x);
  from_json b := v ← json_parse b; from_value v
|}.

(** The documents of a type are exact, and only containers are read. *)
Class SerdeExact (T : Type) `{Serde T} :=
  to_value_exact (x : T) : serde_valid x → json_exact (to_value x) = true.
Class SerdeContainer (T : Type) `{Serde T} :=
  from_value_container v (x : T) : from_value v = Some x → is_container v = true.

Section text.
Context `{JsonTextLaws}.

Lemma from_json_written {T} `{SerdeLaws T, !SerdeExact T} (x : T) :
  serde_valid x → @from_json _ (serde_json T) (as_bytes (@to_json _ (serde_json T) x)) = Some x.
Proof.
  intros Hx. simpl. rewrite json_parse_print by by apply to_value_exact.
  simpl. by apply from_to_value.
Qed.

Lemma serde_json_laws (T : Type) `{SerdeLaws T, !SerdeExact T, !SerdeContainer T} :
  (∀ x : T, serde_valid x) → @SerdeJsonLaws T (serde_json T).
Proof.
  intros Hvalid. split.
  - intros x. by apply from_json_written.
  - intros x. simpl. apply json_print_utf8, to_value_exact, Hvalid.
  - intros b x. simpl. destruct (json_parse b) as [v|] eqn:Hb; [|done]. simpl. intros Hx.
    eapply json_parse_container; [done|]. by eapply from_value_container.
Qed.
End text.

(** ** Documents are exact *)

#[export] Instance string_exact : SerdeExact string.
Proof. done. Qed.
#[export] Instance bool_exact : SerdeExact bool.
Proof. done. Qed.
#[export] Instance device_type_exact : SerdeExact DeviceType.
Proof. done. Qed.
#[export] Instance protocol_exact : SerdeExact ProtocolType.
Proof. done. Qed.
#[export] Instance uuid_exact `{UuidText} : SerdeExact Uuid.
Proof. done. Qed.
#[export] Instance u16_exact : @SerdeExact Z serde_u16.
Proof. intros x Hx. apply bool_decide_eq_true. destruct Hx as [? Hx]. unfold u16_max in Hx. lia. Qed.
#[export] Instance u64_exact : @SerdeExact Z serde_u64.
Proof. intros x Hx. apply bool_decide_eq_true. destruct Hx as [? Hx]. unfold u64_modulus in Hx. lia. Qed.

Section exact_containers.
Context {A : Type} `{SerdeExact A}.

#[export] Instance list_exact : SerdeExact (list A).
Proof.
  intros l Hl. change (forallb json_exact (to_value <$> l) = true).
  induction Hl as [|x l Hx _ IH]; [done|].
  rewrite fmap_cons. cbn [forallb]. by rewrite to_value_exact, IH.
Qed.

#[export] Instance map_exact : SerdeExact (gmap string A).
Proof.
  intros m Hm. change (forallb (λ m, json_exact m.2) (prod_map id to_value <$> map_to_list m) = true).
  apply map_Forall_to_list in Hm. induction Hm as [|[k x] l Hx _ IH]; [done|].
  rewrite fmap_cons. cbn [forallb]. simpl in Hx. by rewrite IH, andb_true_r; apply to_value_exact.
Qed.

Lemma field_exact name (x : A) : serde_valid x → forallb (λ m, json_exact m.2) (field name x) = true.
Proof. intros Hx. simpl. by rewrite to_value_exact. Qed.

Lemma opt_field_exact name (x : option A) :
  (∀ y, x = Some y → serde_valid y) → forallb (λ m, json_exact m.2) (opt_field name x) = true.
Proof. intros Hx. destruct x as [x|]; [|done]. by apply field_exact, Hx. Qed.
End exact_containers.

Lemma flag_field_exact name b : forallb (λ m, json_exact m.2) (flag_field name b) = true.
Proof. by destruct b. Qed.

Lemma tagged_exact tag variant (ms : members) :
  forallb (λ m, json_exact m.2) ((tag, JString variant) :: ms) = forallb (λ m, json_exact m.2) ms.
Proof. done. Qed.

(** The members of a document, one after the other. *)
Ltac exact_members :=
  repeat match goal with
  | |- forallb _ (_ ++ _) = true => rewrite forallb_app; apply andb_true_intro; split
  | |- forallb _ (field _ _) = true => apply field_exact; try done
  | |- forallb _ (opt_field _ _) = true => by apply opt_field_exact
  | |- forallb _ (flag_field _ _) = true => apply flag_field_exact
  | |- forallb _ ((_, JString _) :: _) = true => rewrite tagged_exact
  | |- forallb _ (status _ :: _) = true => unfold status; rewrite tagged_exact
  | |- forallb _ [] = true => reflexivity
  end.

(** Texts, numbers and [null] are no documents of these types. *)
Ltac containers := intros [] x Hx; done.

Section signaling.
Context `{UuidText}.

#[export] Instance client_info_exact : SerdeExact ClientInfo.
Proof.
  intros x Hx. change (forallb (λ m, json_exact m.2) (client_info_members x) = true). unfold client_info_members.
  exact_members.
Qed.

#[export] Instance client_info_without_id_exact : SerdeExact ClientInfoWithoutId.
Proof.
  intros x Hx. change (forallb (λ m, json_exact m.2) (client_info_without_id_members x) = true). unfold client_info_without_id_members.
  exact_members.
Qed.

#[export] Instance server_sdp_exact : SerdeExact WsServerSdpMessage.
Proof.
  intros x Hx. change (forallb (λ m, json_exact m.2) (server_sdp_members x) = true). unfold server_sdp_members.
  exact_members.
Qed.

#[export] Instance client_sdp_exact : SerdeExact WsClientSdpMessage.
Proof.
  intros x Hx. change (forallb (λ m, json_exact m.2) (client_sdp_members x) = true). unfold client_sdp_members.
  exact_members.
Qed.

#[export] Instance client_message_exact : SerdeExact WsClientMessage.
Proof.
  intros x Hx. change (forallb (λ m, json_exact m.2) (client_message_members x) = true). unfold client_message_members.
  destruct x as [info|[sid target sdp]|[sid target sdp]]; unfold client_sdp_members; exact_members.
Qed.

#[export] Instance client_info_without_id_container : SerdeContainer ClientInfoWithoutId.
Proof. containers. Qed.

#[export] Instance client_message_container : SerdeContainer WsClientMessage.
Proof. containers. Qed.
End signaling.

#[export] Instance nonce_message_exact : SerdeExact RTCNonceMessage.
Proof. done. Qed.
#[export] Instance nonce_message_container : SerdeContainer RTCNonceMessage.
Proof. containers. Qed.
#[export] Instance token_request_exact : SerdeExact RTCTokenRequest.
Proof. done. Qed.
#[export] Instance token_request_container : SerdeContainer RTCTokenRequest.
Proof. containers. Qed.
#[export] Instance pin_message_exact : SerdeExact RTCPinMessage.
Proof. done. Qed.
#[export] Instance pin_message_container : SerdeContainer RTCPinMessage.
Proof. containers. Qed.
#[export] Instance nonce_request_exact : SerdeExact NonceRequest.
Proof. done. Qed.
#[export] Instance nonce_request_container : SerdeContainer NonceRequest.
Proof. containers. Qed.
#[export] Instance nonce_response_exact : SerdeExact NonceResponse.
Proof. done. Qed.
#[export] Instance nonce_response_container : SerdeContainer NonceResponse.
Proof. containers. Qed.
#[export] Instance error_response_exact : SerdeExact ErrorResponse.
Proof. done. Qed.
#[export] Instance error_response_container : SerdeContainer ErrorResponse.
Proof. containers. Qed.

#[export] Instance token_response_exact : SerdeExact RTCTokenResponse.
Proof.
  intros x Hx. change (forallb (λ m, json_exact m.2) (token_response_members x) = true). unfold token_response_members.
  destruct x; exact_members.
Qed.
#[export] Instance token_response_container : SerdeContainer RTCTokenResponse.
Proof. containers. Qed.

#[export] Instance pin_receiving_exact : SerdeExact RTCPinReceivingResponse.
Proof.
  intros x Hx. change (forallb (λ m, json_exact m.2) (pin_receiving_members x) = true). unfold pin_receiving_members.
  destruct x; exact_members.
Qed.
#[export] Instance pin_receiving_container : SerdeContainer RTCPinReceivingResponse.
Proof. containers. Qed.

#[export] Instance file_list_exact : SerdeExact RTCFileListResponse.
Proof.
  intros x Hx. change (forallb (λ m, json_exact m.2) (file_list_members x) = true). unfold file_list_members.
  destruct x as [files| | |]; exact_members.
Qed.
#[export] Instance file_list_container : SerdeContainer RTCFileListResponse.
Proof. containers. Qed.

#[export] Instance pair_exact : SerdeExact RTCPairResponse.
Proof.
  intros x Hx. change (forallb (λ m, json_exact m.2) (pair_members x) = true). unfold pair_members.
  destruct x; exact_members.
Qed.
#[export] Instance pair_container : SerdeContainer RTCPairResponse.
Proof. containers. Qed.

#[export] Instance file_header_exact : SerdeExact RTCSendFileHeaderRequest.
Proof.
  intros x Hx. change (forallb (λ m, json_exact m.2) (file_header_members x) = true). unfold file_header_members.
  exact_members.
Qed.
#[export] Instance file_header_container : SerdeContainer RTCSendFileHeaderRequest.
Proof. containers. Qed.

#[export] Instance file_response_exact : SerdeExact RTCSendFileResponse.
Proof.
  intros x Hx. change (forallb (λ m, json_exact m.2) (file_response_members x) = true). unfold file_response_members.
  exact_members.
Qed.
#[export] Instance file_response_container : SerdeContainer RTCSendFileResponse.
Proof. containers. Qed.

#[export] Instance register_response_exact : SerdeExact RegisterResponseDto.
Proof.
  intros x Hx. change (forallb (λ m, json_exact m.2) (register_response_members x) = true). unfold register_response_members.
  exact_members.
Qed.
#[export] Instance register_response_container : SerdeContainer RegisterResponseDto.
Proof. containers. Qed.

#[export] Instance prepare_upload_response_exact : SerdeExact PrepareUploadResponseDto.
Proof.
  intros x Hx. change (forallb (λ m, json_exact m.2) (prepare_upload_response_members x) = true). unfold prepare_upload_response_members.
  exact_members.
Qed.
#[export] Instance prepare_upload_response_container : SerdeContainer PrepareUploadResponseDto.
Proof. containers. Qed.

