(* ===== verification/JsonTests.v ===== *)
(** * What the documents guarantee, and the tests of the encoding

    The theorems about the documents of [JsonMessages] and [JsonTransfer], and
    the tests of [core/src/webrtc/signaling.rs] and [core/src/webrtc/webrtc.rs]
    that compare a message with its text. *)

From stdpp Require Import countable.
From S2P Require Import Prelude Serde Json Signaling Instances RtcTypes HttpTypes.
From S2P Require Import JsonMessages JsonTransfer JsonText.

(** ** The tests *)

(** A test encodes a message, compares the text with the expected one, and
    decodes it again. *)
Definition encoding_test {T} `{JsonText, Serde T, EqDecision T} (message : T) (expected : string)
    : res () () :=
  let encoded := json_pretty (to_value message) in
  if decide (encoded = expected) then
    match v ← json_parse (as_bytes encoded); from_value v with
    | Some decoded => if decide (message = decoded) then Ok () else Panic "assertion failed"
    | None => Panic "called `Result::unwrap()` on an `Err` value"
    end
  else Panic "assertion failed".

Definition nil_uuid_text : string := "00000000-0000-0000-0000-000000000000".

(** [ws_server_hello_message_encoding]: the message and the document whose text
    it expects. *)
Definition hello_message : WsServerMessage :=
  Hello (mk_ClientInfo 0 "Cute Apple" "2.3" (Some "Dell") (Some Desktop) "123") [].

Definition hello_expected : Json :=
  JObject [("type", JString "HELLO");
           ("client", JObject [("id", JString nil_uuid_text); ("alias", JString "Cute Apple");
                               ("version", JString "2.3"); ("deviceModel", JString "Dell");
                               ("deviceType", JString "desktop"); ("token", JString "123")]);
           ("peers", JArray [])].

(** [ws_server_offer_message_encoding]. *)
Definition offer_message : WsServerMessage :=
  Offer (mk_WsServerSdpMessage (mk_ClientInfo 0 "Cute Apple" "2.3" None (Some Desktop) "123") "456" "my-sdp").

Definition offer_expected : Json :=
  JObject [("type", JString "OFFER");
           ("peer", JObject [("id", JString nil_uuid_text); ("alias", JString "Cute Apple");
                             ("version", JString "2.3"); ("deviceType", JString "desktop");
                             ("token", JString "123")]);
           ("sessionId", JString "456"); ("sdp", JString "my-sdp")].

(** [ws_client_update_message_encoding]. *)
Definition update_message : WsClientMessage :=
  CUpdate (mk_ClientInfoWithoutId "Cute Apple" "2.3" (Some "Dell") (Some Desktop) "123").

Definition update_expected : Json :=
  JObject [("type", JString "UPDATE");
           ("info", JObject [("alias", JString "Cute Apple"); ("version", JString "2.3");
                             ("deviceModel", JString "Dell"); ("deviceType", JString "desktop");
                             ("token", JString "123")])].

(** [rtc_file_list_response_encoding]. *)
Definition pair_message : RTCFileListResponse := FileListPair "123".

Definition pair_expected : Json := JObject [("status", JString "PAIR"); ("publicKey", JString "123")].

#[export] Instance RTCFileListResponse_eq_dec : EqDecision RTCFileListResponse.
Proof. solve_decision. Defined.

(** ** Reading documents *)

Section documents.
Context `{UuidTextLaws}.

(** C5. The document of a message is read as that message, in whatever order
    its members come and whatever members of other names are among them: the
    messages of the signaling server and of its clients, of a transfer, and of
    the HTTP API, as long as their integers fit their width. *)
Theorem documents_read_back :
  (reads_back ClientInfo ∧ reads_back ClientInfoWithoutId ∧ reads_back WsServerMessage ∧
   reads_back WsClientMessage) ∧
  (reads_back FileDto ∧ reads_back RTCNonceMessage ∧ reads_back RTCTokenRequest ∧
   reads_back RTCTokenResponse ∧ reads_back RTCPinMessage ∧ reads_back RTCPinReceivingResponse ∧
   reads_back RTCPinSendingResponse ∧ reads_back RTCFileListResponse ∧ reads_back RTCPairResponse ∧
   reads_back RTCSendFileHeaderRequest ∧ reads_back RTCSendFileResponse) ∧
  (reads_back NonceRequest ∧ reads_back NonceResponse ∧ reads_back ErrorResponse ∧
   reads_back RegisterDto ∧ reads_back RegisterResponseDto ∧ reads_back PrepareUploadRequestDto ∧
   reads_back PrepareUploadResponseDto).
Proof. split_and!; apply members_read_back. Qed.

Context `{JsonTextLaws}.

(** The derived codecs meet the interface that the rest of the development
    asks of [serde_json]. *)
Theorem derived_codecs_meet_interface :
  @SerdeJsonLaws ClientInfoWithoutId (serde_json _) ∧ @SerdeJsonLaws WsClientMessage (serde_json _) ∧
  @SerdeJsonLaws RTCNonceMessage (serde_json _) ∧ @SerdeJsonLaws RTCTokenRequest (serde_json _) ∧
  @SerdeJsonLaws RTCTokenResponse (serde_json _) ∧ @SerdeJsonLaws RTCPinMessage (serde_json _) ∧
  @SerdeJsonLaws RTCPinReceivingResponse (serde_json _) ∧
  @SerdeJsonLaws RTCFileListResponse (serde_json _) ∧ @SerdeJsonLaws RTCPairResponse (serde_json _) ∧
  @SerdeJsonLaws RTCSendFileHeaderRequest (serde_json _) ∧
  @SerdeJsonLaws RTCSendFileResponse (serde_json _) ∧ @SerdeJsonLaws NonceRequest (serde_json _) ∧
  @SerdeJsonLaws NonceResponse (serde_json _) ∧ @SerdeJsonLaws ErrorResponse (serde_json _) ∧
  @SerdeJsonLaws RegisterResponseDto (serde_json _) ∧
  @SerdeJsonLaws PrepareUploadResponseDto (serde_json _).
Proof. split_and!; refine (serde_json_laws _ _); intros x; exact I. Qed.

(** A test passes when the message is exactly what it expects. *)
Lemma encoding_test_panics {T} `{Serde T, EqDecision T} (message : T) expected :
  json_exact (to_value message) = true → json_exact expected = true → to_value message ≠ expected →
  is_panic (encoding_test message (json_pretty expected)).
Proof.
  intros Hm He Hne. unfold encoding_test. rewrite decide_False; [by eexists|].
  intros Heq. apply Hne, (inj Some). rewrite <- (json_parse_pretty _ Hm), Heq. by apply json_parse_pretty.
Qed.

Lemma encoding_test_passes {T} `{SerdeLaws T, EqDecision T} (message : T) :
  json_exact (to_value message) = true → serde_valid message →
  encoding_test message (json_pretty (to_value message)) = Ok ().
Proof.
  intros Hm Hv. unfold encoding_test. rewrite decide_True, json_parse_pretty by done. simpl.
  rewrite from_to_value by done. by rewrite decide_True.
Qed.

(** C32. The tests of the encoding: the three of [signaling.rs] expect
    [desktop] for the type of the device and panic, since [DeviceType] is
    written in capitals, and a document with [desktop] is not read at all; the
    one of [webrtc.rs] passes. *)
Theorem encoding_tests_panic :
  is_panic (encoding_test hello_message (json_pretty hello_expected)) ∧
  is_panic (encoding_test offer_message (json_pretty offer_expected)) ∧
  is_panic (encoding_test update_message (json_pretty update_expected)) ∧
  from_value (T:=WsServerMessage) hello_expected = None ∧
  from_value (T:=WsServerMessage) offer_expected = None ∧
  from_value (T:=WsClientMessage) update_expected = None ∧
  encoding_test pair_message (json_pretty pair_expected) = Ok ().
Proof.
  pose proof (uuid_parse_text 0) as Hnil. rewrite uuid_text_nil in Hnil.
  split_and!.
  - apply encoding_test_panics; [done..|]. intros Heq. vm_compute in Heq. congruence.
  - apply encoding_test_panics; [done..|]. intros Heq. vm_compute in Heq. congruence.
  - apply encoding_test_panics; [done..|]. intros Heq. vm_compute in Heq. congruence.
  - vm_compute in Hnil |- *. by rewrite Hnil.
  - vm_compute in Hnil |- *. by rewrite Hnil.
  - reflexivity.
  - change pair_expected with (to_value pair_message). by apply encoding_test_passes.
Qed.
End documents.

(** ** A printer and a parser *)

Fixpoint json_tree (v : Json) : gen_tree (bool * Z * string) :=
  match v with
  | JNull => GenNode 0 []
  | JBool b => GenLeaf (b, 0%Z, "")
  | JNumber z => GenNode 1 [GenLeaf (true, z, "")]
  | JFloat s => GenNode 2 [GenLeaf (true, 0%Z, s)]
  | JString s => GenNode 3 [GenLeaf (true, 0%Z, s)]
  | JArray l => GenNode 4 (json_tree <$> l)
  | JObject ms => GenNode 5 ((λ m, GenNode 6 [GenLeaf (true, 0%Z, m.1); json_tree m.2]) <$> ms)
  end.

Fixpoint tree_json (t : gen_tree (bool * Z * string)) : Json :=
  match t with
  | GenLeaf (b, _, _) => JBool b
  | GenNode 1 [GenLeaf (_, z, _)] => JNumber z
  | GenNode 2 [GenLeaf (_, _, s)] => JFloat s
  | GenNode 3 [GenLeaf (_, _, s)] => JString s
  | GenNode 4 l => JArray (tree_json <$> l)
  | GenNode 5 l =>
      JObject (omap (λ t, match t with
                          | GenNode _ [GenLeaf (_, _, k); t] => Some (k, tree_json t)
                          | _ => None end) l)
  | _ => JNull
  end.

Lemma tree_json_tree : ∀ v : Json, tree_json (json_tree v) = v.
Proof.
  fix tree_json_tree 1. intros v. destruct v as [|b|z|s|s|l|ms]; simpl; try done; f_equal.
  - induction l as [|v l IH]; [done|]. simpl. f_equal; [apply tree_json_tree|exact IH].
  - induction ms as [|[k v] ms IH]; [done|]. simpl. f_equal; [f_equal; apply tree_json_tree|exact IH].
Qed.

#[export] Instance json_eq_dec : EqDecision Json.
Proof.
  refine (λ v w, cast_if (decide (json_tree v = json_tree w))); [|by intros ->].
  by rewrite <- (tree_json_tree v), <- (tree_json_tree w), e.
Defined.
#[export] Instance json_countable : Countable Json := inj_countable' json_tree tree_json tree_json_tree.

(** A document between braces, and the text of the nil UUID. *)
#[export] Instance digits_text : JsonText := {|
  json_print := @to_json _ countable_json;
  json_pretty := @to_json _ countable_json;
  json_parse := @from_json _ countable_json
|}.

#[export] Instance digits_text_laws : JsonTextLaws.
Proof.
  pose proof (countable_json_laws (T:=Json)) as Hlaws. split; simpl.
  - intros v _. apply (@from_to_json _ _ Hlaws).
  - intros v _. apply (@from_to_json _ _ Hlaws).
  - intros v _. apply (@to_json_utf8 _ _ Hlaws).
  - intros b v Hb _. by apply (@from_json_object _ _ Hlaws b v).
Qed.

#[export] Instance digits_uuid : UuidText := {|
  uuid_text id := if decide (id = 0%N) then nil_uuid_text else from_bytes (write_digits (encode id));
  uuid_parse t := if decide (t = nil_uuid_text) then Some 0%N else read_digits (as_bytes t) ≫= decode
|}.

#[export] Instance digits_uuid_laws : UuidTextLaws.
Proof.
  split; [|done]. intros id. simpl. destruct (decide (id = 0%N)) as [->|Hid].
  { by rewrite decide_True. }
  rewrite decide_False.
  - rewrite as_from_bytes, read_write_digits. simpl. apply decode_encode.
  - intros Heq. pose proof (read_write_digits (encode id)) as Hread.
    rewrite <- (as_from_bytes (write_digits _)), Heq in Hread. done.
Qed.

(** The members of an offer in another order, with one that nobody knows. *)
Definition shuffled_offer : members :=
  [("sdp", JString "v=0"); ("hint", JNull); ("sessionId", JString "s"); ("type", JString "OFFER");
   ("target", JString nil_uuid_text)].

Lemma documents_read_back_witness :
  from_value (JObject shuffled_offer) = Some (COffer (mk_WsClientSdpMessage "s" 0 "v=0")).
Proof.
  destruct documents_read_back as [(_ & _ & _ & Hread) _].
  apply (Hread (COffer (mk_WsClientSdpMessage "s" 0 "v=0")) shuffled_offer [("hint", JNull)]).
  - exact I.
  - apply (bool_decide_unpack _). vm_compute. exact I.
  - apply (bool_decide_unpack _). vm_compute. exact I.
  - intros name Hname. apply (bool_decide_unpack _).
    repeat (apply elem_of_cons in Hname as [->|Hname]; [vm_compute; exact I|]).
    by apply not_elem_of_nil in Hname.
Defined.

Lemma encoding_tests_panic_witness :
  is_panic (encoding_test hello_message (json_pretty hello_expected)).
Proof. exact (proj1 encoding_tests_panic). Defined.

Lemma derived_codecs_meet_interface_witness : @SerdeJsonLaws WsClientMessage (serde_json _).
Proof. exact (proj1 (proj2 derived_codecs_meet_interface)). Defined.
