(* ===== verification/HttpServer.v ===== *)
(** * The HTTP server

    [core/src/http/server/{mod,error,response,collect_to_json}.rs] and
    [core/src/http/server/controller/{v2,v3,web}.rs]: who a connection belongs
    to, the routes, the handlers and the responses.  [hyper] and [rustls] do
    the I/O: a request is its method, its path and its collected body.

    A handler holds the locks it takes until it returns, and takes the two
    nonce maps in one order, so a whole handler is one step on [AppState]. *)

From S2P Require Import Prelude Net Serde Crypto HttpTypes.

(** [WebPageState] is a unit struct. *)
Inductive WebPageState := mk_WebPageState.

(** The [Arc<Mutex<..>>] fields are shared by all requests: the state is
    threaded through the requests in the order their locks are taken. *)
Record AppState `{LruCache} := mk_AppState {
  as_info : HttpClientInfo;
  as_web : option WebPageState;
  as_received : lru;
  as_generated : lru
}.

(** [AppState::new]. *)
Definition app_state_new `{LruCache} (info : HttpClientInfo) : AppState := {|
  as_info := info;
  as_web := None;
  as_received := lru_new NONCE_MAP_CAPACITY;
  as_generated := lru_new NONCE_MAP_CAPACITY
|}.

(** ** Who sends a request *)

Record RequestClientInfo := mk_RequestClientInfo {
  rc_ip : IpAddr;
  rc_cert : option bytes
}.

(** The connections [start_server_with_addr] serves: after a TLS handshake,
    with what [peer_certificates] returns, or in plain text. *)
Inductive Connection :=
| PlainConnection (remote_addr : IpAddr)
| TlsConnection (remote_addr : IpAddr) (peer_certificates : option (list bytes)).

Definition connection_client_info (c : Connection) : anyres RequestClientInfo :=
  match c with
  | TlsConnection remote_addr (Some certs) =>
      match certs !! 0 with
      | Some cert => Ok (mk_RequestClientInfo remote_addr (Some cert))
      | None => Panic "called `Option::unwrap()` on a `None` value"
      end
  | TlsConnection remote_addr None => Ok (mk_RequestClientInfo remote_addr None)
  | PlainConnection remote_addr => Ok (mk_RequestClientInfo remote_addr None)
  end.

Section identifier.
Context `{X509}.

Definition extract_public_key (c : RequestClientInfo) : option string :=
  match rc_cert c with
  | Some cert =>
      match public_key_from_cert_der cert with
      | Ok public_key => Some public_key
      | _ => None
      end
  | None => None
  end.

Definition identifier (c : RequestClientInfo) : string :=
  default (ip_to_string (rc_ip c)) (extract_public_key c).
End identifier.

(** ** Requests and responses *)

Inductive Method := GET | POST | OtherMethod (name : string).

#[export] Instance Method_eq_dec : EqDecision Method.
Proof. solve_decision. Defined.

(** [rq_has_state] and [rq_client_info] are the two extensions of the request;
    [rq_body] is what [collect] gives. *)
Record Request := mk_Request {
  rq_method : Method;
  rq_path : string;
  rq_has_state : bool;
  rq_client_info : option RequestClientInfo;
  rq_body : option bytes
}.

Record Response := mk_Response {
  rs_status : Z;
  rs_content_type : option string;
  rs_body : string
}.

Definition OK : Z := 200.
Definition BAD_REQUEST : Z := 400.
Definition NOT_FOUND : Z := 404.
Definition INTERNAL_SERVER_ERROR : Z := 500.

(** [JsonResponse<T>]. *)
Record JsonResponse (T : Type) := mk_JsonResponse { jr_status : Z; jr_body : T }.
Arguments mk_JsonResponse {T} _ _.
Arguments jr_status {T} _.
Arguments jr_body {T} _.

(** [JsonResponse::into_response]: the types written here always serialise. *)
Definition into_response {T} `{SerdeJson T} (r : JsonResponse T) : Response :=
  mk_Response (jr_status r) (Some "application/json") (to_json (jr_body r)).

(** [enum AppError]. *)
Inductive AppError :=
| HyperError
| StatusError (code : Z)
| BadRequest (message : string).

Section server.
Context `{HttpCodec, Base64, X509, LruCache}.

Definition to_response (e : AppError) : Response :=
  match e with
  | HyperError =>
      into_response (mk_JsonResponse INTERNAL_SERVER_ERROR
                       (mk_ErrorResponse "Internal server error"))
  | StatusError code =>
      into_response (mk_JsonResponse code
                       (mk_ErrorResponse ("Status code: " +:+ status_display code)))
  | BadRequest message =>
      into_response (mk_JsonResponse BAD_REQUEST (mk_ErrorResponse message))
  end.

(** [CollectToJson::collect_to_json]. *)
Definition collect_to_json {T} `{SerdeJson T} (body : option bytes) : res AppError T :=
  let? b := ok_or body HyperError in
  ok_or (from_json b) (BadRequest "Invalid JSON body").

(** ** Handlers *)

(** [v3::nonce_exchange]; [new_nonce] is the result of [generate_nonce]. *)
Definition nonce_exchange (new_nonce : bytes) (body : option bytes) (state : AppState)
    (client_info : RequestClientInfo) : res AppError (JsonResponse NonceResponse) * AppState :=
  let checked :=
    let? payload := collect_to_json (T:=NonceRequest) body in
    let? nonce := ok_or (b64_decode (nq_nonce payload)) (BadRequest "Invalid nonce format") in
    if negb (validate_nonce nonce) then Err (BadRequest "Invalid nonce") else Ok nonce in
  match checked with
  | Ok nonce =>
      let remote_key := identifier client_info in
      (Ok (mk_JsonResponse OK (mk_NonceResponse (b64_encode new_nonce))),
       {| as_info := as_info state;
          as_web := as_web state;
          as_received := lru_put remote_key nonce (as_received state);
          as_generated := lru_put remote_key new_nonce (as_generated state) |})
  | Err e => (Err e, state)
  | Panic m => (Panic m, state)
  end.

(** [v2::register]. *)
Definition register_v2 (body : option bytes) (state : AppState)
    (client_info : RequestClientInfo) : res AppError (JsonResponse RegisterResponseDto) :=
  let? payload := collect_to_json (T:=RegisterDto) body in
  let info := as_info state in
  let has_web_interface := bool_decide (is_Some (as_web state)) in
  Ok (mk_JsonResponse OK
        {| rr_alias := hi_alias info;
           rr_version := hi_version info;
           rr_device_model := hi_device_model info;
           rr_device_type := hi_device_type info;
           rr_token := hi_token info;
           rr_has_web_interface := has_web_interface |}).

(** [v3::register]. *)
Definition register_v3 (body : option bytes) (state : AppState)
    (client_info : RequestClientInfo) : res AppError (JsonResponse RegisterResponseDto) :=
  let? payload := collect_to_json (T:=RegisterDto) body in
  let info := as_info state in
  let has_web_interface := bool_decide (is_Some (as_web state)) in
  Ok (mk_JsonResponse OK
        {| rr_alias := hi_alias info;
           rr_version := hi_version info;
           rr_device_model := hi_device_model info;
           rr_device_type := hi_device_type info;
           rr_token := hi_token info;
           rr_has_web_interface := has_web_interface |}).

(** ** Routes *)

(** A handler that does not change the state. *)
Definition respond {T} `{SerdeJson T} (r : res AppError (JsonResponse T)) (state : AppState)
    : res AppError Response * AppState :=
  (let? r := r in Ok (into_response r), state).

Definition handle_request_inner (legacy_enabled : bool) (new_nonce : bytes) (req : Request)
    (state : AppState) : res AppError Response * AppState :=
  if negb (rq_has_state req) then (Err (StatusError INTERNAL_SERVER_ERROR), state)
  else match rq_client_info req with
  | None => (Err (StatusError INTERNAL_SERVER_ERROR), state)
  | Some client_info =>
      match rq_method req with
      | POST =>
          if decide (rq_path req = "/api/localsend/v2/register") then
            if negb legacy_enabled then (Err (StatusError NOT_FOUND), state)
            else respond (register_v2 (rq_body req) state client_info) state
          else if decide (rq_path req = "/api/localsend/v2/prepare-upload") then
            if negb legacy_enabled then (Err (StatusError NOT_FOUND), state)
            else respond (register_v2 (rq_body req) state client_info) state
          else if decide (rq_path req = "/api/localsend/v2/upload") then
            if negb legacy_enabled then (Err (StatusError NOT_FOUND), state)
            else respond (register_v2 (rq_body req) state client_info) state
          else if decide (rq_path req = "/api/localsend/v2/cancel") then
            if negb legacy_enabled then (Err (StatusError NOT_FOUND), state)
            else respond (register_v2 (rq_body req) state client_info) state
          else if decide (rq_path req = "/api/localsend/v3/nonce") then
            let '(r, state) := nonce_exchange new_nonce (rq_body req) state client_info in
            respond r state
          else if decide (rq_path req = "/api/localsend/v3/register") then
            respond (register_v3 (rq_body req) state client_info) state
          else (Ok (mk_Response NOT_FOUND None ""), state)
      | _ => (Ok (mk_Response NOT_FOUND None ""), state)
      end
  end.

(** [handle_request]: the result is a response, never a [hyper::Error]. *)
Definition handle_request (legacy_enabled : bool) (new_nonce : bytes) (req : Request)
    (state : AppState) : res AppError Response * AppState :=
  let '(r, state) := handle_request_inner legacy_enabled new_nonce req state in
  (match r with
   | Ok response => Ok response
   | Err err => Ok (to_response err)
   | Panic m => Panic m
   end, state).

(** The service of a connection ([service_fn]): the request gets its two
    extensions and is handled. *)
Definition serve (c : Connection) (legacy_enabled : bool) (new_nonce : bytes)
    (method : Method) (path : string) (body : option bytes) (state : AppState)
    : res AppError Response * AppState :=
  match connection_client_info c with
  | Ok client_info =>
      handle_request legacy_enabled new_nonce
        (mk_Request method path true (Some client_info) body) state
  | Err e => (Panic e, state)
  | Panic m => (Panic m, state)
  end.
End server.
