(* ===== verification/HttpClient.v ===== *)
(** * The HTTP client

    [core/src/http/client/mod.rs].  [reqwest] is the argument [post]: it sends
    a body to a URL and returns what came back, and changes the state [St] of
    the world outside the client (the server of the concrete runs). *)

From S2P Require Import Prelude Net Serde Crypto RtcTypes HttpTypes.

Definition BASE_PATH : string := "/api/localsend/v3".

(** What the client reads of a [reqwest::Response]: the extension [TlsInfo]
    with its certificate, and the collected body. *)
Record ClientResponse := mk_ClientResponse {
  cr_status : Z;
  cr_remote_addr : option IpAddr;
  cr_tls_info : option (option bytes);
  cr_body : anyres bytes
}.

(** [Response::text]: the body decoded by its charset. *)
Class ReqwestText := { decode_text : bytes → string }.

Class ReqwestTextLaws `{ReqwestText} := {
  decode_text_utf8 b : utf8_valid b = true → decode_text b = from_bytes b
}.

Record RegisterResult := mk_RegisterResult {
  rg_public_key : option string;
  rg_body : RegisterResponseDto
}.

(** The nonce maps of [LsHttpClient]; both locks are held to the end of
    [nonce]. *)
Record LsHttpClient `{LruCache} := mk_LsHttpClient {
  hc_received : lru;
  hc_generated : lru
}.

(** The maps of a new client. *)
Definition new_client `{LruCache} : LsHttpClient := {|
  hc_received := lru_new NONCE_MAP_CAPACITY;
  hc_generated := lru_new NONCE_MAP_CAPACITY
|}.

(** [LsHttpClient::try_new]: the [reqwest::Client] it builds, which sends the
    requests, and the maps.  The client presents the certificate and accepts
    any certificate of a server. *)
Definition try_new `{LruCache} {Identity Client : Type}
    (identity_from_pem : bytes → anyres Identity) (build : Identity → anyres Client)
    (private_key cert : string) : anyres (Client * LsHttpClient) :=
  let pem := as_bytes cert ++ [Byte.x0a] ++ as_bytes private_key in
  let? identity := identity_from_pem pem in
  let? client := build identity in
  Ok (client, new_client).

(** The URL of every request but the one for a nonce. *)
Definition endpoint_url (protocol : ProtocolType) (ip : string) (port : Z) (path : string)
    : string :=
  protocol_as_str protocol +:+ "://" +:+ ip +:+ ":" +:+ show_dec port +:+ BASE_PATH +:+ path.

Section client.
Context `{HttpCodec, Base64, X509, LruCache, ReqwestText} {St : Type}.
Variable post : St → string → bytes → anyres ClientResponse * St.

(** [response.json::<T>().await?]. *)
Definition response_json {T} `{SerdeJson T} (r : ClientResponse) : res HttpError T :=
  let? b := other (cr_body r) in
  ok_or (from_json b) (OtherError "serde_json").

Definition status_code_error_from_res (response : ClientResponse) : res HttpError HttpError :=
  let status := cr_status response in
  let? b := other (cr_body response) in
  let body := decode_text b in
  let body := match from_json (T:=ErrorResponse) (as_bytes body) with
              | Some error => er_message error
              | None => body
              end in
  Ok (StatusCodeError status (if decide (body = "") then None else Some body)).

(** [return Err(status_code_error_from_res(res).await?)]. *)
Definition fail_with_status {A} (response : ClientResponse) : res HttpError A :=
  let? e := status_code_error_from_res response in Err e.

(** [verify_cert_from_res]: the certificate of the connection against the
    given key, or against its own. *)
Definition verify_cert_from_res (response : ClientResponse) (public_key : option string)
    : anyres string :=
  let? tls_info_ext := ok_or (cr_tls_info response) "TLS info not found" in
  let? cert := ok_or tls_info_ext "Certificate not found" in
  let? public_key := match public_key with
                     | Some public_key => Ok public_key
                     | None => public_key_from_cert_der cert
                     end in
  check? verify_cert_from_der cert (Some public_key) in
  Ok public_key.

Definition to_identifier (response : ClientResponse) (require_cert : bool)
    (public_key : option string) : anyres string :=
  if require_cert then verify_cert_from_res response public_key
  else ok_or (ip_to_string <$> cr_remote_addr response)
             "Remote address not found in response".

(** What [nonce] does with the response to [generated_nonce]: the identifier
    of the server, its nonce, and the text of it. *)
Definition nonce_response (protocol : ProtocolType) (r : ClientResponse)
    : res HttpError (string * bytes * string) :=
  if decide (cr_status r ≠ 200%Z) then fail_with_status r
  else
    let? remote_key := other (to_identifier r (bool_decide (protocol = Https)) None) in
    let? body := response_json (T:=NonceResponse) r in
    let? response_nonce := other (ok_or (b64_decode (nr_nonce body)) "base64") in
    Ok (remote_key, response_nonce, nr_nonce body).

(** The [get(..).unwrap()] of the two debug messages, which evaluate their
    arguments when the level is enabled. *)
Definition debug_get (debug_enabled : bool) (key : string) (m : lru) : res HttpError lru :=
  if debug_enabled then
    match lru_get key m with
    | (Some _, m) => Ok m
    | (None, _) => Panic "called `Option::unwrap()` on a `None` value"
    end
  else Ok m.

(** [LsHttpClient::nonce]; [generated_nonce] is the result of
    [generate_nonce]. *)
Definition nonce (debug_enabled : bool) (generated_nonce : bytes) (protocol : ProtocolType)
    (ip : string) (port : Z) (c : LsHttpClient) (st : St)
    : res HttpError string * LsHttpClient * St :=
  let request_body := mk_NonceRequest (b64_encode generated_nonce) in
  let url := target_url_to_string (mk_TargetUrl ApiV3 protocol ip port "/nonce") in
  let '(r, st) := post st url (as_bytes (to_json request_body)) in
  match (let? response := other r in nonce_response protocol response) with
  | Err e => (Err e, c, st)
  | Panic m => (Panic m, c, st)
  | Ok (remote_key, response_nonce, text) =>
      let received := lru_put remote_key response_nonce (hc_received c) in
      let generated := lru_put remote_key generated_nonce (hc_generated c) in
      match debug_get debug_enabled remote_key received with
      | Ok received' =>
          match debug_get debug_enabled remote_key generated with
          | Ok generated' => (Ok text, mk_LsHttpClient _ received' generated', st)
          | Err e => (Err e, mk_LsHttpClient _ received' generated, st)
          | Panic m => (Panic m, mk_LsHttpClient _ received' generated, st)
          end
      | Err e => (Err e, mk_LsHttpClient _ received generated, st)
      | Panic m => (Panic m, mk_LsHttpClient _ received generated, st)
      end
  end.

(** [LsHttpClient::register]. *)
Definition register (protocol : ProtocolType) (ip : string) (port : Z) (payload : RegisterDto)
    (st : St) : res HttpError RegisterResult * St :=
  let '(r, st) := post st (endpoint_url protocol ip port "/register")
                       (as_bytes (to_json payload)) in
  (let? response := other r in
   let? public_key :=
     match protocol with
     | Https => let? k := other (verify_cert_from_res response None) in Ok (Some k)
     | Http => Ok None
     end in
   let? body := response_json (T:=RegisterResponseDto) response in
   Ok (mk_RegisterResult public_key body), st).

(** [LsHttpClient::prepare_upload]. *)
Definition prepare_upload (protocol : ProtocolType) (ip : string) (port : Z)
    (public_key : option string) (payload : PrepareUploadRequestDto) (st : St)
    : res HttpError PrepareUploadResponseDto * St :=
  let '(r, st) := post st (endpoint_url protocol ip port "/prepare-upload")
                       (as_bytes (to_json payload)) in
  (let? response := other r in
   check? (match public_key with
           | Some public_key => other (verify_cert_from_res response (Some public_key))
           | None => Ok ""
           end) in
   if decide (cr_status response ≠ 200%Z) then fail_with_status response
   else response_json (T:=PrepareUploadResponseDto) response, st).

Definition upload_path (session_id file_id token : string) : string :=
  "/upload?sessionId=" +:+ session_id +:+ "&fileId=" +:+ file_id +:+ "&token=" +:+ token.

(** [LsHttpClient::upload]; [binary] is what the channel of the file yields
    until it is closed. *)
Definition upload (protocol : ProtocolType) (ip : string) (port : Z)
    (session_id file_id token : string) (binary : list bytes) (st : St)
    : res HttpError () * St :=
  let '(r, st) := post st (endpoint_url protocol ip port (upload_path session_id file_id token))
                       (concat binary) in
  (let? response := other r in
   if decide (cr_status response ≠ 200%Z) then fail_with_status response else Ok (), st).

(** [LsHttpClient::cancel]: the status of the response is not looked at. *)
Definition cancel (protocol : ProtocolType) (ip : string) (port : Z) (session_id : string)
    (st : St) : res HttpError () * St :=
  let '(r, st) := post st (endpoint_url protocol ip port ("/cancel?sessionId=" +:+ session_id))
                       [] in
  (let? _ := other r in Ok (), st).
End client.
