(* ===== verification/Url.v ===== *)
(** * Reading URLs back

    A reference reader for the URLs the HTTP client prints
    ([core/src/http/client/url.rs] and the [format!] strings of
    [core/src/http/client/mod.rs]): scheme, authority with a bracketed IPv6
    literal, port, path and query, as RFC 3986 has them; and that it reads
    what [TargetUrl::to_string] prints. *)

From S2P Require Import Prelude Net HttpTypes HttpClient.

(** ** Splitting *)

(** [str::split_once] on a character. *)
Fixpoint split_once (c : ascii) (s : string) : option (string * string) :=
  match s with
  | EmptyString => None
  | String a s' =>
      if decide (a = c) then Some (EmptyString, s')
      else '(x, y) ← split_once c s'; Some (String a x, y)
  end.

Fixpoint strip_prefix (p s : string) : option string :=
  match p, s with
  | EmptyString, _ => Some s
  | String a p', String b s' => if decide (a = b) then strip_prefix p' s' else None
  | _, EmptyString => None
  end.

Record Url := mk_Url {
  url_protocol : ProtocolType;
  url_host : string;
  url_port : Z;
  url_path : string;
  url_query : option string
}.

Definition parse_port (s : string) : option Z := parse_unsigned u16_max s.

(** Host and port: the host in brackets, or free of colons. *)
Definition parse_authority (s : string) : option (string * Z) :=
  match s with
  | String "["%char s' =>
      '(host, rest) ← split_once "]" s';
      port ← strip_prefix ":" rest;
      p ← parse_port port;
      Some (host, p)
  | _ =>
      match str_split ":" s with
      | [host; port] => p ← parse_port port; Some (host, p)
      | _ => None
      end
  end.

Definition parse_scheme (s : string) : option (ProtocolType * string) :=
  match strip_prefix "http://" s with
  | Some r => Some (Http, r)
  | None => match strip_prefix "https://" s with Some r => Some (Https, r) | None => None end
  end.

Definition parse_url (s : string) : option Url :=
  '(protocol, rest) ← parse_scheme s;
  '(authority, path) ← split_once "/" rest;
  '(host, port) ← parse_authority authority;
  match split_once "?" path with
  | Some (p, q) => Some (mk_Url protocol host port ("/" +:+ p) (Some q))
  | None => Some (mk_Url protocol host port ("/" +:+ path) None)
  end.

Example parse_url_v4 :
  parse_url "https://10.0.0.1:53317/api?x=1" = Some (mk_Url Https "10.0.0.1" 53317 "/api" (Some "x=1")).
Proof. vm_compute. reflexivity. Qed.
Example parse_url_v6 :
  parse_url "http://[fe80::1]:80/a" = Some (mk_Url Http "fe80::1" 80 "/a" None).
Proof. vm_compute. reflexivity. Qed.

(** ** Lemmas *)

Lemma str_app_assoc s t u : (s +:+ t) +:+ u = s +:+ (t +:+ u).
Proof. induction s as [|a s IH]; simpl; [done|]. by change (String a ((s +:+ t) +:+ u) = String a (s +:+ (t +:+ u))); rewrite IH. Qed.

Lemma str_app_nil s : s +:+ "" = s.
Proof. induction s as [|a s IH]; [done|]. by change (String a (s +:+ "") = String a s); rewrite IH. Qed.

Lemma split_once_app c s t :
  str_contains c s = false → split_once c (s +:+ String c t) = Some (s, t).
Proof.
  induction s as [|a s IH]; simpl; [by rewrite decide_True|].
  case_decide; [done|]. intros Hs. rewrite IH by done. done.
Qed.

Lemma split_once_none c s : str_contains c s = false → split_once c s = None.
Proof.
  induction s as [|a s IH]; simpl; [done|]. case_decide; [done|].
  intros Hs. by rewrite IH.
Qed.

Lemma strip_prefix_app p s : strip_prefix p (p +:+ s) = Some s.
Proof. induction p as [|a p IH]; simpl; [by destruct s|]. by rewrite decide_True. Qed.

Lemma parse_scheme_app p s :
  parse_scheme (protocol_as_str p +:+ "://" +:+ s) = Some (p, s).
Proof. destruct p; by destruct s. Qed.

Lemma parse_digits_pretty (x : N) s :
  ∃ k, (0 < k)%Z ∧ ∀ acc,
    parse_digits acc (String.list_ascii_of_string (pretty_N_go x s)) =
    parse_digits (acc * k + Z.of_N x) (String.list_ascii_of_string s).
Proof.
  revert s. induction x as [x IH] using (well_founded_induction N.lt_wf_0). intros s.
  destruct (decide (x = 0)%N) as [->|Hx].
  { exists 1%Z. split; [lia|]. intros acc. rewrite pretty_N_go_0. f_equal. lia. }
  rewrite pretty_N_go_step by lia.
  destruct (IH (x `div` 10)%N ltac:(apply N.div_lt; lia)
              (String (pretty_N_char (x `mod` 10)) s)) as (k & Hk & IHk).
  exists (k * 10)%Z. split; [lia|]. intros acc. rewrite IHk. simpl.
  assert (Z.of_N (N_of_ascii (pretty_N_char (x `mod` 10))) - 48 = Z.of_N (x mod 10))%Z as ->.
  { pose proof (N.mod_lt x 10 ltac:(done)) as Hm. revert Hm. generalize (x mod 10)%N.
    intros d Hd. assert (d ∈ ([0;1;2;3;4;5;6;7;8;9] : list N)%N) as Hin by (rewrite !elem_of_cons; lia).
    repeat (apply elem_of_cons in Hin as [->|Hin]; [done|]). by apply elem_of_nil in Hin. }
  pose proof (N.mod_lt x 10 ltac:(done)) as Hr. pose proof (N.div_mod x 10 ltac:(done)) as Hx'.
  clear IH IHk. revert Hr Hx'. generalize (x mod 10)%N (x / 10)%N.
  intros r q Hr ->. rewrite decide_True by lia. f_equal. lia.
Qed.

Lemma pretty_N_go_nonempty x s : s ≠ "" → pretty_N_go x s ≠ "".
Proof.
  revert s. induction x as [x IH] using (well_founded_induction N.lt_wf_0). intros s Hs.
  destruct (decide (x = 0)%N) as [->|Hx]; [by rewrite pretty_N_go_0|].
  rewrite pretty_N_go_step by lia. apply IH; [apply N.div_lt; lia|done].
Qed.

Lemma show_dec_nonempty n : show_dec n ≠ "".
Proof.
  unfold show_dec, pretty, pretty_N. case_decide as Hn; [done|].
  rewrite pretty_N_go_step by lia. by apply pretty_N_go_nonempty.
Qed.

Lemma parse_unsigned_show max n : (0 ≤ n ≤ max)%Z → parse_unsigned max (show_dec n) = Some n.
Proof.
  intros Hn. unfold parse_unsigned.
  assert (parse_digits 0 (String.list_ascii_of_string (show_dec n)) = Some n) as Hd.
  { unfold show_dec, pretty, pretty_N. case_decide as Hz.
    - simpl. f_equal. lia.
    - destruct (parse_digits_pretty (Z.to_N n) "") as (k & _ & ->). simpl. f_equal. lia. }
  pose proof (show_dec_no_char "+" n ltac:(compute_done)) as Hplus.
  pose proof (show_dec_nonempty n). destruct (show_dec n) as [|a s]; [done|].
  simpl in Hplus. case_decide as Ha; [done|].
  assert (match String.list_ascii_of_string (String a s) with
          | "+"%char :: ((_ :: _) as s') => s' | _ => String.list_ascii_of_string (String a s) end
          = String.list_ascii_of_string (String a s)) as ->.
  { simpl. repeat (case_match; try done). }
  rewrite Hd. simpl. by rewrite decide_True by lia.
Qed.

(** *** Addresses *)

Definition ip_chars : list ascii :=
  ["0"; "1"; "2"; "3"; "4"; "5"; "6"; "7"; "8"; "9"; "a"; "b"; "c"; "d"; "e"; "f"; "."; ":"]%char.

Lemma str_join_no_char c sep ps :
  c ≠ sep → Forall (λ p, str_contains c p = false) ps → str_contains c (str_join sep ps) = false.
Proof.
  intros Hc Hps. induction Hps as [|p ps Hp Hps IH]; [done|].
  destruct ps as [|q ps]; [done|]. rewrite str_join_cons by done.
  rewrite str_contains_app, Hp. cbn [orb]. cbn [str_contains]. by rewrite decide_False.
Qed.

Lemma ipv4_to_string_no_char c a : c ∉ ip_chars → str_contains c (ipv4_to_string a) = false.
Proof.
  intros Hc. apply str_join_no_char; [intros ->; apply Hc; compute_done|].
  apply Forall_fmap, Forall_true. intros z. apply show_dec_no_char.
  intros H. apply Hc. unfold ip_chars. set_solver.
Qed.

Lemma show_groups_no_char c gs : c ∉ ip_chars → str_contains c (show_groups gs) = false.
Proof.
  intros Hc. apply str_join_no_char; [intros ->; apply Hc; compute_done|].
  apply Forall_fmap, Forall_true. intros z. apply show_hex_no_char.
  intros H. apply Hc. unfold ip_chars. set_solver.
Qed.

Lemma ip_to_string_no_char c a : c ∉ ip_chars → str_contains c (ip_to_string a) = false.
Proof.
  intros Hc. destruct a as [a|a]; simpl; [by apply ipv4_to_string_no_char|].
  assert (∀ s, Forall (.∈ ip_chars) (String.list_ascii_of_string s) → str_contains c s = false)
    as Hs.
  { intros s. induction s as [|x s IH]; simpl; [done|]. inversion 1; subst.
    rewrite decide_False by congruence. auto. }
  unfold ipv6_to_string. destruct (ipv4_mapped a).
  - rewrite str_contains_app, ipv4_to_string_no_char by done.
    rewrite orb_false_r. apply Hs. repeat constructor; compute_done.
  - destruct (longest_zeros _ _ _ _) as [start len].
    case_decide; [|by apply show_groups_no_char].
    rewrite !str_contains_app, !show_groups_no_char by done.
    rewrite orb_false_r. apply Hs. repeat constructor; compute_done.
Qed.

Lemma ipv4_to_string_no_colon a : str_contains ":" (ipv4_to_string a) = false.
Proof.
  apply str_join_no_char; [done|]. apply Forall_fmap, Forall_true. intros z.
  apply show_dec_no_char. compute_done.
Qed.

(** An IPv6 address is printed with two colons at least. *)
Lemma ipv6_to_string_split a : 3 ≤ length (str_split ":" (ipv6_to_string a)).
Proof.
  unfold ipv6_to_string. destruct (ipv4_mapped a).
  - change ("::ffff:" +:+ ?s) with ("" +:+ String ":" ("" +:+ String ":" ("ffff" +:+ String ":" s))).
    rewrite !str_split_app, !length_app.
    pose proof (str_split_nonempty ":" (ipv4_to_string i)).
    destruct (str_split ":" (ipv4_to_string i)); [done|]. simpl. lia.
  - destruct (longest_zeros _ _ _ _) as [start len]. case_decide.
    + change ("::" +:+ ?s) with (String ":" ("" +:+ String ":" s)).
      rewrite !str_split_app, !length_app.
      pose proof (str_split_nonempty ":" (show_groups (take start (segments a)))).
      pose proof (str_split_nonempty ":" (show_groups (drop (start + len) (segments a)))).
      destruct (str_split _ (show_groups (take _ _))); [done|].
      destruct (str_split _ (show_groups (drop _ _))); [done|]. simpl. lia.
    + unfold show_groups. rewrite str_split_join; [simpl; lia|done|].
      apply Forall_fmap, Forall_true. intros z. apply show_hex_no_char. compute_done.
Qed.

Lemma ipv6_to_string_colon a : str_contains ":" (ipv6_to_string a) = true.
Proof.
  destruct (str_contains ":" (ipv6_to_string a)) eqn:Hc; [done|].
  pose proof (ipv6_to_string_split a) as Hl. rewrite str_split_plain in Hl by done.
  simpl in Hl. lia.
Qed.

(** ** What the client prints is read back *)

(** Path and query of a URL whose path is [p]. *)
Definition url_at (protocol : ProtocolType) (host : string) (port : Z) (p : string) : Url :=
  match split_once "?" p with
  | Some (p, q) => mk_Url protocol host port ("/" +:+ p) (Some q)
  | None => mk_Url protocol host port ("/" +:+ p) None
  end.

Lemma parse_url_print protocol authority host port p :
  str_contains "/" authority = false → parse_authority authority = Some (host, port) →
  parse_url (protocol_as_str protocol +:+ "://" +:+ authority +:+ String "/" p) =
    Some (url_at protocol host port p).
Proof.
  intros Hslash Hauth. unfold parse_url. rewrite parse_scheme_app. simpl.
  rewrite split_once_app by done. simpl. rewrite Hauth. simpl.
  unfold url_at. by destruct (split_once "?" p) as [[??]|].
Qed.

Lemma parse_authority_plain host port :
  str_contains ":" host = false → str_contains "[" host = false → (0 ≤ port ≤ u16_max)%Z →
  parse_authority (host +:+ String ":" (show_dec port)) = Some (host, port).
Proof.
  intros Hc Hb Hp.
  assert (str_split ":" (host +:+ String ":" (show_dec port)) = [host; show_dec port]) as Hs.
  { rewrite str_split_cons by done. f_equal. apply str_split_plain.
    apply show_dec_no_char. compute_done. }
  assert (match str_split ":" (host +:+ String ":" (show_dec port)) with
          | [h; p] => q ← parse_port p; Some (h, q) | _ => None end = Some (host, port)) as Hr.
  { rewrite Hs. unfold parse_port. by rewrite parse_unsigned_show. }
  destruct host as [|a s]; [exact Hr|].
  simpl in Hb. case_decide; [done|].
  rewrite <- Hr. unfold parse_authority. simpl. repeat (case_match; try done).
Qed.

Lemma parse_authority_bracket host port :
  str_contains "]" host = false → (0 ≤ port ≤ u16_max)%Z →
  parse_authority (("[" +:+ host +:+ "]") +:+ String ":" (show_dec port)) = Some (host, port).
Proof.
  intros Hc Hp. rewrite !str_app_assoc. simpl.
  change ("" +:+ host +:+ "]" +:+ ?s) with (host +:+ String "]" s).
  rewrite split_once_app by done. simpl. unfold parse_port. by rewrite parse_unsigned_show.
Qed.

(** A bare host with colons of its own has no authority. *)
Lemma parse_authority_colons host port :
  str_contains "[" host = false → 3 ≤ length (str_split ":" host) →
  parse_authority (host +:+ String ":" port) = None.
Proof.
  intros Hb Hlen.
  assert (3 < length (str_split ":" (host +:+ String ":" port))) as Hl.
  { rewrite str_split_app, length_app. pose proof (str_split_nonempty ":" port).
    destruct (str_split ":" port); [done|]. simpl. lia. }
  assert (match str_split ":" (host +:+ String ":" port) with
          | [h; p] => q ← parse_port p; Some (h, q) | _ => None end = None) as Hr.
  { destruct (str_split ":" (host +:+ String ":" port)) as [|? [|? [|? ?]]];
      simpl in Hl; (lia || done). }
  destruct host as [|a s]; [exact Hr|].
  simpl in Hb. case_decide; [done|].
  rewrite <- Hr. unfold parse_authority. simpl. repeat (case_match; try done).
Qed.

Lemma split_once_prefix c a s :
  str_contains c a = false →
  split_once c (a +:+ s) = '(x, y) ← split_once c s; Some (a +:+ x, y).
Proof.
  induction a as [|b a IH]; simpl; [by destruct (split_once c s) as [[x y]|] eqn:Hs; simpl; rewrite ?Hs|].
  case_decide; [done|]. intros Ha. rewrite IH by done.
  by destruct (split_once c s) as [[]|].
Qed.

(** The path of a request to the v3 API, without its query. *)
Lemma url_at_path protocol host port p q :
  str_contains "?" p = false → q = "" ∨ (∃ s, q = String "?" s) →
  url_path (url_at protocol host port ("api/localsend/v3/" +:+ (p +:+ q))) =
    "/api/localsend/v3/" +:+ p.
Proof.
  intros Hp Hq. unfold url_at. rewrite split_once_prefix by done.
  destruct Hq as [->|[s ->]].
  - rewrite str_app_nil. by rewrite split_once_none.
  - by rewrite split_once_app.
Qed.

(** Hosts as the client gets them: no character that has a meaning in an
    authority, colons apart. *)
Definition host_ok (host : string) : Prop :=
  str_contains "/" host = false ∧ str_contains "[" host = false ∧ str_contains "]" host = false.

#[export] Instance host_ok_dec host : Decision (host_ok host).
Proof. unfold host_ok. apply _. Defined.

Lemma ip_host_ok ip : host_ok (ip_to_string ip).
Proof. split_and!; apply ip_to_string_no_char; compute_done. Qed.

Lemma target_url_parse u p :
  host_ok (tu_host u) → (0 ≤ tu_port u ≤ u16_max)%Z → tu_path u = "/" +:+ p →
  parse_url (target_url_to_string u) =
    Some (url_at (tu_protocol u) (tu_host u) (tu_port u)
            ("api/localsend/" +:+ match tu_version u with ApiV2 => "v2" | ApiV3 => "v3" end +:+
             String "/" p)).
Proof.
  intros (Hs & Ho & Hc) Hp Hpath.
  unfold target_url_to_string. rewrite Hpath.
  pose proof (show_dec_no_char "/" (tu_port u) ltac:(compute_done)) as Hslash.
  destruct (str_contains ":" (tu_host u)) eqn:Hcol.
  - rewrite <- (parse_url_print _ (("[" +:+ tu_host u +:+ "]") +:+ String ":" (show_dec (tu_port u)))
                  (tu_host u) (tu_port u)); [|rewrite !str_contains_app, Hs; exact Hslash|
      by apply parse_authority_bracket].
    rewrite !str_app_assoc. by destruct (tu_version u).
  - rewrite <- (parse_url_print _ (tu_host u +:+ String ":" (show_dec (tu_port u)))
                  (tu_host u) (tu_port u)); [|rewrite !str_contains_app, Hs; exact Hslash|
      by apply parse_authority_plain].
    rewrite !str_app_assoc. by destruct (tu_version u).
Qed.

(** The URL of a nonce request names the protocol, host, port and path it
    was built from, whether the host is a name, an IPv4 or an IPv6 address;
    the other requests print the address bare, so their URL is readable for
    an IPv4 address and for no IPv6 address. *)
Theorem request_urls protocol ip port p :
  (0 ≤ port ≤ u16_max)%Z →
  parse_url (target_url_to_string (mk_TargetUrl ApiV3 protocol (ip_to_string ip) port ("/" +:+ p))) =
    Some (url_at protocol (ip_to_string ip) port ("api/localsend/v3/" +:+ p)) ∧
  parse_url (endpoint_url protocol (ip_to_string ip) port ("/" +:+ p)) =
    match ip with
    | V4 _ => Some (url_at protocol (ip_to_string ip) port ("api/localsend/v3/" +:+ p))
    | V6 _ => None
    end.
Proof.
  intros Hp. split.
  - by rewrite (target_url_parse _ p) by (try apply ip_host_ok; done).
  - pose proof (show_dec_no_char "/" port ltac:(compute_done)) as Hslash.
    destruct (ip_host_ok ip) as (Hs & Ho & Hc).
    assert (endpoint_url protocol (ip_to_string ip) port ("/" +:+ p) =
            protocol_as_str protocol +:+ "://" +:+
              (ip_to_string ip +:+ String ":" (show_dec port)) +:+
              String "/" ("api/localsend/v3/" +:+ p)) as ->.
    { unfold endpoint_url. by rewrite !str_app_assoc. }
    destruct ip as [a|a].
    + apply parse_url_print; [rewrite str_contains_app, Hs; exact Hslash|].
      apply parse_authority_plain; [apply ipv4_to_string_no_colon|done|done].
    + unfold parse_url. rewrite parse_scheme_app. cbn [mbind option_bind].
      rewrite split_once_app by (by rewrite str_contains_app, Hs).
      cbn [mbind option_bind]. cbn [ip_to_string].
      by rewrite parse_authority_colons by (done || apply ipv6_to_string_split).
Qed.

Lemma request_urls_witness :
  parse_url (endpoint_url Https "fe80::1" 53317 "/register") = None.
Proof.
  refine (proj2 (request_urls Https (V6 (V6Segments 65152 0 0 0 0 0 0 1)) 53317 "register" _)).
  unfold u16_max. lia.
Defined.
