(* ===== verification/HttpServerProps.v ===== *)
(** * What the HTTP server guarantees

    Every request is answered, the nonce maps stay paired and bounded, and
    over TLS a nonce is filed under the key of the client's certificate. *)

From S2P Require Import Prelude Net Serde Crypto HttpTypes HttpServer.

(** ** The cache *)

Section lru_lemmas.
Context `{LruCache, !LruCacheLaws}.

Lemma used_no_dup k ks : NoDup ks → NoDup (used k ks).
Proof.
  intros Hks. constructor; [|by apply NoDup_filter].
  rewrite list_elem_of_filter. tauto.
Qed.

Lemma lru_keys_put_in k v c k' :
  k' ∈ lru_keys (lru_put k v c) → k' = k ∨ k' ∈ lru_keys c.
Proof.
  rewrite lru_keys_put. intros Hin.
  apply (subseteq_take _ _ k') in Hin.
  unfold used in Hin. apply elem_of_cons in Hin as [->|Hin]; [by left|].
  apply list_elem_of_filter in Hin. naive_solver.
Qed.

(** A property of the values survives a value that has it. *)
Lemma lru_put_forall (P : bytes → Prop) k v c :
  0 < lru_cap c → P v → (∀ k' v', lru_peek c k' = Some v' → P v') →
  ∀ k' v', lru_peek (lru_put k v c) k' = Some v' → P v'.
Proof.
  intros Hcap Hv Hc k' v' Hpeek. destruct (decide (k' = k)) as [->|Hk].
  - rewrite lru_peek_put_same in Hpeek by done. by simplify_eq.
  - rewrite lru_peek_put_other in Hpeek; [by eapply Hc|done|].
    apply lru_peek_keys. eauto.
Qed.

Lemma lru_new_peek n k : lru_peek (lru_new n) k = None.
Proof.
  apply eq_None_not_Some. rewrite lru_peek_keys, lru_keys_new. by intros ?%elem_of_nil.
Qed.
End lru_lemmas.

Section server.
Context `{HttpCodec, Base64, X509, LruCache, !LruCacheLaws}.
Implicit Types (st : AppState) (c : Connection).

(** ** What changes the state *)

(** A body [nonce_exchange] accepts, and the nonce in it. *)
Definition nonce_body (body : option bytes) (n : bytes) : Prop :=
  ∃ b payload, body = Some b ∧ from_json (T:=NonceRequest) b = Some payload ∧
    b64_decode (nq_nonce payload) = Some n ∧ validate_nonce n = true.

Definition file_nonces (key : string) (received generated : bytes) (st : AppState) : AppState := {|
  as_info := as_info st;
  as_web := as_web st;
  as_received := lru_put key received (as_received st);
  as_generated := lru_put key generated (as_generated st)
|}.

Lemma nonce_exchange_cases new_nonce body st i :
  (∃ n, nonce_body body n ∧
     nonce_exchange new_nonce body st i =
       (Ok (mk_JsonResponse OK (mk_NonceResponse (b64_encode new_nonce))),
        file_nonces (identifier i) n new_nonce st)) ∨
  ((∀ n, ¬ nonce_body body n) ∧
     ∃ e, nonce_exchange new_nonce body st i = (Err e, st) ∧
       (e = HyperError ∧ body = None ∨ (∃ m, e = BadRequest m) ∧ is_Some body)).
Proof.
  unfold nonce_exchange, nonce_body, collect_to_json.
  assert (∀ m b, body = Some b →
    BadRequest m = HyperError ∧ body = None ∨ (∃ m', BadRequest m = BadRequest m') ∧ is_Some body)
    as Hbad by (intros m b ->; right; eauto).
  destruct body as [b|]; simpl;
    [|right; split; [by intros ? (?&?&?&?)|eexists; split; [done|by left]]].
  destruct (from_json b) as [payload|] eqn:Hp; simpl;
    [|right; split; [intros ? (?&?&?&?&?); simplify_eq|eexists; split; [done|by eapply Hbad]]].
  destruct (b64_decode (nq_nonce payload)) as [n|] eqn:Hn; simpl;
    [|right; split; [intros ? (?&?&?&?&?&?); simplify_eq|eexists; split; [done|by eapply Hbad]]].
  destruct (validate_nonce n) eqn:Hv; simpl; [left; exists n|right]; split.
  - exists b, payload. eauto.
  - done.
  - intros ? (?&?&?&?&?&?). simplify_eq. congruence.
  - eexists; split; [done|by eapply Hbad].
Qed.

(** The six routes. *)
Definition legacy_paths : list string :=
  ["/api/localsend/v2/register"; "/api/localsend/v2/prepare-upload";
   "/api/localsend/v2/upload"; "/api/localsend/v2/cancel"].

Definition register_path (legacy_enabled : bool) (path : string) : Prop :=
  path = "/api/localsend/v3/register" ∨ legacy_enabled = true ∧ path ∈ legacy_paths.

Definition NONCE_PATH : string := "/api/localsend/v3/nonce".

(** The requests the API accepts. *)
Definition accepted (legacy_enabled : bool) (method : Method) (path : string)
    (body : option bytes) : Prop :=
  method = POST ∧
  ((register_path legacy_enabled path ∧ ∃ b, body = Some b ∧ is_Some (from_json (T:=RegisterDto) b)) ∨
   (path = NONCE_PATH ∧ ∃ n, nonce_body body n)).

Lemma register_cases body st i :
  (∃ b r, body = Some b ∧ is_Some (from_json (T:=RegisterDto) b) ∧
     register_v2 body st i = Ok (mk_JsonResponse OK r)) ∨
  ((∀ b, body = Some b → from_json (T:=RegisterDto) b = None) ∧
     ∃ e, register_v2 body st i = Err e ∧
       (e = HyperError ∧ body = None ∨ (∃ m, e = BadRequest m) ∧ is_Some body)).
Proof.
  unfold register_v2, collect_to_json. destruct body as [b|]; simpl;
    [|right; split; [done|eexists; split; [done|by left]]].
  destruct (from_json (T:=RegisterDto) b) eqn:Hp; simpl; [left; eauto 6|right].
  split; [by intros ? [= <-]|]. eexists; split; [done|]. right; eauto.
Qed.

Lemma v3_not_legacy : "/api/localsend/v3/register" ∉ legacy_paths.
Proof. compute_done. Qed.

(** The response to a result. *)
Definition finish {T} `{SerdeJson T} (r : res AppError (JsonResponse T)) : res AppError Response :=
  match r with
  | Ok r => Ok (into_response r)
  | Err e => Ok (to_response e)
  | Panic m => Panic m
  end.

Lemma serve_legacy c legacy nn path body st i :
  connection_client_info c = Ok i → path ∈ legacy_paths →
  serve c legacy nn POST path body st =
    if legacy then (finish (register_v2 body st i), st)
    else (Ok (to_response (StatusError NOT_FOUND)), st).
Proof.
  intros Hi Hin. unfold serve. rewrite Hi. unfold legacy_paths in Hin.
  repeat (apply elem_of_cons in Hin as [->|Hin];
    [unfold handle_request, handle_request_inner, respond; simpl;
     destruct legacy; simpl; [by destruct (register_v2 body st i)|done]|]).
  by apply elem_of_nil in Hin.
Qed.

Lemma serve_register c legacy nn body st i :
  connection_client_info c = Ok i →
  serve c legacy nn POST "/api/localsend/v3/register" body st =
    (finish (register_v2 body st i), st).
Proof.
  intros Hi. unfold serve. rewrite Hi. unfold handle_request, handle_request_inner, respond. simpl.
  change (register_v3 body st i) with (register_v2 body st i).
  by destruct (register_v2 body st i).
Qed.

Lemma serve_nonce c legacy nn body st i :
  connection_client_info c = Ok i →
  serve c legacy nn POST NONCE_PATH body st =
    (finish (nonce_exchange nn body st i).1, (nonce_exchange nn body st i).2).
Proof.
  intros Hi. unfold serve. rewrite Hi. unfold handle_request, handle_request_inner, respond. simpl.
  destruct (nonce_exchange nn body st i) as [r st']. by destruct r.
Qed.

Lemma serve_unknown c legacy nn method path body st i :
  connection_client_info c = Ok i →
  (method = POST → path ∉ legacy_paths ∧ path ≠ "/api/localsend/v3/register" ∧ path ≠ NONCE_PATH) →
  serve c legacy nn method path body st = (Ok (mk_Response NOT_FOUND None ""), st).
Proof.
  intros Hi Hout. unfold serve. rewrite Hi.
  destruct method; [done| |done]. destruct (Hout eq_refl) as (Hl & Hr & Hn).
  unfold legacy_paths in Hl. unfold handle_request, handle_request_inner. simpl.
  rewrite !decide_False by set_solver. done.
Qed.

(** A request goes to one of the two handlers or is not found. *)
Lemma serve_cases c legacy nn method path body st i :
  connection_client_info c = Ok i →
  (method = POST ∧ register_path legacy path ∧ path ≠ NONCE_PATH ∧
     serve c legacy nn method path body st = (finish (register_v2 body st i), st)) ∨
  (method = POST ∧ path = NONCE_PATH ∧
     serve c legacy nn method path body st =
       (finish (nonce_exchange nn body st i).1, (nonce_exchange nn body st i).2)) ∨
  ((method = POST → ¬ register_path legacy path ∧ path ≠ NONCE_PATH) ∧
     ∃ r, serve c legacy nn method path body st = (Ok r, st) ∧ rs_status r = NOT_FOUND).
Proof.
  intros Hi. destruct (decide (method = POST)) as [->|Hm].
  2:{ right; right. split; [done|]. rewrite (serve_unknown _ _ _ _ _ _ _ i) by done. by eexists. }
  destruct (decide (path = NONCE_PATH)) as [->|Hn].
  { right; left. split_and!; [done..|]. by apply serve_nonce. }
  destruct (decide (path ∈ legacy_paths)) as [Hl|Hl].
  { rewrite (serve_legacy _ _ _ _ _ _ i) by done. unfold register_path. destruct legacy.
    - left. split_and!; auto.
    - right; right. split; [|by eexists]. intros _. split; [|done]. intros [->|[? _]]; [|done].
      by apply v3_not_legacy. }
  destruct (decide (path = "/api/localsend/v3/register")) as [->|Hr].
  { left. split_and!; [done|by left|done|]. by apply serve_register. }
  right; right. rewrite (serve_unknown _ _ _ _ _ _ _ i) by done.
  split; [|by eexists]. intros _. split; [|done]. by intros [?|[_ ?]].
Qed.

(** ** Answers *)

Lemma to_response_status e :
  rs_status (to_response e) =
    match e with HyperError => INTERNAL_SERVER_ERROR | StatusError code => code
            | BadRequest _ => BAD_REQUEST end.
Proof. by destruct e. Qed.

Lemma refused_status e (body : option bytes) :
  (e = HyperError ∧ body = None) ∨ (∃ m, e = BadRequest m) ∧ is_Some body →
  rs_status (to_response e) ≠ OK ∧
  rs_status (to_response e) ∈ [OK; BAD_REQUEST; NOT_FOUND; INTERNAL_SERVER_ERROR].
Proof.
  rewrite to_response_status. intros [[-> _]|[[m ->] _]]; split; (done || compute_done).
Qed.

(** C26. Every request of a served connection is answered, and never by a
    panic, with one of four statuses; the status is 200 exactly for the
    requests the API accepts, and a request it does not accept changes
    nothing. *)
Theorem every_request_answered c legacy nn method path body st i :
  connection_client_info c = Ok i →
  ∃ r st', serve c legacy nn method path body st = (Ok r, st') ∧
    rs_status r ∈ [OK; BAD_REQUEST; NOT_FOUND; INTERNAL_SERVER_ERROR] ∧
    (rs_status r = OK ↔ accepted legacy method path body) ∧
    (¬ accepted legacy method path body → st' = st).
Proof.
  intros Hi. unfold accepted.
  destruct (serve_cases c legacy nn method path body st i Hi)
    as [(-> & Hp & Hn & ->)|[(-> & -> & ->)|(Hout & r & -> & Hr)]].
  - destruct (register_cases body st i) as [(b & r & -> & Hb & ->)|(Hno & e & -> & He)].
    + exists (into_response (mk_JsonResponse OK r)), st. split_and!; [done|compute_done| |done].
      split; [intros _; split; [done|left; eauto]|done].
    + destruct (refused_status e body He) as [Hne Hin].
      exists (to_response e), st. split_and!; [done..| |done].
      split; [done|]. intros (_ & [(_ & b & Hb & [x Hx])|[? _]]); [|done].
      by rewrite (Hno b Hb) in Hx.
  - destruct (nonce_exchange_cases nn body st i) as [(n & Hn & ->)|(Hno & e & -> & He)].
    + eexists _, _. split_and!; [done|compute_done| |].
      * split; [intros _; split; [done|right; eauto]|done].
      * intros Hacc. exfalso. apply Hacc. split; [done|right; eauto].
    + destruct (refused_status e body He) as [Hne Hin].
      exists (to_response e), st. split_and!; [done..| |done].
      split; [done|]. intros (_ & [([Hp|[_ Hp]] & _)|(_ & n & Hn)]); [done| |by destruct (Hno n)].
      unfold legacy_paths in Hp. set_solver.
  - exists r, st. split_and!; [done| |split|done]; [rewrite Hr; compute_done|by rewrite Hr|].
    intros (-> & Hacc). destruct (Hout eq_refl) as [Hp Hn]. destruct Hacc as [[? _]|[? _]]; done.
Qed.

(** ** Reachable states *)

(** The states a server gets into: its connections satisfy [served] and the
    nonces it draws have the length of [generate_nonce]. *)
Inductive server_reachable (served : Connection → Prop) (legacy : bool) (info : HttpClientInfo)
    : AppState → Prop :=
| server_start : server_reachable served legacy info (app_state_new info)
| server_request c nn method path body r st st' :
    server_reachable served legacy info st → served c → length nn = NONCE_LENGTH →
    serve c legacy nn method path body st = (r, st') →
    server_reachable served legacy info st'.

(** One request files one pair of nonces or changes nothing. *)
Lemma serve_state c legacy nn method path body st r st' :
  serve c legacy nn method path body st = (r, st') →
  st' = st ∨
  ∃ i n, connection_client_info c = Ok i ∧ validate_nonce n = true ∧
    st' = file_nonces (identifier i) n nn st.
Proof.
  intros Hs. destruct (connection_client_info c) as [i|e|m] eqn:Hi;
    [|unfold serve in Hs; rewrite Hi in Hs; left; congruence..].
  destruct (serve_cases c legacy nn method path body st i Hi)
    as [(-> & _ & _ & Heq)|[(-> & -> & Heq)|(_ & r' & Heq & _)]];
    rewrite Heq in Hs; simplify_eq; [by left| |by left].
  destruct (nonce_exchange_cases nn body st i) as [(n & Hn & ->)|(_ & e & -> & _)]; [|by left].
  right. exists i, n. destruct Hn as (?&?&?&?&?&?). done.
Qed.

(** An invariant of the filed pairs is an invariant of the server. *)
Lemma server_invariant served legacy info (I : AppState → Prop) st :
  I (app_state_new info) →
  (∀ c i n nn st, served c → connection_client_info c = Ok i → validate_nonce n = true →
     length nn = NONCE_LENGTH → I st → I (file_nonces (identifier i) n nn st)) →
  server_reachable served legacy info st → I st.
Proof.
  intros Hinit Hstep. induction 1 as [|c nn method path body r st st' _ IH Hc Hnn Hs]; [done|].
  apply serve_state in Hs as [->|(i & n & Hi & Hn & ->)]; [done|]. by eapply Hstep.
Qed.

Record maps_ok (st : AppState) : Prop := {
  maps_paired : lru_keys (as_received st) = lru_keys (as_generated st);
  maps_cap : lru_cap (as_received st) = NONCE_MAP_CAPACITY ∧
             lru_cap (as_generated st) = NONCE_MAP_CAPACITY;
  maps_bounded : length (lru_keys (as_received st)) ≤ NONCE_MAP_CAPACITY;
  maps_no_dup : NoDup (lru_keys (as_received st));
  maps_received k n : lru_peek (as_received st) k = Some n → validate_nonce n = true;
  maps_generated k n : lru_peek (as_generated st) k = Some n → length n = NONCE_LENGTH
}.

Lemma nonce_map_capacity_pos : 0 < NONCE_MAP_CAPACITY.
Proof. unfold NONCE_MAP_CAPACITY. lia. Qed.

Lemma maps_ok_new info : maps_ok (app_state_new info).
Proof.
  constructor; simpl; rewrite ?lru_keys_new, ?lru_cap_new.
  - done.
  - done.
  - simpl. lia.
  - constructor.
  - intros k n. by rewrite lru_new_peek.
  - intros k n. by rewrite lru_new_peek.
Qed.

Lemma maps_ok_file key n nn st :
  validate_nonce n = true → length nn = NONCE_LENGTH →
  maps_ok st → maps_ok (file_nonces key n nn st).
Proof.
  intros Hn Hnn [Hp [Hc1 Hc2] Hb Hd Hr Hg]. pose proof nonce_map_capacity_pos.
  constructor; simpl; rewrite ?lru_keys_put, ?lru_cap_put.
  - by rewrite Hc1, Hc2, Hp.
  - done.
  - rewrite length_take. lia.
  - rewrite Hc1. eapply sublist_NoDup; [by apply used_no_dup|apply sublist_take].
  - intros k v. apply (lru_put_forall (λ n, validate_nonce n = true)); [lia|done|exact Hr].
  - intros k v. apply (lru_put_forall (λ n, length n = NONCE_LENGTH)); [lia|done|exact Hg].
Qed.

(** C25. At any time the two nonce maps know the same clients, in the same
    order and at most 200 of them; every nonce that was received has an
    acceptable length, and every nonce that was generated has 32 bytes. *)
Theorem nonce_maps_paired legacy info st :
  server_reachable (λ _, True) legacy info st → maps_ok st.
Proof.
  apply server_invariant; [apply maps_ok_new|]. intros. by apply maps_ok_file.
Qed.

(** ** TLS *)

(** The connections that pass the handshake of a server with TLS: client
    authentication is mandatory, and the certificate of the client was given
    to [verify_client_cert]. *)
Definition tls_served (c : Connection) : Prop :=
  ∃ addr cert rest, c = TlsConnection addr (Some (cert :: rest)) ∧ verify_client_cert cert = Ok ().

(** The text of the key of a valid certificate that signs itself. *)
Definition certified_key (k : string) : Prop :=
  ∃ cert x, parse_x509 cert = Some x ∧ validity_is_valid x = true ∧
    verify_self_signature x = Some () ∧ public_key_from_cert x = Ok k.

Lemma verify_client_cert_ok cert :
  verify_client_cert cert = Ok () →
  ∃ x, parse_x509 cert = Some x ∧ validity_is_valid x = true ∧ verify_self_signature x = Some ().
Proof.
  unfold verify_client_cert, verify_cert_from_der, verify_cert_from_cert.
  destruct (parse_x509 cert) as [c|] eqn:Hc; simpl; [|done].
  destruct (validity_is_valid c) eqn:Hv; simpl; [|done].
  destruct (verify_self_signature c) as [[]|] eqn:Hs; simpl; [|done]. eauto.
Qed.

Lemma tls_identifier c i :
  tls_served c → connection_client_info c = Ok i → certified_key (identifier i).
Proof.
  intros (addr & cert & rest & -> & Hcert). simpl. intros [= <-].
  apply verify_client_cert_ok in Hcert as (x & Hx & Hv & Hs).
  exists cert, x. split_and!; [done..|].
  unfold identifier, extract_public_key. simpl. unfold public_key_from_cert_der. by rewrite Hx.
Qed.

(** C24. A server with TLS files nonces only under the text of the public key
    of a certificate that was valid and signed itself at the handshake; in
    particular never under an address, which several clients may share. *)
Theorem tls_nonces_filed_under_keys legacy info st k :
  server_reachable tls_served legacy info st →
  k ∈ lru_keys (as_received st) → certified_key k.
Proof.
  intros Hst. revert k.
  apply (server_invariant tls_served legacy info
           (λ st, ∀ k, k ∈ lru_keys (as_received st) → certified_key k)); [| |done].
  - simpl. intros k. rewrite lru_keys_new. by intros ?%elem_of_nil.
  - intros c i n nn st' Hc Hi _ _ IH k. simpl. intros [->|Hk]%lru_keys_put_in; [|by apply IH].
    by eapply tls_identifier.
Qed.

(** ** Legacy routes *)

(** The three transfer routes of the v2 API run the handler of [register]. *)
Lemma legacy_routes_register c legacy nn body st path i :
  connection_client_info c = Ok i → path ∈ legacy_paths →
  serve c legacy nn POST path body st =
  serve c legacy nn POST "/api/localsend/v2/register" body st.
Proof.
  intros Hi Hp. rewrite !(serve_legacy _ _ _ _ _ _ i) by (done || compute_done). done.
Qed.
End server.
