(* ===== verification/HttpClientProps.v ===== *)
(** * What the HTTP client guarantees

    The client against a network that delivers its requests to a server: both
    ends agree on the nonces they exchanged, an upload is prepared only with
    the server whose key was pinned, and the transfer requests of the client
    find no route on the server. *)

From S2P Require Import Prelude Net Serde Crypto RtcTypes HttpTypes HttpServer HttpClient.
From S2P Require Import Url HttpServerProps.

(** The server at the other end, as one client meets it: what the connection
    is for the server, the next nonce it draws, its address and, with TLS, its
    certificate. *)
Record ServerEnd := mk_ServerEnd {
  se_conn : Connection;
  se_legacy : bool;
  se_nonce : bytes;
  se_addr : IpAddr;
  se_cert : option bytes
}.

Section network.
Context `{HttpCodec, Base64, X509, LruCache}.

Definition response_from (srv : ServerEnd) (r : Response) : ClientResponse := {|
  cr_status := rs_status r;
  cr_remote_addr := Some (se_addr srv);
  cr_tls_info := Some <$> se_cert srv;
  cr_body := Ok (as_bytes (rs_body r))
|}.

Definition deliver (srv : ServerEnd) (st : AppState) (path : string) (body : bytes)
    : anyres ClientResponse * AppState :=
  let '(r, st') := serve (se_conn srv) (se_legacy srv) (se_nonce srv) POST path (Some body) st in
  (match r with Ok r => Ok (response_from srv r) | _ => Err "connection closed" end, st').

(** [reqwest] sends the body to the path of a URL it can read. *)
Definition delivers (post : AppState → string → bytes → anyres ClientResponse * AppState)
    (srv : ServerEnd) : Prop :=
  ∀ st url u body, parse_url url = Some u → post st url body = deliver srv st (url_path u) body.

(** The network of the concrete runs. *)
Definition loopback (srv : ServerEnd) (st : AppState) (url : string) (body : bytes)
    : anyres ClientResponse * AppState :=
  match parse_url url with
  | Some u => deliver srv st (url_path u) body
  | None => (Err "invalid url", st)
  end.

Lemma loopback_delivers srv : delivers (loopback srv) srv.
Proof. intros st url u body Hu. unfold loopback. by rewrite Hu. Qed.

(** The name the client files the nonces of a server under. *)
Definition server_id (protocol : ProtocolType) (srv : ServerEnd) (k : string) : Prop :=
  match protocol with
  | Http => k = ip_to_string (se_addr srv)
  | Https => ∃ cert, se_cert srv = Some cert ∧ public_key_from_cert_der cert = Ok k ∧
               verify_cert_from_der cert (Some k) = Ok ()
  end.
End network.

Section client_props.
Context `{HttpCodec, !HttpCodecLaws, Base64, !Base64Laws, X509, LruCache, !LruCacheLaws}.
Context `{ReqwestText, !ReqwestTextLaws}.

Definition client_ok (c : LsHttpClient) : Prop :=
  lru_cap (hc_received c) = NONCE_MAP_CAPACITY ∧ lru_cap (hc_generated c) = NONCE_MAP_CAPACITY.

Lemma client_ok_new : client_ok new_client.
Proof. split; apply lru_cap_new. Qed.

Lemma to_identifier_server protocol srv r k :
  server_id protocol srv k →
  to_identifier (response_from srv r) (bool_decide (protocol = Https)) None = Ok k.
Proof.
  destruct protocol; simpl; [by intros ->|].
  intros (cert & Hcert & Hk & Hv). unfold verify_cert_from_res. simpl. rewrite Hcert. simpl.
  rewrite Hk. simpl. by rewrite Hv.
Qed.

Lemma debug_get_ok dbg k v m :
  lru_peek m k = Some v →
  ∃ m', debug_get dbg k m = Ok m' ∧ ∀ k', lru_peek m' k' = lru_peek m k'.
Proof.
  intros Hk. destruct dbg; simpl; [|by eexists]. rewrite Hk.
  eexists. split; [done|]. intros k'. apply lru_peek_touch.
Qed.

(** The request of [nonce] arrives at the nonce route. *)
Lemma nonce_url_path protocol host port :
  host_ok host → (0 ≤ port ≤ u16_max)%Z →
  ∃ u, parse_url (target_url_to_string (mk_TargetUrl ApiV3 protocol host port "/nonce")) = Some u ∧
    url_path u = NONCE_PATH.
Proof.
  intros Hh Hp. eexists. split; [by apply (target_url_parse _ "nonce")|]. done.
Qed.

(** What the client stores for a delivered exchange. *)
Lemma nonce_stores {St} (post : St → string → bytes → anyres ClientResponse * St)
    dbg gen protocol host port c st st' r you n :
  client_ok c →
  post st (target_url_to_string (mk_TargetUrl ApiV3 protocol host port "/nonce"))
       (as_bytes (to_json (mk_NonceRequest (b64_encode gen)))) = (Ok r, st') →
  nonce_response protocol r = Ok (you, n, b64_encode n) →
  ∃ c', nonce post dbg gen protocol host port c st = (Ok (b64_encode n), c', st') ∧
    lru_peek (hc_received c') you = Some n ∧ lru_peek (hc_generated c') you = Some gen.
Proof.
  intros [Hc1 Hc2] Hpost Hr. pose proof nonce_map_capacity_pos.
  unfold nonce. rewrite Hpost. simpl. rewrite Hr.
  destruct (debug_get_ok dbg you n (lru_put you n (hc_received c))) as (m1 & -> & Hm1);
    [by apply lru_peek_put_same; lia|].
  destruct (debug_get_ok dbg you gen (lru_put you gen (hc_generated c))) as (m2 & -> & Hm2);
    [by apply lru_peek_put_same; lia|].
  eexists. split; [done|]. simpl. rewrite Hm1, Hm2, !lru_peek_put_same by lia. done.
Qed.

(** The server answers a nonce of the client with its own. *)
Lemma serve_generated_nonce c legacy nn gen st i :
  connection_client_info c = Ok i → length gen = NONCE_LENGTH →
  serve c legacy nn POST NONCE_PATH
    (Some (as_bytes (to_json (mk_NonceRequest (b64_encode gen))))) st =
    (Ok (into_response (mk_JsonResponse OK (mk_NonceResponse (b64_encode nn)))),
     file_nonces (identifier i) gen nn st).
Proof.
  intros Hi Hgen. set (body := as_bytes (to_json (mk_NonceRequest (b64_encode gen)))).
  assert (nonce_body (Some body) gen) as Hbody.
  { exists body, (mk_NonceRequest (b64_encode gen)). split_and!; [done|apply from_to_json| |].
    - apply b64_decode_encode.
    - unfold validate_nonce. by rewrite Hgen. }
  rewrite (serve_nonce _ _ _ _ _ i) by done.
  destruct (nonce_exchange_cases nn (Some body) st i) as [(n & Hn & ->)|(Hno & _)];
    [|by destruct (Hno gen)].
  destruct Hn as (b & q & [= <-] & Hq & Hd & _). destruct Hbody as (b & q' & [= <-] & Hq' & Hd' & _).
  by simplify_eq.
Qed.

(** A delivered exchange: the result, and what both ends have filed. *)
Lemma nonce_delivered post srv dbg gen protocol host port c st i you :
  delivers post srv → connection_client_info (se_conn srv) = Ok i →
  server_id protocol srv you →
  host_ok host → (0 ≤ port ≤ u16_max)%Z → length gen = NONCE_LENGTH → client_ok c →
  ∃ c',
    nonce post dbg gen protocol host port c st =
      (Ok (b64_encode (se_nonce srv)), c', file_nonces (identifier i) gen (se_nonce srv) st) ∧
    lru_peek (hc_received c') you = Some (se_nonce srv) ∧
    lru_peek (hc_generated c') you = Some gen.
Proof.
  intros Hpost Hi Hyou Hhost Hport Hgen Hc.
  destruct (nonce_url_path protocol host port Hhost Hport) as (u & Hu & Hpath).
  pose proof (Hpost st _ _ (as_bytes (to_json (mk_NonceRequest (b64_encode gen)))) Hu) as Hsend.
  rewrite Hpath in Hsend. unfold deliver in Hsend.
  rewrite (serve_generated_nonce _ _ _ _ _ i) in Hsend by done.
  eapply nonce_stores; [done|exact Hsend|].
  unfold nonce_response. rewrite decide_False by (intros Hs; by apply Hs).
  rewrite (to_identifier_server _ _ _ you) by done. simpl.
  unfold response_json. simpl. rewrite from_to_json. simpl.
  by rewrite b64_decode_encode.
Qed.

(** C23. A nonce exchange over a network that delivers it succeeds, whatever
    protocol and kind of address it uses, and both ends then hold the same
    pair: what the client generated for the server is what the server has
    received from the client, and the other way round. *)
Theorem nonce_exchange_agreement post srv dbg gen protocol host port c st i you :
  delivers post srv → connection_client_info (se_conn srv) = Ok i →
  server_id protocol srv you →
  host_ok host → (0 ≤ port ≤ u16_max)%Z → length gen = NONCE_LENGTH →
  client_ok c → maps_ok st →
  let me := identifier i in
  ∃ c' st',
    nonce post dbg gen protocol host port c st = (Ok (b64_encode (se_nonce srv)), c', st') ∧
    lru_peek (hc_generated c') you = Some gen ∧
    lru_peek (as_received st') me = Some gen ∧
    lru_peek (hc_received c') you = Some (se_nonce srv) ∧
    lru_peek (as_generated st') me = Some (se_nonce srv).
Proof.
  intros Hpost Hi Hyou Hhost Hport Hgen Hc [_ [Hs1 Hs2] _ _ _ _] me.
  pose proof nonce_map_capacity_pos.
  edestruct (nonce_delivered post srv dbg gen) as (c' & Hrun & Hrec & Hgenm); [done..|].
  exists c'. eexists. split; [exact Hrun|]. simpl. rewrite !lru_peek_put_same by lia. done.
Qed.

(** ** Pinning *)

Definition pem_key (pem : string) (key : PublicKey) : Prop :=
  ∃ b spki, pem_read pem = Some b ∧ spki_from_der b = Some spki ∧ spki_parsed spki = Some key.

Lemma verify_cert_pinned x pem :
  verify_cert_from_cert x (Some pem) = Ok () ↔
  validity_is_valid x = true ∧ verify_self_signature x = Some () ∧
  ∃ key, spki_parsed (subject_pki x) = Some key ∧ pem_key pem key.
Proof.
  unfold verify_cert_from_cert, pem_key.
  destruct (validity_is_valid x); simpl; [|naive_solver].
  destruct (spki_parsed (subject_pki x)) as [k|] eqn:Hk; simpl; [|naive_solver].
  destruct (pem_read pem) as [b|] eqn:Hb; simpl; [|naive_solver].
  destruct (spki_from_der b) as [s|] eqn:Hs; simpl; [|naive_solver].
  destruct (spki_parsed s) as [k'|] eqn:Hk'; simpl; [|naive_solver].
  case_decide as Hkk; simpl; [naive_solver|].
  subst k'.
  destruct (verify_self_signature x) as [[]|]; simpl; naive_solver.
Qed.

Lemma verify_cert_from_res_pinned r pem k :
  verify_cert_from_res r (Some pem) = Ok k ↔
  k = pem ∧ ∃ cert x key, cr_tls_info r = Some (Some cert) ∧ parse_x509 cert = Some x ∧
    validity_is_valid x = true ∧ verify_self_signature x = Some () ∧
    spki_parsed (subject_pki x) = Some key ∧ pem_key pem key.
Proof.
  unfold verify_cert_from_res, verify_cert_from_der.
  destruct (cr_tls_info r) as [[cert|]|]; simpl; [|naive_solver..].
  destruct (parse_x509 cert) as [x|] eqn:Hx; simpl; [|naive_solver].
  destruct (verify_cert_from_cert x (Some pem)) as [[]|e|m] eqn:Hv; simpl.
  - apply verify_cert_pinned in Hv as (? & ? & key & ? & ?). split.
    + intros [= <-]. split; [done|]. by exists cert, x, key.
    + by intros [-> _].
  - split; [done|]. intros (_ & ? & ? & key & [= <-] & Hx' & ? & ? & ? & ?).
    assert (verify_cert_from_cert x (Some pem) = Ok ()) by (apply verify_cert_pinned; naive_solver).
    congruence.
  - split; [done|]. intros (_ & ? & ? & key & [= <-] & Hx' & ? & ? & ? & ?).
    assert (verify_cert_from_cert x (Some pem) = Ok ()) by (apply verify_cert_pinned; naive_solver).
    congruence.
Qed.

(** With a pinned key, preparing an upload succeeds exactly when the
    server answered 200 with a readable body over a TLS connection whose
    certificate is valid, signs itself and holds the pinned key. *)
Theorem prepare_upload_pinned {St} (post : St → string → bytes → anyres ClientResponse * St)
    protocol ip port pem payload st answer :
  (prepare_upload post protocol ip port (Some pem) payload st).1 = Ok answer ↔
  ∃ r b cert x key,
    (post st (endpoint_url protocol ip port "/prepare-upload") (as_bytes (to_json payload))).1 = Ok r ∧
    cr_status r = 200%Z ∧ cr_body r = Ok b ∧ from_json b = Some answer ∧
    cr_tls_info r = Some (Some cert) ∧ parse_x509 cert = Some x ∧
    validity_is_valid x = true ∧ verify_self_signature x = Some () ∧
    spki_parsed (subject_pki x) = Some key ∧ pem_key pem key.
Proof.
  unfold prepare_upload.
  destruct (post st _ _) as [[r|e|m] st']; simpl; [|naive_solver..].
  destruct (verify_cert_from_res r (Some pem)) as [k|e|m] eqn:Hv; simpl.
  - apply verify_cert_from_res_pinned in Hv as (-> & cert & x & key & Hpin).
    case_decide as Hs; simpl.
    + split.
      * unfold fail_with_status, status_code_error_from_res.
        by destruct (cr_body r); simpl.
      * naive_solver.
    + unfold response_json.
      destruct (cr_body r) as [b|e|m] eqn:Hb; simpl;
        [|split; [done|intros (?&?&?&?&?&[= <-]&?&?&?); congruence]..].
      rewrite ok_or_Ok. split; [intros Ha; by exists r, b, cert, x, key|].
      intros (?&?&?&?&?&[= <-]&?&?&?&?). congruence.
  - split; [done|]. intros (r' & b & cert & x & key & [= <-] & _ & _ & _ & Hpin).
    assert (verify_cert_from_res r (Some pem) = Ok pem)
      by (apply verify_cert_from_res_pinned; naive_solver). congruence.
  - split; [done|]. intros (r' & b & cert & x & key & [= <-] & _ & _ & _ & Hpin).
    assert (verify_cert_from_res r (Some pem) = Ok pem)
      by (apply verify_cert_from_res_pinned; naive_solver). congruence.
Qed.

(** ** Requests without a route *)

Lemma fail_not_found {A} srv :
  fail_with_status (A:=A) (response_from srv (mk_Response NOT_FOUND None "")) =
    Err (StatusCodeError 404 None).
Proof.
  unfold fail_with_status, status_code_error_from_res. simpl.
  rewrite decode_text_utf8 by done.
  rewrite from_json_short by (simpl; lia). done.
Qed.

Lemma deliver_unknown srv st path body i :
  connection_client_info (se_conn srv) = Ok i →
  path ∉ legacy_paths → path ≠ "/api/localsend/v3/register" → path ≠ NONCE_PATH →
  deliver srv st path body = (Ok (response_from srv (mk_Response NOT_FOUND None "")), st).
Proof.
  intros Hi ???. unfold deliver. by rewrite (serve_unknown _ _ _ _ _ _ _ i).
Qed.

(** The transfer requests of the client have no route on the server of
    the same crate: preparing an upload and uploading fail with status 404
    and no message, and [cancel] reports success without any effect. *)
Theorem transfer_requests_not_found post srv protocol ip port payload sid fid tok bin st i :
  delivers post srv → connection_client_info (se_conn srv) = Ok i → (0 ≤ port ≤ u16_max)%Z →
  let host := ip_to_string (V4 ip) in
  prepare_upload post protocol host port None payload st = (Err (StatusCodeError 404 None), st) ∧
  upload post protocol host port sid fid tok bin st = (Err (StatusCodeError 404 None), st) ∧
  cancel post protocol host port sid st = (Ok (), st).
Proof.
  intros Hpost Hi Hport host.
  assert (∀ p q body, str_contains "?" p = false → q = "" ∨ (∃ s, q = String "?" s) →
    p ∉ ["register"; "nonce"] →
    post st (endpoint_url protocol host port (String "/" (p +:+ q))) body =
      (Ok (response_from srv (mk_Response NOT_FOUND None "")), st)) as Hroute.
  { intros p q body Hp Hq Hne.
    destruct (request_urls protocol (V4 ip) port (p +:+ q) Hport) as [_ Hu].
    rewrite (Hpost _ _ _ _ Hu), url_at_path by done.
    apply deliver_unknown with i; [done|..].
    - unfold legacy_paths. rewrite !not_elem_of_cons. split_and!; done || apply not_elem_of_nil.
    - intros Heq. assert (p = "register") as -> by (by injection Heq). apply Hne. compute_done.
    - intros Heq. assert (p = "nonce") as -> by (by injection Heq). apply Hne. compute_done. }
  split_and!.
  - unfold prepare_upload. rewrite (Hroute "prepare-upload" "") by (auto || compute_done). simpl.
    by rewrite fail_not_found.
  - unfold upload. change (upload_path sid fid tok) with
      (String "/" ("upload" +:+ ("?sessionId=" +:+ sid +:+ "&fileId=" +:+ fid +:+ "&token=" +:+ tok))).
    rewrite Hroute by (eauto || compute_done). simpl.
    by rewrite fail_not_found.
  - unfold cancel. change ("/cancel?sessionId=" +:+ sid) with
      (String "/" ("cancel" +:+ ("?sessionId=" +:+ sid))).
    by rewrite Hroute by (eauto || compute_done).
Qed.
End client_props.
