(* ===== verification/HttpLifecycle.v ===== *)
(** * The life of an HTTP server

    [start_with_port], [start_server_with_addr] and [create_tls_config] of
    [core/src/http/server/mod.rs]: two listeners, one per address family, that
    share one [AppState]; the [select!] that keeps them alive; and a task per
    connection, which outlives them.  The results of the socket calls and of
    [rustls] are those of the labels. *)

From S2P Require Import Prelude Net Serde Crypto HttpTypes HttpServer HttpServerProps.

Record TlsConfig := mk_TlsConfig {
  tls_cert : string;
  tls_private_key : string
}.

(** The [rustls] calls of the set-up: the PEM readers, the store of root
    certificates and the verifier built on it, and the configuration of a
    certificate with its key. *)
Class Rustls := {
  certificate_from_pem : string → anyres bytes;
  private_key_from_pem : string → anyres bytes;
  root_store_add : bytes → anyres ();
  build_verifier : bytes → anyres ();
  with_single_cert : bytes → bytes → anyres ()
}.

Section tls.
Context `{Rustls}.

(** [CustomClientCertVerifier::try_new]. *)
Definition try_new (cert : string) : anyres () :=
  let? root := certificate_from_pem cert in
  check? root_store_add root in
  build_verifier root.

Definition create_tls_config (c : TlsConfig) : anyres () :=
  let? certs := certificate_from_pem (tls_cert c) in
  let? key := private_key_from_pem (tls_private_key c) in
  check? try_new (tls_cert c) in
  with_single_cert certs key.
End tls.

Inductive Family := IPv4 | IPv6.

(** A run of [start_server_with_addr]: it returns when it cannot bind, cannot
    create its configuration, or cannot accept. *)
Inductive Listener := Starting | Listening | Returned (r : anyres ()).

(** The task of a connection. *)
Inductive Task :=
| Handshaking (remote_addr : IpAddr)
| Serving (c : Connection)
| Finished.

Record Server `{LruCache} := mk_Server {
  sv_v4 : Listener;
  sv_v6 : Listener;
  sv_stopped : bool;
  sv_running : bool;
  sv_tasks : list Task;
  sv_state : AppState
}.
Arguments mk_Server {_} _ _ _ _ _ _.

(** What happens: a socket is bound or accepts, the certificates a client
    presents in its handshake arrive, a request is served, a connection ends,
    [stop_rx] is ready (a message, or its sender is gone), and the [select!]
    ends. *)
Inductive Label :=
| Bind (f : Family) (r : anyres ())
| Accept (f : Family) (r : anyres IpAddr)
| Handshake (n : nat) (presented : option (list bytes))
| Serve (n : nat) (new_nonce : bytes) (method : Method) (path : string) (body : option bytes)
| Disconnect (n : nat)
| Stop
| Select.

Section lifecycle.
Context `{Rustls, HttpCodec, Base64, X509, LruCache}.
(** The arguments of [start_with_port]. *)
Context (tls_config : option TlsConfig) (legacy_enabled : bool).

(** [start_with_port] spawns the task and returns. *)
Definition start_with_port (info : HttpClientInfo) : anyres Server :=
  Ok (mk_Server Starting Starting false true [] (app_state_new info)).

Definition listener (f : Family) (s : Server) : Listener :=
  match f with IPv4 => sv_v4 s | IPv6 => sv_v6 s end.
Definition set_listener (f : Family) (l : Listener) (s : Server) : Server :=
  match f with
  | IPv4 => mk_Server l (sv_v6 s) (sv_stopped s) (sv_running s) (sv_tasks s) (sv_state s)
  | IPv6 => mk_Server (sv_v4 s) l (sv_stopped s) (sv_running s) (sv_tasks s) (sv_state s)
  end.
Definition set_tasks (ts : list Task) (s : Server) : Server :=
  mk_Server (sv_v4 s) (sv_v6 s) (sv_stopped s) (sv_running s) ts (sv_state s).
Definition set_state (st : AppState) (s : Server) : Server :=
  mk_Server (sv_v4 s) (sv_v6 s) (sv_stopped s) (sv_running s) (sv_tasks s) st.

(** [TcpListener::bind(..)?], then the configuration. *)
Definition after_bind (r : anyres ()) : Listener :=
  match r with
  | Ok _ =>
      match tls_config with
      | Some c => match create_tls_config c with Ok _ => Listening | r => Returned r end
      | None => Listening
      end
  | r => Returned r
  end.

(** [incoming.accept().await?] and the spawn of the task of the connection. *)
Definition accepted (remote_addr : IpAddr) : Task :=
  match tls_config with
  | Some _ => Handshaking remote_addr
  | None => Serving (PlainConnection remote_addr)
  end.

(** [tls_acceptor.accept(..)]: [rustls] asks the verifier whether a client
    certificate is needed and whether the one presented is good. *)
Definition handshake (remote_addr : IpAddr) (presented : option (list bytes)) : Task :=
  match presented with
  | Some (cert :: _) =>
      match verify_client_cert cert with
      | Ok _ => Serving (TlsConnection remote_addr presented)
      | _ => Finished
      end
  | _ => if client_auth_mandatory then Finished else Serving (TlsConnection remote_addr None)
  end.

(** The branches of the [select!] that are ready: the first when the IPv4
    listener returns, whatever it returns; the second not when the IPv6
    listener returns an error; the third when [stop_rx] is. *)
Definition select_ready (s : Server) : bool :=
  match sv_v4 s with Returned _ => true | _ => false end
  || match sv_v6 s with Returned (Ok _) | Returned (Panic _) => true | _ => false end
  || sv_stopped s.

Definition step_fn (l : Label) (s : Server) : option Server :=
  match l with
  | Bind f r =>
      match sv_running s, listener f s with
      | true, Starting => Some (set_listener f (after_bind r) s)
      | _, _ => None
      end
  | Accept f r =>
      match sv_running s, listener f s with
      | true, Listening =>
          Some (match r with
                | Ok remote_addr => set_tasks (sv_tasks s ++ [accepted remote_addr]) s
                | Err e => set_listener f (Returned (Err e)) s
                | Panic m => set_listener f (Returned (Panic m)) s
                end)
      | _, _ => None
      end
  | Handshake n presented =>
      match sv_tasks s !! n with
      | Some (Handshaking remote_addr) =>
          Some (set_tasks (<[n := handshake remote_addr presented]> (sv_tasks s)) s)
      | _ => None
      end
  | Serve n new_nonce method path body =>
      match sv_tasks s !! n with
      | Some (Serving c) =>
          Some (set_state (serve c legacy_enabled new_nonce method path body (sv_state s)).2 s)
      | _ => None
      end
  | Disconnect n =>
      match sv_tasks s !! n with
      | Some _ => Some (set_tasks (<[n := Finished]> (sv_tasks s)) s)
      | None => None
      end
  | Stop => Some (mk_Server (sv_v4 s) (sv_v6 s) true (sv_running s) (sv_tasks s) (sv_state s))
  | Select =>
      if sv_running s && select_ready s then
        Some (mk_Server (sv_v4 s) (sv_v6 s) (sv_stopped s) false (sv_tasks s) (sv_state s))
      else None
  end.

(** The nonces a run draws are those of [generate_nonce]. *)
Definition label_ok (l : Label) : Prop :=
  match l with Serve _ nn _ _ _ => length nn = NONCE_LENGTH | _ => True end.

(** [lives info s]: the server started with [info] gets into [s]. *)
Inductive lives (info : HttpClientInfo) : Server → Prop :=
| lives_start s : start_with_port info = Ok s → lives info s
| lives_step l s s' : lives info s → label_ok l → step_fn l s = Some s' → lives info s'.

Fixpoint run_server (ls : list Label) (s : Server) : option Server :=
  match ls with
  | [] => Some s
  | l :: ls => s ← step_fn l s; run_server ls s
  end.

Lemma run_lives info ls s s' :
  lives info s → Forall label_ok ls → run_server ls s = Some s' → lives info s'.
Proof.
  intros Hs Hls. revert s Hs. induction Hls as [|l ls Hl Hls IH]; intros s Hs Hrun; simplify_eq/=; [done|].
  destruct (step_fn l s) as [s1|] eqn:Hl1; simplify_eq/=. eapply IH; [by eapply lives_step|done].
Qed.

(** ** One state behind both listeners *)

(** The connections a server serves: with a configuration those that pass its
    handshakes, without one those in plain text. *)
Definition served (c : Connection) : Prop :=
  match tls_config with
  | Some _ => tls_served c
  | None => ∃ addr, c = PlainConnection addr
  end.

Definition task_ok (t : Task) : Prop :=
  match t with
  | Handshaking _ => is_Some tls_config
  | Serving c => served c
  | Finished => True
  end.

Lemma accepted_ok addr : task_ok (accepted addr).
Proof. unfold accepted, task_ok, served. destruct tls_config; simpl; eauto. Qed.

Lemma handshake_ok addr presented : is_Some tls_config → task_ok (handshake addr presented).
Proof.
  intros [c Hc]. unfold handshake, task_ok, served. rewrite Hc.
  destruct presented as [[|cert rest]|]; simpl; [done| |done].
  destruct (verify_client_cert cert) as [[]|e|m] eqn:Hv; [|done..]. by exists addr, cert, rest.
Qed.

(** Nothing but a request changes the state of the server. *)
Lemma step_state l s s' :
  step_fn l s = Some s' →
  sv_state s' = sv_state s ∨
  ∃ n c nn method path body, l = Serve n nn method path body ∧ sv_tasks s !! n = Some (Serving c) ∧
    sv_state s' = (serve c legacy_enabled nn method path body (sv_state s)).2.
Proof.
  intros Hs. destruct l as [f r|f r|n presented|n nn method path body|n| |]; simpl in Hs.
  all: repeat case_match; simplify_eq/=; try (by left); try (by left; destruct f).
  right. eauto 10.
Qed.

Lemma step_tasks l s s' :
  step_fn l s = Some s' → Forall task_ok (sv_tasks s) → Forall task_ok (sv_tasks s').
Proof.
  intros Hs Hok. destruct l as [f r|f r|n presented|n nn method path body|n| |]; simpl in Hs;
    repeat case_match; simplify_eq/=; try done; try (by destruct f).
  - apply Forall_app. split; [done|]. constructor; [apply accepted_ok|constructor].
  - apply Forall_insert; [done|]. apply handshake_ok.
    exact (Forall_lookup_1 task_ok _ _ _ Hok ltac:(eassumption)).
  - by apply Forall_insert.
Qed.

Lemma lives_tasks info s : lives info s → Forall task_ok (sv_tasks s).
Proof. induction 1 as [s [= <-]|l s s' _ Hts Hl Hs]; [constructor|by eapply step_tasks]. Qed.

(** C36. Whatever the order of binding, accepting, handshakes, requests and
    stopping, the state behind the two listeners is one that a sequence of
    requests leads to: requests over connections that passed the handshake
    when the server has a TLS configuration, and over plain connections when
    it has none; and no other connection is ever served. *)
Theorem lifecycle_refines_requests info s :
  lives info s →
  server_reachable served legacy_enabled info (sv_state s) ∧ Forall task_ok (sv_tasks s).
Proof.
  intros Hlives. split; [|by eapply lives_tasks].
  induction Hlives as [s [= <-]|l s s' Hs0 Hst Hl Hs]; [constructor|].
  pose proof (lives_tasks _ _ Hs0) as Hts.
  destruct (step_state l s s' Hs) as [->|(n & c & nn & method & path & body & -> & Hn & ->)]; [done|].
  destruct (serve c legacy_enabled nn method path body (sv_state s)) as [r st'] eqn:Hserve.
  eapply server_request; [exact Hst| |exact Hl|exact Hserve].
  exact (Forall_lookup_1 task_ok _ _ _ Hts Hn).
Qed.

(** ** How long a server listens *)

(** Once the [select!] has ended nothing is bound or accepted any more, while
    the connections there are go on. *)
Lemma stops_listening l s s' :
  step_fn l s = Some s' → sv_running s = false →
  sv_running s' = false ∧ length (sv_tasks s') = length (sv_tasks s) ∧
  sv_v4 s' = sv_v4 s ∧ sv_v6 s' = sv_v6 s.
Proof.
  intros Hs Hr. destruct l as [f r|f r|n presented|n nn method path body|n| |]; simpl in Hs;
    rewrite ?Hr in Hs; simpl in Hs; repeat case_match; simplify_eq/=; by rewrite ?length_insert.
Qed.

Lemma keeps_serving n c nn method path body s :
  sv_tasks s !! n = Some (Serving c) → is_Some (step_fn (Serve n nn method path body) s).
Proof. intros Hn. simpl. rewrite Hn. eauto. Qed.

(** The listeners do not depend on each other, but the [select!] does not
    wait for both: when the IPv4 address cannot be bound, the server on the
    IPv6 address, which listens, is ended, and nobody has asked for it. *)
Lemma ipv4_failure_ends_ipv6 info e :
  (∀ c, tls_config = Some c → create_tls_config c = Ok ()) →
  ∃ s, lives info s ∧ sv_running s = false ∧ sv_stopped s = false ∧ sv_v6 s = Listening ∧
    sv_v4 s = Returned (Err e).
Proof.
  intros Htls.
  set (s0 := mk_Server Starting Starting false true [] (app_state_new info)).
  exists (mk_Server (Returned (Err e)) Listening false false [] (app_state_new info)). split; [|done].
  apply (lives_step _ Select (mk_Server (Returned (Err e)) Listening false true [] (app_state_new info)));
    [|done|done].
  apply (lives_step _ (Bind IPv4 (Err e)) (mk_Server Starting Listening false true [] (app_state_new info)));
    [|done|done].
  apply (lives_step _ (Bind IPv6 (Ok ())) s0); [by apply lives_start|done|].
  unfold step_fn, s0, after_bind. simpl. destruct tls_config as [c|]; [|done]. by rewrite Htls.
Qed.

(** The same failure of the IPv6 address ends nothing. *)
Lemma ipv6_failure_is_survived s e :
  sv_v6 s = Returned (Err e) → sv_stopped s = false → (∀ r, sv_v4 s ≠ Returned r) →
  step_fn Select s = None.
Proof.
  intros H6 Hst H4. unfold step_fn, select_ready. rewrite H6, Hst.
  destruct (sv_v4 s); [by destruct (sv_running s)..|by destruct (H4 r)].
Qed.
End lifecycle.
