(* ===== verification/HttpInstances.v ===== *)
(** * Concrete crates for the HTTP files

    Instances of the classes of [HttpTypes] and [HttpClient] that satisfy
    their laws: documents by [Countable] codes, an association list with the
    most recent key first for the [lru] cache, and the concrete runs that
    witness the theorems of [HttpServerProps] and [HttpClientProps]. *)

From stdpp Require Import countable.
From S2P Require Import Prelude Net Serde Signaling Crypto Instances RtcTypes RtcInstances.
From S2P Require Import HttpTypes HttpServer HttpClient Url HttpServerProps HttpClientProps HttpLifecycle.

(** ** Documents *)

#[export] Instance NonceRequest_eq_dec : EqDecision NonceRequest.
Proof. solve_decision. Defined.
#[export] Instance NonceRequest_countable : Countable NonceRequest.
Proof. refine (inj_countable' nq_nonce mk_NonceRequest _). by intros []. Defined.

#[export] Instance NonceResponse_eq_dec : EqDecision NonceResponse.
Proof. solve_decision. Defined.
#[export] Instance NonceResponse_countable : Countable NonceResponse.
Proof. refine (inj_countable' nr_nonce mk_NonceResponse _). by intros []. Defined.

#[export] Instance ErrorResponse_eq_dec : EqDecision ErrorResponse.
Proof. solve_decision. Defined.
#[export] Instance ErrorResponse_countable : Countable ErrorResponse.
Proof. refine (inj_countable' er_message mk_ErrorResponse _). by intros []. Defined.

#[export] Instance ProtocolType_countable : Countable ProtocolType.
Proof.
  refine (inj_countable' (λ p, match p with Http => false | Https => true end)
    (λ b : bool, if b then Https else Http) _).
  by intros [].
Defined.

#[export] Instance RegisterDto_eq_dec : EqDecision RegisterDto.
Proof. solve_decision. Defined.
#[export] Instance RegisterDto_countable : Countable RegisterDto.
Proof.
  refine (inj_countable'
    (λ r, (rd_alias r, rd_version r, rd_device_model r, rd_device_type r,
           (rd_token r, rd_port r, rd_protocol r, rd_has_web_interface r)))
    (λ '(a, v, m, t, (k, p, pr, w)), mk_RegisterDto a v m t k p pr w) _).
  by intros [].
Defined.

#[export] Instance RegisterResponseDto_eq_dec : EqDecision RegisterResponseDto.
Proof. solve_decision. Defined.
#[export] Instance RegisterResponseDto_countable : Countable RegisterResponseDto.
Proof.
  refine (inj_countable'
    (λ r, (rr_alias r, rr_version r, rr_device_model r, rr_device_type r,
           (rr_token r, rr_has_web_interface r)))
    (λ '(a, v, m, t, (k, w)), mk_RegisterResponseDto a v m t k w) _).
  by intros [].
Defined.

#[export] Instance PrepareUploadRequestDto_eq_dec : EqDecision PrepareUploadRequestDto.
Proof. solve_decision. Defined.
#[export] Instance PrepareUploadRequestDto_countable : Countable PrepareUploadRequestDto.
Proof.
  refine (inj_countable' (λ r, (pq_info r, pq_files r)) (λ '(i, f), mk_PrepareUploadRequestDto i f) _).
  by intros [].
Defined.

#[export] Instance PrepareUploadResponseDto_eq_dec : EqDecision PrepareUploadResponseDto.
Proof. solve_decision. Defined.
#[export] Instance PrepareUploadResponseDto_countable : Countable PrepareUploadResponseDto.
Proof.
  refine (inj_countable' (λ r, (pr_session_id r, pr_files r))
    (λ '(i, f), mk_PrepareUploadResponseDto i f) _).
  by intros [].
Defined.

#[export] Instance countable_http_codec : HttpCodec := {|
  nonce_request_json := countable_json;
  nonce_response_json := countable_json;
  error_response_json := countable_json;
  register_json := countable_json;
  register_response_json := countable_json;
  prepare_upload_request_json := countable_json;
  prepare_upload_response_json := countable_json;
  status_display := show_dec
|}.

#[export] Instance countable_http_codec_laws : HttpCodecLaws.
Proof. constructor; apply countable_json_laws. Qed.

#[export] Instance plain_text : ReqwestText := {| decode_text := from_bytes |}.
#[export] Instance plain_text_laws : ReqwestTextLaws.
Proof. by constructor. Qed.

(** ** The cache *)

Fixpoint assoc (l : list (string * bytes)) (k : string) : option bytes :=
  match l with
  | [] => None
  | (k', v) :: l' => if decide (k' = k) then Some v else assoc l' k
  end.

Definition without (k : string) (l : list (string * bytes)) : list (string * bytes) :=
  filter (λ p, p.1 ≠ k) l.

#[export] Instance list_lru : LruCache := {|
  lru := nat * list (string * bytes);
  lru_new n := (n, []);
  lru_put k v c := (c.1, take c.1 ((k, v) :: without k c.2));
  lru_touch k c :=
    match assoc c.2 k with Some v => (c.1, (k, v) :: without k c.2) | None => c end;
  lru_peek c k := assoc c.2 k;
  lru_keys c := c.2.*1;
  lru_cap c := c.1
|}.

Lemma assoc_keys l k : is_Some (assoc l k) ↔ k ∈ l.*1.
Proof.
  induction l as [|[k' v] l IH]; simpl; [split; [by intros []|by intros ?%elem_of_nil]|].
  rewrite elem_of_cons, <- IH. case_decide; naive_solver.
Qed.

Lemma without_keys k l : (without k l).*1 = filter (.≠ k) l.*1.
Proof.
  induction l as [|[k' v] l IH]; [done|]. unfold without in *. rewrite fmap_cons, !filter_cons. simpl.
  repeat case_decide; rewrite ?fmap_cons, ?IH; done.
Qed.

Lemma assoc_without k k' l : k' ≠ k → assoc (without k l) k' = assoc l k'.
Proof.
  intros Hk. induction l as [|[x v] l IH]; [done|]. unfold without in *. rewrite filter_cons. simpl.
  repeat case_decide; simpl; rewrite ?IH; repeat case_decide; naive_solver.
Qed.

Lemma assoc_take n l k : k ∈ (take n l).*1 → assoc (take n l) k = assoc l k.
Proof.
  revert l. induction n as [|n IH]; intros l; simpl; [by intros ?%elem_of_nil|].
  destruct l as [|[x v] l]; simpl; [done|]. rewrite elem_of_cons.
  case_decide; [done|]. intros [?|?]; [by subst|]. by apply IH.
Qed.

#[export] Instance list_lru_laws : LruCacheLaws.
Proof.
  constructor; simpl; try done.
  - intros c k. apply assoc_keys.
  - intros k v c. unfold used. by rewrite <- without_keys, <- firstn_map.
  - intros k v [[|n] l]; simpl; [lia|]. intros _. by rewrite decide_True.
  - intros k v c k' Hk Hin. rewrite assoc_take by done. simpl.
    rewrite decide_False by done. by apply assoc_without.
  - intros k c. by destruct (assoc c.2 k).
  - intros k c. destruct (assoc c.2 k) as [v|] eqn:Hv; simpl.
    + rewrite decide_True by (apply assoc_keys; eauto). unfold used. by rewrite without_keys.
    + rewrite decide_False; [done|]. rewrite <- assoc_keys, Hv. by intros [].
  - intros k c k'. destruct (assoc c.2 k) as [v|] eqn:Hv; simpl; [|done].
    case_decide; [by subst|]. by apply assoc_without.
Qed.

Example lru_evicts :
  lru_keys (lru_put "c" [] (lru_put "a" [] (lru_put "b" [] (lru_put "a" [] (lru_new 2))))) = ["c"; "a"].
Proof. vm_compute. reflexivity. Qed.

(** ** Concrete runs *)

Definition sample_info : HttpClientInfo := mk_HttpClientInfo "Desk" "2.1" None (Some Desktop) "tok".
Definition client_nonce : bytes := replicate 32 Byte.x41.
Definition server_nonce : bytes := replicate 32 Byte.x42.
Definition nonce_json (n : bytes) : bytes := as_bytes (to_json (mk_NonceRequest (b64_encode n))).

(** A client with the certificate [skey]; the certificate of the server is
    [srv], whose key is the text [srv]. *)
Definition tls_conn : Connection :=
  TlsConnection (V4 (V4Octets 10 0 0 2)) (Some [as_bytes "skey"]).
Definition tls_server : ServerEnd :=
  mk_ServerEnd tls_conn true server_nonce (V6 (V6Segments 65152 0 0 0 0 0 0 1))
    (Some (as_bytes "srv")).

Lemma tls_conn_served : tls_served tls_conn.
Proof. eexists _, _, _. split; [done|]. vm_compute. reflexivity. Qed.

Lemma every_request_answered_witness :
  ∃ r st',
    serve tls_conn true server_nonce POST NONCE_PATH (Some (nonce_json client_nonce))
          (app_state_new sample_info) = (Ok r, st') ∧
    rs_status r ∈ [OK; BAD_REQUEST; NOT_FOUND; INTERNAL_SERVER_ERROR].
Proof.
  destruct (every_request_answered tls_conn true server_nonce POST NONCE_PATH
    (Some (nonce_json client_nonce)) (app_state_new sample_info)
    (mk_RequestClientInfo (V4 (V4Octets 10 0 0 2)) (Some (as_bytes "skey"))) eq_refl)
    as (r & st' & Hs & Hr & _).
  by exists r, st'.
Defined.

(** The state of a server after the nonce exchange of [tls_conn]. *)
Definition after_exchange : AppState :=
  file_nonces "skey" client_nonce server_nonce (app_state_new sample_info).

Lemma exchange_runs :
  (serve tls_conn true server_nonce POST NONCE_PATH (Some (nonce_json client_nonce))
         (app_state_new sample_info)).2 = after_exchange.
Proof. vm_compute. reflexivity. Qed.

Lemma after_exchange_reachable (served : Connection → Prop) :
  served tls_conn → server_reachable served true sample_info after_exchange.
Proof.
  intros Hc. eapply (server_request _ _ _ tls_conn server_nonce);
    [apply server_start|exact Hc|reflexivity|].
  rewrite <- exchange_runs. apply surjective_pairing.
Qed.

Lemma nonce_maps_paired_witness :
  lru_keys (as_received after_exchange) = ["skey"] ∧ maps_ok after_exchange.
Proof.
  split; [reflexivity|]. apply (nonce_maps_paired true sample_info).
  by apply after_exchange_reachable.
Defined.

Lemma tls_nonces_filed_under_keys_witness : certified_key "skey".
Proof.
  apply (tls_nonces_filed_under_keys true sample_info after_exchange).
  - apply after_exchange_reachable, tls_conn_served.
  - apply list_elem_of_here.
Defined.

(** A server with TLS that listens on IPv4, accepts the connection and serves
    its exchange. *)
Definition lifecycle_labels : list HttpLifecycle.Label :=
  [Bind IPv6 (Err "in use"); Bind IPv4 (Ok ()); Accept IPv4 (Ok (V4 (V4Octets 10 0 0 2)));
   Handshake 0 (Some [as_bytes "skey"]);
   Serve 0 server_nonce POST NONCE_PATH (Some (nonce_json client_nonce))].

(** PEM as it is, for any pair. *)
#[export] Instance plain_rustls : Rustls := {|
  certificate_from_pem := λ s, Ok (as_bytes s);
  private_key_from_pem := λ s, Ok (as_bytes s);
  root_store_add := λ _, Ok ();
  build_verifier := λ _, Ok ();
  with_single_cert := λ _ _, Ok ()
|}.

Definition good_tls : option TlsConfig := Some (mk_TlsConfig "srv" "key").

Definition lifecycle_end : Server :=
  default (mk_Server Starting Starting false true [] (app_state_new sample_info))
    (run_server good_tls true lifecycle_labels
       (mk_Server Starting Starting false true [] (app_state_new sample_info))).

Lemma lifecycle_end_lives : lives good_tls true sample_info lifecycle_end.
Proof.
  apply (run_lives good_tls true sample_info lifecycle_labels
    (mk_Server Starting Starting false true [] (app_state_new sample_info))).
  - by apply lives_start.
  - by repeat constructor.
  - vm_compute. reflexivity.
Qed.

Lemma lifecycle_refines_requests_witness :
  sv_state lifecycle_end = after_exchange ∧ sv_tasks lifecycle_end = [Serving tls_conn] ∧
  server_reachable (served good_tls) true sample_info after_exchange.
Proof.
  split; [vm_compute; reflexivity|]. split; [vm_compute; reflexivity|].
  exact (proj1 (lifecycle_refines_requests good_tls true sample_info lifecycle_end lifecycle_end_lives)).
Defined.

Lemma nonce_exchange_agreement_witness :
  ∃ c' st',
    nonce (loopback tls_server) true client_nonce Https "fe80::1" 53317 new_client
          (app_state_new sample_info) = (Ok (b64_encode server_nonce), c', st') ∧
    lru_peek (hc_received c') "srv" = Some server_nonce ∧
    lru_peek (as_received st') "skey" = Some client_nonce.
Proof.
  destruct (nonce_exchange_agreement (loopback tls_server) tls_server true client_nonce Https
    "fe80::1" 53317 new_client (app_state_new sample_info)
    (mk_RequestClientInfo (V4 (V4Octets 10 0 0 2)) (Some (as_bytes "skey"))) "srv")
    as (c' & st' & Hrun & _ & Hme & Hyou & _).
  - apply loopback_delivers.
  - reflexivity.
  - exists (as_bytes "srv"). split_and!; vm_compute; reflexivity.
  - compute_done.
  - unfold u16_max. lia.
  - reflexivity.
  - apply client_ok_new.
  - apply maps_ok_new.
  - exists c', st'. done.
Defined.

Definition sample_upload : PrepareUploadRequestDto :=
  mk_PrepareUploadRequestDto
    (mk_RegisterDto "Desk" "2.1" None None "tok" 53317 Https false) ∅.

Lemma transfer_requests_not_found_witness :
  prepare_upload (loopback tls_server) Https "10.0.0.9" 53317 None sample_upload
    (app_state_new sample_info) = (Err (StatusCodeError 404 None), app_state_new sample_info).
Proof.
  refine (proj1 (transfer_requests_not_found (loopback tls_server) tls_server Https
    (V4Octets 10 0 0 9) 53317 sample_upload "" "" "" [] (app_state_new sample_info)
    (mk_RequestClientInfo (V4 (V4Octets 10 0 0 2)) (Some (as_bytes "skey"))) _ _ _)).
  - apply loopback_delivers.
  - reflexivity.
  - unfold u16_max. lia.
Defined.
