(* ===== verification/SignalingClient.v ===== *)
(** * The signaling client

    [SignalingConnection] and [ManagedSignalingConnection] of
    [core/src/webrtc/signaling.rs]: the tasks [connect] and [start_listener]
    spawn, as a machine whose steps are what one task does between two await
    points.  [mpsc] channels are queues with their capacity; a send to a full
    channel is a step that is not enabled. *)

From S2P Require Import Prelude Serde Signaling.

(** What the websocket stream yields: a text message, another message, or an
    error. *)
Inductive Frame := FText (message : string) | FOther | FError.

(** An [AnswerCallback]; [send_offer] of [webrtc.rs] registers one that
    unwraps a send on a oneshot channel, so calling it panics when the waiting
    side is gone. *)
Abbreviation Callback := N.

(** The reader task: waiting for the next frame, or in one of its sends. *)
Inductive ReaderTask :=
| Reading
| GivingClient (client : ClientInfo) (message : WsServerMessage)
| Giving (message : WsServerMessage)
| ReaderDone.

(** The caller of [connect], waiting for the client information. *)
Inductive Caller := Waiting | Connected (client : ClientInfo) | CallerPanicked.

Inductive ListenerTask :=
| NotStarted
| Listening
| Forwarding (message : WsServerMessage)
| ListenerPanicked
| ListenerDone.

Definition RECEIVE_CAPACITY : nat := 1.
Definition CLIENT_CAPACITY : nat := 1.
Definition LISTENER_CAPACITY : nat := 16.

(** [sg_all], [sg_seen], [sg_called] and [sg_registered] record what has
    happened: the messages of the server, what the application has read, the
    callbacks that were called and registered. *)
Record Client := mk_Client {
  sg_wire : list Frame;
  sg_wire_closed : bool;
  sg_reader : ReaderTask;
  sg_client_ch : list ClientInfo;
  sg_caller : Caller;
  sg_receive : list WsServerMessage;
  sg_listener : ListenerTask;
  sg_callbacks : gmap string Callback;
  sg_gone : list Callback;
  sg_out : list WsServerMessage;
  sg_out_open : bool;
  sg_all : list WsServerMessage;
  sg_seen : list WsServerMessage;
  sg_called : list (Callback * WsServerSdpMessage);
  sg_registered : list (string * Callback)
}.

(** The state when [connect] has spawned its tasks. *)
Definition client_start : Client :=
  mk_Client [] false Reading [] Waiting [] NotStarted ∅ [] [] true [] [] [] [].

(** Assignments to one field. *)

Definition set_wire (x : list Frame) (st : Client) : Client :=
  mk_Client x (sg_wire_closed st) (sg_reader st) (sg_client_ch st) (sg_caller st)
    (sg_receive st) (sg_listener st) (sg_callbacks st) (sg_gone st) (sg_out st) (sg_out_open st)
    (sg_all st) (sg_seen st) (sg_called st) (sg_registered st).
Definition set_closed (x : bool) (st : Client) : Client :=
  mk_Client (sg_wire st) x (sg_reader st) (sg_client_ch st) (sg_caller st) (sg_receive st)
    (sg_listener st) (sg_callbacks st) (sg_gone st) (sg_out st) (sg_out_open st) (sg_all st)
    (sg_seen st) (sg_called st) (sg_registered st).
Definition set_reader (x : ReaderTask) (st : Client) : Client :=
  mk_Client (sg_wire st) (sg_wire_closed st) x (sg_client_ch st) (sg_caller st) (sg_receive st)
    (sg_listener st) (sg_callbacks st) (sg_gone st) (sg_out st) (sg_out_open st) (sg_all st)
    (sg_seen st) (sg_called st) (sg_registered st).
Definition set_client_ch (x : list ClientInfo) (st : Client) : Client :=
  mk_Client (sg_wire st) (sg_wire_closed st) (sg_reader st) x (sg_caller st) (sg_receive st)
    (sg_listener st) (sg_callbacks st) (sg_gone st) (sg_out st) (sg_out_open st) (sg_all st)
    (sg_seen st) (sg_called st) (sg_registered st).
Definition set_caller (x : Caller) (st : Client) : Client :=
  mk_Client (sg_wire st) (sg_wire_closed st) (sg_reader st) (sg_client_ch st) x (sg_receive st)
    (sg_listener st) (sg_callbacks st) (sg_gone st) (sg_out st) (sg_out_open st) (sg_all st)
    (sg_seen st) (sg_called st) (sg_registered st).
Definition set_receive (x : list WsServerMessage) (st : Client) : Client :=
  mk_Client (sg_wire st) (sg_wire_closed st) (sg_reader st) (sg_client_ch st) (sg_caller st) x
    (sg_listener st) (sg_callbacks st) (sg_gone st) (sg_out st) (sg_out_open st) (sg_all st)
    (sg_seen st) (sg_called st) (sg_registered st).
Definition set_listener (x : ListenerTask) (st : Client) : Client :=
  mk_Client (sg_wire st) (sg_wire_closed st) (sg_reader st) (sg_client_ch st) (sg_caller st)
    (sg_receive st) x (sg_callbacks st) (sg_gone st) (sg_out st) (sg_out_open st) (sg_all st)
    (sg_seen st) (sg_called st) (sg_registered st).
Definition set_callbacks (x : gmap string Callback) (st : Client) : Client :=
  mk_Client (sg_wire st) (sg_wire_closed st) (sg_reader st) (sg_client_ch st) (sg_caller st)
    (sg_receive st) (sg_listener st) x (sg_gone st) (sg_out st) (sg_out_open st) (sg_all st)
    (sg_seen st) (sg_called st) (sg_registered st).
Definition set_gone (x : list Callback) (st : Client) : Client :=
  mk_Client (sg_wire st) (sg_wire_closed st) (sg_reader st) (sg_client_ch st) (sg_caller st)
    (sg_receive st) (sg_listener st) (sg_callbacks st) x (sg_out st) (sg_out_open st)
    (sg_all st) (sg_seen st) (sg_called st) (sg_registered st).
Definition set_out (x : list WsServerMessage) (st : Client) : Client :=
  mk_Client (sg_wire st) (sg_wire_closed st) (sg_reader st) (sg_client_ch st) (sg_caller st)
    (sg_receive st) (sg_listener st) (sg_callbacks st) (sg_gone st) x (sg_out_open st)
    (sg_all st) (sg_seen st) (sg_called st) (sg_registered st).
Definition set_open (x : bool) (st : Client) : Client :=
  mk_Client (sg_wire st) (sg_wire_closed st) (sg_reader st) (sg_client_ch st) (sg_caller st)
    (sg_receive st) (sg_listener st) (sg_callbacks st) (sg_gone st) (sg_out st) x (sg_all st)
    (sg_seen st) (sg_called st) (sg_registered st).
Definition set_all (x : list WsServerMessage) (st : Client) : Client :=
  mk_Client (sg_wire st) (sg_wire_closed st) (sg_reader st) (sg_client_ch st) (sg_caller st)
    (sg_receive st) (sg_listener st) (sg_callbacks st) (sg_gone st) (sg_out st) (sg_out_open st)
    x (sg_seen st) (sg_called st) (sg_registered st).
Definition set_seen (x : list WsServerMessage) (st : Client) : Client :=
  mk_Client (sg_wire st) (sg_wire_closed st) (sg_reader st) (sg_client_ch st) (sg_caller st)
    (sg_receive st) (sg_listener st) (sg_callbacks st) (sg_gone st) (sg_out st) (sg_out_open st)
    (sg_all st) x (sg_called st) (sg_registered st).
Definition set_called (x : list (Callback * WsServerSdpMessage)) (st : Client) : Client :=
  mk_Client (sg_wire st) (sg_wire_closed st) (sg_reader st) (sg_client_ch st) (sg_caller st)
    (sg_receive st) (sg_listener st) (sg_callbacks st) (sg_gone st) (sg_out st) (sg_out_open st)
    (sg_all st) (sg_seen st) x (sg_registered st).
Definition set_registered (x : list (string * Callback)) (st : Client) : Client :=
  mk_Client (sg_wire st) (sg_wire_closed st) (sg_reader st) (sg_client_ch st) (sg_caller st)
    (sg_receive st) (sg_listener st) (sg_callbacks st) (sg_gone st) (sg_out st) (sg_out_open st)
    (sg_all st) (sg_seen st) (sg_called st) x.

Inductive Label :=
| ServerSends (f : Frame)
| ServerCloses
| ReaderStep
| CallerStep
| StartListener
| ListenerRecv
| ListenerForward
| AppRecv
| AppDrops
| OnAnswer (session_id : string) (callback : Callback)
| CallbackGone (callback : Callback).

#[export] Instance Frame_eq_dec : EqDecision Frame.
Proof. solve_decision. Defined.
#[export] Instance Label_eq_dec : EqDecision Label.
Proof. solve_decision. Defined.

Section client.
Context `{Base64, SerdeJson ClientInfoWithoutId, SerdeJson WsClientMessage, SerdeJson WsServerMessage}.

(** The URI [connect] opens. *)
Definition connect_uri (uri : string) (info : ClientInfoWithoutId) : string :=
  uri +:+ "?d=" +:+ b64_encode (as_bytes (to_json info)).

(** The messages of a frame: what does not parse is logged and dropped. *)
Definition frame_messages (f : Frame) : list WsServerMessage :=
  match f with
  | FText message => match from_json (as_bytes message) with Some m => [m] | None => [] end
  | FOther | FError => []
  end.

Definition listener_alive (l : ListenerTask) : bool :=
  match l with ListenerPanicked | ListenerDone => false | _ => true end.

(** [read.for_each]. *)
Definition reader_step (st : Client) : option Client :=
  match sg_reader st with
  | Reading =>
      match sg_wire st with
      | f :: wire =>
          let reader :=
            match frame_messages f with
            | Hello client peers as m :: _ => GivingClient client m
            | m :: _ => Giving m
            | [] => Reading
            end in
          Some (set_reader reader (set_wire wire st))
      | [] => if sg_wire_closed st then Some (set_reader ReaderDone st) else None
      end
  | GivingClient client m =>
      match sg_caller st with
      | Waiting =>
          if decide (length (sg_client_ch st) < CLIENT_CAPACITY) then
            Some (set_reader (Giving m) (set_client_ch (sg_client_ch st ++ [client]) st))
          else None
      | _ => Some (set_reader Reading st) (* the receiver is gone: return *)
      end
  | Giving m =>
      if listener_alive (sg_listener st) then
        if decide (length (sg_receive st) < RECEIVE_CAPACITY) then
          Some (set_reader Reading (set_receive (sg_receive st ++ [m]) st))
        else None
      else Some (set_reader Reading st)
  | ReaderDone => None
  end.

(** [client_rx.recv().await.unwrap()]. *)
Definition caller_step (st : Client) : option Client :=
  match sg_caller st, sg_client_ch st, sg_reader st with
  | Waiting, client :: client_ch, _ =>
      Some (set_caller (Connected client) (set_client_ch client_ch st))
  | Waiting, [], ReaderDone => Some (set_caller CallerPanicked st)
  | _, _, _ => None
  end.

(** The task panics: the receiver it owns is dropped. *)
Definition listener_panics (st : Client) : Client :=
  set_listener ListenerPanicked (set_receive [] st).

(** One iteration of the task of [start_listener], up to its send. *)
Definition listener_recv (st : Client) : option Client :=
  match sg_listener st, sg_receive st with
  | Listening, m :: receive =>
      let st' := set_listener (Forwarding m) (set_receive receive st) in
      match m with
      | Answer sdp =>
          match sg_callbacks st !! ss_session_id sdp with
          | Some cb =>
              let st' := set_callbacks (delete (ss_session_id sdp) (sg_callbacks st)) st' in
              if decide (cb ∈ sg_gone st) then Some (listener_panics st')
              else Some (set_called (sg_called st ++ [(cb, sdp)]) st')
          | None => Some st'
          end
      | _ => Some st'
      end
  | Listening, [] =>
      match sg_reader st with
      | ReaderDone => Some (set_listener ListenerDone st)
      | _ => None
      end
  | _, _ => None
  end.

(** [tx.send(message).await.unwrap()]. *)
Definition listener_forward (st : Client) : option Client :=
  match sg_listener st with
  | Forwarding m =>
      if negb (sg_out_open st) then Some (listener_panics st)
      else if decide (length (sg_out st) < LISTENER_CAPACITY) then
        Some (set_listener Listening (set_out (sg_out st ++ [m]) st))
      else None
  | _ => None
  end.

(** [start_listener] spawns the task. *)
Definition start_listener (st : Client) : option Client :=
  match sg_caller st, sg_listener st with
  | Connected _, NotStarted => Some (set_listener Listening st)
  | _, _ => None
  end.

(** [ManagedSignalingConnection::on_answer]. *)
Definition on_answer (session_id : string) (cb : Callback) (st : Client) : Client :=
  set_registered (sg_registered st ++ [(session_id, cb)])
    (set_callbacks (<[session_id := cb]> (sg_callbacks st)) st).

Definition app_recv (st : Client) : option Client :=
  match sg_out st, sg_out_open st with
  | m :: out, true => Some (set_seen (sg_seen st ++ [m]) (set_out out st))
  | _, _ => None
  end.

Definition client_step (l : Label) (st : Client) : option Client :=
  match l with
  | ServerSends f =>
      if sg_wire_closed st then None
      else Some (set_all (sg_all st ++ frame_messages f) (set_wire (sg_wire st ++ [f]) st))
  | ServerCloses => Some (set_closed true st)
  | ReaderStep => reader_step st
  | CallerStep => caller_step st
  | StartListener => start_listener st
  | ListenerRecv => listener_recv st
  | ListenerForward => listener_forward st
  | AppRecv => app_recv st
  | AppDrops => Some (set_open false st)
  | OnAnswer session_id cb => Some (on_answer session_id cb st)
  | CallbackGone cb => Some (set_gone (cb :: sg_gone st) st)
  end.

Fixpoint run_client (ls : list Label) (st : Client) : option Client :=
  match ls with
  | [] => Some st
  | l :: ls => st ← client_step l st; run_client ls st
  end.

Definition client_reachable (st : Client) : Prop := ∃ ls, run_client ls client_start = Some st.

(** [send_update], [send_offer] and [send_answer]: the message they put on
    the channel of the writer ([SignalingWriter]). *)
Definition send_update_message (info : ClientInfoWithoutId) : WsClientMessage := CUpdate info.
Definition send_offer_message (session_id : string) (target : Uuid) (sdp : string)
    : WsClientMessage := COffer (mk_WsClientSdpMessage session_id target sdp).
Definition send_answer_message (session_id : string) (target : Uuid) (sdp : string)
    : WsClientMessage := CAnswer (mk_WsClientSdpMessage session_id target sdp).
End client.
