(* ===== verification/SignalingClientProps.v ===== *)
(** * What the signaling client guarantees

    The messages of the server reach the application in order and none twice;
    [connect] finishes only with a Hello among the first two messages; an
    answer reaches the callback of its own session, once, and only if the
    callback was registered before the answer is taken from the channel. *)

From S2P Require Import Prelude Serde Signaling SignalingClient.

Section client.
Context `{Base64, SerdeJson ClientInfoWithoutId, SerdeJson WsClientMessage, SerdeJson WsServerMessage}.
Implicit Types (st : Client) (m : WsServerMessage) (ms : list WsServerMessage).

(** ** The way of a message *)

Definition held (r : ReaderTask) : list WsServerMessage :=
  match r with GivingClient _ m | Giving m => [m] | _ => [] end.

Definition forwarded (l : ListenerTask) : list WsServerMessage :=
  match l with Forwarding m => [m] | _ => [] end.

(** What was read by the application, then what is on its way to it. *)
Definition pipeline st : list WsServerMessage :=
  sg_seen st ++ sg_out st ++ forwarded (sg_listener st) ++ sg_receive st ++
  held (sg_reader st) ++ (sg_wire st ≫= frame_messages).

Definition is_hello m : Prop := match m with Hello _ _ => True | _ => False end.

#[export] Instance is_hello_dec m : Decision (is_hello m).
Proof. destruct m; apply _. Defined.

Definition hellos ms : nat := length (filter is_hello ms).

(** What has passed the first send of the reader. *)
Definition passed st : list WsServerMessage :=
  sg_seen st ++ sg_out st ++ forwarded (sg_listener st) ++ sg_receive st ++
  match sg_reader st with Giving m => [m] | _ => [] end.

Lemma frame_messages_cases f : frame_messages f = [] ∨ ∃ m, frame_messages f = [m].
Proof. destruct f as [s| |]; simpl; [|by left..]. destruct (from_json _); eauto. Qed.

Lemma hellos_app ms ms' : hellos (ms ++ ms') = hellos ms + hellos ms'.
Proof. unfold hellos. by rewrite filter_app, length_app. Qed.

Lemma hellos_cons m ms : hellos (m :: ms) = (if decide (is_hello m) then 1 else 0) + hellos ms.
Proof. unfold hellos. rewrite filter_cons. by case_decide. Qed.

Lemma hellos_pos ms m : m ∈ ms → is_hello m → 0 < hellos ms.
Proof.
  intros Hm Hh. unfold hellos. assert (m ∈ filter is_hello ms) as Hin
    by (apply list_elem_of_filter; auto).
  destruct (filter is_hello ms); [by apply elem_of_nil in Hin|simpl; lia].
Qed.

(** ** The invariant *)

Record client_inv st : Prop := {
  inv_order : pipeline st `sublist_of` sg_all st;
  inv_complete : sg_caller st = Waiting ∨ hellos (sg_all st) ≤ 1 ∧ sg_listener st ≠ ListenerPanicked →
    pipeline st = sg_all st;
  inv_passed : sg_listener st ≠ ListenerPanicked → sg_caller st ≠ CallerPanicked →
    sg_caller st ≠ Waiting ∨ sg_client_ch st ≠ [] → 0 < hellos (passed st);
  inv_caps : length (sg_out st) ≤ LISTENER_CAPACITY ∧ length (sg_receive st) ≤ RECEIVE_CAPACITY;
  inv_done : sg_reader st = ReaderDone → sg_wire st = [] ∧ sg_wire_closed st = true;
  inv_listener : sg_listener st = ListenerDone → sg_reader st = ReaderDone ∧ sg_receive st = [];
  inv_unseen : sg_caller st = Waiting → sg_client_ch st = [] → hellos (passed st) = 0;
  inv_no_hello : sg_caller st = CallerPanicked → hellos (sg_all st) = 0;
  inv_panicked : sg_caller st = CallerPanicked → sg_reader st = ReaderDone ∧ sg_listener st = NotStarted;
  inv_waiting : sg_caller st = Waiting → sg_listener st = NotStarted;
  inv_not_started : sg_listener st = NotStarted → sg_seen st = [] ∧ sg_out st = [];
  inv_giving c m : sg_reader st = GivingClient c m → ∃ peers, m = Hello c peers;
  inv_client c : c ∈ sg_client_ch st ∨ sg_caller st = Connected c →
    ∃ peers, Hello c peers ∈ take 2 (sg_all st)
}.

Lemma client_inv_start : client_inv client_start.
Proof.
  constructor; simpl; try done.
  - intros _ _ [?|?]; done.
  - unfold LISTENER_CAPACITY, RECEIVE_CAPACITY. lia.
  - intros c [Hc|?]; [by apply elem_of_nil in Hc|done].
Qed.

Lemma take_app_mono {A} n (xs ys : list A) x : x ∈ take n xs → x ∈ take n (xs ++ ys).
Proof. rewrite take_app, elem_of_app. auto. Qed.

End client.

(** The state opened into its fields, the invariant into its clauses. *)
Ltac client_open :=
  match goal with
  | Hinv : client_inv ?st |- _ =>
      destruct Hinv as [Ho Hc Hp [Hl Hr] Hd Hld Hun Hnh Hpa Hw Hns Hg Hcl];
      destruct st as [wire closed reader client_ch caller receive listener cbs gone out open all
                      seen called reg];
      unfold pipeline, passed in *; simpl in *
  end.

(** Clauses that hold as before. *)
Ltac client_close :=
  constructor; unfold pipeline, passed; simpl; try done;
  try (intros; split; (done || eauto; done)); try (intros; simplify_eq/=; eauto; done);
  try (intros; exfalso; intuition congruence).

(** The Hello that has passed stays among the messages that have passed. *)
Ltac client_passed Hp :=
  intros HLp HCp HWp; specialize (Hp ltac:(done) HCp HWp); revert Hp;
  rewrite ?hellos_app, ?hellos_cons, ?hellos_app; change (hellos []) with 0; lia.

(** As long as the caller has nothing to receive no Hello has passed. *)
Ltac client_unseen Hun :=
  intros HWu HCu; specialize (Hun ltac:(done) ltac:(done)); revert Hun;
  rewrite ?hellos_app, ?hellos_cons, ?hellos_app; simpl; lia.

(** The capacities of the channels. *)
Ltac client_caps :=
  unfold LISTENER_CAPACITY, RECEIVE_CAPACITY in *; rewrite ?length_app in *; simpl in *; lia.

Section preservation.
Context `{Base64, SerdeJson ClientInfoWithoutId, SerdeJson WsClientMessage, SerdeJson WsServerMessage}.
Implicit Types (st : Client) (m : WsServerMessage) (ms : list WsServerMessage).

Lemma server_sends_inv f st st' :
  client_inv st → client_step (ServerSends f) st = Some st' → client_inv st'.
Proof.
  intros Hinv Hs. client_open. destruct closed; simplify_eq/=.
  assert (∀ pre : list WsServerMessage,
    pre ++ ((wire ++ [f]) ≫= frame_messages) = (pre ++ (wire ≫= frame_messages)) ++ frame_messages f)
    as Happ by (intros pre; rewrite bind_app; simpl; by rewrite app_nil_r, app_assoc).
  constructor; unfold pipeline, passed; simpl; try done.
  - rewrite !app_assoc, Happ. apply sublist_app; [|done]. by rewrite <- !app_assoc.
  - intros Hcase. rewrite !app_assoc, Happ. f_equal. rewrite <- !app_assoc. apply Hc.
    destruct Hcase as [?|[Hh ?]]; [by left|]. right. rewrite hellos_app in Hh. split; [lia|done].
  - intros Hdone. by destruct (Hd Hdone) as [_ ?].
  - intros Hpan. destruct (Hpa Hpan) as [Hdone _]. by destruct (Hd Hdone) as [_ ?].
  - intros c Hc'. destruct (Hcl c Hc') as [peers Hin]. exists peers. by apply take_app_mono.
Qed.

Lemma sublist_drop_middle {A} (xs ys zs ws : list A) :
  xs ++ ys ++ zs `sublist_of` ws → xs ++ zs `sublist_of` ws.
Proof.
  intros Hsub. etrans; [|exact Hsub]. apply sublist_app; [done|]. by apply sublist_inserts_l.
Qed.

Lemma take_2_early {A} (xs ys : list A) x : length xs ≤ 1 → x ∈ take 2 (xs ++ x :: ys).
Proof.
  destruct xs as [|y [|z xs]]; simpl; intros Hl; [apply list_elem_of_here| |lia].
  apply list_elem_of_further, list_elem_of_here.
Qed.

(** A Hello is not sent to a caller that has one already: there were two. *)
Lemma second_hello_counts st c c' m :
  client_inv st → sg_reader st = GivingClient c m → sg_caller st = Connected c' →
  hellos (sg_all st) ≤ 1 → sg_listener st ≠ ListenerPanicked → False.
Proof.
  intros Hinv Hrd Hca Hh Hl. destruct (inv_giving _ Hinv c m Hrd) as [peers ->].
  pose proof (inv_complete _ Hinv (or_intror (conj Hh Hl))) as Hall.
  assert (0 < hellos (passed st)) as Hp
    by (apply (inv_passed _ Hinv Hl); [congruence|left; congruence]).
  rewrite <- Hall in Hh. unfold pipeline, passed in *. rewrite Hrd in *. simpl in *.
  change (Hello c peers :: ?ms) with ([Hello c peers] ++ ms) in Hh.
  rewrite !hellos_app in *. cbv [hellos] in *. simpl in *. lia.
Qed.

Lemma reader_step_inv st st' : client_inv st → reader_step st = Some st' → client_inv st'.
Proof.
  intros Hinv Hs. pose proof (λ c c' m, second_hello_counts st c c' m Hinv) as Hsecond.
  client_open. unfold reader_step in Hs. simpl in Hs.
  destruct reader as [|c m|m|]; simplify_eq/=.
  - destruct wire as [|f wire]; [destruct closed; simplify_eq/=; client_close|].
    simplify_eq/=. destruct (frame_messages_cases f) as [Hf|[m Hf]]; rewrite Hf in *.
    + simpl in *. client_close.
    + destruct m; simpl in *; client_close;
        (client_passed Hp || client_unseen Hun).
  - destruct caller as [|c'|]; simplify_eq/=.
    + case_decide; simplify_eq/=. destruct (Hg c m eq_refl) as [peers ->]. client_close.
      * intros _ _ _. rewrite !hellos_app. cbv [hellos]. simpl. lia.
      * intros _. by destruct client_ch.
      * intros c' [[Hin|?%list_elem_of_singleton]%elem_of_app|?]; [eauto| |done]. subst c'.
        exists peers. destruct (Hns (Hw eq_refl)) as [-> ->]. rewrite (Hw eq_refl) in Hc.
        rewrite <- (Hc (or_introl eq_refl)). by apply take_2_early.
    + client_close.
      * rewrite app_assoc, app_assoc, app_assoc.
        eapply (sublist_drop_middle _ [m]). by rewrite <- !app_assoc.
      * intros [?|[Hh Hpan]]; [done|]. destruct (Hsecond c c' m eq_refl eq_refl Hh Hpan).
    + by destruct (Hpa eq_refl).
  - destruct (listener_alive listener) eqn:Hal; [case_decide|]; simplify_eq/=.
    + client_close.
      * by rewrite <- app_assoc.
      * by rewrite <- app_assoc.
      * by rewrite app_nil_r.
      * client_caps.
      * by rewrite app_nil_r.
    + assert (listener = ListenerPanicked) as -> by (destruct listener; (done || by destruct (Hld eq_refl))).
      client_close.
      * simpl in Ho. rewrite app_assoc, app_assoc.
        eapply (sublist_drop_middle _ [m]). by rewrite <- !app_assoc.
Qed.

Lemma caller_step_inv st st' : client_inv st → caller_step st = Some st' → client_inv st'.
Proof.
  intros Hinv Hs. client_open. unfold caller_step in Hs. simpl in Hs.
  destruct caller; [|done..]. destruct client_ch as [|c client_ch].
  - destruct reader; simplify_eq/=. client_close.
    + intros _. destruct (Hd eq_refl) as [-> _]. rewrite <- (Hc (or_introl eq_refl)).
      exact (Hun eq_refl eq_refl).
    + intros c [?%elem_of_nil|?]; done.
  - simplify_eq/=. client_close.
    intros c' [?|[= <-]]; apply Hcl; left; [by apply list_elem_of_further|apply list_elem_of_here].
Qed.

Lemma listener_recv_inv st st' : client_inv st → listener_recv st = Some st' → client_inv st'.
Proof.
  intros Hinv Hs. client_open. unfold listener_recv in Hs. simpl in Hs.
  destruct listener; [done| |done..].
  assert (caller ≠ Waiting) as Hcw by (intros Hcw; by specialize (Hw Hcw)).
  destruct receive as [|m receive].
  - destruct reader; simplify_eq/=. client_close.
    intros [?|[? _]]; [done|]. apply Hc. by right.
  - assert (∀ cbs' called',
      client_inv (mk_Client wire closed reader client_ch caller receive (Forwarding m) cbs' gone out
                    open all seen called' reg)) as Hfwd.
    { intros cbs' called'. client_close.
      - intros [?|[? _]]; [done|]. apply Hc. by right.
      - client_caps. }
    assert (∀ cbs',
      client_inv (mk_Client wire closed reader client_ch caller [] ListenerPanicked cbs' gone out
                    open all seen called reg)) as Hpan.
    { intros cbs'. client_close.
      - rewrite app_assoc. eapply (sublist_drop_middle _ (m :: receive)). by rewrite <- app_assoc.
      - client_caps. }
    destruct m; simplify_eq/=; [apply Hfwd..| |apply Hfwd].
    destruct (cbs !! _); [case_decide|]; simplify_eq/=; [apply Hpan|apply Hfwd..].
Qed.

Lemma listener_forward_inv st st' : client_inv st → listener_forward st = Some st' → client_inv st'.
Proof.
  intros Hinv Hs. client_open. unfold listener_forward in Hs. simpl in Hs.
  destruct listener as [| |m| |]; [done..| |done|done].
  assert (caller ≠ Waiting) as Hcw by (intros Hcw; by specialize (Hw Hcw)).
  destruct open; simpl in Hs; [case_decide|]; simplify_eq/=; client_close.
  - by rewrite <- app_assoc.
  - intros [?|[? _]]; [done|]. rewrite <- app_assoc. apply Hc. by right.
  - client_passed Hp.
  - client_caps.
  - rewrite app_assoc. eapply (sublist_drop_middle _ (m :: receive)). by rewrite <- app_assoc.
  - client_caps.
Qed.

Lemma app_recv_inv st st' : client_inv st → app_recv st = Some st' → client_inv st'.
Proof.
  intros Hinv Hs. client_open. unfold app_recv in Hs. simpl in Hs.
  destruct out as [|m out]; [done|]. destruct open; simplify_eq/=. client_close.
  - by rewrite <- app_assoc.
  - by rewrite <- app_assoc.
  - client_passed Hp.
  - client_caps.
Qed.

Lemma client_step_inv l st st' : client_inv st → client_step l st = Some st' → client_inv st'.
Proof.
  intros Hinv Hs. destruct l; simpl in Hs.
  - by eapply server_sends_inv.
  - client_open. simplify_eq/=. client_close.
    intros Hdone. by destruct (Hd Hdone) as [-> _].
  - by eapply reader_step_inv.
  - by eapply caller_step_inv.
  - client_open. unfold start_listener in Hs. simpl in Hs.
    destruct caller, listener; simplify_eq/=. client_close.
    intros [?|[? _]]; [done|]. apply Hc. by right.
  - by eapply listener_recv_inv.
  - by eapply listener_forward_inv.
  - by eapply app_recv_inv.
  - client_open. simplify_eq/=. client_close.
  - client_open. simplify_eq/=. client_close.
  - client_open. simplify_eq/=. client_close.
Qed.

Lemma run_client_app ls ls' st :
  run_client (ls ++ ls') st = run_client ls st ≫= run_client ls'.
Proof.
  revert st. induction ls as [|l ls IH]; intros st; simpl; [done|].
  destruct (client_step l st); simpl; [apply IH|done].
Qed.

Lemma client_reachable_run ls st st' :
  client_reachable st → run_client ls st = Some st' → client_reachable st'.
Proof. intros [ls0 Hls0] Hls. exists (ls0 ++ ls). by rewrite run_client_app, Hls0. Qed.

(** Rule induction on the steps of the client. *)
Lemma client_reachable_ind (I : Client → Prop) :
  I client_start →
  (∀ l st st', client_reachable st → I st → client_step l st = Some st' → I st') →
  ∀ st, client_reachable st → I st.
Proof.
  intros Hstart Hstep st [ls Hls].
  assert (client_reachable client_start) as Hreach by by exists [].
  revert Hls Hreach Hstart. generalize client_start.
  induction ls as [|l ls IH]; intros st0 Hrun Hreach Hst0; simplify_eq/=; [done|].
  destruct (client_step l st0) as [st1|] eqn:Hl; simplify_eq/=.
  apply (IH st1); [done| |by eapply Hstep].
  destruct Hreach as [ls0 Hls0]. exists (ls0 ++ [l]). rewrite run_client_app, Hls0. simpl. by rewrite Hl.
Qed.

Lemma client_reachable_inv st : client_reachable st → client_inv st.
Proof.
  revert st. apply client_reachable_ind; [apply client_inv_start|].
  intros l st st' _. apply client_step_inv.
Qed.
End preservation.
