(* ===== verification/SignalingClientBehaviour.v ===== *)
(** * The signaling client: order, delivery and answers

    The theorems about [SignalingClient]: the order of the messages, the
    termination of the tasks between two actions of the outside world and what
    they have delivered by then, and the life of the callbacks. *)

From stdpp Require Import sets.
From S2P Require Import Prelude Serde Signaling SignalingClient SignalingClientProps.

Section behaviour.
Context `{Base64, SerdeJson ClientInfoWithoutId, SerdeJson WsClientMessage, SerdeJson WsServerMessage}.
Implicit Types (st : Client) (m : WsServerMessage) (ms : list WsServerMessage).

(** The messages of the server reach the application in the order they
    were sent, none twice; as long as the server greets the client only once
    and the listener runs none is left out, and the channels between the tasks
    hold no more than their capacity. *)
Theorem messages_in_order st :
  client_reachable st →
  sg_seen st `sublist_of` sg_all st ∧
  (hellos (sg_all st) ≤ 1 → sg_listener st ≠ ListenerPanicked → sg_seen st `prefix_of` sg_all st) ∧
  length (sg_out st) ≤ LISTENER_CAPACITY ∧ length (sg_receive st) ≤ RECEIVE_CAPACITY.
Proof.
  intros Hst%client_reachable_inv. split_and!; [| |apply inv_caps, Hst..].
  - etrans; [|apply inv_order, Hst]. apply sublist_inserts_r. done.
  - intros Hh Hl. rewrite <- (inv_complete _ Hst (or_intror (conj Hh Hl))).
    apply prefix_app_r. done.
Qed.

(** [connect] returns only with the information of a Hello that is the
    first or the second message of the server: further messages before it
    leave no room in the channel that nobody reads yet. *)
Theorem connect_needs_early_hello st c :
  client_reachable st → sg_caller st = Connected c →
  ∃ peers, Hello c peers ∈ take 2 (sg_all st).
Proof. intros Hst%client_reachable_inv Hc. apply (inv_client _ Hst). by right. Qed.

(** ** Termination *)

(** What the tasks and the application do on their own. *)
Definition internal (l : Label) : Prop :=
  match l with
  | ReaderStep | CallerStep | StartListener | ListenerRecv | ListenerForward | AppRecv => True
  | _ => False
  end.

Definition reader_work (r : ReaderTask) : nat :=
  match r with Reading => 1 | GivingClient _ _ => 8 | Giving _ => 7 | ReaderDone => 0 end.
Definition caller_work (c : Caller) : nat := match c with Waiting => 1 | _ => 0 end.
Definition listener_work (l : ListenerTask) : nat :=
  match l with NotStarted => 2 | Listening => 1 | Forwarding _ => 5 | _ => 0 end.

(** Every message has a way to go, every task a state to end in. *)
Definition work st : nat :=
  9 * length (sg_wire st) + reader_work (sg_reader st) + caller_work (sg_caller st) +
  5 * length (sg_receive st) + listener_work (sg_listener st) + 3 * length (sg_out st).

Lemma internal_step_work l st st' :
  internal l → client_step l st = Some st' → work st' < work st.
Proof.
  intros Hl Hs. destruct st as [wire closed reader client_ch caller receive listener cbs gone out
                                open all seen called reg].
  destruct l; try done; simpl in Hs;
    unfold reader_step, caller_step, start_listener, listener_recv, listener_forward, app_recv in Hs;
    simpl in Hs; unfold work; repeat case_match; simplify_eq/=; rewrite ?length_app; simpl; lia.
Qed.

Lemma internal_run_work ls st st' :
  Forall internal ls → run_client ls st = Some st' → length ls + work st' ≤ work st.
Proof.
  intros Hls. revert st. induction Hls as [|l ls Hl Hls IH]; intros st Hrun; simplify_eq/=; [done|].
  destruct (client_step l st) as [st1|] eqn:Hs; simplify_eq/=.
  apply internal_step_work in Hs; [|done]. specialize (IH _ Hrun). lia.
Qed.

Definition quiescent st : Prop := ∀ l, internal l → client_step l st = None.

Lemma quiescent_dec st : quiescent st ∨ ∃ l st', internal l ∧ client_step l st = Some st'.
Proof.
  assert (∀ ls : list Label, (∀ l, l ∈ ls → client_step l st = None) ∨ ∃ l st', l ∈ ls ∧ client_step l st = Some st')
    as Hls.
  { induction ls as [|l ls IH]; [left; by intros l ?%elem_of_nil|].
    destruct (client_step l st) as [st'|] eqn:Hl.
    - right. exists l, st'. split; [apply list_elem_of_here|done].
    - destruct IH as [IH|(l' & st' & Hin & Hs)].
      + left. intros l' [->|?]%elem_of_cons; auto.
      + right. exists l', st'. split; [by apply list_elem_of_further|done]. }
  destruct (Hls [ReaderStep; CallerStep; StartListener; ListenerRecv; ListenerForward; AppRecv])
    as [Hnone|(l & st' & Hin & Hs)].
  - left. intros l Hl. apply Hnone. rewrite !elem_of_cons. destruct l; simpl in Hl; tauto.
  - right. exists l, st'. split; [|done].
    repeat (apply elem_of_cons in Hin as [->|Hin]; [done|]). by apply elem_of_nil in Hin.
Qed.

Lemma reaches_quiescence st :
  ∃ ls st', Forall internal ls ∧ run_client ls st = Some st' ∧ quiescent st'.
Proof.
  induction st as [st IH] using (induction_ltof1 _ work).
  destruct (quiescent_dec st) as [Hq|(l & st1 & Hl & Hs)]; [by exists [], st|].
  destruct (IH st1) as (ls & st' & Hls & Hrun & Hq); [by eapply internal_step_work|].
  exists (l :: ls), st'. split_and!; [by constructor| |done]. simpl. by rewrite Hs.
Qed.

Lemma internal_step_frame l st st' :
  internal l → client_step l st = Some st' →
  sg_all st' = sg_all st ∧ sg_gone st' = sg_gone st ∧ sg_out_open st' = sg_out_open st.
Proof.
  intros Hl Hs. destruct st as [wire closed reader client_ch caller receive listener cbs gone out
                                open all seen called reg].
  destruct l; try done; simpl in Hs;
    unfold reader_step, caller_step, start_listener, listener_recv, listener_forward, app_recv in Hs;
    simpl in Hs; repeat case_match; by simplify_eq/=.
Qed.

Lemma internal_run_frame ls st st' :
  Forall internal ls → run_client ls st = Some st' →
  sg_all st' = sg_all st ∧ sg_gone st' = sg_gone st ∧ sg_out_open st' = sg_out_open st.
Proof.
  intros Hls. revert st. induction Hls as [|l ls Hl Hls IH]; intros st Hrun; simplify_eq/=; [done|].
  destruct (client_step l st) as [st1|] eqn:Hs; simplify_eq/=.
  apply internal_step_frame in Hs as (<- & <- & <-); [|done]. by apply IH.
Qed.

(** The listener panics only for an application or a callback that is gone. *)
Lemma listener_safe st :
  client_reachable st → sg_gone st = [] → sg_out_open st = true → sg_listener st ≠ ListenerPanicked.
Proof.
  intros Hst. assert (sg_listener st = ListenerPanicked → sg_gone st ≠ [] ∨ sg_out_open st = false)
    as Hpan; [|intros Hg Ho Hl; destruct (Hpan Hl); congruence].
  revert Hst. apply (client_reachable_ind (λ st,
    sg_listener st = ListenerPanicked → sg_gone st ≠ [] ∨ sg_out_open st = false)); [done|].
  clear st. intros l st st' _ Hst Hs.
  destruct st as [wire closed reader client_ch caller receive listener cbs gone out open all
                  seen called reg].
  destruct l; simpl in Hs;
    unfold reader_step, caller_step, start_listener, listener_recv, listener_forward, app_recv in Hs;
    simpl in Hs; repeat case_match; simplify_eq/=; try done; auto.
  - intros _. left. intros ->. eapply not_elem_of_nil. eassumption.
  - intros _. right. by destruct open.
Qed.

Lemma hellos_take n ms : hellos (take n ms) ≤ hellos ms.
Proof. rewrite <- (take_drop n ms) at 2. rewrite hellos_app. lia. Qed.

(** A quiescent client that can still read has nothing left to read. *)
Lemma quiescent_delivered st :
  client_reachable st → sg_gone st = [] → sg_out_open st = true →
  hellos (sg_all st) ≤ 1 → 0 < hellos (take 2 (sg_all st)) →
  quiescent st → sg_seen st = sg_all st.
Proof.
  intros Hst Hgone Hopen Hone Hearly Hq. pose proof (listener_safe st Hst Hgone Hopen) as Hsafe.
  apply client_reachable_inv in Hst.
  pose proof (Hq ReaderStep I) as Hqr. pose proof (Hq CallerStep I) as Hqc.
  pose proof (Hq StartListener I) as Hqs. pose proof (Hq ListenerRecv I) as Hql.
  pose proof (Hq ListenerForward I) as Hqf. pose proof (Hq AppRecv I) as Hqa. clear Hq.
  client_open. subst open.
  unfold reader_step, caller_step, start_listener, listener_recv, listener_forward, app_recv in *.
  simpl in *. destruct out as [|m out]; [|done].
  specialize (Hc (or_intror (conj Hone Hsafe))).
  pose proof (hellos_take 2 all) as Htake.
  destruct caller as [|c|]; [exfalso| |specialize (Hnh eq_refl); lia].
  - destruct client_ch; [|done]. specialize (Hun eq_refl eq_refl).
    rewrite (Hw eq_refl) in *. destruct (Hns eq_refl) as [-> _]. simpl in *.
    destruct reader as [|c m|m|]; [|done| |done].
    + destruct wire; [|done]. simpl in *. subst all. lia.
    + destruct (decide _) as [|Hfull]; [done|]. unfold RECEIVE_CAPACITY in *.
      destruct receive as [|x [|y receive]]; simpl in *; [lia| |lia].
      rewrite <- Hc in Hearly. change (0 < hellos [x; m]) in Hearly. lia.
  - destruct listener; [done| |done|done|].
    + destruct receive as [|m receive].
      * destruct reader; [|done..]. destruct wire; [|done]. simpl in Hc. by rewrite app_nil_r in Hc.
      * exfalso. destruct m; simplify_eq/=. repeat case_match; done.
    + destruct (Hld eq_refl) as [-> ->]. destruct (Hd eq_refl) as [-> _].
      simpl in Hc. by rewrite app_nil_r in Hc.
Qed.

(** C6. Left to themselves the tasks of the client and the application come to
    rest after a bounded number of steps; and when the server has greeted the
    client once, with its first or second message, and nobody has hung up,
    the application has then received every message of the server. *)
Theorem client_delivers st :
  client_reachable st → sg_gone st = [] → sg_out_open st = true →
  hellos (sg_all st) ≤ 1 → 0 < hellos (take 2 (sg_all st)) →
  (∃ ls st', Forall internal ls ∧ run_client ls st = Some st' ∧ quiescent st') ∧
  ∀ ls st', Forall internal ls → run_client ls st = Some st' →
    length ls ≤ work st ∧ (quiescent st' → sg_seen st' = sg_all st).
Proof.
  intros Hst Hg Ho Hone Hearly. split; [apply reaches_quiescence|].
  intros ls st' Hls Hrun. split; [apply internal_run_work in Hrun; [lia|done]|].
  destruct (internal_run_frame ls st st' Hls Hrun) as (Ha & Hg' & Ho').
  rewrite <- Ha. apply quiescent_delivered; try congruence.
  by eapply client_reachable_run.
Qed.

(** ** Callbacks *)

Record callbacks_ok st : Prop := {
  cb_registered sid cb : sg_callbacks st !! sid = Some cb → (sid, cb) ∈ sg_registered st;
  cb_called cb sdp : (cb, sdp) ∈ sg_called st →
    (ss_session_id sdp, cb) ∈ sg_registered st ∧ Answer sdp ∈ sg_all st;
  cb_once : NoDup (sg_registered st).*2 →
    NoDup (sg_called st).*1 ∧ ∀ sid cb, sg_callbacks st !! sid = Some cb → cb ∉ (sg_called st).*1
}.

(** What is in the channel of the listener was sent by the server. *)
Lemma received_was_sent st m : client_inv st → m ∈ sg_receive st → m ∈ sg_all st.
Proof.
  intros Hinv Hm. eapply elem_of_sublist; [|apply inv_order, Hinv].
  unfold pipeline. rewrite !elem_of_app. auto.
Qed.

Lemma registered_key_unique (reg : list (string * Callback)) sid sid' cb :
  NoDup reg.*2 → (sid, cb) ∈ reg → (sid', cb) ∈ reg → sid = sid'.
Proof.
  induction reg as [|[s c] reg IH]; simpl; [by intros _ ?%elem_of_nil|].
  rewrite NoDup_cons, !elem_of_cons. intros [Hnot Hnd] Hs Hs'.
  assert (∀ x, (x, cb) ∈ reg → cb ∈ reg.*2) as Hin
    by (intros x Hx; apply list_elem_of_fmap; by exists (x, cb)).
  destruct Hs as [Hs|Hs], Hs' as [Hs'|Hs']; simplify_eq/=; [done|..]; naive_solver.
Qed.

Lemma on_answer_callbacks_ok st sid cb : callbacks_ok st → callbacks_ok (on_answer sid cb st).
Proof.
  intros [Hreg Hcal Honce]. unfold on_answer. constructor; simpl.
  - intros sid' cb' [[-> ->]|[_ Hcb]]%lookup_insert_Some; rewrite elem_of_app;
      [right; apply list_elem_of_here|left; by apply Hreg].
  - intros cb' sdp Hc. destruct (Hcal cb' sdp Hc). rewrite elem_of_app. auto.
  - rewrite fmap_app, NoDup_app. simpl. intros (Hnd & Hnew & _).
    destruct (Honce Hnd) as [Hc Hcb]. split; [done|].
    intros sid' cb' [[-> ->]|[_ Hl]]%lookup_insert_Some; [|by eapply Hcb].
    intros ((cb1, sdp) & -> & Hin)%list_elem_of_fmap.
    destruct (Hcal cb1 sdp Hin) as [Hr _]. simpl in *.
    apply (Hnew cb1); [|apply list_elem_of_here]. apply list_elem_of_fmap.
    by exists (ss_session_id sdp, cb1).
Qed.

Lemma call_callbacks_ok st sdp cb receive :
  client_inv st → sg_receive st = Answer sdp :: receive → callbacks_ok st →
  sg_callbacks st !! ss_session_id sdp = Some cb →
  callbacks_ok (set_called (sg_called st ++ [(cb, sdp)])
    (set_callbacks (delete (ss_session_id sdp) (sg_callbacks st)) st)).
Proof.
  intros Hinv Hrec [Hreg Hcal Honce] Hcb. constructor; simpl.
  - intros sid' cb' [_ ?]%lookup_delete_Some. by apply Hreg.
  - intros cb' sdp' [?|[= -> ->]%list_elem_of_singleton]%elem_of_app; [by apply Hcal|].
    split; [by apply Hreg|]. apply received_was_sent; [done|]. rewrite Hrec. apply list_elem_of_here.
  - intros Hnd. destruct (Honce Hnd) as [Hc Hnot]. rewrite fmap_app. simpl. split.
    + rewrite NoDup_app. split_and!; [done| |apply NoDup_singleton].
      intros x Hx ->%list_elem_of_singleton. by eapply Hnot.
    + intros sid' cb' [Hne Hl]%lookup_delete_Some [Hin| ->%list_elem_of_singleton]%elem_of_app;
        [by eapply Hnot|].
      apply Hne. eapply registered_key_unique; [exact Hnd|by apply Hreg..].
Qed.

(** Only three fields matter. *)
Lemma callbacks_ok_same st st' :
  sg_callbacks st' = sg_callbacks st → sg_called st' = sg_called st →
  sg_registered st' = sg_registered st → sg_all st `prefix_of` sg_all st' →
  callbacks_ok st → callbacks_ok st'.
Proof.
  intros Hcb Hca Hre [ms Hall] [Hreg Hcal Honce]. constructor; rewrite ?Hcb, ?Hca, ?Hre; [done| |done].
  intros cb sdp Hin. destruct (Hcal cb sdp Hin). rewrite Hall, elem_of_app. auto.
Qed.

(** The steps that do not concern callbacks. *)
Lemma step_callbacks_same l st st' :
  client_step l st = Some st' → l ≠ ListenerRecv → (∀ sid cb, l ≠ OnAnswer sid cb) →
  sg_callbacks st' = sg_callbacks st ∧ sg_called st' = sg_called st ∧
  sg_registered st' = sg_registered st ∧ sg_all st `prefix_of` sg_all st'.
Proof.
  intros Hs Hl Hon. destruct l as [f| | | | | | | | |sid cb|]; simpl in Hs;
    unfold reader_step, caller_step, start_listener, listener_forward, app_recv in Hs;
    [..|by destruct (Hon sid cb)|]; repeat case_match; simplify_eq/=; try done.
  split_and!; try done. by apply prefix_app_r.
Qed.

Lemma listener_recv_cases st st' :
  listener_recv st = Some st' →
  (sg_callbacks st' = sg_callbacks st ∧ sg_called st' = sg_called st ∨
   ∃ sdp cb receive, sg_receive st = Answer sdp :: receive ∧
     sg_callbacks st !! ss_session_id sdp = Some cb ∧
     sg_callbacks st' = delete (ss_session_id sdp) (sg_callbacks st) ∧
     (sg_called st' = sg_called st ∨ sg_called st' = sg_called st ++ [(cb, sdp)])) ∧
  sg_registered st' = sg_registered st ∧ sg_all st' = sg_all st.
Proof.
  unfold listener_recv. intros Hs.
  destruct (sg_listener st); try done. destruct (sg_receive st) as [|m receive] eqn:Hrec.
  - destruct (sg_reader st); simplify_eq/=. auto.
  - destruct m as [| | | | |sdp|]; simplify_eq/=; auto.
    destruct (sg_callbacks st !! _) as [cb|] eqn:Hcb; [|simplify_eq/=; auto].
    case_decide; simplify_eq/=; (split; [right; exists sdp, cb, receive|]; auto).
Qed.

Lemma callbacks_step l st st' :
  client_inv st → callbacks_ok st → client_step l st = Some st' → callbacks_ok st'.
Proof.
  intros Hinv Hok Hs. destruct (decide (l = ListenerRecv)) as [->|Hl].
  - apply listener_recv_cases in Hs as [[[Hcb Hca]|(sdp & cb & rec & Hrec & Hlk & Hcb & Hca)] [Hre Hall]].
    + eapply callbacks_ok_same; [done..| |done]. by rewrite Hall.
    + pose proof (call_callbacks_ok st sdp cb rec Hinv Hrec Hok Hlk) as Hcall.
      destruct Hca as [Hca|Hca].
      * destruct Hok as [Hreg Hcal Honce]. constructor; rewrite ?Hcb, ?Hca, ?Hre, ?Hall; [|done|].
        -- intros sid' cb' [_ ?]%lookup_delete_Some. by apply Hreg.
        -- intros Hnd. destruct (Honce Hnd) as [? Hnot]. split; [done|].
           intros sid' cb' [_ ?]%lookup_delete_Some. by eapply Hnot.
      * eapply callbacks_ok_same; [..|exact Hcall]; simpl; [done..|]. by rewrite Hall.
  - destruct l; try done; try (apply step_callbacks_same in Hs as (?&?&?&?); [|done..];
      by eapply callbacks_ok_same).
    simplify_eq/=. by apply on_answer_callbacks_ok.
Qed.

Lemma callbacks_reachable st : client_reachable st → callbacks_ok st.
Proof.
  apply (client_reachable_ind callbacks_ok).
  - constructor; simpl; [done|by intros ?? ?%elem_of_nil|].
    intros _. split; [constructor|done].
  - intros l st1 st2 Hr Hok Hs. eapply callbacks_step; [by apply client_reachable_inv|done..].
Qed.

(** C28. A callback is called only with an answer the server has sent for the
    session the callback was registered for; and a callback that was
    registered once is called at most once. *)
Theorem answers_reach_their_session st cb sdp :
  client_reachable st → (cb, sdp) ∈ sg_called st →
  (ss_session_id sdp, cb) ∈ sg_registered st ∧ Answer sdp ∈ sg_all st ∧
  (NoDup (sg_registered st).*2 → NoDup (sg_called st).*1).
Proof.
  intros [_ Hcal Honce]%callbacks_reachable Hcall.
  destruct (Hcal cb sdp Hcall). split_and!; [done..|]. intros Hnd. by destruct (Honce Hnd).
Qed.

(** ** Answers that come too early *)

Definition pending st : list WsServerMessage :=
  sg_receive st ++ held (sg_reader st) ++ (sg_wire st ≫= frame_messages).

Definition no_answer (sid : string) ms : Prop := ∀ sdp, Answer sdp ∈ ms → ss_session_id sdp ≠ sid.

(** What is new on the way to the listener was sent in this step. *)
Lemma pending_step l st st' m :
  client_step l st = Some st' → m ∈ pending st' →
  m ∈ pending st ∨ ∃ f, l = ServerSends f ∧ m ∈ frame_messages f.
Proof.
  intros Hs. unfold pending. rewrite !elem_of_app. intros Hm.
  destruct st as [wire closed reader client_ch caller receive listener cbs gone out open all
                  seen called reg].
  destruct l as [f| | | | | | | | | |]; simpl in Hs;
    unfold reader_step, caller_step, start_listener, listener_recv, listener_forward, app_recv in Hs;
    simpl in Hs; repeat case_match; simplify_eq/=; rewrite ?elem_of_app in *; simpl in *;
    try (left; tauto).
  1: { rewrite bind_app in Hm. simpl in Hm. rewrite app_nil_r, elem_of_app in Hm.
       destruct Hm as [?|[?|[?|?]]]; eauto 6. }
  all: left; repeat match goal with Hf : frame_messages _ = _ |- _ => rewrite Hf; clear Hf end;
    rewrite ?elem_of_cons, ?elem_of_nil in *; tauto.
Qed.

(** No callback [cb] will be called before another answer of its session. *)
Definition waits_for_another (sid : string) (cb : Callback) st : Prop :=
  callbacks_ok st ∧ (∀ sid', (sid', cb) ∈ sg_registered st → sid' = sid) ∧
  no_answer sid (pending st) ∧ cb ∉ (sg_called st).*1.

Lemma waits_step sid cb l st st' :
  client_inv st → client_step l st = Some st' →
  (∀ f, l = ServerSends f → no_answer sid (frame_messages f)) → (∀ sid', l ≠ OnAnswer sid' cb) →
  waits_for_another sid cb st → waits_for_another sid cb st'.
Proof.
  intros Hinv Hs Hf Hon (Hok & Hreg & Hno & Hcb). unfold waits_for_another.
  split; [by eapply callbacks_step|]. split_and!.
  - intros sid' Hin. apply Hreg. destruct (decide (l = ListenerRecv)) as [->|Hl].
    { apply listener_recv_cases in Hs as (_ & Hre & _). congruence. }
    destruct l as [| | | | | | | | |s c|]; try done;
      try (apply step_callbacks_same in Hs as (_ & _ & <- & _); done).
    simplify_eq/=. apply elem_of_app in Hin as [?|[= -> ->]%list_elem_of_singleton]; [done|].
    by destruct (Hon s).
  - intros sdp Hin. destruct (pending_step _ _ _ _ Hs Hin) as [?|(f & -> & ?)]; [by apply Hno|].
    by eapply Hf.
  - destruct (decide (l = ListenerRecv)) as [->|Hl].
    + apply listener_recv_cases in Hs as
        [[[_ ->]|(sdp & cb' & rec & Hrec & Hlk & _ & [->| ->])] _]; [done..|].
      rewrite fmap_app, elem_of_app. intros [?|Hin%list_elem_of_singleton]; [done|]. simpl in Hin.
      subst cb'. apply (Hno sdp); [|by apply Hreg, cb_registered].
      unfold pending. rewrite Hrec. apply list_elem_of_here.
    + destruct l as [| | | | | | | | |s c|]; try done;
        try (apply step_callbacks_same in Hs as (_ & -> & _ & _); done).
      by simplify_eq/=.
Qed.

(** An answer that is taken from the channel before its callback is
    registered is lost: the callback is not called, whatever happens, until
    the server sends another answer of the session. *)
Lemma early_answer_lost st sid cb ls st' :
  client_reachable st → cb ∉ (sg_registered st).*2 → no_answer sid (pending st) →
  run_client (OnAnswer sid cb :: ls) st = Some st' →
  (∀ f, ServerSends f ∈ ls → no_answer sid (frame_messages f)) →
  (∀ sid', OnAnswer sid' cb ∉ ls) →
  cb ∉ (sg_called st').*1.
Proof.
  intros Hst Hnew Hno Hrun Hf Hon. pose proof (client_reachable_inv st Hst) as Hinv.
  pose proof (callbacks_reachable st Hst) as Hok.
  assert (waits_for_another sid cb (on_answer sid cb st)) as Hw.
  { split_and!.
    - by apply on_answer_callbacks_ok.
    - intros sid'. simpl. rewrite elem_of_app.
      intros [Hin|[= ->]%list_elem_of_singleton]; [|done]. destruct Hnew.
      apply list_elem_of_fmap. by exists (sid', cb).
    - exact Hno.
    - simpl. intros ((c, sdp) & -> & Hin)%list_elem_of_fmap. apply Hnew.
      destruct (cb_called _ Hok c sdp Hin) as [Hr _]. apply list_elem_of_fmap.
      by exists (ss_session_id sdp, c). }
  assert (client_inv (on_answer sid cb st)) as Hinv'.
  { by apply (client_step_inv (OnAnswer sid cb) st). }
  simpl in Hrun. clear Hst Hinv Hok Hno Hnew. revert Hw Hinv' Hrun.
  generalize (on_answer sid cb st). induction ls as [|l ls IH]; intros st0 Hw Hinv Hrun; simplify_eq/=.
  - apply Hw.
  - destruct (client_step l st0) as [st1|] eqn:Hs; simplify_eq/=.
    apply (IH ltac:(set_solver) ltac:(set_solver) st1); [|by eapply client_step_inv|done].
    eapply waits_step; [done..| | |done].
    + intros f ->. apply Hf, list_elem_of_here.
    + intros sid' ->. apply (Hon sid'), list_elem_of_here.
Qed.
End behaviour.
