(* ===== verification/SignalingClientRuns.v ===== *)
(** * Runs of the signaling client

    A codec for the messages of the server, and concrete runs of the client
    that witness the theorems of [SignalingClientBehaviour]. *)

From stdpp Require Import countable.
From S2P Require Import Prelude Serde Signaling Crypto Instances.
From S2P Require Import SignalingClient SignalingClientProps SignalingClientBehaviour.

#[export] Instance ClientInfo_countable : Countable ClientInfo.
Proof.
  refine (inj_countable'
    (λ c, (ci_id c, ci_alias c, ci_version c, ci_device_model c, (ci_device_type c, ci_token c)))
    (λ '(i, a, v, m, (t, k)), mk_ClientInfo i a v m t k) _).
  by intros [].
Defined.

#[export] Instance WsServerSdpMessage_countable : Countable WsServerSdpMessage.
Proof.
  refine (inj_countable' (λ m, (ss_peer m, ss_session_id m, ss_sdp m))
    (λ '(p, s, d), mk_WsServerSdpMessage p s d) _).
  by intros [].
Defined.

#[export] Instance WsServerMessage_countable : Countable WsServerMessage.
Proof.
  refine (inj_countable'
    (λ m, match m with
          | Hello c ps => inl (inl (c, ps))
          | Join p => inl (inr (inl p))
          | Update p => inl (inr (inr p))
          | Left i => inr (inl (inl i))
          | Offer s => inr (inl (inr s))
          | Answer s => inr (inr (inl s))
          | WsError n => inr (inr (inr n))
          end)
    (λ x, match x with
          | inl (inl (c, ps)) => Hello c ps
          | inl (inr (inl p)) => Join p
          | inl (inr (inr p)) => Update p
          | inr (inl (inl i)) => Left i
          | inr (inl (inr s)) => Offer s
          | inr (inr (inl s)) => Answer s
          | inr (inr (inr n)) => WsError n
          end) _).
  by intros [].
Defined.

#[local] Existing Instance countable_json.

Definition sample_client : ClientInfo := mk_ClientInfo 1 "A" "2" None None "t".
Definition sample_peer : ClientInfo := mk_ClientInfo 2 "B" "2" None None "u".
Definition sample_answer : WsServerSdpMessage := mk_WsServerSdpMessage sample_peer "s" "d".

Definition sends (m : WsServerMessage) : Label := ServerSends (FText (to_json m)).

(** The way of one message from the wire to the application. *)
Definition passes : list Label := [ReaderStep; ReaderStep; ListenerRecv; ListenerForward; AppRecv].

(** Connecting, with a Hello that comes after a Join. *)
Definition connects : list Label :=
  [sends (Join sample_peer); sends (Hello sample_client []); ReaderStep; ReaderStep; ReaderStep;
   ReaderStep; CallerStep; StartListener].

(** A session: the callback is registered, then its answer arrives. *)
Definition session : list Label :=
  connects ++ [ListenerRecv; ReaderStep; ListenerForward; ListenerRecv; ListenerForward; AppRecv;
               AppRecv; OnAnswer "s" 7%N; sends (Answer sample_answer)] ++ passes.

Definition final (ls : list Label) : Client := default client_start (run_client ls client_start).

Lemma session_runs : run_client session client_start = Some (final session).
Proof. vm_compute. reflexivity. Qed.

Lemma session_reachable : client_reachable (final session).
Proof. exists session. apply session_runs. Qed.

Lemma session_called : sg_called (final session) = [(7%N, sample_answer)].
Proof. vm_compute. reflexivity. Qed.

Lemma messages_in_order_witness :
  sg_seen (final session) = [Join sample_peer; Hello sample_client []; Answer sample_answer] ∧
  sg_seen (final session) `sublist_of` sg_all (final session).
Proof.
  split; [vm_compute; reflexivity|].
  exact (proj1 (messages_in_order (final session) session_reachable)).
Defined.

Lemma connect_needs_early_hello_witness :
  ∃ peers, Hello sample_client peers ∈ take 2 (sg_all (final session)).
Proof.
  apply (connect_needs_early_hello (final session)); [apply session_reachable|].
  vm_compute. reflexivity.
Defined.

Lemma answers_reach_their_session_witness :
  ("s", 7%N) ∈ sg_registered (final session) ∧ Answer sample_answer ∈ sg_all (final session).
Proof.
  destruct (answers_reach_their_session (final session) 7%N sample_answer) as (Hr & Ha & _).
  - apply session_reachable.
  - rewrite session_called. apply list_elem_of_here.
  - split; [exact Hr|exact Ha].
Defined.

Lemma client_delivers_witness :
  ∃ ls st', Forall internal ls ∧ run_client ls (final connects) = Some st' ∧ quiescent st' ∧
    sg_seen st' = [Join sample_peer; Hello sample_client []].
Proof.
  destruct (client_delivers (final connects)) as [(ls & st' & Hls & Hrun & Hq) Hall].
  - exists connects. vm_compute. reflexivity.
  - vm_compute. reflexivity.
  - vm_compute. reflexivity.
  - vm_compute. lia.
  - vm_compute. lia.
  - exists ls, st'. split_and!; [exact Hls|exact Hrun|exact Hq|].
    rewrite (proj2 (Hall ls st' Hls Hrun) Hq). vm_compute. reflexivity.
Defined.

(** The server's answer is processed before [send_offer] registers the
    callback: the callback is never called. *)
Example early_answer_run :
  sg_called (final (connects ++ [ListenerRecv; ReaderStep; ListenerForward; ListenerRecv;
    ListenerForward; AppRecv; AppRecv; sends (Answer sample_answer)] ++ passes ++
    [OnAnswer "s" 7%N])) = [].
Proof. vm_compute. reflexivity. Qed.

(** Two messages before the Hello: the reader waits for room that only the
    caller of [connect] could make, and the caller waits for the reader. *)
Definition stuck_start : list Label :=
  [sends (Join sample_peer); sends (Join sample_peer); sends (Hello sample_client []);
   ReaderStep; ReaderStep; ReaderStep].

Example connect_stuck :
  sg_caller (final stuck_start) = Waiting ∧
  Forall (λ l, client_step l (final stuck_start) = None)
    [ReaderStep; CallerStep; StartListener; ListenerRecv; ListenerForward; AppRecv].
Proof. vm_compute. split; [done|]. repeat constructor. Qed.
