(* ===== verification/SignalingWriter.v ===== *)
(** * The writer of the signaling client

    The task that [connect] of [core/src/webrtc/signaling.rs] spawns to write
    to the websocket, the channel in front of it, and the methods of the two
    connection types that send on it.  One turn of its loop waits for a message
    and writes it, all within 120 s; when the time is up it gives up what it is
    doing and writes a ping. *)

From S2P Require Import Prelude Serde Crypto Instances Signaling SignalingClient.

Definition SEND_CAPACITY : nat := 1.

Inductive WriterFrame := WText (message : string) | WPing.

(** The task waits for a message, writes one, writes a ping, or has returned. *)
Inductive WriterTask :=
| Waits
| Writing (message : WsClientMessage)
| Pinging
| WriterDone.

(** What becomes of a message: it is given to the websocket; it is given up
    when the time is over; the write fails or the task has ended.  Whether a
    cancelled write is given up or takes place later is up to the sink of the
    [futures] crate, whose slot may keep the frame and write it before the
    ping; the model allows both. *)
Inductive Fate := Written | GivenUp | Lost.

(** [wr_sent], [wr_accepted] and [wr_fates] record what has happened: the frames
    given to the websocket, the messages whose sender was told [Ok], and what
    became of them. *)
Record Writer := mk_Writer {
  wr_queue : list WsClientMessage;
  wr_open : bool;
  wr_task : WriterTask;
  wr_sent : list WriterFrame;
  wr_accepted : list WsClientMessage;
  wr_fates : list (WsClientMessage * Fate)
}.

(** The state when [connect] has spawned the task. *)
Definition writer_start : Writer := mk_Writer [] true Waits [] [] [].

(** [WriteEnds]: the write of a message is over.  [TimeOver]: 120 s since the
    turn began; the write under way, if any, is cancelled, and the sink has
    taken the frame or has not.  [PingEnds]: the write of a ping is over.
    [SendersDropped]: the connection is dropped. *)
Inductive WriterLabel :=
| Sends (m : WsClientMessage)
| SendersDropped
| TakesMessage
| WriteEnds (is_ok : bool)
| TimeOver (taken : bool)
| PingEnds (is_ok : bool).

Section writer.
Context `{SerdeJson WsClientMessage}.

(** [tx.send(message).await]: [None] while the channel is full. *)
Definition tx_send (m : WsClientMessage) (st : Writer) : option (anyres () * Writer) :=
  match wr_task st with
  | WriterDone => Some (Err "channel closed", st)
  | task =>
      if decide (length (wr_queue st) < SEND_CAPACITY) then
        Some (Ok (), mk_Writer (wr_queue st ++ [m]) (wr_open st) task (wr_sent st)
                       (wr_accepted st ++ [m]) (wr_fates st))
      else None
  end.

(** The message in the hands of the task. *)
Definition in_hand (task : WriterTask) : list WsClientMessage :=
  match task with Writing m => [m] | _ => [] end.

(** The task returns and drops the receiver with what is in the channel. *)
Definition writer_returns (st : Writer) : Writer :=
  mk_Writer [] (wr_open st) WriterDone (wr_sent st) (wr_accepted st)
    (wr_fates st ++ ((λ m, (m, Lost)) <$> in_hand (wr_task st) ++ wr_queue st)).

(** The frames of a write, the end of a message, and the next state. *)
Definition writer_goes (task : WriterTask) (frames : list WriterFrame)
    (fates : list (WsClientMessage * Fate)) (st : Writer) : Writer :=
  mk_Writer (wr_queue st) (wr_open st) task (wr_sent st ++ frames) (wr_accepted st)
    (wr_fates st ++ fates).

Definition writer_step (l : WriterLabel) (st : Writer) : option Writer :=
  match l, wr_task st with
  | Sends m, _ => if wr_open st then snd <$> tx_send m st else None
  | SendersDropped, _ =>
      Some (mk_Writer (wr_queue st) false (wr_task st) (wr_sent st) (wr_accepted st) (wr_fates st))
  | TakesMessage, Waits =>
      match wr_queue st with
      | m :: queue =>
          Some (mk_Writer queue (wr_open st) (Writing m) (wr_sent st) (wr_accepted st) (wr_fates st))
      | [] => if wr_open st then None else Some (writer_returns st)
      end
  | WriteEnds true, Writing m => Some (writer_goes Waits [WText (to_json m)] [(m, Written)] st)
  | WriteEnds false, Writing _ => Some (writer_returns st)
  | TimeOver _, Waits => Some (writer_goes Pinging [] [] st)
  | TimeOver true, Writing m => Some (writer_goes Pinging [WText (to_json m)] [(m, Written)] st)
  | TimeOver false, Writing m => Some (writer_goes Pinging [] [(m, GivenUp)] st)
  | PingEnds true, Pinging => Some (writer_goes Waits [WPing] [] st)
  | PingEnds false, Pinging => Some (writer_returns st)
  | _, _ => None
  end.

Fixpoint run_writer (ls : list WriterLabel) (st : Writer) : option Writer :=
  match ls with
  | [] => Some st
  | l :: ls => st ← writer_step l st; run_writer ls st
  end.
End writer.

(** The functions of the module, and the methods of the two connection types,
    which share the sender of the channel. *)
Definition send_update (tx : Writer) (info : ClientInfoWithoutId) : option (anyres () * Writer) :=
  tx_send (send_update_message info) tx.
Definition send_offer (tx : Writer) (session_id : string) (target : Uuid) (sdp : string)
    : option (anyres () * Writer) :=
  tx_send (send_offer_message session_id target sdp) tx.
Definition send_answer (tx : Writer) (session_id : string) (target : Uuid) (sdp : string)
    : option (anyres () * Writer) :=
  tx_send (send_answer_message session_id target sdp) tx.

Module SignalingConnection.
Definition send_update (self : Writer) := SignalingWriter.send_update self.
Definition send_offer (self : Writer) := SignalingWriter.send_offer self.
Definition send_answer (self : Writer) := SignalingWriter.send_answer self.
End SignalingConnection.

Module ManagedSignalingConnection.
Definition send_update (self : Writer) := SignalingWriter.send_update self.
Definition send_offer (self : Writer) := SignalingWriter.send_offer self.
Definition send_answer (self : Writer) := SignalingWriter.send_answer self.
End ManagedSignalingConnection.

(** ** What is written *)

Section behaviour.
Context `{SerdeJson WsClientMessage}.
Implicit Types (st : Writer) (l : WriterLabel) (m : WsClientMessage).

Definition writer_reachable st : Prop := ∃ ls, run_writer ls writer_start = Some st.

Definition text_of (f : WriterFrame) : option string :=
  match f with WText message => Some message | WPing => None end.

(** The messages the writer still has to write. *)
Definition pending st : list WsClientMessage := in_hand (wr_task st) ++ wr_queue st.

Definition written_one (p : WsClientMessage * Fate) : option string :=
  match p with (m, Written) => Some (to_json m) | _ => None end.

Record writer_ok st : Prop := {
  wi_accepted : wr_accepted st = (fst <$> wr_fates st) ++ pending st;
  wi_texts : omap text_of (wr_sent st) = omap written_one (wr_fates st);
  wi_queue : length (wr_queue st) ≤ SEND_CAPACITY;
  wi_lost : wr_task st ≠ WriterDone → Forall (λ p, p.2 ≠ Lost) (wr_fates st);
  wi_done : wr_task st = WriterDone → wr_queue st = []
}.

Lemma writer_start_ok : writer_ok writer_start.
Proof. split; simpl; try done. lia. Qed.

Lemma lost_texts (ms : list WsClientMessage) : omap written_one ((λ m, (m, Lost)) <$> ms) = [].
Proof. by induction ms. Qed.

Lemma writer_returns_ok st : writer_ok st → writer_ok (writer_returns st).
Proof.
  intros [Ha Ht Hq Hl Hd]. split; simpl; try done; [|..|lia].
  - rewrite Ha, fmap_app, <- list_fmap_compose, app_nil_r. f_equal.
    symmetry. apply list_fmap_id.
  - by rewrite omap_app, lost_texts, app_nil_r.
Qed.

Lemma tx_send_ok m st r st' : writer_ok st → tx_send m st = Some (r, st') → writer_ok st'.
Proof.
  destruct st as [queue open task sent accepted fates]. intros Hok Hs. unfold tx_send in Hs.
  simpl in Hs. destruct task; repeat case_decide; simplify_eq/=; try done;
    destruct Hok as [Ha Ht Hq Hl Hd]; split; simpl in *; try done;
    try (by rewrite Ha, <- !app_assoc); destruct queue; simpl in *; unfold SEND_CAPACITY in *; lia.
Qed.

(** The task goes on after it has dealt with the message in its hands, if any. *)
Lemma writer_goes_ok task frames fates st :
  writer_ok st → in_hand task = [] → wr_task st ≠ WriterDone → task ≠ WriterDone →
  fst <$> fates = in_hand (wr_task st) → omap text_of frames = omap written_one fates →
  Forall (λ p, p.2 ≠ Lost) fates → writer_ok (writer_goes task frames fates st).
Proof.
  intros [Ha Ht Hq Hl Hd] Hnone Htask Htask' Hf Ho Hlost. split; simpl; try done.
  - rewrite Ha, fmap_app, Hf, <- app_assoc. unfold pending. simpl. by rewrite Hnone.
  - by rewrite !omap_app, Ht, Ho.
  - intros _. apply Forall_app. auto.
Qed.

Lemma writer_takes_ok m queue open sent accepted fates :
  writer_ok (mk_Writer (m :: queue) open Waits sent accepted fates) →
  writer_ok (mk_Writer queue open (Writing m) sent accepted fates).
Proof. intros [Ha Ht Hq Hl Hd]. split; simpl in *; try done; [lia|auto]. Qed.

Lemma writer_step_ok l st st' : writer_ok st → writer_step l st = Some st' → writer_ok st'.
Proof.
  intros Hok Hs. destruct l as [m| | |ok|taken|ok]; simpl in Hs.
  - destruct (wr_open st); [|done]. destruct (tx_send m st) as [[r st1]|] eqn:Hm; simplify_eq/=.
    by eapply tx_send_ok.
  - simplify_eq. by destruct Hok.
  - destruct st as [[|m queue] open [] sent accepted fates]; simplify_eq/=.
    + destruct open; simplify_eq. by apply writer_returns_ok.
    + by apply writer_takes_ok.
  - destruct ok, (wr_task st) eqn:Htask; simplify_eq; try by apply writer_returns_ok.
    apply writer_goes_ok; rewrite ?Htask; try done. by repeat constructor.
  - destruct (wr_task st) eqn:Htask; try (by destruct taken); [destruct taken..]; simplify_eq;
      apply writer_goes_ok; rewrite ?Htask; try done; by repeat constructor.
  - destruct ok, (wr_task st) eqn:Htask; simplify_eq; try by apply writer_returns_ok.
    apply writer_goes_ok; rewrite ?Htask; done.
Qed.

Lemma run_writer_ok ls st st' : writer_ok st → run_writer ls st = Some st' → writer_ok st'.
Proof.
  revert st. induction ls as [|l ls IH]; intros st Hok Hrun; simplify_eq/=; [done|].
  destruct (writer_step l st) as [st1|] eqn:Hl; [|done]. simpl in Hrun.
  eapply IH; [by eapply writer_step_ok|done].
Qed.

Lemma writer_reachable_ok st : writer_reachable st → writer_ok st.
Proof. intros [ls Hls]. eapply run_writer_ok; [apply writer_start_ok|done]. Qed.

(** ** Termination *)

(** What the task does on its own while the websocket takes what it is given. *)
Definition writes_on l : Prop :=
  match l with TakesMessage | WriteEnds true | PingEnds true => True | _ => False end.

Definition writer_work st : nat :=
  2 * length (wr_queue st) +
  match wr_task st with Waits => 1 | Writing _ | Pinging => 2 | WriterDone => 0 end.

(** The texts that are written and those that will be. *)
Definition texts st : list string := omap text_of (wr_sent st) ++ (to_json <$> pending st).

Lemma writes_on_step l st st' :
  writes_on l → writer_step l st = Some st' → writer_work st' < writer_work st ∧ texts st' = texts st.
Proof.
  destruct st as [queue open task sent accepted fates]. unfold writer_work, texts, pending.
  destruct l as [m| | |[]|taken|[]], task; try done; intros _ Hs; simpl in Hs.
  - destruct queue as [|m queue]; [destruct open|]; simplify_eq/=; split; first [lia|done].
  - simplify_eq/=. split; [lia|]. by rewrite omap_app, <- app_assoc.
  - simplify_eq/=. split; [lia|]. by rewrite omap_app, app_nil_r.
Qed.

Lemma writes_on_run ls st st' :
  Forall writes_on ls → run_writer ls st = Some st' →
  length ls + writer_work st' ≤ writer_work st ∧ texts st' = texts st.
Proof.
  intros Hls. revert st. induction Hls as [|l ls Hl _ IH]; intros st Hrun; simplify_eq/=; [done|].
  destruct (writer_step l st) as [st1|] eqn:Hs; [|done]. simpl in Hrun.
  destruct (writes_on_step l st st1 Hl Hs) as [Hw Ht]. destruct (IH st1 Hrun) as [Hw' Ht'].
  split; [lia|congruence].
Qed.

(** Nothing left to do. *)
Definition writer_rests st : Prop := ∀ l, writes_on l → writer_step l st = None.

Lemma writer_rests_pending st : writer_ok st → writer_rests st → pending st = [].
Proof.
  destruct st as [queue open task sent accepted fates]. intros [_ _ _ _ Hd] Hrest. unfold pending.
  simpl in *. destruct task as [|m| |]; simpl.
  - pose proof (Hrest TakesMessage I) as Hnone. simpl in Hnone. by destruct queue, open.
  - pose proof (Hrest (WriteEnds true) I) as Hnone. done.
  - pose proof (Hrest (PingEnds true) I) as Hnone. done.
  - auto.
Qed.

(** C27. The messages that a device was told to have sent are written in the
    order in which they were accepted, but for those given up because their
    time was over and those that were lost when the task ended, and at most two
    are still on their way; as long as the task runs none is lost.  While the
    websocket takes what it is given the task comes to rest after a bounded
    number of steps, and then it has written all that was on its way. *)
Theorem accepted_messages_written st :
  writer_reachable st →
  wr_accepted st = (fst <$> wr_fates st) ++ pending st ∧ length (pending st) ≤ 2 ∧
  omap text_of (wr_sent st) = omap written_one (wr_fates st) ∧
  (wr_task st ≠ WriterDone → Forall (λ p, p.2 ≠ Lost) (wr_fates st)) ∧
  ∀ ls st', Forall writes_on ls → run_writer ls st = Some st' →
    length ls ≤ writer_work st ∧
    (writer_rests st' →
     omap text_of (wr_sent st') = omap text_of (wr_sent st) ++ (to_json <$> pending st)).
Proof.
  intros Hok%writer_reachable_ok. pose proof Hok as [Ha Ht Hq Hl _]. split_and!; try done.
  - unfold pending. rewrite length_app. unfold SEND_CAPACITY in Hq. destruct (wr_task st); simpl; lia.
  - intros ls st' Hls Hrun. destruct (writes_on_run ls st st' Hls Hrun) as [Hw Htexts].
    split; [lia|]. intros Hrest. unfold texts in Htexts.
    rewrite (writer_rests_pending st') in Htexts; [by rewrite app_nil_r in Htexts|by eapply run_writer_ok|done].
Qed.

(** Once the task has returned every send fails, and nothing is written. *)
Lemma ended_writer_refuses ls st st' m :
  wr_task st = WriterDone → run_writer ls st = Some st' →
  wr_sent st' = wr_sent st ∧ tx_send m st' = Some (Err "channel closed", st').
Proof.
  revert st. induction ls as [|l ls IH]; intros st Hd Hrun; simplify_eq/=.
  - split; [done|]. unfold tx_send. by rewrite Hd.
  - destruct (writer_step l st) as [st1|] eqn:Hs; [|done]. simpl in Hrun.
    assert (wr_task st1 = WriterDone ∧ wr_sent st1 = wr_sent st) as [Hd1 Hsent].
    { destruct l as [m0| | |[]|[]|[]]; simpl in Hs; rewrite ?Hd in Hs; try done.
      - unfold tx_send in Hs. rewrite Hd in Hs. destruct (wr_open st); by simplify_eq/=.
      - by simplify_eq/=. }
    rewrite <- Hsent. by apply IH.
Qed.
End behaviour.

(** ** Runs *)

#[local] Existing Instance countable_json.

(** A ping, then two messages, which leave no room for a third one. *)
Definition busy_run (m1 m2 : WsClientMessage) : list WriterLabel :=
  [TimeOver true; Sends m1; PingEnds true; TakesMessage; Sends m2].

Lemma accepted_messages_written_witness :
  let m1 := send_offer_message "s" 2 "v=0" in
  let m2 := send_answer_message "t" 3 "v=0" in
  ∃ st, run_writer (busy_run m1 m2) writer_start = Some st ∧ tx_send m1 st = None ∧
    (∀ st', run_writer [WriteEnds true; TakesMessage; WriteEnds true] st = Some st' →
     omap text_of (wr_sent st') = [to_json m1; to_json m2]).
Proof.
  intros m1 m2. eexists. split; [reflexivity|]. split; [reflexivity|]. intros st' Hrun.
  destruct (accepted_messages_written (mk_Writer [m2] true (Writing m1) [WPing] [m1; m2] []))
    as (_ & _ & _ & _ & Hrest).
  - exists (busy_run m1 m2). reflexivity.
  - destruct (Hrest [WriteEnds true; TakesMessage; WriteEnds true] st') as [_ Hdone].
    + repeat constructor.
    + exact Hrun.
    + apply Hdone. injection Hrun as <-. intros [m| | |[]|taken|[]] Hl; try destruct Hl; reflexivity.
Defined.
