(* ===== verification/SignalingSystem.v ===== *)
(** * The signaling server and its clients

    The server of [WsServer] with a [SignalingClient] at the other end of every
    connection: the messages written to the socket of a connection travel,
    in order, to the reader of its client.  What the theorems about the server
    say of a socket holds for what an application receives. *)

From stdpp Require Import sets.
From S2P Require Import Prelude Serde Signaling WsServer WsServerSafety.
From S2P Require Import SignalingClient SignalingClientProps SignalingClientBehaviour.
From S2P Require Import Instances WsServerBehaviour SignalingClientRuns.

Record System := mk_System {
  sy_world : World;
  sy_clients : gmap Uuid Client
}.

(** The server takes a step, a frame arrives, the socket of a client is
    closed, or the tasks or the application of a client take a step. *)
Inductive SystemLabel :=
| ServerStep (l : WsServer.Label)
| Deliver (id : Uuid)
| ClientStep (id : Uuid) (l : SignalingClient.Label).

Section system.
Context (max_connections max_requests : Z).
Context `{Base64, SerdeJson ClientInfoWithoutId, SerdeJson WsClientMessage, SerdeJson WsServerMessage}.

Definition system_new : System := mk_System world_new ∅.

(** The client of a connection, once its websocket is open. *)
Definition new_clients (l : WsServer.Label) (clients : gmap Uuid Client) : gmap Uuid Client :=
  match l with LConnect id _ _ => <[id := client_start]> clients | _ => clients end.

(** The next frame for a client is the first it has not got. *)
Definition next_frame (w : World) (id : Uuid) (st : Client) : option Frame :=
  c ← w_conns w !! id;
  m ← c_out c !! length (sg_all st);
  Some (FText (to_json m)).

Definition system_step (l : SystemLabel) (s : System) : option System :=
  match l with
  | ServerStep l =>
      w ← WsServer.step_fn max_connections max_requests l (sy_world s);
      Some (mk_System w (new_clients l (sy_clients s)))
  | Deliver id =>
      st ← sy_clients s !! id;
      f ← next_frame (sy_world s) id st;
      st' ← client_step (ServerSends f) st;
      Some (mk_System (sy_world s) (<[id := st']> (sy_clients s)))
  | ClientStep id l =>
      st ← sy_clients s !! id;
      st' ← client_step l st;
      match l with
      | ServerSends _ => None
      | _ => Some (mk_System (sy_world s) (<[id := st']> (sy_clients s)))
      end
  end.

Inductive system_reachable : System → Prop :=
| system_start : system_reachable system_new
| system_next l s s' : system_reachable s → system_step l s = Some s' → system_reachable s'.

(** A plan: the labels of some steps, in order. *)
Fixpoint run_system (ls : list SystemLabel) (s : System) : option System :=
  match ls with
  | [] => Some s
  | l :: ls => s ← system_step l s; run_system ls s
  end.

Lemma run_system_app ls1 ls2 s :
  run_system (ls1 ++ ls2) s = (s1 ← run_system ls1 s; run_system ls2 s1).
Proof.
  revert s. induction ls1 as [|l ls1 IH]; intros s; simpl; [done|].
  destruct (system_step l s); simpl; [apply IH|done].
Qed.

Lemma run_system_reachable ls s s' :
  system_reachable s → run_system ls s = Some s' → system_reachable s'.
Proof.
  revert s. induction ls as [|l ls IH]; intros s Hs Hrun; simplify_eq/=; [done|].
  destruct (system_step l s) as [s1|] eqn:Hl; simplify_eq/=.
  eapply IH; [by eapply system_next|done].
Qed.

(** ** Sockets only grow *)

Definition grows (w w' : World) : Prop :=
  ∀ id c, w_conns w !! id = Some c →
    ∃ c', w_conns w' !! id = Some c' ∧ c_out c `prefix_of` c_out c' ∧ c_group c' = c_group c.

#[local] Instance grows_preorder : PreOrder grows.
Proof.
  split.
  - intros w id c Hc. eauto.
  - intros w1 w2 w3 H12 H23 id c Hc.
    destruct (H12 id c Hc) as (c2 & Hc2 & Hp2 & Hg2). destruct (H23 id c2 Hc2) as (c3 & Hc3 & Hp3 & Hg3).
    exists c3. split_and!; [done|by etrans|congruence].
Qed.

Lemma grows_same w w' : w_conns w' = w_conns w → grows w w'.
Proof. intros Heq id c Hc. rewrite Heq. eauto. Qed.

Lemma grows_on_conn f id w :
  (∀ c, c_out c `prefix_of` c_out (f c) ∧ c_group (f c) = c_group c) → grows w (on_conn f id w).
Proof.
  intros Hf id' c Hc. unfold on_conn. simpl. destruct (decide (id' = id)) as [->|Hne].
  - rewrite lookup_alter_eq, Hc. simpl. destruct (Hf c). eauto.
  - rewrite lookup_alter_ne by done. eauto.
Qed.

Lemma grows_send tx m w w' : send tx m w = Some w' → grows w w'.
Proof.
  unfold send. intros Hs. repeat case_match; simplify_eq; try done.
  by apply grows_on_conn.
Qed.

Lemma grows_connect id g info w w' :
  connect max_connections max_requests id g info w = Some w' → grows w w'.
Proof.
  unfold connect. intros Hs. destruct (w_conns w !! id) eqn:Hid; [done|].
  destruct (handle_socket_lock _ _ _ _ _ _) as [adm st]. simplify_eq.
  intros id' c Hc. simpl. rewrite lookup_insert_ne by congruence. eauto.
Qed.

(** A phase or a channel changes, nothing is unsaid. *)
Ltac conn_grows := apply grows_on_conn; intros ?; simpl; split; [|done];
  first [done | apply prefix_app_r; done].

Lemma grows_recv_text id c text w : grows w (recv_text max_requests id c text w).
Proof.
  unfold recv_text. destruct (from_json text); [|done].
  destruct (protect_ddos_request_count _ _ _) as [r counts].
  etrans; [|destruct r; conn_grows]. by apply grows_same.
Qed.

Lemma grows_handle id c msg w : grows w (handle_message id c msg w).
Proof.
  unfold handle_message. destruct msg.
  - destruct (send_update_lock _ _ _ _) as [txs tm]. etrans; [|conn_grows]. by apply grows_same.
  - destruct (send_to_peer_lock _ _ _); conn_grows.
  - destruct (send_to_peer_lock _ _ _); conn_grows.
Qed.

Lemma step_grows l w w' : WsServer.step_fn max_connections max_requests l w = Some w' → grows w w'.
Proof.
  intros Hs. destruct l; simpl in Hs.
  1: by eapply grows_connect.
  all: repeat match goal with
    | Hb : (_ ← ?o; _) = Some _ |- _ => destruct o eqn:?; [|done]; simpl in Hb
    | Hb : (_ <$> ?o) = Some _ |- _ => destruct o eqn:?; [|done]; simpl in Hb
    | Hb : match ?x with _ => _ end = Some _ |- _ => destruct x eqn:?; simplify_eq/=
    end; try done; simplify_eq/=;
    try (etrans; [by eapply grows_send|]); try conn_grows;
    first [apply grows_recv_text | apply grows_handle | by apply grows_same
          | etrans; [|conn_grows]; by apply grows_same].
Qed.

(** ** What a client has got *)

Record system_ok (s : System) : Prop := {
  so_world : reachable max_connections max_requests (sy_world s);
  so_clients id st : sy_clients s !! id = Some st →
    client_reachable st ∧
    ∃ c, w_conns (sy_world s) !! id = Some c ∧ sg_all st `prefix_of` c_out c
}.

Context `{!SerdeJsonLaws WsServerMessage}.

Lemma connect_lookup id g info w w' :
  connect max_connections max_requests id g info w = Some w' → ∃ c, w_conns w' !! id = Some c.
Proof.
  unfold connect. intros Hs. destruct (w_conns w !! id); [done|].
  destruct (handle_socket_lock _ _ _ _ _ _) as [adm st]. simplify_eq. simpl.
  rewrite lookup_insert_eq. eauto.
Qed.

Lemma client_step_all l st st' :
  client_step l st = Some st' → (∀ f, l ≠ ServerSends f) → sg_all st' = sg_all st.
Proof.
  intros Hs Hl. destruct st as [wire closed reader client_ch caller receive listener cbs gone out
                                open all seen called reg].
  destruct l as [f| | | | | | | | | |]; [by destruct (Hl f)|..]; simpl in Hs;
    unfold reader_step, caller_step, start_listener, listener_recv, listener_forward, app_recv in Hs;
    simpl in Hs; repeat case_match; by simplify_eq/=.
Qed.

Lemma client_step_reachable l st st' :
  client_reachable st → client_step l st = Some st' → client_reachable st'.
Proof. intros Hst Hs. eapply (client_reachable_run [l]); [done|]. simpl. by rewrite Hs. Qed.

Lemma prefix_next {A} (l l' : list A) x : l `prefix_of` l' → l' !! length l = Some x → l ++ [x] `prefix_of` l'.
Proof.
  intros [k ->] Hx. rewrite lookup_app_r, Nat.sub_diag in Hx by done.
  destruct k as [|y k]; [done|]. simplify_eq/=. apply prefix_app. by exists k.
Qed.

Lemma server_step_ok l s s' :
  system_ok s → system_step (ServerStep l) s = Some s' → system_ok s'.
Proof.
  intros [Hw Hcl] Hs. simpl in Hs.
  destruct (WsServer.step_fn max_connections max_requests l (sy_world s)) as [w'|] eqn:Hl; simplify_eq/=.
  pose proof (step_grows _ _ _ Hl) as Hg. constructor; simpl.
  - eapply reachable_step; [done|by exists l].
  - assert (∀ id st, sy_clients s !! id = Some st →
      client_reachable st ∧ ∃ c, w_conns w' !! id = Some c ∧ sg_all st `prefix_of` c_out c) as Hold.
    { intros id st Hid. destruct (Hcl id st Hid) as (Hr & c & Hc & Hp). split; [done|].
      destruct (Hg id c Hc) as (c' & Hc' & Hp' & _). exists c'. split; [done|by etrans]. }
    intros id st. destruct l; simpl; try apply Hold.
    intros [[<- <-]|[_ Hid]]%lookup_insert_Some; [|by apply Hold].
    split; [by exists []|]. destruct (connect_lookup _ _ _ _ _ Hl) as [c Hc].
    exists c. split; [done|]. apply prefix_nil.
Qed.

(** A client that takes a step without getting ahead of its socket. *)
Lemma client_change_ok id st st' l s :
  system_ok s → sy_clients s !! id = Some st → client_step l st = Some st' →
  (∀ c, w_conns (sy_world s) !! id = Some c → sg_all st' `prefix_of` c_out c) →
  system_ok (mk_System (sy_world s) (<[id := st']> (sy_clients s))).
Proof.
  intros [Hw Hcl] Hid Hs Hp. constructor; simpl; [done|].
  intros id' st1 [[<- <-]|[_ Hid']]%lookup_insert_Some; [|by apply Hcl].
  destruct (Hcl id st Hid) as (Hr & c & Hc & _). split; [by eapply client_step_reachable|]. eauto.
Qed.

Lemma deliver_ok id s s' : system_ok s → system_step (Deliver id) s = Some s' → system_ok s'.
Proof.
  intros Hok Hs. simpl in Hs. unfold next_frame in Hs.
  destruct (sy_clients s !! id) as [st|] eqn:Hid; [|done]. simpl in Hs.
  destruct (w_conns (sy_world s) !! id) as [c|] eqn:Hc; [|done]. simpl in Hs.
  destruct (c_out c !! length (sg_all st)) as [m|] eqn:Hm; [|done]. simpl in Hs.
  destruct (sg_wire_closed st) eqn:Hcl; [done|]. simpl in Hs. simplify_eq.
  destruct (so_clients _ Hok id st Hid) as (_ & c0 & Hc0 & Hp). simplify_eq.
  eapply (client_change_ok id st _ (ServerSends (FText (to_json m)))); [done|done|simpl; by rewrite Hcl|].
  intros c' ?. simplify_eq. simpl. rewrite from_to_json. by apply prefix_next.
Qed.

Lemma client_label_ok id l s s' : system_ok s → system_step (ClientStep id l) s = Some s' → system_ok s'.
Proof.
  intros Hok Hs.
  assert (∃ st st', sy_clients s !! id = Some st ∧ client_step l st = Some st' ∧
    (∀ f, l ≠ ServerSends f) ∧ s' = mk_System (sy_world s) (<[id := st']> (sy_clients s)))
    as (st & st' & Hid & Hst & Hl & ->).
  { simpl in Hs. destruct (sy_clients s !! id) as [st|]; [|done]. simpl in Hs.
    destruct (client_step l st) as [st'|] eqn:Hst; [|done]. simpl in Hs.
    exists st, st'. destruct l; by simplify_eq. }
  eapply client_change_ok; [done..|]. intros c Hc. rewrite (client_step_all l st st') by done.
  destruct (so_clients _ Hok id st Hid) as (_ & c0 & Hc0 & Hp). by simplify_eq.
Qed.

Lemma system_reachable_ok s : system_reachable s → system_ok s.
Proof.
  induction 1 as [|[l|id|id l] s s' _ IH Hs].
  - constructor; [constructor|]. intros id st. simpl. by rewrite lookup_empty.
  - by eapply server_step_ok.
  - by eapply deliver_ok.
  - by eapply client_label_ok.
Qed.

Context (Hmc : (0 ≤ max_connections)%Z) (Hmr : (0 ≤ max_requests ≤ u32_max)%Z).

(** What has reached an application: the messages it has read, and the answers
    its callbacks were called with. *)
Definition told (st : Client) (m : WsServerMessage) : Prop :=
  m ∈ sg_seen st ∨ ∃ cb sdp, m = Answer sdp ∧ (cb, sdp) ∈ sg_called st.

(** C4. Isolation, from the server to the applications: an application is told
    nothing that the server has not written to its own socket, in that order
    and nothing twice; and neither the application nor its socket nor the
    channel behind it ever holds a message about a peer of another IP group. *)
Theorem application_isolation s id st :
  system_reachable s → sy_clients s !! id = Some st →
  ∃ c, w_conns (sy_world s) !! id = Some c ∧ sg_seen st `sublist_of` c_out c ∧
    (∀ m, told st m → m ∈ c_out c) ∧
    ∀ m pid, m ∈ c_out c ++ default [] (c_rx c) → pid ∈ mentioned m →
      ∃ d, w_conns (sy_world s) !! pid = Some d ∧ c_group d = c_group c.
Proof using All.
  intros [Hw Hcl]%system_reachable_ok Hid. destruct (Hcl id st Hid) as (Hst & c & Hc & Hp).
  assert (sg_all st `sublist_of` c_out c) as Hsub.
  { destruct Hp as [k ->]. by apply sublist_inserts_r. }
  assert (sg_seen st `sublist_of` sg_all st) as Hseen.
  { etrans; [|apply inv_order, client_reachable_inv, Hst]. by apply sublist_inserts_r. }
  exists c. split_and!; [done|by etrans| |].
  - intros m [Hm|(cb & sdp & -> & Hcall)]; (eapply elem_of_sublist; [|exact Hsub]).
    + eapply elem_of_sublist; [exact Hm|exact Hseen].
    + by apply (cb_called _ (callbacks_reachable st Hst) cb sdp Hcall).
  - intros m pid Hm Hpid. by eapply server_isolation.
Qed.
End system.

(** ** Runs *)

#[local] Existing Instance countable_json.
#[local] Existing Instance countable_json_laws.

Definition system_end (ls : list SystemLabel) : System := default system_new (run_system 10 1000 ls system_new).

(** Two devices of one group; the application of the first is told of the
    second. *)
Definition two_clients : list SystemLabel :=
  ServerStep <$> [LConnect 1 lan some_info; LHello 1; LPump 1; LConnect 2 lan some_info; LJoin 2; LPump 1].
Definition first_reads : list SystemLabel :=
  [Deliver 1; Deliver 1] ++ (ClientStep 1 <$>
    [ReaderStep; ReaderStep; ReaderStep; CallerStep; StartListener; ListenerRecv; ListenerForward;
     ReaderStep; ReaderStep; ListenerRecv; ListenerForward; AppRecv; AppRecv]).

Lemma application_isolation_witness :
  ∃ d, w_conns (sy_world (system_end (two_clients ++ first_reads))) !! 2%N = Some d ∧ c_group d = lan.
Proof.
  set (s := system_end (two_clients ++ first_reads)).
  assert (system_reachable 10 1000 s) as Hs.
  { apply (run_system_reachable 10 1000 (two_clients ++ first_reads) system_new); [constructor|].
    vm_compute. reflexivity. }
  assert (∃ st, sy_clients s !! 1%N = Some st ∧
    Join (client_info_from some_info 2) ∈ sg_seen st) as (st & Hst & Hm).
  { eexists. split; [vm_compute; reflexivity|].
    apply (bool_decide_unpack _). vm_compute. exact I. }
  destruct (application_isolation 10 1000 ltac:(lia) ltac:(unfold u32_max; lia) s 1%N st Hs Hst)
    as (c & Hc & _ & Htold & Hiso).
  destruct (Hiso (Join (client_info_from some_info 2)) 2%N) as (d & Hd & Hg).
  - apply elem_of_app. left. apply Htold. left. exact Hm.
  - left.
  - exists d. split; [exact Hd|]. rewrite Hg. vm_compute in Hc. injection Hc as <-. reflexivity.
Defined.

(** A device is filed under its group before it is greeted; two devices that
    come in between are announced to it first, and [connect] never returns. *)
Definition late_hello : list SystemLabel :=
  (ServerStep <$> [LConnect 1 lan some_info; LConnect 2 lan some_info; LJoin 2; LHello 2;
                   LConnect 3 lan some_info; LJoin 3; LJoin 3; LHello 1; LPump 1; LPump 1; LPump 1]) ++
  [Deliver 1; Deliver 1; Deliver 1] ++ (ClientStep 1 <$> [ReaderStep; ReaderStep; ReaderStep]).

Example late_hello_stuck :
  match sy_clients (system_end late_hello) !! 1%N with
  | Some st =>
      sg_caller st = Waiting ∧
      sg_all st = [Join (client_info_from some_info 2); Join (client_info_from some_info 3);
                   Hello (client_info_from some_info 1) []] ∧
      Forall (λ l, client_step l st = None)
        [ReaderStep; CallerStep; StartListener; ListenerRecv; ListenerForward; AppRecv]
  | None => False
  end.
Proof. vm_compute. split_and!; [done|done|]. repeat constructor. Qed.
