(* ===== verification/SignalingDelivery.v ===== *)
(** * From one application to another

    The steps by which an offer or an answer that one device writes to its
    websocket reaches the application of another device, or the callback that
    waits for it: through the receive task of its connection, the peer map,
    the channel and the send task of the other connection, the reader and the
    listener of the other client.  A list of labels is a plan of the system. *)

From S2P Require Import Prelude Serde Signaling WsServer WsServerSafety WsServerBehaviour.
From S2P Require Import SignalingClient SignalingClientProps SignalingSystem.

(** ** The client gets a message *)

(** The client has nothing to do, and its application listens. *)
Record client_quiet (st : Client) : Prop := {
  cq_wire : sg_wire st = [] ∧ sg_wire_closed st = false;
  cq_reader : sg_reader st = Reading;
  cq_caller : sg_caller st ≠ Waiting;
  cq_receive : sg_receive st = [];
  cq_listener : sg_listener st = Listening;
  cq_out : sg_out st = [] ∧ sg_out_open st = true
}.

(** What a message does to the callbacks. *)
Definition calls_back (m : WsServerMessage) (st : Client) : Client :=
  match m with
  | Answer sdp =>
      match sg_callbacks st !! ss_session_id sdp with
      | Some cb =>
          set_called (sg_called st ++ [(cb, sdp)])
            (set_callbacks (delete (ss_session_id sdp) (sg_callbacks st)) st)
      | None => st
      end
  | _ => st
  end.

(** The client after a message. *)
Definition told_of (m : WsServerMessage) (st : Client) : Client :=
  set_seen (sg_seen st ++ [m]) (set_all (sg_all st ++ [m]) (calls_back m st)).

(** A forwarded description, whose callback, if there is one, is waited for. *)
Definition sdp_for (m : WsServerMessage) (st : Client) : Prop :=
  match m with
  | Offer _ => True
  | Answer sdp => ∀ cb, sg_callbacks st !! ss_session_id sdp = Some cb → cb ∉ sg_gone st
  | _ => False
  end.

Lemma told_of_quiet m st : client_quiet st → client_quiet (told_of m st).
Proof.
  intros [[? ?] ? ? ? ? [? ?]]. unfold told_of, calls_back.
  destruct m; try (by split); by destruct (sg_callbacks st !! _); split.
Qed.

Definition receive_plan : list SignalingClient.Label :=
  [ReaderStep; ReaderStep; ListenerRecv; ListenerForward; AppRecv].

Section delivery.
Context (max_connections max_requests : Z).
Context `{Base64, SerdeJson ClientInfoWithoutId, SerdeJson WsClientMessage, SerdeJson WsServerMessage}.
Context `{!SerdeJsonLaws WsClientMessage, !SerdeJsonLaws WsServerMessage}.

Lemma run_client_cons l ls st st1 st' :
  client_step l st = Some st1 → run_client ls st1 = Some st' → run_client (l :: ls) st = Some st'.
Proof. intros Hl Hls. simpl. by rewrite Hl. Qed.

(** A quiet client with the message in one of its places: on the wire, held by
    the reader, in the channel of the listener, held by the listener, in the
    channel of the application. *)
Definition holding (wire : list Frame) (reader : ReaderTask) (receive : list WsServerMessage)
    (listener : ListenerTask) (out : list WsServerMessage) (st : Client) : Client :=
  set_wire wire (set_reader reader (set_receive receive (set_listener listener (set_out out st)))).

Lemma client_quiet_holding st : client_quiet st → st = holding [] Reading [] Listening [] st.
Proof. intros [[? ?] ? ? ? ? [? ?]]. destruct st; simpl in *; by subst. Qed.

Lemma takes_frame f st :
  sg_wire_closed st = false →
  client_step (ServerSends f) (holding [] Reading [] Listening [] st) =
    Some (holding [f] Reading [] Listening [] (set_all (sg_all st ++ frame_messages f) st)).
Proof. intros Hc. simpl. by rewrite Hc. Qed.

Lemma takes_message f m st :
  frame_messages f = [m] → (∀ client peers, m ≠ Hello client peers) →
  client_step ReaderStep (holding [f] Reading [] Listening [] st) =
    Some (holding [] (Giving m) [] Listening [] st).
Proof.
  intros Hf Hm. simpl. unfold reader_step. cbn -[frame_messages]. rewrite Hf.
  destruct m as [client peers| | | | | |]; try done. by destruct (Hm client peers).
Qed.

Lemma takes_received m st :
  client_step ReaderStep (holding [] (Giving m) [] Listening [] st) =
    Some (holding [] Reading [m] Listening [] st).
Proof. done. Qed.

Lemma takes_listened m st :
  sdp_for m st →
  client_step ListenerRecv (holding [] Reading [m] Listening [] st) =
    Some (holding [] Reading [] (Forwarding m) [] (calls_back m st)).
Proof.
  intros Hm. simpl. unfold listener_recv. simpl. destruct m as [| | | |sdp|sdp|]; try done.
  simpl in Hm |- *. destruct (sg_callbacks st !! ss_session_id sdp) as [cb|]; [|done].
  by rewrite decide_False by by apply Hm.
Qed.

Lemma takes_forwarded m st :
  sg_out_open st = true →
  client_step ListenerForward (holding [] Reading [] (Forwarding m) [] st) =
    Some (holding [] Reading [] Listening [m] st).
Proof. intros Ho. simpl. unfold listener_forward. simpl. by rewrite Ho. Qed.

Lemma takes_read m st :
  sg_out_open st = true →
  client_step AppRecv (holding [] Reading [] Listening [m] st) =
    Some (holding [] Reading [] Listening [] (set_seen (sg_seen st ++ [m]) st)).
Proof. intros Ho. simpl. unfold app_recv. simpl. by rewrite Ho. Qed.

Lemma calls_back_same m st :
  sg_out_open (calls_back m st) = sg_out_open st ∧ sg_seen (calls_back m st) = sg_seen st ∧
  calls_back m (set_all (sg_all st ++ [m]) st) = set_all (sg_all st ++ [m]) (calls_back m st).
Proof. destruct m; try done. simpl. by destruct (sg_callbacks st !! _). Qed.

(** The tasks on a frame that is one message, other than a greeting. *)
Lemma client_takes f m st :
  client_quiet st → sdp_for m st → frame_messages f = [m] →
  run_client (ServerSends f :: receive_plan) st = Some (told_of m st).
Proof.
  intros Hq Hm Hf. pose proof Hq as [[_ Hc] _ _ _ _ [_ Ho]].
  rewrite (client_quiet_holding (told_of m st)) by by apply told_of_quiet.
  rewrite (client_quiet_holding st Hq) at 1.
  destruct (calls_back_same m st) as (Hco & Hcs & Hca).
  eapply run_client_cons; [by apply takes_frame|]. rewrite Hf.
  eapply run_client_cons; [apply (takes_message f m); [done|by intros ? ? ->]|].
  eapply run_client_cons; [apply takes_received|].
  eapply run_client_cons; [by apply takes_listened; destruct m|]. rewrite Hca.
  eapply run_client_cons; [apply takes_forwarded; simpl; by rewrite Hco|].
  eapply run_client_cons; [apply takes_read; simpl; by rewrite Hco|].
  simpl. by rewrite Hcs.
Qed.

Lemma client_receives m st :
  client_quiet st → sdp_for m st →
  run_client (ServerSends (FText (to_json m)) :: receive_plan) st = Some (told_of m st).
Proof. intros Hst Hm. apply client_takes; [done..|]. simpl. by rewrite from_to_json. Qed.

(** ** The server forwards a message *)

(** The connection is in its loop and its channel is empty. *)
Definition conn_quiet (w : World) (id : Uuid) (c : Conn) : Prop :=
  w_conns w !! id = Some c ∧ c_phase c = PRun RIdle ∧ c_rx c = Some [].

Definition requests_of (g : string) (w : World) : Z := default 0%Z (request_count_map (w_app w) !! g).

Definition sdp_message (wrapped : WsClientSdpMessageWrapper) : WsClientMessage :=
  match wrapped with WOffer m => COffer m | WAnswer m => CAnswer m end.

Definition forward_plan (a b : Uuid) (wrapped : WsClientSdpMessageWrapper) : list WsServer.Label :=
  [LText a (as_bytes (to_json (sdp_message wrapped))); LHandle a; LSendNext a; LPump b].

Lemma on_conn_lookup f id w id' :
  w_conns (on_conn f id w) !! id' = (if decide (id = id') then f else λ c, c) <$> w_conns w !! id'.
Proof.
  unfold on_conn. simpl. case_decide as Hid.
  - subst. by rewrite lookup_alter_eq.
  - rewrite lookup_alter_ne by done. by destruct (w_conns w !! id').
Qed.

Lemma run_cons l ls w w1 w' :
  WsServer.step_fn max_connections max_requests l w = Some w1 →
  WsServer.run max_connections max_requests ls w1 = Some w' →
  WsServer.run max_connections max_requests (l :: ls) w = Some w'.
Proof. intros Hl Hls. simpl. by rewrite Hl. Qed.

Lemma server_forwards w a b ca cb wrapped :
  (0 ≤ max_connections)%Z → (0 ≤ max_requests ≤ u32_max)%Z →
  reachable max_connections max_requests w →
  a ≠ b → conn_quiet w a ca → conn_quiet w b cb → c_group cb = c_group ca →
  wrapper_target wrapped = b → (requests_of (c_group ca) w < max_requests)%Z →
  ∃ w', WsServer.run max_connections max_requests (forward_plan a b wrapped) w = Some w' ∧
    w_conns w' = <[b := push_out (server_message (c_peer ca) wrapped) cb]> (w_conns w) ∧
    requests_of (c_group ca) w' = (requests_of (c_group ca) w + 1)%Z.
Proof.
  intros Hmc Hmr Hw Hab (Hca & Hpa & Hra) (Hcb & Hpb & Hrb) Hg Ht Hn.
  set (m := server_message (c_peer ca) wrapped). set (msg := sdp_message wrapped).
  set (g := c_group ca) in *. set (n := requests_of g w) in *.
  set (w0 := {| w_app := {| tx_map := tx_map (w_app w);
                            request_count_map := <[g := (n + 1)%Z]> (request_count_map (w_app w)) |};
                w_conns := w_conns w |}).
  set (w1 := on_conn (set_phase (PRun (RHandle msg))) a w0).
  set (w2 := on_conn (set_phase (PRun (RSend [b] m))) a w1).
  set (w3 := on_conn (set_phase (PRun RIdle)) a (on_conn (set_rx (Some [m])) b w2)).
  assert (WsServer.step_fn max_connections max_requests (LText a (as_bytes (to_json msg))) w = Some w1)
    as Hs1.
  { simpl. rewrite Hca. simpl. rewrite Hpa. unfold recv_text. rewrite from_to_json.
    unfold protect_ddos_request_count. fold g. fold (requests_of g w). fold n.
    rewrite decide_False by lia. by rewrite decide_True by lia. }
  assert (w_conns w1 !! a = Some (set_phase (PRun (RHandle msg)) ca)) as Hl1.
  { unfold w1. rewrite on_conn_lookup, decide_True by done. simpl. by rewrite Hca. }
  assert (w_conns w2 !! a = Some (set_phase (PRun (RSend [b] m)) (set_phase (PRun (RHandle msg)) ca))) as Hl2.
  { unfold w2. rewrite on_conn_lookup, decide_True by done. by rewrite Hl1. }
  assert (w_conns w2 !! b = Some cb) as Hb2.
  { unfold w2, w1. rewrite !on_conn_lookup, !decide_False by done. simpl. by rewrite Hcb. }
  assert (w_conns w3 !! b = Some (set_rx (Some [m]) cb)) as Hb3.
  { unfold w3. rewrite !on_conn_lookup, (decide_False (P := a = b)), decide_True by done. by rewrite Hb2. }
  assert (WsServer.step_fn max_connections max_requests (LHandle a) w1 = Some w2) as Hs2.
  { unfold WsServer.step_fn. rewrite Hl1. simpl. f_equal. unfold handle_message.
    assert (send_to_peer_lock (tx_map (w_app w1)) g b = Some b) as Hlock.
    { change (tx_map (w_app w1)) with (tx_map (w_app w)). unfold g.
      rewrite send_to_peer_colocated by apply (reachable_ok _ _ Hmc Hmr _ Hw).
      unfold colocated. by rewrite Hcb, Hpb, bool_decide_true. }
    unfold w2, m, msg. unfold g in Hlock. destruct wrapped; simpl in *; subst b; by rewrite Hlock. }
  assert (WsServer.step_fn max_connections max_requests (LSendNext a) w2 = Some w3) as Hs3.
  { unfold WsServer.step_fn. rewrite Hl2. simpl. unfold send. rewrite Hb2. simpl.
    by rewrite Hrb, decide_True by (unfold CHANNEL_CAPACITY; simpl; lia). }
  assert (WsServer.step_fn max_connections max_requests (LPump b) w3 =
            Some (on_conn (push_out m ∘ set_rx (Some [])) b w3)) as Hs4.
  { unfold WsServer.step_fn. rewrite Hb3. simpl. by rewrite Hpb. }
  exists (on_conn (push_out m ∘ set_rx (Some [])) b w3). split_and!.
  - unfold forward_plan. do 4 (eapply run_cons; [eassumption|]). reflexivity.
  - apply map_eq. intros i. unfold w3, w2, w1. rewrite !on_conn_lookup. simpl.
    destruct (decide (b = i)) as [<-|Hbi]; [|destruct (decide (a = i)) as [<-|Hai]].
    + rewrite lookup_insert_eq, !(decide_False (P := a = b)) by done. rewrite Hcb. simpl.
      destruct cb; simpl in *. by subst.
    + rewrite lookup_insert_ne by done. rewrite Hca. simpl. destruct ca; simpl in *. by subst.
    + rewrite lookup_insert_ne by done. by destruct (w_conns w !! i).
  - unfold requests_of. simpl. by rewrite lookup_insert_eq.
Qed.

(** ** From one application to the other *)

(** A device with nothing under way, all of whose messages have been read. *)
Record device_quiet (s : System) (id : Uuid) (c : Conn) (st : Client) : Prop := {
  dq_conn : conn_quiet (sy_world s) id c;
  dq_client : sy_clients s !! id = Some st;
  dq_state : client_quiet st;
  dq_got : sg_all st = c_out c
}.

Definition delivery_plan (a b : Uuid) (wrapped : WsClientSdpMessageWrapper) : list SystemLabel :=
  (ServerStep <$> forward_plan a b wrapped) ++ [Deliver b] ++ (ClientStep b <$> receive_plan).

(** A plan of the server is a plan of the system. *)
Lemma run_server_steps ls w' s :
  Forall (λ l, ∀ clients, new_clients l clients = clients) ls →
  WsServer.run max_connections max_requests ls (sy_world s) = Some w' →
  run_system max_connections max_requests (ServerStep <$> ls) s = Some (mk_System w' (sy_clients s)).
Proof.
  intros Hls. revert s. induction Hls as [|l ls Hl Hls IH]; intros [w clients] Hrun; simplify_eq/=; [done|].
  destruct (WsServer.step_fn _ _ l w) as [w1|]; [|done]. simplify_eq/=. rewrite Hl.
  by apply (IH (mk_System w1 clients)).
Qed.

(** So is a plan of a client. *)
Lemma run_client_steps id ls st st' s :
  Forall (λ l, ∀ f, l ≠ ServerSends f) ls →
  sy_clients s !! id = Some st → run_client ls st = Some st' →
  run_system max_connections max_requests (ClientStep id <$> ls) s =
    Some (mk_System (sy_world s) (<[id := st']> (sy_clients s))).
Proof.
  intros Hls. revert s st. induction Hls as [|l ls Hl Hls IH]; intros [w clients] st Hid Hrun;
    simplify_eq/=; [by rewrite insert_id|].
  rewrite Hid. simpl. destruct (client_step l st) as [st1|]; [|done]. simplify_eq/=.
  assert (match l with ServerSends _ => None
          | _ => Some (mk_System w (<[id := st1]> clients)) end =
          Some (mk_System w (<[id := st1]> clients))) as ->.
  { destruct l as [f| | | | | | | | | |]; try done. by destruct (Hl f). }
  simpl. rewrite (IH _ st1); [by simpl; rewrite insert_insert_eq|by apply lookup_insert_eq|done].
Qed.

(** A message of [a] for [b] is told to [b], and both devices are at rest
    again. *)
Lemma message_delivered s a b ca cb sta stb wrapped :
  (0 ≤ max_connections)%Z → (0 ≤ max_requests ≤ u32_max)%Z →
  system_reachable max_connections max_requests s →
  a ≠ b → device_quiet s a ca sta → device_quiet s b cb stb → c_group cb = c_group ca →
  wrapper_target wrapped = b → sdp_for (server_message (c_peer ca) wrapped) stb →
  (requests_of (c_group ca) (sy_world s) < max_requests)%Z →
  ∃ s', run_system max_connections max_requests (delivery_plan a b wrapped) s = Some s' ∧
    device_quiet s' a ca sta ∧
    device_quiet s' b (push_out (server_message (c_peer ca) wrapped) cb)
      (told_of (server_message (c_peer ca) wrapped) stb) ∧
    requests_of (c_group ca) (sy_world s') = (requests_of (c_group ca) (sy_world s) + 1)%Z.
Proof.
  intros Hmc Hmr Hs Hab [Hca Hsta Hqa Hga] [Hcb Hstb Hqb Hgb] Hg Ht Hm Hn.
  set (m := server_message (c_peer ca) wrapped) in *.
  destruct (server_forwards (sy_world s) a b ca cb wrapped) as (w' & Hw' & Hconns & Hn'); try done.
  { eapply so_world. by apply system_reachable_ok. }
  fold m in Hconns.
  set (s1 := mk_System w' (sy_clients s)).
  set (st1 := set_all (sg_all stb ++ [m]) (set_wire (sg_wire stb ++ [FText (to_json m)]) stb)).
  set (s2 := mk_System w' (<[b := st1]> (sy_clients s))).
  set (s3 := mk_System w' (<[b := told_of m stb]> (sy_clients s))).
  exists s3.
  assert (client_step (ServerSends (FText (to_json m))) stb = Some st1) as Hst1.
  { destruct Hqb as [[_ Hc] _ _ _ _ _]. simpl. rewrite Hc. by rewrite from_to_json. }
  assert (system_step max_connections max_requests (Deliver b) s1 = Some s2) as Hdel.
  { unfold system_step, next_frame, s1. cbn [sy_world sy_clients]. rewrite Hstb, Hconns, lookup_insert_eq.
    cbn -[client_step]. rewrite Hgb, lookup_app_r, Nat.sub_diag by done. cbn -[client_step]. by rewrite Hst1. }
  split_and!.
  - unfold delivery_plan. rewrite run_system_app.
    rewrite (run_server_steps _ w') by (done || by repeat constructor). cbn [mbind option_bind].
    rewrite run_system_app. cbn [run_system]. fold s1. rewrite Hdel. cbn [mbind option_bind].
    rewrite (run_client_steps _ _ st1 (told_of m stb)).
    + simpl. by rewrite insert_insert_eq.
    + by repeat constructor.
    + apply lookup_insert_eq.
    + pose proof (client_receives m stb Hqb Hm) as Hrun. by cbn [run_client] in Hrun; rewrite Hst1 in Hrun.
  - constructor; [|simpl; by rewrite lookup_insert_ne|done|done].
    destruct Hca as (Hca & ? & ?). split_and!; [|done..]. simpl. by rewrite Hconns, lookup_insert_ne.
  - constructor; [|apply lookup_insert_eq|by apply told_of_quiet|].
    + destruct Hcb as (Hcb & ? & ?). split_and!; [|done..]. simpl. by rewrite Hconns, lookup_insert_eq.
    + simpl. by rewrite <- Hgb.
  - done.
Qed.
End delivery.
