(* ===== verification/RtcStream.v ===== *)
(** * The stream of received messages

    [to_receive_stream] of [core/src/webrtc/webrtc.rs] turns the callback of
    the data channel into a bounded channel; what the tasks see of it is the
    unbounded inbox of [RtcEnv]. *)

From S2P Require Import Prelude RtcTypes.

(** The capacity both tasks choose. *)
Definition STREAM_CAPACITY : nat := 16.

(** [rs_waiting]: the callbacks that wait in [tx.send] for room, in the order
    of their messages, which is the order in which tokio serves them. *)
Record ReceiveStream := mk_ReceiveStream {
  rs_queue : list DataChannelMessage;
  rs_waiting : list DataChannelMessage;
  rs_receiver : bool
}.

Definition to_receive_stream : ReceiveStream := mk_ReceiveStream [] [] true.

(** The callback: [let _ = tx.send(msg).await]. *)
Definition on_message (buffer : nat) (msg : DataChannelMessage) (s : ReceiveStream) : ReceiveStream :=
  if negb (rs_receiver s) then s
  else if decide (rs_waiting s = [] ∧ length (rs_queue s) < buffer) then
    mk_ReceiveStream (rs_queue s ++ [msg]) [] true
  else mk_ReceiveStream (rs_queue s) (rs_waiting s ++ [msg]) true.

(** [rx.recv()]; the first callback that waits gets the place. *)
Definition stream_recv (s : ReceiveStream) : option DataChannelMessage * ReceiveStream :=
  match rs_queue s, rs_waiting s with
  | msg :: queue, next :: waiting =>
      (Some msg, mk_ReceiveStream (queue ++ [next]) waiting (rs_receiver s))
  | msg :: queue, [] => (Some msg, mk_ReceiveStream queue [] (rs_receiver s))
  | [], _ => (None, s)
  end.

(** [drop(rx)]. *)
Definition stream_drop (s : ReceiveStream) : ReceiveStream := mk_ReceiveStream [] [] false.

Inductive StreamOp := Arrives (msg : DataChannelMessage) | Receives.

(** What the receiver gets out of a sequence of arrivals and receptions. *)
Fixpoint stream_run (buffer : nat) (ops : list StreamOp) (s : ReceiveStream)
    : list (option DataChannelMessage) * ReceiveStream :=
  match ops with
  | [] => ([], s)
  | Arrives msg :: ops => stream_run buffer ops (on_message buffer msg s)
  | Receives :: ops =>
      let '(m, s) := stream_recv s in
      let '(ms, s) := stream_run buffer ops s in (m :: ms, s)
  end.

(** The same with an inbox. *)
Fixpoint inbox_run (ops : list StreamOp) (inbox : list DataChannelMessage)
    : list (option DataChannelMessage) * list DataChannelMessage :=
  match ops with
  | [] => ([], inbox)
  | Arrives msg :: ops => inbox_run ops (inbox ++ [msg])
  | Receives :: ops => let '(ms, i) := inbox_run ops (tail inbox) in (head inbox :: ms, i)
  end.

(** ** Refinement *)

Definition stream_inbox (s : ReceiveStream) : list DataChannelMessage := rs_queue s ++ rs_waiting s.

(** Callbacks wait only while the channel is full. *)
Definition stream_ok (buffer : nat) (s : ReceiveStream) : Prop :=
  rs_receiver s = true ∧ length (rs_queue s) ≤ buffer ∧
  (rs_waiting s ≠ [] → length (rs_queue s) = buffer).

Lemma on_message_inbox buffer msg s :
  stream_ok buffer s →
  stream_ok buffer (on_message buffer msg s) ∧
  stream_inbox (on_message buffer msg s) = stream_inbox s ++ [msg].
Proof.
  destruct s as [queue waiting receiver]. unfold stream_ok, stream_inbox, on_message. simpl.
  intros (-> & Hq & Hw). simpl. case_decide as Hd; simpl.
  - destruct Hd as [-> Hlt]. rewrite length_app, !app_nil_r. simpl. split_and!; [done|lia|done|done].
  - split; [|by rewrite app_assoc]. split_and!; [done|done|]. intros _.
    destruct waiting as [|m waiting]; [|by apply Hw].
    destruct (decide (length queue < buffer)) as [Hlt|]; [by destruct Hd|lia].
Qed.

Lemma stream_recv_inbox buffer s :
  0 < buffer → stream_ok buffer s →
  stream_ok buffer (stream_recv s).2 ∧
  (stream_recv s).1 = head (stream_inbox s) ∧ stream_inbox (stream_recv s).2 = tail (stream_inbox s).
Proof.
  intros Hpos. destruct s as [[|msg queue] [|next waiting] receiver];
    unfold stream_ok, stream_inbox, stream_recv; simpl; intros (-> & Hq & Hw).
  - done.
  - specialize (Hw ltac:(done)). lia.
  - rewrite app_nil_r. split_and!; [done|lia|done|done|done].
  - rewrite length_app, <- app_assoc. simpl. specialize (Hw ltac:(done)).
    split_and!; [done|lia|intros; lia|done|done].
Qed.

(** C35. Whatever arrives while the receiver listens, it gets the messages that the
    unbounded inbox would give it, and the channel keeps its bound. *)
Theorem receive_stream_refines_inbox ops :
  let '(ms, s) := stream_run STREAM_CAPACITY ops to_receive_stream in
  inbox_run ops [] = (ms, stream_inbox s) ∧ length (rs_queue s) ≤ STREAM_CAPACITY.
Proof.
  assert (stream_ok STREAM_CAPACITY to_receive_stream) as Hok
    by (unfold stream_ok; simpl; split_and!; [done|lia|done]).
  change [] with (stream_inbox to_receive_stream) at 1. revert Hok. generalize to_receive_stream.
  induction ops as [|[msg|] ops IH]; intros s Hok; simpl.
  - split; [done|apply Hok].
  - destruct (on_message_inbox _ msg _ Hok) as [Hok' <-]. by apply IH.
  - destruct (stream_recv_inbox STREAM_CAPACITY s) as (Hok' & Hm & <-); [unfold STREAM_CAPACITY; lia|done|].
    destruct (stream_recv s) as [m s1]. simpl in *. subst m. specialize (IH s1 Hok').
    destruct (stream_run STREAM_CAPACITY ops s1) as [ms s2]. destruct IH as [-> ?]. done.
Qed.
