(* ===== verification/RtcSetup.v ===== *)
(** * Setting up a transfer

    [send_offer], [accept_offer] and [create_peer_connection] of
    [core/src/webrtc/webrtc.rs] around the tasks of [Rtc]: the offer and the
    answer, the signaling, the race of the task against the loss of the
    connection, and what is reported and closed in the end.  The peer
    connection belongs to the [webrtc] crate: its calls are events, as are the
    sends of the signaling connection. *)

From ITree Require Import ITree.
From S2P Require Import Prelude Serde Crypto Signaling RtcTypes Interaction Rtc SignalingClient.

Definition CHANNEL_LABEL : string := "data".

(** How [tokio::select!] ends: the task has returned, it has panicked, or the
    connection state has become [Disconnected]. *)
Inductive Selected :=
| TaskReturned (r : res string ())
| TaskJoinError (e : string)
| PeerDisconnected.

Inductive DescriptionKind := OfferDescription | AnswerDescription.

Inductive setupE : Type → Type :=
(** The peer connection; a session description is its SDP text. *)
| NewPeerConnection (ice_urls : list string) : setupE (anyres ())
| CreateDataChannel (label : string) (ordered : bool) : setupE (anyres ())
| AcceptDataChannel (label : string) : setupE ()
| CreateDescription (k : DescriptionKind) : setupE (anyres string)
| SetLocalDescription (sdp : string) : setupE (anyres ())
| GatheringComplete : setupE ()
| LocalDescription : setupE (option string)
| ParseDescription (k : DescriptionKind) (sdp : string) : setupE (anyres string)
| SetRemoteDescription (description : string) : setupE (anyres ())
| CloseDataChannel : setupE (anyres ())
| ClosePeerConnection : setupE (anyres ())
(** [Uuid::new_v4]. *)
| NewSessionId : setupE string
(** The signaling connection; [AwaitAnswer] waits for the channel on which the
    callback of the session puts the SDP of the answer. *)
| SignalingSend (m : WsClientMessage) : setupE (anyres ())
| RegisterCallback (session_id : string) : setupE ()
| AwaitAnswer (session_id : string) : setupE (anyres string)
(** [tokio::spawn] of the task, [tokio::select!], and [status_tx.send]. *)
| SpawnTask : setupE ()
| SelectTask : setupE Selected
| ReportStatus (s : RTCStatus) : setupE (anyres ()).

Abbreviation setup A := (task setupE A).

(** [create_peer_connection]: one ICE server with all the URLs; the callback
    of the connection state feeds the other branch of the [select!]. *)
Definition create_peer_connection (stun : list string) : setup () :=
  try_call (NewPeerConnection stun).

(** [let _ = f().await]. *)
Definition ignore {A} (t : setup A) : setup () := act! attempt t in ret ().

(** [if let Err(e) = status_tx.send(SdpExchanged) { close()?; return Err(e) }]. *)
Definition report_sdp_exchanged : setup () :=
  do! sent := attempt (try_call (ReportStatus SdpExchanged)) in
  match sent with
  | Ok _ => ret ()
  | Err e => act! try_call ClosePeerConnection in fail e
  | Panic m => done (Panic m)
  end.

(** The [tokio::select!]; [what] is the word of the error message. *)
Definition select_task (what : string) : setup () :=
  do! selected := call SelectTask in
  match selected with
  | TaskReturned (Ok _) => ret ()
  | TaskReturned (Err e) => fail e
  | TaskReturned (Panic m) | TaskJoinError m => fail (what +:+ " error: " +:+ m)
  | PeerDisconnected => ret ()
  end.

(** From [set_local_description] to the gathered local description. *)
Definition gather_local_description (description missing : string) : setup string :=
  act! try_call (SetLocalDescription description) in
  act! call GatheringComplete in
  do! local_description := call LocalDescription in
  done (ok_or local_description missing).

Section setup.
Context `{Base64, Zlib}.

(** ** [send_offer] *)

(** The connection, its data channel and the task. *)
Definition send_offer_open (stun_servers : list string) : setup () :=
  act! create_peer_connection stun_servers in
  act! try_call (CreateDataChannel CHANNEL_LABEL true) in
  call SpawnTask.

(** The offer goes out; the answer that comes back is applied. *)
Definition send_offer_exchange (target_id : Uuid) : setup () :=
  do! offer := try_call (CreateDescription OfferDescription) in
  act! try_call (SetLocalDescription offer) in
  act! call GatheringComplete in
  do! session_id := call NewSessionId in
  do! local_description := call LocalDescription in
  do! local_description :=
    done (ok_or local_description "Could not generate local_description") in
  act! try_call (SignalingSend
         (send_offer_message session_id target_id (encode_sdp local_description))) in
  act! call (RegisterCallback session_id) in
  do! remote_desc := try_call (AwaitAnswer session_id) in
  act! report_sdp_exchanged in
  do! decoded := done (decode_sdp remote_desc) in
  do! answer := try_call (ParseDescription AnswerDescription decoded) in
  try_call (SetRemoteDescription answer).

Definition send_offer_finish : setup () :=
  act! select_task "Sending" in
  act! ignore (try_call (ReportStatus Finished)) in
  act! ignore (try_call CloseDataChannel) in
  try_call ClosePeerConnection.

Definition send_offer (stun_servers : list string) (target_id : Uuid) : setup () :=
  act! send_offer_open stun_servers in
  act! send_offer_exchange target_id in
  send_offer_finish.

(** ** [accept_offer] *)

Definition accept_offer_open (stun_servers : list string) : setup () :=
  act! create_peer_connection stun_servers in
  act! call (AcceptDataChannel CHANNEL_LABEL) in
  call SpawnTask.

Definition accept_offer_exchange (offer : WsServerSdpMessage) : setup () :=
  do! remote_desc_sdp := done (decode_sdp (ss_sdp offer)) in
  do! remote_desc := try_call (ParseDescription OfferDescription remote_desc_sdp) in
  act! try_call (SetRemoteDescription remote_desc) in
  do! answer := try_call (CreateDescription AnswerDescription) in
  do! local_description :=
    gather_local_description answer "generate local_description failed!" in
  act! try_call (SignalingSend
         (send_answer_message (ss_session_id offer) (ci_id (ss_peer offer))
            (encode_sdp local_description))) in
  report_sdp_exchanged.

Definition accept_offer_finish : setup () :=
  act! select_task "Receiving" in
  act! ignore (try_call (ReportStatus Finished)) in
  try_call ClosePeerConnection.

Definition accept_offer (stun_servers : list string) (offer : WsServerSdpMessage) : setup () :=
  act! accept_offer_open stun_servers in
  act! accept_offer_exchange offer in
  accept_offer_finish.
End setup.
