(* ===== verification/RtcSetupProps.v ===== *)
(** * What the setup of a transfer guarantees

    Theorems about every run of [send_offer] and [accept_offer] in any
    environment: whose answer is applied, to whom the answer goes, when a
    transfer is reported as finished, and what stays open after a failure.
    The environment is an arbitrary answer to every event; a run keeps the log
    of the events and their answers. *)

From ITree Require Import ITree.
From S2P Require Import Prelude Serde Crypto Signaling RtcTypes Interaction Rtc SignalingClient RtcSetup.
From S2P Require Import Instances RtcInstances.

(** ** The log of a run *)

Inductive entry := Entry X (e : setupE X) (x : X).

(** Views of the log: the descriptions applied, the messages sent, the
    sessions with a callback, the answers received, the descriptions parsed,
    the statuses reported, the ends of the [select!] and the times the
    connection was closed. *)
Definition view_remote (n : entry) : option string :=
  match n with Entry _ (SetRemoteDescription d) _ => Some d | _ => None end.
Definition view_sent (n : entry) : option WsClientMessage :=
  match n with Entry _ (SignalingSend m) _ => Some m | _ => None end.
Definition view_registered (n : entry) : option string :=
  match n with Entry _ (RegisterCallback s) _ => Some s | _ => None end.
Definition view_answer (n : entry) : option (string * anyres string) :=
  match n with
  | Entry X e x =>
      match e in setupE X return X → option (string * anyres string) with
      | AwaitAnswer s => λ r, Some (s, r)
      | _ => λ _, None
      end x
  end.
Definition view_parsed (n : entry) : option (DescriptionKind * string * anyres string) :=
  match n with
  | Entry X e x =>
      match e in setupE X return X → option (DescriptionKind * string * anyres string) with
      | ParseDescription k s => λ r, Some (k, s, r)
      | _ => λ _, None
      end x
  end.
Definition view_reported (n : entry) : option RTCStatus :=
  match n with Entry _ (ReportStatus s) _ => Some s | _ => None end.
Definition view_selected (n : entry) : option Selected :=
  match n with
  | Entry X e x =>
      match e in setupE X return X → option Selected with
      | SelectTask => λ r, Some r
      | _ => λ _, None
      end x
  end.
Definition view_closed (n : entry) : option () :=
  match n with Entry _ ClosePeerConnection _ => Some () | _ => None end.

Section setup.
Context {W : Type} (answer : ∀ X, setupE X → W → option (X * W)).

Definition logged X (e : setupE X) (s : W * list entry) : option (X * (W * list entry)) :=
  match answer X e s.1 with
  | Some (x, w) => Some (x, (w, s.2 ++ [Entry X e x]))
  | None => None
  end.

(** [setup_runs t o l]: a run of [t] with the outcome [o] and the log [l]. *)
Definition setup_runs {A} (t : setup A) (w : W) (o : option (anyres A)) (l : list entry) : Prop :=
  ∃ w', runs logged t (w, []) o (w', l).

(** The outcome when a step did not give a value. *)
Definition stopped {A B} (r : anyres A) (o : option (anyres B)) : Prop :=
  match r with Ok _ => False | Err e => o = Some (Err e) | Panic m => o = Some (Panic m) end.

Section inversion.
Context {A B : Type} (w : W) (l : list entry) (o : option (anyres B)) (w' : W) (l' : list entry).

Lemma logged_call_inv (e : setupE B) :
  runs logged (call e) (w, l) o (w', l') →
  (∃ x, o = Some (Ok x) ∧ l' = l ++ [Entry B e x]) ∨ (o = None ∧ l' = l).
Proof.
  intros [(a & Hh & ->)|(_ & -> & [= _ ->])]%runs_call_inv; [left|by right].
  unfold logged in Hh. simpl in Hh. destruct (answer B e w) as [[x w1]|]; simplify_eq. eauto.
Qed.

Lemma logged_try_call_inv (e : setupE (anyres B)) :
  runs logged (try_call e) (w, l) o (w', l') →
  (∃ r, o = Some r ∧ l' = l ++ [Entry _ e r]) ∨ (o = None ∧ l' = l).
Proof.
  intros [(a & Hh & ->)|(_ & -> & [= _ ->])]%runs_try_call_inv; [left|by right].
  unfold logged in Hh. simpl in Hh. destruct (answer _ e w) as [[x w1]|]; simplify_eq. eauto.
Qed.

Lemma logged_done_inv (r : anyres B) :
  runs logged (done r) (w, l) o (w', l') → o = Some r ∧ l' = l.
Proof. by intros [-> [= _ ->]]%runs_done_inv. Qed.

Lemma logged_bind_call (e : setupE A) (k : A → setup B) :
  runs logged (tbind (call e) k) (w, l) o (w', l') →
  (∃ x w1, runs logged (k x) (w1, l ++ [Entry A e x]) o (w', l')) ∨ (o = None ∧ l' = l).
Proof.
  intros [(x & w1 & Hr & Hk)|(o' & Hr & Ho)]%runs_tbind_inv;
    apply runs_call_inv in Hr as [(a & Hh & Ha)|(_ & Ha & Hw)].
  - unfold logged in Hh. simpl in Hh. destruct (answer _ e w) as [[y w2]|]; simplify_eq. eauto.
  - done.
  - by subst o'.
  - subst o'. right. by simplify_eq.
Qed.

Lemma logged_bind_try (e : setupE (anyres A)) (k : A → setup B) :
  runs logged (tbind (try_call e) k) (w, l) o (w', l') →
  (∃ x w1, runs logged (k x) (w1, l ++ [Entry _ e (Ok x)]) o (w', l')) ∨
  (∃ r, l' = l ++ [Entry _ e r] ∧ stopped r o) ∨ (o = None ∧ l' = l).
Proof.
  intros [(x & w1 & Hr & Hk)|(o' & Hr & Ho)]%runs_tbind_inv;
    apply runs_try_call_inv in Hr as [(a & Hh & Ha)|(_ & Ha & Hw)].
  - unfold logged in Hh. simpl in Hh. destruct (answer _ e w) as [[y w2]|]; simplify_eq. eauto.
  - done.
  - unfold logged in Hh. simpl in Hh. destruct (answer _ e w) as [[y w2]|]; simplify_eq.
    right; left. exists a. split; [done|]. by destruct a.
  - subst o'. right; right. by simplify_eq.
Qed.

Lemma logged_bind_attempt (e : setupE (anyres A)) (k : anyres A → setup B) :
  runs logged (tbind (attempt (try_call e)) k) (w, l) o (w', l') →
  (∃ r w1, runs logged (k r) (w1, l ++ [Entry _ e r]) o (w', l')) ∨
  (∃ m, l' = l ++ [Entry _ e (Panic m)] ∧ o = Some (Panic m)) ∨ (o = None ∧ l' = l).
Proof.
  intros [(x & w1 & (o1 & Hr & Ho1)%runs_attempt_inv & Hk)|
          (o' & (o1 & Hr & Ho1)%runs_attempt_inv & Ho)]%runs_tbind_inv;
    apply runs_try_call_inv in Hr as [(a & Hh & ->)|(_ & -> & Hw)];
    try (unfold logged in Hh; simpl in Hh; destruct (answer _ e w) as [[y w2]|]; [|done];
         injection Hh as <- <-).
  - left. exists y. destruct y; simplify_eq; eauto.
  - done.
  - right; left. subst o'. destruct y as [y'|e'|m]; [done..|]. eauto.
  - subst o'. right; right. by simplify_eq.
Qed.

Lemma logged_bind_done (r : anyres A) (k : A → setup B) :
  runs logged (tbind (done r) k) (w, l) o (w', l') →
  (∃ x, r = Ok x ∧ runs logged (k x) (w, l) o (w', l')) ∨ (l' = l ∧ stopped r o).
Proof.
  intros [(x & w1 & Hr & Hk)|(o' & Hr & Ho)]%runs_tbind_inv;
    apply runs_done_inv in Hr as [Hr Hw]; simplify_eq/=; [by eauto|]. right. by destruct r.
Qed.

Lemma logged_bind_bind {C} (t : setup C) (h : C → setup A) (k : A → setup B) :
  runs logged (tbind (tbind t h) k) (w, l) o (w', l') →
  runs logged (tbind t (λ x, tbind (h x) k)) (w, l) o (w', l').
Proof.
  intros [(x & w1 & Hr & Hk)|(o' & Hr & Ho)]%runs_tbind_inv.
  - apply runs_tbind_Ok_inv in Hr as (y & w2 & Ht & Hh).
    eapply runs_tbind; [done|]. by eapply runs_tbind.
  - apply runs_tbind_inv in Hr as [(y & w2 & Ht & Hh)|(o2 & Ht & Ho2)].
    + eapply runs_tbind; [done|]. destruct o' as [[x|e|m]|]; subst; [done|..].
      * by apply runs_tbind_Err.
      * by apply runs_tbind_Panic.
      * by apply runs_tbind_wait.
    + destruct o2 as [[x|e|m]|]; [done|..]; subst; simpl in *; subst.
      * by apply runs_tbind_Err.
      * by apply runs_tbind_Panic.
      * by apply runs_tbind_wait.
Qed.

Lemma logged_bind_ret (a : A) (k : A → setup B) :
  runs logged (tbind (ret a) k) (w, l) o (w', l') → runs logged (k a) (w, l) o (w', l').
Proof. by intros [(x & [= <-] & Hr)|[_ []]]%(logged_bind_done (Ok a)). Qed.

Lemma logged_bind_fail (e : string) (k : A → setup B) :
  runs logged (tbind (fail e) k) (w, l) o (w', l') → l' = l ∧ o = Some (Err e).
Proof. by intros [(x & ? & _)|[-> Ho]]%(logged_bind_done (Err e)). Qed.
End inversion.
End setup.

(** Taking a run apart into its events. *)
Ltac setup_inv :=
  repeat match goal with
  | Hr : runs (logged _) (tbind (tbind _ _) _) _ _ _ |- _ => apply logged_bind_bind in Hr
  | Hr : runs (logged _) (tbind (call _) _) _ _ _ |- _ =>
      apply logged_bind_call in Hr as [(? & ? & Hr)|[-> ->]]
  | Hr : runs (logged _) (tbind (try_call _) _) _ _ _ |- _ =>
      apply logged_bind_try in Hr as [(? & ? & Hr)|[(? & -> & ?)|[-> ->]]]
  | Hr : runs (logged _) (tbind (attempt (try_call _)) _) _ _ _ |- _ =>
      apply logged_bind_attempt in Hr as [(? & ? & Hr)|[(? & -> & ->)|[-> ->]]]
  | Hr : runs (logged _) (tbind (done _) _) _ _ _ |- _ =>
      apply logged_bind_done in Hr as [(? & ? & Hr)|[-> ?]]
  | Hr : runs (logged _) (tbind (ret _) _) _ _ _ |- _ => apply logged_bind_ret in Hr
  | Hr : runs (logged _) (tbind (fail _) _) _ _ _ |- _ => apply logged_bind_fail in Hr as [-> ->]
  | Hr : runs (logged _) (tbind (match ?x with _ => _ end) _) _ _ _ |- _ => destruct x
  | Hr : runs (logged _) (match ?x with _ => _ end) _ _ _ |- _ => destruct x
  | Hr : runs (logged _) (call _) _ _ _ |- _ => apply logged_call_inv in Hr as [(? & -> & ->)|[-> ->]]
  | Hr : runs (logged _) (try_call _) _ _ _ |- _ =>
      apply logged_try_call_inv in Hr as [(? & -> & ->)|[-> ->]]
  | Hr : runs (logged _) (done _) _ _ _ |- _ => apply logged_done_inv in Hr as [-> ->]
  | Hr : runs (logged _) (ret _) _ _ _ |- _ => apply logged_done_inv in Hr as [-> ->]
  | Hr : runs (logged _) (fail _) _ _ _ |- _ => apply logged_done_inv in Hr as [-> ->]
  end.

Ltac destruct_unit := repeat match goal with u : () |- _ => destruct u end.

(** A step that stopped did not end the call without an error. *)
Ltac solve_finished :=
  repeat match goal with
  | Hs : stopped ?r _ |- _ => destruct r; simpl in Hs; first [done|subst]
  end; destruct_unit;
  split; rewrite ?elem_of_cons, ?elem_of_nil; intuition congruence.

Section exchange.
Context `{Base64, Zlib} {W : Type} (answer : ∀ X, setupE X → W → option (X * W)).

(** C29. The description [send_offer] applies is the parsed answer of its own
    session: the session of the single offer it has sent to its target, for
    which it has registered the callback.  The answer [accept_offer] sends
    goes to the author of the offer under the session of the offer, after the
    description of the offer has been applied. *)
Theorem descriptions_of_one_session stun target offer w o l :
  (setup_runs answer (send_offer stun target) w o l →
   omap view_remote l = [] ∨
   ∃ sid local text d a,
     omap view_sent l = [send_offer_message sid target (encode_sdp local)] ∧
     omap view_registered l = [sid] ∧ omap view_answer l = [(sid, Ok text)] ∧
     decode_sdp text = Ok d ∧ omap view_parsed l = [(AnswerDescription, d, Ok a)] ∧
     omap view_remote l = [a]) ∧
  (setup_runs answer (accept_offer stun offer) w o l →
   omap view_sent l = [] ∨
   ∃ d a local,
     decode_sdp (ss_sdp offer) = Ok d ∧ omap view_parsed l = [(OfferDescription, d, Ok a)] ∧
     omap view_remote l = [a] ∧
     omap view_sent l = [send_answer_message (ss_session_id offer) (ci_id (ss_peer offer))
                           (encode_sdp local)]).
Proof.
  split; intros [w' Hr].
  - unfold send_offer, send_offer_open, create_peer_connection, send_offer_exchange, send_offer_finish,
      report_sdp_exchanged, select_task, ignore in Hr.
    setup_inv; simpl; try (by left); right; repeat eexists; done.
  - unfold accept_offer, accept_offer_open, create_peer_connection, accept_offer_exchange,
      gather_local_description, accept_offer_finish, report_sdp_exchanged, select_task, ignore in Hr.
    setup_inv; simpl; try (by left); right; repeat eexists; done.
Qed.

(** What a run that reports [Finished] has seen. *)
Definition finished_well (l : list entry) : Prop :=
  (omap view_selected l = [TaskReturned (Ok ())] ∨ omap view_selected l = [PeerDisconnected]) ∧
  omap view_reported l = [SdpExchanged; Finished].

(** C30. [Finished] is reported only after the task has ended without an error
    or the connection was lost, and only after [SdpExchanged]; a call that
    returns without an error has reported it, and has closed the connection
    exactly once. *)
Theorem finished_after_the_task stun target offer w o l :
  (setup_runs answer (send_offer stun target) w o l ∨
   setup_runs answer (accept_offer stun offer) w o l) →
  (Finished ∈ omap view_reported l → finished_well l) ∧
  (o = Some (Ok ()) → finished_well l ∧ omap view_closed l = [()]).
Proof.
  unfold finished_well. intros [[w' Hr]|[w' Hr]].
  - unfold send_offer, send_offer_open, create_peer_connection, send_offer_exchange, send_offer_finish,
      report_sdp_exchanged, select_task, ignore in Hr.
    setup_inv; simpl; solve_finished.
  - unfold accept_offer, accept_offer_open, create_peer_connection, accept_offer_exchange,
      gather_local_description, accept_offer_finish, report_sdp_exchanged, select_task, ignore in Hr.
    setup_inv; simpl; solve_finished.
Qed.

(** A task that fails or panics makes the call fail, and leaves the peer
    connection open: nothing closes it on this path. *)
Lemma failed_task_leaves_connection_open stun target offer w o l r :
  (setup_runs answer (send_offer stun target) w o l ∨
   setup_runs answer (accept_offer stun offer) w o l) →
  omap view_selected l = [r] → r ≠ TaskReturned (Ok ()) → r ≠ PeerDisconnected →
  omap view_closed l = [] ∧ ∃ e, o = Some (Err e).
Proof.
  intros [[w' Hr]|[w' Hr]] Hsel Hok Hdis.
  - unfold send_offer, send_offer_open, create_peer_connection, send_offer_exchange, send_offer_finish,
      report_sdp_exchanged, select_task, ignore in Hr.
    setup_inv; simpl in *; simplify_eq; eauto; by destruct_unit.
  - unfold accept_offer, accept_offer_open, create_peer_connection, accept_offer_exchange,
      gather_local_description, accept_offer_finish, report_sdp_exchanged, select_task, ignore in Hr.
    setup_inv; simpl in *; simplify_eq; eauto; by destruct_unit.
Qed.
End exchange.

(** ** A run *)

(** Every call succeeds; the other peer answers, and the task ends as given. *)
Definition all_well (selected : Selected) (X : Type) (e : setupE X) (w : ()) : option (X * ()) :=
  match e in setupE X return option (X * ()) with
  | NewPeerConnection _ => Some (Ok (), w)
  | CreateDataChannel _ _ => Some (Ok (), w)
  | AcceptDataChannel _ => Some ((), w)
  | CreateDescription _ => Some (Ok "local", w)
  | SetLocalDescription _ => Some (Ok (), w)
  | GatheringComplete => Some ((), w)
  | LocalDescription => Some (Some "gathered", w)
  | ParseDescription _ sdp => Some (Ok sdp, w)
  | SetRemoteDescription _ => Some (Ok (), w)
  | CloseDataChannel => Some (Ok (), w)
  | ClosePeerConnection => Some (Ok (), w)
  | NewSessionId => Some ("s", w)
  | SignalingSend _ => Some (Ok (), w)
  | RegisterCallback _ => Some ((), w)
  | AwaitAnswer _ => Some (Ok (encode_sdp "remote"), w)
  | SpawnTask => Some ((), w)
  | SelectTask => Some (selected, w)
  | ReportStatus _ => Some (Ok (), w)
  end.

(** The outcome and the log of a run from the empty log. *)
Definition sample_run (t : setup ()) (selected : Selected)
    : option (option (anyres ()) * (() * list entry)) :=
  run (logged (all_well selected)) 100 t (tt, []).

Lemma sample_setup_runs t selected o w l :
  sample_run t selected = Some (o, (w, l)) → setup_runs (all_well selected) t tt o l.
Proof. unfold sample_run. intros Hr. exists w. eapply run_runs. exact Hr. Qed.

Definition sample_log : list entry :=
  match sample_run (send_offer [] 2%N) (TaskReturned (Ok ())) with
  | Some (_, (_, l)) => l
  | None => []
  end.

Lemma sample_log_runs :
  setup_runs (all_well (TaskReturned (Ok ()))) (send_offer [] 2%N) tt (Some (Ok ())) sample_log.
Proof. apply (sample_setup_runs _ _ _ tt). vm_compute. reflexivity. Qed.

Definition sample_offer : WsServerSdpMessage :=
  mk_WsServerSdpMessage (mk_ClientInfo 2 "B" "2" None None "t") "s" (encode_sdp "remote").

Lemma descriptions_of_one_session_witness :
  omap view_remote sample_log = ["remote"] ∧
  ∃ sid local, omap view_sent sample_log = [send_offer_message sid 2%N (encode_sdp local)] ∧
    omap view_registered sample_log = [sid].
Proof.
  split; [vm_compute; reflexivity|].
  destruct (proj1 (descriptions_of_one_session (all_well (TaskReturned (Ok ()))) [] 2%N sample_offer
    tt (Some (Ok ())) sample_log) sample_log_runs) as [Hno|(sid & local & _ & _ & _ & Hs & Hr & _)].
  - exfalso. revert Hno. vm_compute. discriminate.
  - exists sid, local. split; [exact Hs|exact Hr].
Defined.

Lemma finished_after_the_task_witness :
  finished_well sample_log ∧ omap view_closed sample_log = [()].
Proof.
  refine (proj2 (finished_after_the_task (all_well (TaskReturned (Ok ()))) [] 2%N sample_offer tt
    (Some (Ok ())) sample_log _) eq_refl).
  left. exact sample_log_runs.
Defined.

(** With the task failing, the same run ends without closing the connection. *)
Example failed_run :
  match sample_run (send_offer [] 2%N) (TaskReturned (Err "declined")) with
  | Some (o, (_, l)) => o = Some (Err "declined") ∧ omap view_closed l = []
  | None => False
  end.
Proof. vm_compute. done. Qed.
