(* ===== verification/RtcHandshake.v ===== *)
(** * Two set-ups through the signaling server

    [send_offer] and [accept_offer] run against each other: the offer reaches
    the other peer as the server forwards it ([server_message]), its answer
    comes back to the callback of the session, and each [select!] ends with
    the result of the task that ran over the data channel. *)

From ITree Require Import ITree.
From S2P Require Import Prelude Serde Crypto CryptoProps Signaling RtcTypes Interaction Rtc RtcEnv.
From S2P Require Import RtcSafety RtcPair RtcTransfer RtcChallenge RtcSession RtcPin WsServer SignalingClient.
From S2P Require Import RtcSetup RtcSetupProps Instances RtcInstances RtcWitnesses.

(** What the machine of a peer contributes to a set-up that goes well: the id
    it draws, its description before and after the gathering of candidates,
    the answers that reach the callback of a session, and the end of its
    task. *)
Record Machine := mk_Machine {
  mc_session : string;
  mc_created : string;
  mc_gathered : string;
  mc_answers : string → option string;
  mc_ended : Selected
}.

(** The parser of session descriptions of the [webrtc] crate. *)
Class SdpParser := parse_description : DescriptionKind → string → anyres string.

Section handshake.
Context `{SdpParser}.

Definition well (m : Machine) (X : Type) (e : setupE X) (w : ()) : option (X * ()) :=
  match e in setupE X return option (X * ()) with
  | NewPeerConnection _ => Some (Ok (), w)
  | CreateDataChannel _ _ => Some (Ok (), w)
  | AcceptDataChannel _ => Some ((), w)
  | CreateDescription _ => Some (Ok (mc_created m), w)
  | SetLocalDescription _ => Some (Ok (), w)
  | GatheringComplete => Some ((), w)
  | LocalDescription => Some (Some (mc_gathered m), w)
  | ParseDescription k sdp => Some (parse_description k sdp, w)
  | SetRemoteDescription _ => Some (Ok (), w)
  | CloseDataChannel => Some (Ok (), w)
  | ClosePeerConnection => Some (Ok (), w)
  | NewSessionId => Some (mc_session m, w)
  | SignalingSend _ => Some (Ok (), w)
  | RegisterCallback _ => Some ((), w)
  | AwaitAnswer s => match mc_answers m s with Some sdp => Some (Ok sdp, w) | None => None end
  | SpawnTask => Some ((), w)
  | SelectTask => Some (mc_ended m, w)
  | ReportStatus _ => Some (Ok (), w)
  end.
End handshake.

(** A run of a set-up whose events are answered; the hypotheses say how. *)
Ltac setup_known :=
  unfold logged; simpl;
  repeat match goal with Hx : ?x = _ |- context [?x] => rewrite Hx; simpl end; reflexivity.
Ltac setup_event :=
  simpl;
  match goal with
  | |- runs _ (tbind _ _) _ _ _ => eapply runs_tbind
  | |- runs _ (call _) _ _ _ => eapply runs_call; setup_known
  | |- runs _ (try_call _) _ _ _ => eapply runs_try_call; setup_known
  | |- runs _ (attempt _) _ _ _ => eapply runs_attempt_Ok
  | |- runs _ (ret _) _ _ _ => eapply runs_ret
  | Hx : ?x = _ |- runs _ (done ?x) _ _ _ => rewrite Hx; eapply runs_done
  | |- runs _ (done _) _ _ _ => eapply runs_done
  | Hx : ?x = _ |- runs _ (match ?x with _ => _ end) _ _ _ => rewrite Hx
  end.

Section handshake.
Context `{SdpParser, Base64, Zlib}.

(** A peer whose task ends without an error, or that loses the connection. *)
Definition ends_well (m : Machine) : Prop :=
  mc_ended m = TaskReturned (Ok ()) ∨ mc_ended m = PeerDisconnected.

(** What a set-up that goes well leaves in its log. *)
Definition went_well (m : WsClientMessage) (remote : string) (l : list entry) : Prop :=
  omap view_sent l = [m] ∧ omap view_remote l = [remote] ∧
  omap view_reported l = [SdpExchanged; Finished] ∧ omap view_closed l = [()].

Lemma send_offer_well m stun target text d a :
  ends_well m → mc_answers m (mc_session m) = Some text → decode_sdp text = Ok d →
  parse_description AnswerDescription d = Ok a →
  ∃ l, setup_runs (well m) (send_offer stun target) tt (Some (Ok ())) l ∧
    went_well (send_offer_message (mc_session m) target (encode_sdp (mc_gathered m))) a l.
Proof.
  intros Hend Hans Hdec Hparse. destruct Hend; eexists; (split; [exists tt|]);
    unfold send_offer, send_offer_open, create_peer_connection, send_offer_exchange,
      send_offer_finish, report_sdp_exchanged, select_task, ignore;
    (repeat setup_event); done.
Qed.

Lemma accept_offer_well m stun offer d a :
  ends_well m → decode_sdp (ss_sdp offer) = Ok d → parse_description OfferDescription d = Ok a →
  ∃ l, setup_runs (well m) (accept_offer stun offer) tt (Some (Ok ())) l ∧
    went_well (send_answer_message (ss_session_id offer) (ci_id (ss_peer offer))
                 (encode_sdp (mc_gathered m))) a l.
Proof.
  intros Hend Hdec Hparse. destruct Hend; eexists; (split; [exists tt|]);
    unfold accept_offer, accept_offer_open, create_peer_connection, accept_offer_exchange,
      gather_local_description, accept_offer_finish, report_sdp_exchanged, select_task, ignore;
    (repeat setup_event); done.
Qed.
End handshake.

(** ** The whole transfer *)

Section transfer.
Context `{SdpParser, TokenCrypto, Base64, RtcCodec, Zlib, !Base64Laws, !RtcCodecLaws, !ZlibLaws}.

(** The two set-ups, given the messages that the server forwards. *)
Lemma setups_complete (peerS : ClientInfo) target stunS stunR sid createdS createdR localS localR dS dR
    answers :
  utf8_valid (as_bytes localS) = true → utf8_valid (as_bytes localR) = true →
  parse_description OfferDescription localS = Ok dS →
  parse_description AnswerDescription localR = Ok dR →
  answers sid = Some (encode_sdp localR) →
  ∃ lS lR,
    setup_runs (well (mk_Machine sid createdS localS answers (TaskReturned (Ok ()))))
      (send_offer stunS target) tt (Some (Ok ())) lS ∧
    setup_runs (well (mk_Machine "" createdR localR (λ _, None) (TaskReturned (Ok ()))))
      (accept_offer stunR (mk_WsServerSdpMessage peerS sid (encode_sdp localS))) tt (Some (Ok ())) lR ∧
    went_well (send_offer_message sid target (encode_sdp localS)) dR lS ∧
    went_well (send_answer_message sid (ci_id peerS) (encode_sdp localR)) dS lR.
Proof.
  intros HuS HuR HpS HpR Hans.
  destruct (send_offer_well (mk_Machine sid createdS localS answers (TaskReturned (Ok ())))
    stunS target (encode_sdp localR) localR dR) as (lS & HrS & HwS); [by left|done|by apply sdp_roundtrip|done|].
  destruct (accept_offer_well (mk_Machine "" createdR localR (λ _, None) (TaskReturned (Ok ())))
    stunR (mk_WsServerSdpMessage peerS sid (encode_sdp localS)) localS dS) as (lR & HrR & HwR);
    [by left|by apply sdp_roundtrip|done|].
  by exists lS, lR.
Qed.

(** The answers that reach the callback of a session. *)
Definition answered_by (answer : WsServerSdpMessage) (sid : string) : option string :=
  if decide (sid = ss_session_id answer) then Some (ss_sdp answer) else None.

(** Two honest peers that meet through the signaling server complete a
    transfer, with or without PINs.  The server forwards the offer of the sender and the answer of
    the receiver; each peer applies the description of the other one, as the
    other one has gathered it; the tasks, run against each other on one channel,
    end without an error in every interleaving, the receiver has written exactly
    the selected files that the sender has; and with these ends both calls
    return without an error after they have reported the exchange and the end of
    the transfer and have closed the connection once. *)
Theorem transfer_completes skS skR expS expR c fs sel ws wr tS tR
    (peerS peerR : ClientInfo) stunS stunR sid createdS createdR localS localR dS dR :
  session_ready skS skR expS expR c fs sel ws wr tS tR →
  utf8_valid (as_bytes localS) = true → utf8_valid (as_bytes localR) = true →
  parse_description OfferDescription localS = Ok dS →
  parse_description AnswerDescription localR = Ok dR →
  ∃ mo ma offer answer lS lR,
    server_message peerS (WOffer mo) = Offer offer ∧ sc_target mo = ci_id peerR ∧
    server_message peerR (WAnswer ma) = Answer answer ∧ sc_target ma = ci_id peerS ∧
    went_well (COffer mo) dR lS ∧ went_well (CAnswer ma) dS lR ∧
    always_ends (mk_Pair (send_task skS expS (ch_sender c) fs) ws
                   (receive_task skR expR (ch_receiver c)) wr)
      (λ rS ws' rR wr', ∃ r r', rS = Some r ∧ rR = Some r' ∧
        setup_runs (well (mk_Machine sid createdS localS (answered_by answer) (TaskReturned r)))
          (send_offer stunS (ci_id peerR)) tt (Some (Ok ())) lS ∧
        setup_runs (well (mk_Machine "" createdR localR (λ _, None) (TaskReturned r')))
          (accept_offer stunR offer) tt (Some (Ok ())) lR ∧
        ∃ lr, log wr' = log wr ++ lr ∧
          written lr = granted_files (drawn_tokens (uuids wr) (elements sel)) (files ws)).
Proof.
  intros Hready HuS HuR HpS HpR.
  set (mo := mk_WsClientSdpMessage sid (ci_id peerR) (encode_sdp localS)).
  set (offer := mk_WsServerSdpMessage peerS sid (encode_sdp localS)).
  set (ma := mk_WsClientSdpMessage sid (ci_id peerS) (encode_sdp localR)).
  set (answer := mk_WsServerSdpMessage peerR sid (encode_sdp localR)).
  destruct (setups_complete peerS (ci_id peerR) stunS stunR sid createdS createdR localS localR dS dR
    (answered_by answer)) as (lS & lR & HrS & HrR & HwS & HwR);
    [done..|by unfold answered_by; rewrite decide_True|].
  exists mo, ma, offer, answer, lS, lR. split_and!; [done..|].
  eapply always_ends_impl; [|by apply session_ends]. intros rS ws' rR wr' (-> & -> & _ & _ & _ & HlR).
  exists (Ok ()), (Ok ()). split_and!; [done..|]. eexists. split; [exact HlR|apply written_session].
Qed.
End transfer.

(** ** A transfer of one file *)

(** A parser that keeps the text. *)
#[export] Instance verbatim_sdp : SdpParser := λ _ sdp, Ok sdp.

Definition sending_peer : ClientInfo := mk_ClientInfo 1 "A" "2" None None "ta".
Definition receiving_peer : ClientInfo := mk_ClientInfo 2 "B" "2" None None "tb".

Lemma transfer_completes_witness :
  ∃ lS mo, went_well (COffer mo) "v=0 receiver" lS ∧
    always_ends (mk_Pair (send_task sender_key (Some (key_of receiver_key)) (Some pin_1) [photo]) session_sender
                   (receive_task receiver_key None (Some pin_1)) session_receiver)
      (λ rS _ rR wr', ∃ lr, log wr' = [] ++ lr ∧
         written lr = granted_files (drawn_tokens (uuids session_receiver) (elements sel_a)) (files session_sender)).
Proof.
  destruct (transfer_completes sender_key receiver_key (Some (key_of receiver_key)) None session_pins [photo]
    sel_a session_sender session_receiver (token_for sender_key) (token_for receiver_key)
    sending_peer receiving_peer [] [] "s" "v=0" "v=0" "v=0 sender" "v=0 receiver"
    "v=0 sender" "v=0 receiver" sample_session_ready eq_refl eq_refl eq_refl eq_refl)
    as (mo & ma & offer & answer & lS & lR & _ & _ & _ & _ & HwS & _ & Hends).
  exists lS, mo. split; [exact HwS|]. eapply always_ends_impl; [|exact Hends].
  intros rS ws' rR wr' (r & r' & _ & _ & _ & _ & Hlr). exact Hlr.
Defined.
