(* ===== verification/RtcSystem.v ===== *)
(** * A transfer between two devices of the signaling system

    The set-ups of [RtcHandshake], with the server and the clients of
    [SignalingSystem] between them.  [send_offer] runs inside the system
    ([live]): what it sends goes through its client and the server to the other
    application, it registers its callback at its client, and while it waits the
    server and the two devices step; so the order of its own steps matters. *)

From ITree Require Import ITree.
From S2P Require Import Prelude Serde Crypto CryptoProps Signaling RtcTypes Interaction Rtc RtcEnv.
From S2P Require Import RtcSafety RtcPair RtcTransfer RtcChallenge RtcSession RtcPin WsServer WsServerSafety.
From S2P Require Import SignalingClient SignalingClientProps SignalingClientBehaviour SignalingSystem.
From S2P Require Import SignalingDelivery.
From S2P Require Import RtcSetup RtcSetupProps RtcHandshake.
From S2P Require Import Instances RtcInstances RtcWitnesses WsServerBehaviour SignalingClientRuns.

(** What the oneshot channel of a callback yields for a session: the first
    answer that the callback was called with. *)
Definition answer_of (cb : Callback) (st : Client) (sid : string) : option string :=
  head (omap (λ '(cb', sdp),
    if decide (cb' = cb ∧ ss_session_id sdp = sid) then Some (ss_sdp sdp) else None) (sg_called st)).

(** A callback that is registered only now. *)
Definition fresh_callback (cb : Callback) (st : Client) : Prop :=
  cb ∉ sg_gone st ∧ ∀ sdp, (cb, sdp) ∉ sg_called st.

Lemma answer_of_none cb st sid : cb ∉ (sg_called st).*1 → answer_of cb st sid = None.
Proof.
  unfold answer_of. induction (sg_called st) as [|[cb' sdp] l IH]; simpl; [done|].
  intros [Hne Hl]%not_elem_of_cons. rewrite decide_False by (by intros [-> _]). by apply IH.
Qed.

Lemma answer_of_first cb st sdp st' :
  fresh_callback cb st → sg_called st' = sg_called st ++ [(cb, sdp)] →
  answer_of cb st' (ss_session_id sdp) = Some (ss_sdp sdp).
Proof.
  intros [_ Hcb] Hst'.
  assert (answer_of cb st (ss_session_id sdp) = None) as Hnone.
  { apply answer_of_none. intros ((cb' & sdp') & -> & Hin)%list_elem_of_fmap. by apply (Hcb sdp'). }
  unfold answer_of in *. rewrite Hst', omap_app.
  destruct (omap _ (sg_called st)); [|done]. simpl. by rewrite decide_True.
Qed.

Section signaled.
Context (max_connections max_requests : Z).
Context `{Base64, SerdeJson ClientInfoWithoutId, SerdeJson WsClientMessage, SerdeJson WsServerMessage}.
Context `{!SerdeJsonLaws WsClientMessage, !SerdeJsonLaws WsServerMessage}.

Lemma on_answer_quiet sid cb st : client_quiet st → client_quiet (on_answer sid cb st).
Proof. intros [? ? ? ? ? ?]. by split. Qed.

Lemma descriptions_exchanged s a b ca ca_b sta stb cb mo ma :
  (0 ≤ max_connections)%Z → (0 ≤ max_requests ≤ u32_max)%Z →
  system_reachable max_connections max_requests s →
  a ≠ b → device_quiet s a ca sta → device_quiet s b ca_b stb → c_group ca_b = c_group ca →
  (requests_of (c_group ca) (sy_world s) + 1 < max_requests)%Z →
  fresh_callback cb sta → sc_target mo = b → sc_target ma = a → sc_session_id ma = sc_session_id mo →
  ∃ s1 s2 s' sta' stb',
    run_system max_connections max_requests (delivery_plan a b (WOffer mo)) s = Some s1 ∧
    system_step max_connections max_requests (ClientStep a (OnAnswer (sc_session_id mo) cb)) s1 = Some s2 ∧
    run_system max_connections max_requests (delivery_plan b a (WAnswer ma)) s2 = Some s' ∧
    sy_clients s' !! a = Some sta' ∧ sy_clients s' !! b = Some stb' ∧
    sg_seen stb' = sg_seen stb ++ [server_message (c_peer ca) (WOffer mo)] ∧
    answer_of cb sta' (sc_session_id mo) = Some (sc_sdp ma).
Proof.
  intros Hmc Hmr Hs Hab Hda Hdb Hg Hn Hcb Hto Hta Hsid.
  destruct (message_delivered max_connections max_requests s a b ca ca_b sta stb (WOffer mo))
    as (s1 & Hs1 & Hda1 & Hdb1 & Hn1); try done; [lia|].
  set (sta1 := on_answer (sc_session_id mo) cb sta).
  set (s2 := mk_System (sy_world s1) (<[a := sta1]> (sy_clients s1))).
  set (ca_b1 := push_out (server_message (c_peer ca) (WOffer mo)) ca_b) in *.
  set (stb1 := told_of (server_message (c_peer ca) (WOffer mo)) stb) in *.
  assert (system_step max_connections max_requests (ClientStep a (OnAnswer (sc_session_id mo) cb)) s1
            = Some s2) as Hstep.
  { simpl. by rewrite (dq_client _ _ _ _ Hda1). }
  assert (device_quiet s2 a ca sta1) as Hda2.
  { destruct Hda1 as [? ? ? ?]. constructor; [done|apply lookup_insert_eq|by apply on_answer_quiet|done]. }
  assert (device_quiet s2 b ca_b1 stb1) as Hdb2.
  { destruct Hdb1 as [? ? ? ?]. constructor; [done|simpl; by rewrite lookup_insert_ne|done|done]. }
  assert (system_reachable max_connections max_requests s2) as Hr2.
  { eapply system_next; [|exact Hstep]. by eapply run_system_reachable. }
  destruct (message_delivered max_connections max_requests s2 b a ca_b1 ca stb1 sta1 (WAnswer ma))
    as (s3 & Hs3 & Hdb3 & Hda3 & _); try done.
  { simpl. intros cb'. rewrite Hsid, lookup_insert_eq. intros [= <-]. apply Hcb. }
  { simpl. rewrite Hg, Hn1. lia. }
  exists s1, s2, s3. eexists _, _. split_and!.
  - exact Hs1.
  - exact Hstep.
  - exact Hs3.
  - apply Hda3.
  - apply Hdb3.
  - done.
  - change (sc_sdp ma) with (ss_sdp (mk_WsServerSdpMessage (c_peer ca_b1) (sc_session_id ma) (sc_sdp ma))).
    rewrite <- Hsid.
    apply (answer_of_first cb sta (mk_WsServerSdpMessage (c_peer ca_b1) (sc_session_id ma) (sc_sdp ma)));
      [done|].
    simpl. rewrite Hsid, lookup_insert_eq. done.
Qed.

(** [delivery_plan] once the message is on the websocket. *)
Definition forwarding_plan (a b : Uuid) : list SystemLabel :=
  (ServerStep <$> [LHandle a; LSendNext a; LPump b]) ++ [Deliver b] ++ (ClientStep b <$> receive_plan).

Lemma delivery_plan_offer a b mo :
  delivery_plan a b (WOffer mo) =
  ServerStep (LText a (as_bytes (to_json (COffer mo)))) :: forwarding_plan a b.
Proof. done. Qed.

Context `{SdpParser, TokenCrypto, RtcCodec, Zlib, !Base64Laws, !RtcCodecLaws, !ZlibLaws}.

(** The surroundings of [send_offer] on the device [a] of the system: what it
    sends is written to the websocket of [a], the callback it registers is [cb]
    of the client of [a], and it waits for what that callback is called with.
    Meanwhile the others go on: the steps [between] come between the message and
    the next event of [send_offer], and the steps [waiting] while it waits.  Its
    other events go well. *)
Definition live (m : Machine) (a : Uuid) (cb : Callback) (between waiting : list SystemLabel)
    (X : Type) (e : setupE X) (s : System) : option (X * System) :=
  match e in setupE X return option (X * ()) → option (X * System) with
  | SignalingSend msg => λ _,
      s ← run_system max_connections max_requests
            (ServerStep (LText a (as_bytes (to_json msg))) :: between) s;
      Some (Ok (), s)
  | RegisterCallback sid => λ _,
      s ← system_step max_connections max_requests (ClientStep a (OnAnswer sid cb)) s;
      Some ((), s)
  | AwaitAnswer sid => λ _,
      s ← run_system max_connections max_requests waiting s;
      st ← sy_clients s !! a;
      sdp ← answer_of cb st sid;
      Some (Ok sdp, s)
  | _ => λ goes_well, '(x, _) ← goes_well; Some (x, s)
  end (well m X e tt).

(** A run of [send_offer] whose events are answered. *)
Ltac live_answer :=
  first [unfold logged; cbn [fst snd];
         match goal with Hx : live _ _ _ _ _ _ _ _ = _ |- _ => rewrite Hx; reflexivity end
        |reflexivity].
Ltac live_event :=
  simpl;
  match goal with
  | |- runs _ (tbind _ _) _ (Some _) _ => eapply runs_tbind
  | |- runs _ (call _) _ _ _ => eapply runs_call; live_answer
  | |- runs _ (try_call _) _ _ _ => eapply runs_try_call; live_answer
  | |- runs _ (attempt _) _ _ _ => eapply runs_attempt_Ok
  | |- runs _ (ret _) _ _ _ => eapply runs_ret
  | Hx : ?x = _ |- runs _ (done ?x) _ _ _ => rewrite Hx; eapply runs_done
  | |- runs _ (done _) _ _ _ => eapply runs_done
  end.

Section live.
Context (m : Machine) (a : Uuid) (cb : Callback) (between waiting : list SystemLabel).
Context (stun : list string) (b : Uuid) (s s1 s2 : System).
Let mo := mk_WsClientSdpMessage (mc_session m) b (encode_sdp (mc_gathered m)).

(** The offer goes out, the others go on, and the callback is registered. *)
Hypothesis Hsent : run_system max_connections max_requests
  (ServerStep (LText a (as_bytes (to_json (COffer mo)))) :: between) s = Some s1.
Hypothesis Hregistered :
  system_step max_connections max_requests (ClientStep a (OnAnswer (mc_session m) cb)) s1 = Some s2.

Lemma live_sends : live m a cb between waiting _
  (SignalingSend (send_offer_message (mc_session m) b (encode_sdp (mc_gathered m)))) s = Some (Ok (), s1).
Proof using Hsent. exact (f_equal (λ o, s ← o; Some (Ok (), s)) Hsent). Qed.

Lemma live_registers : live m a cb between waiting _ (RegisterCallback (mc_session m)) s1 = Some ((), s2).
Proof using Hregistered. exact (f_equal (λ o, s ← o; Some ((), s)) Hregistered). Qed.

(** Nothing comes: [send_offer] waits. *)
Lemma live_send_offer_waits :
  live m a cb between waiting _ (AwaitAnswer (mc_session m)) s2 = None →
  ∃ l, runs (logged (live m a cb between waiting)) (send_offer stun b) (s, []) None (s2, l) ∧
    omap view_sent l = [COffer mo] ∧ omap view_registered l = [mc_session m].
Proof using Hsent Hregistered.
  intros Hawait. pose proof live_sends as Hsend. pose proof live_registers as Hreg. eexists. split.
  - unfold send_offer, send_offer_open, create_peer_connection, send_offer_exchange.
    eapply runs_tbind; [repeat live_event|]. eapply runs_tbind_wait.
    do 8 (eapply runs_tbind; [repeat live_event|]). eapply runs_tbind_wait.
    eapply runs_wait; [reflexivity|]. unfold logged. cbn [fst snd]. by rewrite Hawait.
  - done.
Qed.

(** An answer comes: [send_offer] applies it and runs to its end. *)
Lemma live_send_offer_returns s3 text d ans :
  live m a cb between waiting _ (AwaitAnswer (mc_session m)) s2 = Some (Ok text, s3) →
  decode_sdp text = Ok d → parse_description AnswerDescription d = Ok ans → ends_well m →
  ∃ l, runs (logged (live m a cb between waiting)) (send_offer stun b) (s, []) (Some (Ok ())) (s3, l) ∧
    went_well (COffer mo) ans l.
Proof using Hsent Hregistered.
  intros Hawait Hdec Hparse Hend. pose proof live_sends as Hsend. pose proof live_registers as Hreg.
  assert (live m a cb between waiting _ (ParseDescription AnswerDescription d) s3 = Some (Ok ans, s3)) as Hp
    by (simpl; by rewrite Hparse).
  destruct Hend as [Hend|Hend];
    assert (live m a cb between waiting _ SelectTask s3 = Some (mc_ended m, s3)) as Hselect by done;
    rewrite Hend in Hselect; eexists;
    (split; [unfold send_offer, send_offer_open, create_peer_connection, send_offer_exchange,
      send_offer_finish, report_sdp_exchanged, select_task, ignore; repeat live_event|done]).
Qed.
End live.

(** C33. The race of [send_offer], between two devices.  It registers the
    callback of its session only after the offer has been sent, so the other
    device can answer before.  From every reachable state in which the two
    devices have nothing under way: when the offer reaches the other
    application, and its answer the listener and the application of the sender,
    before [send_offer] goes on, then [send_offer] has sent the offer and
    registered the callback, and it waits; the callback is not called, whatever
    happens then, unless the server sends another answer of the session. *)
Theorem answer_overtakes_callback s a b ca cn sta stb cb m stun ma :
  (0 ≤ max_connections)%Z → (0 ≤ max_requests ≤ u32_max)%Z →
  system_reachable max_connections max_requests s →
  a ≠ b → device_quiet s a ca sta → device_quiet s b cn stb → c_group cn = c_group ca →
  (requests_of (c_group ca) (sy_world s) + 1 < max_requests)%Z →
  sg_callbacks sta !! mc_session m = None → cb ∉ (sg_registered sta).*2 →
  sc_target ma = a → sc_session_id ma = mc_session m →
  let mo := mk_WsClientSdpMessage (mc_session m) b (encode_sdp (mc_gathered m)) in
  ∃ s' sta' stb' l,
    runs (logged (live m a cb (forwarding_plan a b ++ delivery_plan b a (WAnswer ma)) []))
      (send_offer stun b) (s, []) None (s', l) ∧
    omap view_sent l = [COffer mo] ∧ omap view_registered l = [mc_session m] ∧
    sy_clients s' !! a = Some sta' ∧ sy_clients s' !! b = Some stb' ∧
    sg_seen stb' = sg_seen stb ++ [server_message (c_peer ca) (WOffer mo)] ∧
    sg_seen sta' = sg_seen sta ++ [server_message (c_peer cn) (WAnswer ma)] ∧
    ∀ ls sta'',
      run_client ls sta' = Some sta'' →
      (∀ f, ServerSends f ∈ ls → no_answer (mc_session m) (frame_messages f)) →
      (∀ sid, OnAnswer sid cb ∉ ls) →
      answer_of cb sta'' (mc_session m) = None.
Proof.
  intros Hmc Hmr Hs Hab Hda Hdb Hg Hn Hnone Hcb Hta Hsid mo.
  set (offer := server_message (c_peer ca) (WOffer mo)).
  set (answer := server_message (c_peer cn) (WAnswer ma)).
  destruct (message_delivered max_connections max_requests s a b ca cn sta stb (WOffer mo))
    as (s1 & Hs1 & Hda1 & Hdb1 & Hn1); try done; [lia|].
  assert (system_reachable max_connections max_requests s1) as Hr1 by by eapply run_system_reachable.
  destruct (message_delivered max_connections max_requests s1 b a
    (push_out offer cn) ca (told_of offer stb) sta (WAnswer ma))
    as (s2 & Hs2 & Hdb2 & Hda2 & _); try done.
  { simpl. intros cb'. by rewrite Hsid, Hnone. }
  { simpl. rewrite Hg, Hn1. lia. }
  change (server_message _ (WAnswer ma)) with answer in Hda2.
  assert (calls_back answer sta = sta) as Hback by (simpl; by rewrite Hsid, Hnone).
  assert (sg_registered (told_of answer sta) = sg_registered sta) as Hsame by (unfold told_of; by rewrite Hback).
  set (sta3 := on_answer (mc_session m) cb (told_of answer sta)).
  set (s3 := mk_System (sy_world s2) (<[a := sta3]> (sy_clients s2))).
  assert (∀ ls sta'', run_client ls sta3 = Some sta'' →
    (∀ f, ServerSends f ∈ ls → no_answer (mc_session m) (frame_messages f)) →
    (∀ sid, OnAnswer sid cb ∉ ls) → answer_of cb sta'' (mc_session m) = None) as Hlost.
  { intros ls sta'' Hrun Hf Hon. apply answer_of_none.
    destruct Hda2 as [_ Hsta2 [[Hwire _] Hreader _ Hreceive _ _] _].
    apply (early_answer_lost (told_of answer sta) (mc_session m) cb ls sta''); try done.
    + by apply (so_clients _ _ _ (system_reachable_ok _ _ _ (run_system_reachable _ _ _ _ _ Hr1 Hs2)) a).
    + by rewrite Hsame.
    + unfold pending. rewrite Hwire, Hreader, Hreceive. intros sdp ?%not_elem_of_nil. done. }
  assert (answer_of cb sta3 (mc_session m) = None) as Hnow.
  { apply (Hlost []); [done|intros f Hf; by apply elem_of_nil in Hf|intros sid; apply not_elem_of_nil]. }
  destruct (live_send_offer_waits m a cb (forwarding_plan a b ++ delivery_plan b a (WAnswer ma)) []
    stun b s s2 s3) as (l & Hruns & Hsent & Hreg).
  { fold mo. change (_ :: _ ++ _) with (delivery_plan a b (WOffer mo) ++ delivery_plan b a (WAnswer ma)).
    by rewrite run_system_app, Hs1. }
  { unfold s3, sta3. simpl. by rewrite (dq_client _ _ _ _ Hda2). }
  { simpl. rewrite lookup_insert_eq. simpl. by rewrite Hnow. }
  exists s3, sta3, (told_of offer stb), l. split_and!; try done.
  - apply lookup_insert_eq.
  - simpl. rewrite lookup_insert_ne by done. apply (dq_client _ _ _ _ Hdb2).
Qed.

End signaled.

(** ** A transfer of one file between two devices *)

#[local] Existing Instance countable_json.
#[local] Existing Instance countable_json_laws.

(** Two devices of one group connect and read what they are greeted with. *)
Definition both_settle : list SystemLabel :=
  two_clients ++ first_reads ++ (ServerStep <$> [LHello 2; LPump 2]) ++ [Deliver 2] ++
  (ClientStep 2 <$> [ReaderStep; ReaderStep; ReaderStep; CallerStep; StartListener; ListenerRecv;
                     ListenerForward; AppRecv]).

Definition settled : System := system_end both_settle.

Lemma settled_reachable : system_reachable 10 1000 settled.
Proof.
  apply (run_system_reachable 10 1000 both_settle system_new); [constructor|]. vm_compute. reflexivity.
Qed.

Definition settled_conn (id : Uuid) : Conn :=
  default (mk_Conn "" (client_info_from some_info 0) None PDone []) (w_conns (sy_world settled) !! id).
Definition settled_client (id : Uuid) : Client :=
  default client_start (sy_clients settled !! id).

Lemma settled_quiet id : id = 1%N ∨ id = 2%N → device_quiet settled id (settled_conn id) (settled_client id).
Proof.
  intros [-> | ->]; (constructor; [split_and!|..|constructor|]);
    try (vm_compute; reflexivity); try (split; vm_compute; reflexivity);
    vm_compute; discriminate.
Qed.


(** The first device waits for callback 0 after the answer has come. *)
Lemma answer_overtakes_callback_witness :
  ∃ m s' sta' l,
    runs (logged (live 10 1000 m 1%N 0%N
      (forwarding_plan 1 2 ++ delivery_plan 2 1 (WAnswer (mk_WsClientSdpMessage "s" 1 "answer"))) []))
      (send_offer [] 2%N) (settled, []) None (s', l) ∧
    sy_clients s' !! 1%N = Some sta' ∧
    sg_seen sta' = sg_seen (settled_client 1) ++
      [server_message (c_peer (settled_conn 2)) (WAnswer (mk_WsClientSdpMessage "s" 1 "answer"))] ∧
    answer_of 0%N sta' "s" = None.
Proof.
  set (m := mk_Machine "s" "v=0" "v=0 sender" (λ _, None) PeerDisconnected).
  destruct (answer_overtakes_callback 10 1000 settled 1%N 2%N (settled_conn 1) (settled_conn 2)
    (settled_client 1) (settled_client 2) 0%N m [] (mk_WsClientSdpMessage "s" 1 "answer")
    ltac:(lia) ltac:(unfold u32_max; lia) settled_reachable ltac:(discriminate)
    (settled_quiet 1 (or_introl eq_refl)) (settled_quiet 2 (or_intror eq_refl)))
    as (s' & sta' & stb' & l & Hruns & _ & _ & Hsta' & _ & _ & Hseen & Hlost).
  - vm_compute. reflexivity.
  - vm_compute. reflexivity.
  - vm_compute. reflexivity.
  - vm_compute. apply not_elem_of_nil.
  - reflexivity.
  - reflexivity.
  - exists m, s', sta', l. split_and!; [exact Hruns|exact Hsta'|exact Hseen|].
    apply (Hlost []).
    + reflexivity.
    + intros f Hf. destruct (not_elem_of_nil _ Hf).
    + intros sid. apply not_elem_of_nil.
Defined.
