(* ===== verification/AppBridge.v ===== *)
(** * The bridge to the application

    [app/rust/src/api/webrtc.rs] and [app/rust/src/util/bytes.rs]: how the
    Dart application drives the signaling connection and a transfer.  A
    controller holds the application's ends of the channels of a transfer;
    an end that can be used once sits in a slot ([Arc<Mutex<Option<..>>>])
    from which the first user takes it. *)

From S2P Require Import Prelude Serde Signaling Crypto RtcTypes.

(** ** Signing in ([ProposingClientInfo], [connect]) *)

Record ProposingClientInfo := mk_ProposingClientInfo {
  pi_alias : string;
  pi_version : string;
  pi_device_model : option string;
  pi_device_type : option DeviceType
}.

Section sign.
Context `{TokenCrypto, Base64}.

(** [ProposingClientInfo::sign] at the time [now]. *)
Definition sign (info : ProposingClientInfo) (signing_key : Ed25519Signing) (now : Z)
    : anyres ClientInfoWithoutId :=
  let? token := generate_token_timestamp signing_key now in
  Ok {| cw_alias := pi_alias info;
        cw_version := pi_version info;
        cw_device_model := pi_device_model info;
        cw_device_type := pi_device_type info;
        cw_token := token |}.

(** What [connect] does before it opens the websocket: the information it
    presents, or the error it adds to the sink. *)
Definition connect_info (info : ProposingClientInfo) (private_key : string) (now : Z)
    : anyres ClientInfoWithoutId :=
  let? signing_key := res_map_err (λ _, "Invalid private key") (parse_private_key private_key) in
  res_map_err (λ _, "Invalid client info") (sign info signing_key now).

(** [ExpectingPublicKey]. *)
Record ExpectingPublicKey := mk_ExpectingPublicKey {
  ek_public_key : string;
  ek_kind : string
}.

(** The keys [send_offer] and [accept_offer] of [LsSignalingConnection] parse
    before they spawn anything. *)
Definition transfer_keys (private_key : string) (expecting : option ExpectingPublicKey)
    : anyres (Ed25519Signing * option VerifyingTokenKey) :=
  let? signing_key := parse_private_key private_key in
  let? expecting := match expecting with
                    | Some key =>
                        let? k := parse_public_key (ek_public_key key) (ek_kind key) in Ok (Some k)
                    | None => Ok None
                    end in
  Ok (signing_key, expecting).
End sign.

(** The status the spawned task adds to those of the transfer. *)
Definition final_status (result : anyres ()) : list RTCStatus :=
  match result with Err e => [StatusError e] | _ => [] end.

(** [send_offer] answers every request to pair. *)
Definition pair_answer : bool := false.

(** ** Channels of one message *)

(** [tokio::sync::oneshot]: the message in it, and whether the two ends are
    still there. *)
Record Oneshot (A : Type) := mk_Oneshot {
  os_value : option A;
  os_sender : bool;
  os_receiver : bool
}.
Arguments mk_Oneshot {A} _ _ _.
Arguments os_value {A} _.
Arguments os_sender {A} _.
Arguments os_receiver {A} _.

Definition oneshot {A} : Oneshot A := mk_Oneshot None true true.

(** [Sender::send] consumes the sender. *)
Definition oneshot_send {A} (v : A) (c : Oneshot A) : bool * Oneshot A :=
  if os_receiver c then (true, mk_Oneshot (Some v) false true)
  else (false, mk_Oneshot (os_value c) false false).

Definition oneshot_drop_sender {A} (c : Oneshot A) : Oneshot A :=
  mk_Oneshot (os_value c) false (os_receiver c).
Definition oneshot_drop_receiver {A} (c : Oneshot A) : Oneshot A :=
  mk_Oneshot (os_value c) (os_sender c) false.

(** [Receiver::await]: [None] as long as there is nothing to return. *)
Definition oneshot_recv {A} (c : Oneshot A) : option (option A) :=
  match os_value c with
  | Some v => Some (Some v)
  | None => if os_sender c then None else Some None
  end.

(** [mpsc::Sender::send] on a channel with room for [capacity]: [None] while it
    is full. *)
Definition bounded_send {A} (capacity : nat) (receiver : bool) (v : A) (ch : list A)
    : option (anyres () * list A) :=
  if negb receiver then Some (Err "channel closed", ch)
  else if decide (length ch < capacity) then Some (Ok (), ch ++ [v])
  else None.

(** ** The slot of the PIN sender

    The transfer opens a channel for every PIN it asks for; a task stores the
    sender of the newest one in a slot, dropping the one it replaces.
    [ps_slot] is the number of the challenge the stored sender belongs to. *)

Record PinSlot := mk_PinSlot {
  ps_slot : option nat;
  ps_channels : list (Oneshot string)
}.

Definition pin_slot : PinSlot := mk_PinSlot None [].

Definition store_pin_sender (s : PinSlot) : PinSlot :=
  let channels := match ps_slot s with
                  | Some n => alter oneshot_drop_sender n (ps_channels s)
                  | None => ps_channels s
                  end in
  mk_PinSlot (Some (length channels)) (channels ++ [oneshot]).

(** [send_pin] of both controllers. *)
Definition slot_send_pin (pin : string) (s : PinSlot) : anyres () * PinSlot :=
  match ps_slot s with
  | Some n =>
      let '(sent, ch) := oneshot_send pin (default oneshot (ps_channels s !! n)) in
      (if sent then Ok () else Err "Pin channel closed",
       mk_PinSlot None (<[n := ch]> (ps_channels s)))
  | None => (Err "Pin already sent", s)
  end.

Definition drop_pin_receivers (s : PinSlot) : PinSlot :=
  mk_PinSlot (ps_slot s) (oneshot_drop_receiver <$> ps_channels s).

(** ** The controller of a sending transfer *)

(** [sd_sending] is the channel of the files, with room for one; its receiver
    is the transfer's. *)
Record SendController := mk_SendController {
  sd_selected_rx : bool;
  sd_pin : PinSlot;
  sd_selected : Oneshot (gset string);
  sd_sending : list string;
  sd_sending_open : bool
}.

(** The controller [send_offer] returns. *)
Definition send_controller : SendController := mk_SendController true pin_slot oneshot [] true.

(** [RTCSendController::listen_selected_files]; [None] while they are awaited. *)
Definition listen_selected_files (c : SendController)
    : option (anyres (gset string)) * SendController :=
  if sd_selected_rx c then
    (match oneshot_recv (sd_selected c) with
     | Some (Some selected) => Some (Ok selected)
     | Some None => Some (Err "Selected files channel closed")
     | None => None
     end,
     mk_SendController false (sd_pin c) (sd_selected c) (sd_sending c) (sd_sending_open c))
  else (Some (Err "Selected files already received"), c).

(** [RTCSendController::send_file]: the request, with the other end of the
    channel of the sender it returns; [None] while the channel is full. *)
Definition send_file (file_id : string) (c : SendController)
    : option (anyres ()) * SendController :=
  match bounded_send 1 (sd_sending_open c) file_id (sd_sending c) with
  | Some (r, sending) =>
      (Some r, mk_SendController (sd_selected_rx c) (sd_pin c) (sd_selected c) sending
                 (sd_sending_open c))
  | None => (None, c)
  end.

(** [RTCSendController::send_pin]. *)
Definition sending_send_pin (pin : string) (c : SendController) : anyres () * SendController :=
  let '(r, s) := slot_send_pin pin (sd_pin c) in
  (r, mk_SendController (sd_selected_rx c) s (sd_selected c) (sd_sending c) (sd_sending_open c)).

(** What happens to a controller of a sending transfer: calls of the
    application, and steps of the transfer at the other ends. *)
Inductive SendOp :=
| AwaitSelection
| GivePin (pin : string)
| GiveFile (file_id : string)
| SenderAsksPin
| SenderPublishes (selected : gset string)
| SenderTakesFile
| SenderEnds.

Definition send_op (op : SendOp) (c : SendController) : SendController :=
  match op with
  | AwaitSelection => (listen_selected_files c).2
  | GivePin pin => (sending_send_pin pin c).2
  | GiveFile file_id => (send_file file_id c).2
  | SenderAsksPin =>
      mk_SendController (sd_selected_rx c) (store_pin_sender (sd_pin c)) (sd_selected c)
        (sd_sending c) (sd_sending_open c)
  | SenderPublishes selected =>
      mk_SendController (sd_selected_rx c) (sd_pin c) (oneshot_send selected (sd_selected c)).2
        (sd_sending c) (sd_sending_open c)
  | SenderTakesFile =>
      mk_SendController (sd_selected_rx c) (sd_pin c) (sd_selected c) (tail (sd_sending c))
        (sd_sending_open c)
  | SenderEnds =>
      mk_SendController (sd_selected_rx c) (drop_pin_receivers (sd_pin c))
        (oneshot_drop_sender (sd_selected c)) (sd_sending c) false
  end.

(** The controller after a sequence of operations. *)
Definition send_ops (ops : list SendOp) (c : SendController) : SendController :=
  fold_left (λ c op, send_op op c) ops c.

(** ** The controller of a receiving transfer *)

Record ReceiveController := mk_ReceiveController {
  rv_status_rx : bool;
  rv_files_rx : bool;
  rv_selected_tx : bool;
  rv_error_rx : bool;
  rv_receiving_rx : bool;
  rv_pin : PinSlot;
  rv_files : Oneshot (list FileDto);
  rv_selected : Oneshot (option (gset string))
}.

(** The controller [accept_offer] returns. *)
Definition receive_controller : ReceiveController :=
  mk_ReceiveController true true true true true pin_slot oneshot oneshot.

(** What happens to a controller: calls of the application, and steps of the
    transfer at the other ends. *)
Inductive ReceiveOp :=
| ListenStatus
| ListenFiles
| SendPin (pin : string)
| SendSelection (selection : gset string)
| Decline
| ListenError
| ListenReceiving
| TransferAsksPin
| TransferPublishes (files : list FileDto)
| TransferEnds.

(** A stream the application subscribes to: the first caller gets it. *)
Definition listen (available : bool) (already : string) : anyres () :=
  if available then Ok () else Err already.

(** [send_selection] and [decline]. *)
Definition send_decision (decision : option (gset string)) (c : ReceiveController)
    : anyres () * ReceiveController :=
  match c with
  | mk_ReceiveController st fr true er rc pin files selected =>
      let '(sent, selected) := oneshot_send decision selected in
      (if sent then Ok () else Err "Selected files channel closed",
       mk_ReceiveController st fr false er rc pin files selected)
  | _ => (Err "Selected files already sent", c)
  end.

(** [RTCReceiveController::send_pin]. *)
Definition receiving_send_pin (pin : string) (c : ReceiveController)
    : anyres () * ReceiveController :=
  match c with
  | mk_ReceiveController st fr sl er rc slot files selected =>
      let '(r, slot) := slot_send_pin pin slot in
      (r, mk_ReceiveController st fr sl er rc slot files selected)
  end.

(** [listen_files]: the files, or [None] while they are awaited. *)
Definition listen_files (c : ReceiveController)
    : option (anyres (list FileDto)) * ReceiveController :=
  match c with
  | mk_ReceiveController st true sl er rc pin files selected =>
      (match oneshot_recv files with
       | Some (Some fs) => Some (Ok fs)
       | Some None => Some (Err "Files channel closed")
       | None => None
       end,
       mk_ReceiveController st false sl er rc pin files selected)
  | _ => (Some (Err "Files already received"), c)
  end.

(** [listen_status], [listen_error] and [listen_receiving]. *)
Definition listen_status (c : ReceiveController) : anyres () * ReceiveController :=
  match c with
  | mk_ReceiveController st fr sl er rc pin files selected =>
      (listen st "Status stream already listened to",
       mk_ReceiveController false fr sl er rc pin files selected)
  end.
Definition listen_error (c : ReceiveController) : anyres () * ReceiveController :=
  match c with
  | mk_ReceiveController st fr sl er rc pin files selected =>
      (listen er "Error stream already listened to",
       mk_ReceiveController st fr sl false rc pin files selected)
  end.
Definition listen_receiving (c : ReceiveController) : anyres () * ReceiveController :=
  match c with
  | mk_ReceiveController st fr sl er rc pin files selected =>
      (listen rc "Receiving stream already listened to",
       mk_ReceiveController st fr sl er false pin files selected)
  end.

Definition transfer_asks_pin (c : ReceiveController) : ReceiveController :=
  match c with
  | mk_ReceiveController st fr sl er rc pin files selected =>
      mk_ReceiveController st fr sl er rc (store_pin_sender pin) files selected
  end.

Definition transfer_publishes (fs : list FileDto) (c : ReceiveController) : ReceiveController :=
  match c with
  | mk_ReceiveController st fr sl er rc pin files selected =>
      mk_ReceiveController st fr sl er rc pin (oneshot_send fs files).2 selected
  end.

(** The transfer is over: its ends of the channels are dropped. *)
Definition transfer_ends (c : ReceiveController) : ReceiveController :=
  match c with
  | mk_ReceiveController st fr sl er rc pin files selected =>
      mk_ReceiveController st fr sl er rc (drop_pin_receivers pin) (oneshot_drop_sender files)
        (oneshot_drop_receiver selected)
  end.

Definition receive_op (op : ReceiveOp) (c : ReceiveController) : anyres () * ReceiveController :=
  match op with
  | ListenStatus => listen_status c
  | ListenFiles =>
      let '(r, c) := listen_files c in
      (match r with Some (Err e) => Err e | Some (Panic m) => Panic m | _ => Ok () end, c)
  | SendPin pin => receiving_send_pin pin c
  | SendSelection selection => send_decision (Some selection) c
  | Decline => send_decision None c
  | ListenError => listen_error c
  | ListenReceiving => listen_receiving c
  | TransferAsksPin => (Ok (), transfer_asks_pin c)
  | TransferPublishes fs => (Ok (), transfer_publishes fs c)
  | TransferEnds => (Ok (), transfer_ends c)
  end.

(** The controller after a sequence of operations. *)
Definition receive_ops (ops : list ReceiveOp) (c : ReceiveController) : ReceiveController :=
  fold_left (λ c op, (receive_op op c).2) ops c.

(** ** Buffering ([util/bytes.rs]) *)

(** 1 MB. *)
Definition BUFFER_SIZE : nat := N.to_nat (1024 * 1024).

Lemma buffer_size_pos : 0 < BUFFER_SIZE.
Proof. unfold BUFFER_SIZE. lia. Qed.
#[global] Opaque BUFFER_SIZE.

(** The task of [buffer_receiver] on the pieces of its input, up to the end of
    the input: what it sends.  It stops at the first send for which the
    receiver is gone; [room] is the number of sends before that. *)
Fixpoint buffer_loop (room : nat) (buffer : bytes) (rx_input : list bytes) : list bytes :=
  match rx_input with
  | data :: rx_input =>
      let buffer := buffer ++ data in
      if decide (BUFFER_SIZE ≤ length buffer) then
        match room with
        | O => []
        | S room => buffer :: buffer_loop room [] rx_input
        end
      else buffer_loop room buffer rx_input
  | [] =>
      if decide (buffer = []) then []
      else match room with O => [] | S _ => [buffer] end
  end.

Definition buffer_receiver (room : nat) (rx_input : list bytes) : list bytes :=
  buffer_loop room [] rx_input.

(** ** Files ([RTCFileSender], [RTCFileReceiver]) *)

(** [RTCFileSender::send] on the channel of a file. *)
Definition file_send (data : bytes) (receiver : bool) (binary : list bytes)
    : option (anyres () * list bytes) := bounded_send 1 receiver data binary.

(** [RTCReceiveController::send_file_status] on the channel of the results. *)
Definition send_file_status (status : RTCSendFileResponse) (receiver : bool)
    (file_status : list RTCSendFileResponse) : option (anyres () * list RTCSendFileResponse) :=
  bounded_send 1 receiver status file_status.

Record RTCFileReceiver := mk_RTCFileReceiver {
  fr_file_id : string;
  fr_binary_rx : bool
}.

(** [RTCFileReceiver::receive] of a file that arrives in the given pieces: what
    it adds to the sink.  It reads the buffer to its end, whether the sink
    takes the data or not. *)
Definition receive (pieces : list bytes) (f : RTCFileReceiver)
    : anyres (list bytes) * RTCFileReceiver :=
  if fr_binary_rx f then
    (Ok (buffer_receiver (S (length pieces)) pieces), mk_RTCFileReceiver (fr_file_id f) false)
  else (Err "File receiver listened to", f).
