(* ===== verification/AppBridgeProps.v ===== *)
(** * What the bridge guarantees to the application

    A file arrives whole in large pieces, the user decides once about the
    files, a PIN goes to the challenge that asked for it, and the server can
    check the information a client signs in with. *)

From S2P Require Import Prelude Serde Signaling Crypto Instances CryptoProps RtcTypes AppBridge.

(** ** Buffering *)

Lemma buffer_loop_concat room buffer rx :
  concat (buffer_loop room buffer rx) `prefix_of` buffer ++ concat rx ∧
  (length rx < room → concat (buffer_loop room buffer rx) = buffer ++ concat rx).
Proof.
  revert room buffer. induction rx as [|data rx IH]; intros room buffer; simpl.
  - rewrite app_nil_r. case_decide as Hb; [by subst|].
    destruct room as [|room]; simpl; rewrite ?app_nil_r; split; try done; [apply prefix_nil|lia].
  - rewrite app_assoc. case_decide; [|split; [apply IH|intros; apply IH; lia]].
    destruct room as [|room]; [split; [apply prefix_nil|lia]|]. simpl. split.
    + apply prefix_app. apply (IH room []).
    + intros Hr. f_equal. apply (IH room []). lia.
Qed.

Lemma buffer_loop_sizes room buffer rx n :
  0 < BUFFER_SIZE → length buffer < BUFFER_SIZE → Forall (λ d, length d ≤ n) rx →
  length (buffer_loop room buffer rx) ≤ room ∧
  Forall (λ m, 0 < length m < BUFFER_SIZE + n) (buffer_loop room buffer rx) ∧
  ∀ ms m, buffer_loop room buffer rx = ms ++ [m] → Forall (λ m, BUFFER_SIZE ≤ length m) ms.
Proof.
  intros Hpos Hb Hrx. revert room buffer Hb. induction Hrx as [|data rx Hd Hrx IH]; intros room buffer Hb; simpl.
  - case_decide as Hnil; [split_and!; [simpl; lia|done|by intros []]|].
    destruct room as [|room]; split_and!; simpl; try lia; try done.
    + by intros [].
    + constructor; [|done]. destruct buffer; [done|]. simpl in *. lia.
    + intros [|? []] m; simpl; [constructor|done..].
  - case_decide as Hfull; [|apply IH; lia].
    destruct room as [|room]; [split_and!; simpl; [lia|done|by intros []]|].
    destruct (IH room [] ltac:(simpl; lia)) as (Hlen & Hsize & Hlast).
    split_and!; simpl.
    + lia.
    + constructor; [|done]. rewrite length_app in *. lia.
    + intros [|m' ms] m Heq; [constructor|]. simplify_eq/=. constructor; [done|]. by eapply Hlast.
Qed.

Lemma buffer_delivers_all rx : concat (buffer_receiver (S (length rx)) rx) = concat rx.
Proof. apply (buffer_loop_concat (S (length rx)) [] rx). lia. Qed.

(** C31. A file comes out of the buffer as it went in, as long as the
    application reads: in pieces of which every one but the last has at least
    1 MB, none is empty, and none exceeds 1 MB by more than the largest piece
    that came in.  An application that stops reading has received a part of
    the file from its start.  [receive] reads to the end, and once only. *)
Theorem buffer_receiver_delivers room rx_input n :
  Forall (λ d, length d ≤ n) rx_input →
  let out := buffer_receiver room rx_input in
  (length rx_input < room → concat out = concat rx_input) ∧
  concat out `prefix_of` concat rx_input ∧ length out ≤ room ∧
  Forall (λ m, 0 < length m < BUFFER_SIZE + n) out ∧
  (∀ ms m, out = ms ++ [m] → Forall (λ m, BUFFER_SIZE ≤ length m) ms) ∧
  ∀ id, ∃ all, receive rx_input (mk_RTCFileReceiver id true) = (Ok all, mk_RTCFileReceiver id false) ∧
    concat all = concat rx_input ∧
    receive rx_input (mk_RTCFileReceiver id false) =
      (Err "File receiver listened to", mk_RTCFileReceiver id false).
Proof.
  intros Hn out. pose proof buffer_size_pos.
  destruct (buffer_loop_concat room [] rx_input) as [Hprefix Hall].
  destruct (buffer_loop_sizes room [] rx_input n) as (Hlen & Hsize & Hlast); [done|simpl; lia|done|].
  split_and!; [done..|]. intros id. eexists. split; [done|]. split; [apply buffer_delivers_all|done].
Qed.

Lemma buffer_receiver_delivers_witness :
  concat (buffer_receiver 3 [[Byte.x01]; [Byte.x02; Byte.x03]]) = [Byte.x01; Byte.x02; Byte.x03].
Proof.
  refine (proj1 (buffer_receiver_delivers 3 [[Byte.x01]; [Byte.x02; Byte.x03]] 2 _) _); simpl; [|lia].
  repeat constructor; simpl; lia.
Defined.

(** ** Decisions *)

(** The decision of an operation about the files. *)
Definition decision_of (op : ReceiveOp) : option (option (gset string)) :=
  match op with SendSelection s => Some (Some s) | Decline => Some None | _ => None end.

(** Operations after which the files are still to be decided about. *)
Definition undecided (op : ReceiveOp) : Prop :=
  match op with SendSelection _ | Decline | TransferEnds => False | _ => True end.

Fixpoint first_decision (ops : list ReceiveOp) : option (option (gset string)) :=
  match ops with
  | [] => None
  | TransferEnds :: _ => None
  | op :: ops => match decision_of op with Some d => Some d | None => first_decision ops end
  end.

(** Nobody has decided and the transfer waits for the decision. *)
Definition deciding (c : ReceiveController) : Prop :=
  rv_selected_tx c = true ∧ rv_selected c = oneshot.

(** The decision is made, or the transfer is over. *)
Definition settled (d : option (option (gset string))) (c : ReceiveController) : Prop :=
  os_value (rv_selected c) = d ∧ (rv_selected_tx c = false ∨ os_receiver (rv_selected c) = false).

Lemma undecided_step op c : undecided op → deciding c → deciding (receive_op op c).2.
Proof.
  destruct c as [st fr sl er rc pin files selected]. intros Hop [Hs Hc].
  destruct op; try done; simpl in *; unfold deciding; simpl; try done.
  - by destruct fr.
  - by destruct (slot_send_pin pin0 pin).
Qed.

Lemma settled_step op d c : settled d c → settled d (receive_op op c).2.
Proof.
  destruct c as [st fr sl er rc pin files [v tx rx]]. intros [Hv Hs].
  destruct op; simpl in *; unfold settled; simpl; try done.
  - by destruct fr.
  - by destruct (slot_send_pin pin0 pin).
  - destruct sl, rx; simpl; auto; by destruct Hs.
  - destruct sl, rx; simpl; auto; by destruct Hs.
  - auto.
Qed.

Lemma receive_ops_app ops ops' c : receive_ops (ops ++ ops') c = receive_ops ops' (receive_ops ops c).
Proof. apply fold_left_app. Qed.

Lemma settled_ops ops d c : settled d c → settled d (receive_ops ops c).
Proof.
  revert c. induction ops as [|op ops IH]; intros c Hc; [done|]. by apply IH, settled_step.
Qed.

Lemma receive_ops_decision ops c :
  deciding c →
  (Forall undecided ops ∧ deciding (receive_ops ops c) ∧ first_decision ops = None) ∨
  (¬ Forall undecided ops ∧ settled (first_decision ops) (receive_ops ops c)).
Proof.
  revert c. induction ops as [|op ops IH]; intros c Hc; [by left|].
  assert (undecided op ∨ ¬ undecided op) as [Hop|Hop] by (destruct op; simpl; tauto).
  - assert (first_decision (op :: ops) = first_decision ops) as -> by by destruct op.
    destruct (IH _ (undecided_step op c Hop Hc)) as [(?&?&?)|(Hno & Hs)].
    + left. split_and!; [by constructor|done..].
    + right. split; [|done]. by intros [_ ?]%Forall_cons.
  - right. split; [by intros [? _]%Forall_cons|]. simpl. apply settled_ops.
    destruct c as [st fr sl er rc pin files selected], Hc as [Hsl Hsel]. simpl in *. subst.
    destruct op; try (by destruct Hop); simpl; unfold settled; simpl; auto.
Qed.

(** However often the application selects files or declines, the transfer
    gets the first decision it made while the transfer was running and no
    other; exactly the call that makes it succeeds. *)
Theorem one_decision ops op d :
  decision_of op = Some d →
  let c := receive_ops ops receive_controller in
  os_value (rv_selected c) = first_decision ops ∧
  ((receive_op op c).1 = Ok () ↔ Forall undecided ops) ∧
  (Forall undecided ops → os_value (rv_selected (receive_op op c).2) = Some d).
Proof.
  intros Hd. cbv zeta.
  pose proof (receive_ops_decision ops receive_controller (conj eq_refl eq_refl)) as Hcase. revert Hcase.
  generalize (receive_ops ops receive_controller). intros [st fr sl er rc pin files [v tx rx]] Hcase.
  assert (∀ c, receive_op op c = send_decision d c) as Hop by (intros c; destruct op; by simplify_eq/=).
  rewrite Hop. destruct Hcase as [(Hall & [Hsl Hsel] & Hf)|(Hno & Hv & Hs)]; simpl in *.
  - injection Hsel as -> -> ->. rewrite Hf, Hsl. simpl. done.
  - split; [done|]. split; [|done]. split; [|done].
    destruct sl, rx; simpl; try done. by destruct Hs.
Qed.

Lemma one_decision_witness :
  (receive_op Decline (receive_ops [ListenFiles; SendSelection ∅] receive_controller)).1 ≠ Ok ().
Proof.
  intros Hok. apply (proj1 (proj2 (one_decision [ListenFiles; SendSelection ∅] Decline None eq_refl))) in Hok.
  by inversion_clear Hok as [|?? _ Hbad]; inversion_clear Hbad.
Defined.

(** ** PINs *)

(** The sender in the slot is that of the newest challenge, unused. *)
Definition pin_slot_ok (s : PinSlot) : Prop :=
  ∀ n, ps_slot s = Some n → S n = length (ps_channels s) ∧
    ∃ ch, ps_channels s !! n = Some ch ∧ os_value ch = None.

Lemma pin_slot_ok_start : pin_slot_ok pin_slot.
Proof. by intros n [=]. Qed.

Lemma store_pin_sender_ok s : pin_slot_ok (store_pin_sender s).
Proof.
  intros n. simpl. intros [= <-]. rewrite length_app. simpl. split; [lia|].
  exists oneshot. split; [|done]. by apply list_lookup_middle.
Qed.

Lemma slot_send_pin_ok pin s : pin_slot_ok s → pin_slot_ok (slot_send_pin pin s).2.
Proof.
  intros Hs. unfold slot_send_pin. destruct (ps_slot s); [|done]. by destruct (oneshot_send _ _).
Qed.

Lemma drop_pin_receivers_ok s : pin_slot_ok s → pin_slot_ok (drop_pin_receivers s).
Proof.
  intros Hs n Hn. destruct (Hs n Hn) as (Hl & ch & Hch & Hv). simpl. rewrite length_fmap.
  split; [done|]. exists (oneshot_drop_receiver ch). by rewrite list_lookup_fmap, Hch.
Qed.

Lemma receive_ops_pin_ok ops c : pin_slot_ok (rv_pin c) → pin_slot_ok (rv_pin (receive_ops ops c)).
Proof.
  revert c. induction ops as [|op ops IH]; intros c Hc; [done|]. apply IH. clear IH.
  destruct c as [st fr sl er rc pin files selected]. destruct op; simpl in *; try done.
  - by destruct fr.
  - pose proof (slot_send_pin_ok pin0 pin Hc). by destruct (slot_send_pin pin0 pin).
  - destruct sl; [|done]. by destruct (oneshot_send _ _).
  - destruct sl; [|done]. by destruct (oneshot_send _ _).
  - apply store_pin_sender_ok.
  - by apply drop_pin_receivers_ok.
Qed.

(** C34. The slot of a receiving controller is empty or holds the unused sender
    of the newest challenge, whatever the application and the transfer do; so a
    PIN that is sent without an error goes to the newest challenge, which had
    none, and to no other, and a second PIN is refused until the next
    challenge. *)
Theorem pin_reaches_newest_challenge ops pin :
  let c := receive_ops ops receive_controller in
  let '(r, c') := receive_op (SendPin pin) c in
  pin_slot_ok (rv_pin c) ∧
  (r = Ok () →
   ∃ n ch, S n = length (ps_channels (rv_pin c)) ∧ ps_channels (rv_pin c) !! n = Some ch ∧
     os_value ch = None ∧
     os_value <$> ps_channels (rv_pin c') = <[n := Some pin]> (os_value <$> ps_channels (rv_pin c)) ∧
     ∀ pin', (receive_op (SendPin pin') c').1 = Err "Pin already sent").
Proof.
  cbv zeta. pose proof (receive_ops_pin_ok ops receive_controller pin_slot_ok_start) as Hok.
  destruct (receive_ops ops receive_controller) as [st fr sl er rc s files selected]. simpl in *.
  unfold slot_send_pin. destruct (ps_slot s) as [n|] eqn:Hn; [|done].
  destruct (Hok n Hn) as (Hlen & ch & Hch & Hv). rewrite Hch. simpl.
  unfold oneshot_send. destruct (os_receiver ch); simpl; (split; [done|]); [|done].
  intros _. exists n, ch. split_and!; try done. by rewrite list_fmap_insert.
Qed.

Lemma pin_reaches_newest_challenge_witness :
  os_value <$> ps_channels (rv_pin
    (receive_op (SendPin "123") (receive_ops [TransferAsksPin; TransferAsksPin] receive_controller)).2)
  = [None; Some "123"].
Proof.
  destruct (proj2 (pin_reaches_newest_challenge [TransferAsksPin; TransferAsksPin] "123") eq_refl)
    as (n & ch & Hn & _ & _ & Hv & _).
  injection Hn as ->. exact Hv.
Defined.

(** ** Signing in *)

Section sign.
Context `{TokenCrypto, !TokenCryptoLaws, Base64, !Base64Laws}.

(** The information [connect] signs in with is what the application proposed,
    with a token that whoever knows the public key of the given private key
    accepts exactly for the hour after it was made. *)
Lemma connect_info_verifies info private_key key overflow_checks now later c :
  ed25519_signing_from_pem private_key = Some key →
  (0 ≤ now ≤ later)%Z → (later < u64_modulus)%Z →
  connect_info info private_key now = Ok c →
  cw_alias c = pi_alias info ∧ cw_version c = pi_version info ∧
  cw_device_model c = pi_device_model info ∧ cw_device_type c = pi_device_type info ∧
  (verify_token_timestamp overflow_checks later (to_verifying_key key) (cw_token c) = Ok true ↔
   (later ≤ now + 60 * 60)%Z).
Proof.
  intros Hkey Hnow Hlater. unfold connect_info, parse_private_key. rewrite Hkey. simpl.
  unfold sign. destruct (generate_token_timestamp key now) as [token|e|m] eqn:Htok; simpl; [|done..].
  intros [= <-]. simpl. split_and!; [done..|].
  unfold generate_token_timestamp in Htok. apply generated_token in Htok as (_ & Hlen & Htok).
  unfold verify_token_timestamp. rewrite (verify_token_of _ (le_bytes 8 now)) by done.
  unfold verify_salt_timestamp. rewrite le_bytes_length, decide_False by naive_solver.
  rewrite le_value_bytes by (unfold u64_modulus in *; lia).
  unfold u64_sub. rewrite decide_True by lia. simpl. case_decide; simpl; (split; [|]); try done; lia.
Qed.
End sign.
