(* ===== verification/AppConnection.v ===== *)
(** * The connection of the application

    [connect] and [LsSignalingConnection] of [app/rust/src/api/webrtc.rs]: the
    task that signs in, waits for the signaling client, hands the connection to
    the application and then adds every message to the sink of the application,
    around the machine of [SignalingClient]; and what the methods of the
    connection start. *)

From ITree Require Import ITree.
From S2P Require Import Prelude Serde Signaling Crypto RtcTypes Interaction Rtc RtcSetup.
From S2P Require Import SignalingClient SignalingClientProps SignalingClientBehaviour SignalingWriter AppBridge.
From S2P Require Import Instances SignalingClientRuns.

(** ** [connect] *)

(** What is put into a [StreamSink]; what [add] returns is not looked at. *)
Inductive SinkEvent := SinkAdd (message : WsServerMessage) | SinkError (error : string).

(** The task: it has not been called; in [SignalingConnection::connect]; in
    [on_connection]; in its loop. *)
Inductive ConnectTask :=
| NotCalled
| Connecting (uri : string)
| Announcing
| Forwards
| ConnectReturned
| ConnectPanicked.

(** [cn_client] is there as soon as the websocket is open, [cn_announced] once
    the application has been given the connection. *)
Record Connection := mk_Connection {
  cn_task : ConnectTask;
  cn_client : option Client;
  cn_sink : list SinkEvent;
  cn_announced : bool
}.

Definition connection_start : Connection := mk_Connection NotCalled None [] false.

(** The call; the websocket fails to open, or opens; the client, its server or
    its callbacks do something; [connect] of the client is over; the future of
    [on_connection] is over; a turn of the loop. *)
Inductive ConnectionLabel :=
| Calls (uri : string) (info : ProposingClientInfo) (private_key : string) (now : Z)
| OpenFails (error : string)
| Opens
| ClientDoes (l : SignalingClient.Label)
| Connects
| Announced
| Turn.

Section connection.
Context `{TokenCrypto, Base64, SerdeJson ClientInfoWithoutId, SerdeJson WsClientMessage}.
Context `{SerdeJson WsServerMessage}.
Implicit Types (st : Connection) (c : Client).

(** What the client does without the task: everything but the calls of the
    task itself. *)
Definition client_alone (l : SignalingClient.Label) : bool :=
  match l with StartListener | AppRecv | AppDrops => false | _ => true end.

(** The sender of the listener is gone. *)
Definition listener_over (c : Client) : bool :=
  match sg_listener c with ListenerDone | ListenerPanicked => true | _ => false end.

Definition connection_step (l : ConnectionLabel) (st : Connection) : option Connection :=
  match l, cn_task st, cn_client st with
  | Calls uri info private_key now, NotCalled, client =>
      Some (match connect_info info private_key now with
            | Ok c => mk_Connection (Connecting (connect_uri uri c)) client (cn_sink st) (cn_announced st)
            | Err e => mk_Connection ConnectReturned client (cn_sink st ++ [SinkError e]) (cn_announced st)
            | Panic _ => mk_Connection ConnectPanicked client (cn_sink st) (cn_announced st)
            end)
  | OpenFails e, Connecting _, None =>
      Some (mk_Connection ConnectReturned None (cn_sink st ++ [SinkError e]) (cn_announced st))
  | Opens, Connecting uri, None =>
      Some (mk_Connection (Connecting uri) (Some client_start) (cn_sink st) (cn_announced st))
  | ClientDoes l, task, Some c =>
      if client_alone l then
        c ← client_step l c; Some (mk_Connection task (Some c) (cn_sink st) (cn_announced st))
      else None
  | Connects, Connecting _, Some c =>
      match sg_caller c with
      | Waiting => None
      | Connected _ =>
          c ← client_step StartListener c;
          Some (mk_Connection Announcing (Some c) (cn_sink st) true)
      | CallerPanicked => Some (mk_Connection ConnectPanicked (Some c) (cn_sink st) (cn_announced st))
      end
  | Announced, Announcing, Some c =>
      Some (mk_Connection Forwards (Some c) (cn_sink st) (cn_announced st))
  | Turn, Forwards, Some c =>
      match sg_out c with
      | m :: _ =>
          c ← client_step AppRecv c;
          Some (mk_Connection Forwards (Some c) (cn_sink st ++ [SinkAdd m]) (cn_announced st))
      | [] =>
          if listener_over c then
            c ← client_step AppDrops c;
            Some (mk_Connection ConnectReturned (Some c) (cn_sink st) (cn_announced st))
          else None
      end
  | _, _, _ => None
  end.

Fixpoint run_connection (ls : list ConnectionLabel) (st : Connection) : option Connection :=
  match ls with
  | [] => Some st
  | l :: ls => st ← connection_step l st; run_connection ls st
  end.

Definition connection_reachable st : Prop := ∃ ls, run_connection ls connection_start = Some st.

(** ** What the sink has got *)

Record connection_ok st : Prop := {
  cn_ok_client c : cn_client st = Some c →
    client_reachable c ∧ cn_sink st = SinkAdd <$> sg_seen c ∧ (cn_sink st ≠ [] → cn_announced st = true);
  cn_ok_none : cn_client st = None →
    match cn_task st with
    | NotCalled | Connecting _ | ConnectPanicked => cn_sink st = []
    | ConnectReturned => ∃ e, cn_sink st = [SinkError e]
    | _ => False
    end;
  cn_ok_started c : cn_task st = Announcing ∨ cn_task st = Forwards → cn_client st = Some c →
    cn_announced st = true ∧ sg_listener c ≠ NotStarted ∧ ∃ i, sg_caller c = Connected i;
  cn_ok_open c : cn_task st ≠ ConnectReturned → cn_client st = Some c → sg_out_open c = true;
  cn_ok_not_called : cn_task st = NotCalled → cn_client st = None
}.

Lemma connection_start_ok : connection_ok connection_start.
Proof. by split; simpl; try done; intros c [|]. Qed.

Lemma client_alone_frame (l : SignalingClient.Label) c c' :
  client_alone l = true → client_step l c = Some c' →
  sg_seen c' = sg_seen c ∧ sg_out_open c' = sg_out_open c ∧
  (sg_listener c ≠ NotStarted → sg_listener c' ≠ NotStarted) ∧
  (∀ i, sg_caller c = Connected i → sg_caller c' = Connected i).
Proof.
  intros Hl Hs. destruct c as [wire closed reader client_ch caller receive listener cbs gone out
                                open all seen called reg].
  destruct l; try done; simpl in Hs;
    unfold reader_step, caller_step, listener_recv, listener_forward in Hs;
    simpl in Hs; repeat case_match; by simplify_eq/=.
Qed.

Lemma client_step_reach (l : SignalingClient.Label) c c' : client_reachable c → client_step l c = Some c' → client_reachable c'.
Proof. intros Hc Hs. eapply (client_reachable_run [l]); [done|]. simpl. by rewrite Hs. Qed.

(** A turn of the loop, from the client's side. *)
Lemma turn_cases st st' :
  connection_step Turn st = Some st' →
  ∃ c, cn_task st = Forwards ∧ cn_client st = Some c ∧
    ((∃ m out, sg_out c = m :: out ∧ sg_out_open c = true ∧
        st' = mk_Connection Forwards (Some (set_seen (sg_seen c ++ [m]) (set_out out c)))
                (cn_sink st ++ [SinkAdd m]) (cn_announced st)) ∨
     (sg_out c = [] ∧ listener_over c = true ∧
        st' = mk_Connection ConnectReturned (Some (set_open false c)) (cn_sink st) (cn_announced st))).
Proof.
  destruct st as [task client sink announced]. simpl. intros Hs. destruct task; try done.
  destruct client as [c|]; [|done]. exists c. split_and!; [done..|].
  unfold app_recv in Hs. destruct (sg_out c) as [|m out] eqn:Hout.
  - right. destruct (listener_over c); [|done]. by simplify_eq/=.
  - left. exists m, out. destruct (sg_out_open c); [|done]. by simplify_eq/=.
Qed.

Lemma connection_turn_ok st st' :
  connection_ok st → connection_step Turn st = Some st' → connection_ok st'.
Proof.
  intros [Hc _ Hst Hop _] (c & Htask & Hcl & Hcase)%turn_cases.
  destruct (Hc c Hcl) as (Hr & Hsink & _), (Hst c (or_intror Htask) Hcl) as (Han & Hls & Hi).
  destruct Hcase as [(m & out & Hout & Hopen & ->)|(Hout & Hover & ->)]; split; simpl; try done.
  - intros c' [= <-]. split_and!; [|simpl; by rewrite Hsink, fmap_app|done].
    eapply (client_step_reach AppRecv); [done|]. simpl. unfold app_recv. by rewrite Hout, Hopen.
  - intros c' _ [= <-]. done.
  - intros c' _ [= <-]. done.
  - intros c' [= <-]. split_and!; [by apply (client_step_reach AppDrops c)|done..].
  - intros c' [|] [= <-]; done.
Qed.

Lemma connection_client_ok l st st' :
  connection_ok st → connection_step (ClientDoes l) st = Some st' → connection_ok st'.
Proof.
  destruct st as [task client sink announced]. intros [Hc Hn Hst Hop Hnc] Hs. simpl in *.
  destruct client as [c|]; [|by destruct task]. destruct (client_alone l) eqn:Hl; [|by destruct task].
  assert (∃ c', client_step l c = Some c' ∧ st' = mk_Connection task (Some c') sink announced)
    as (c' & Hcs & ->).
  { destruct (client_step l c) as [c'|] eqn:Hcs; [|by destruct task]. exists c'. split; [done|].
    destruct task; by simplify_eq/=. }
  destruct (client_alone_frame l c c' Hl Hcs) as (Hseen & Ho & Hls & Hi).
  destruct (Hc c eq_refl) as (Hr & Hsink & Han). split; simpl; try done.
  - intros c'' [= <-]. rewrite Hseen. split_and!; [by eapply client_step_reach|done..].
  - intros c'' Htask [= <-]. destruct (Hst c Htask eq_refl) as (? & ? & i & ?).
    split_and!; [done|by apply Hls|]. exists i. by apply Hi.
  - intros c'' Htask [= <-]. rewrite Ho. by apply Hop.
  - intros Htask. by specialize (Hnc Htask).
Qed.

Lemma connection_connects_ok st st' :
  connection_ok st → connection_step Connects st = Some st' → connection_ok st'.
Proof.
  intros [Hc _ _ Hop _] Hs. destruct st as [[] [c|] sink announced]; try done. simpl in *.
  destruct (Hc c eq_refl) as (Hr & Hsink & Han). specialize (Hop c ltac:(done) eq_refl).
  destruct (sg_caller c) as [|i|] eqn:Hcaller; [done| |].
  - destruct (start_listener c) as [c'|] eqn:Hsl; [|done]. simplify_eq/=.
    assert (client_reachable c') as Hr' by by eapply (client_step_reach StartListener).
    unfold start_listener in Hsl. rewrite Hcaller in Hsl.
    destruct (sg_listener c) eqn:Hls; simplify_eq. split; simpl; try done.
    + by intros c' [= <-].
    + intros c' _ [= <-]. split_and!; [done..|by eexists].
    + by intros c' _ [= <-].
  - simplify_eq. split; simpl; try done; [by intros ? [|]|by intros c' _ [= <-]].
Qed.

Lemma connection_step_ok l st st' : connection_ok st → connection_step l st = Some st' → connection_ok st'.
Proof.
  intros Hok Hs. destruct l as [uri info key now|e| |l| | |];
    [| | |by eapply connection_client_ok|by eapply connection_connects_ok| |by eapply connection_turn_ok];
    destruct Hok as [Hc Hn Hst Hop Hnc].
  - destruct st as [[] client sink announced]; try done. simpl in *.
    specialize (Hnc eq_refl). subst client. specialize (Hn eq_refl). subst sink.
    destruct (connect_info info key now); simplify_eq; split; simpl; try done; try (by intros c [|]). by eexists.
  - destruct st as [[] [c|] sink announced]; try done. simpl in *.
    simplify_eq. specialize (Hn eq_refl). subst sink. split; simpl; try done; try (by intros c [|]). by eexists.
  - destruct st as [[] [c|] sink announced]; try done. simpl in *.
    simplify_eq. specialize (Hn eq_refl). subst sink.
    split; simpl; try done; [|by intros c [|]|by intros c _ [= <-]].
    intros c [= <-]. split_and!; [by exists []|done..].
  - destruct st as [[] [c|] sink announced]; try done. simpl in Hs. simplify_eq.
    split; simpl in *; try done; [|intros c' _ Hc'; by apply (Hop c')].
    intros c' _ Hc'. apply (Hst c'); [by left|done].
Qed.

Lemma connection_run_ok ls st st' : connection_ok st → run_connection ls st = Some st' → connection_ok st'.
Proof.
  revert st. induction ls as [|l ls IH]; intros st Hok Hrun; simplify_eq/=; [done|].
  destruct (connection_step l st) as [st1|] eqn:Hl; [|done]. simpl in Hrun.
  eapply IH; [by eapply connection_step_ok|done].
Qed.

Lemma connection_reachable_ok st : connection_reachable st → connection_ok st.
Proof. intros [ls Hls]. eapply connection_run_ok; [apply connection_start_ok|done]. Qed.

(** ** Delivery *)

(** What the tasks do on their own. *)
Definition own (l : ConnectionLabel) : Prop :=
  match l with ClientDoes l => internal l | Turn => True | _ => False end.

Definition connection_rests st : Prop := ∀ l, own l → connection_step l st = None.

Definition connection_work st : nat :=
  from_option work 0 (cn_client st) + match cn_task st with Forwards => 1 | _ => 0 end.

(** The listener that is over has passed everything on. *)
Lemma listener_over_delivered c :
  client_reachable c → sg_gone c = [] → sg_out_open c = true → hellos (sg_all c) ≤ 1 →
  sg_out c = [] → listener_over c = true → sg_seen c = sg_all c.
Proof.
  intros Hr Hgone Hopen Hone Hout Hover. pose proof (listener_safe c Hr Hgone Hopen) as Hsafe.
  apply client_reachable_inv in Hr. pose proof (inv_complete _ Hr (or_intror (conj Hone Hsafe))) as Hall.
  unfold listener_over in Hover. destruct (sg_listener c) eqn:Hls; try done.
  destruct (inv_listener _ Hr Hls) as [Hreader Hrec]. destruct (inv_done _ Hr Hreader) as [Hwire _].
  unfold pipeline in Hall. rewrite Hout, Hls, Hrec, Hreader, Hwire in Hall. simpl in Hall.
  by rewrite app_nil_r in Hall.
Qed.

(** The loop runs for a client whose server has sent [all]; or it is over, and
    the sink has got all of it. *)
Definition delivers (all : list WsServerMessage) st : Prop :=
  connection_ok st ∧
  match cn_client st with
  | Some c => sg_all c = all ∧ sg_gone c = [] ∧
      match cn_task st with
      | Forwards => True
      | ConnectReturned => cn_sink st = SinkAdd <$> all
      | _ => False
      end
  | None => False
  end.

Lemma own_step_delivers all l st st' :
  hellos all ≤ 1 → own l → delivers all st → connection_step l st = Some st' →
  delivers all st' ∧ connection_work st' < connection_work st.
Proof.
  intros Hone Hl [Hok Hd] Hs. pose proof (connection_step_ok l st st' Hok Hs) as Hok'.
  destruct l as [uri info key now|e| |l| | |]; try done.
  - destruct st as [task [c|] sink announced]; [|done]. simpl in *. destruct Hd as (Hall & Hgone & Htask).
    destruct (client_alone l); [|by destruct task].
    destruct (client_step l c) as [c'|] eqn:Hcs; [|by destruct task].
    destruct (internal_step_frame l c c' Hl Hcs) as (Hall' & Hgone' & _).
    pose proof (internal_step_work l c c' Hl Hcs) as Hw.
    destruct task; try done; simplify_eq/=; (split; [split; [done|]|]); unfold connection_work; simpl;
      first [lia|by rewrite Hall', Hgone'].
  - apply turn_cases in Hs as (c & Htask & Hcl & Hcase). rewrite Hcl, Htask in Hd.
    destruct Hd as (Hall & Hgone & _). unfold connection_work. rewrite Hcl, Htask. simpl.
    destruct Hcase as [(m & out & Hout & Hopen & ->)|(Hout & Hover & ->)]; simpl;
      (split; [split; [done|]|]); simpl; try done.
    + unfold work. simpl. rewrite Hout. simpl. lia.
    + split_and!; [done..|]. destruct (cn_ok_client _ Hok c Hcl) as (Hr & -> & _). f_equal.
      rewrite <- Hall. apply listener_over_delivered; try done; [|by rewrite Hall].
      apply (cn_ok_open _ Hok); [by rewrite Htask|done].
    + unfold work. simpl. lia.
Qed.

Lemma own_run_delivers all ls st st' :
  hellos all ≤ 1 → Forall own ls → delivers all st → run_connection ls st = Some st' →
  delivers all st' ∧ length ls + connection_work st' ≤ connection_work st.
Proof.
  intros Hone Hls. revert st. induction Hls as [|l ls Hl _ IH]; intros st Hd Hrun; simplify_eq/=; [done|].
  destruct (connection_step l st) as [st1|] eqn:Hs; [|done]. simpl in Hrun.
  destruct (own_step_delivers all l st st1 Hone Hl Hd Hs) as [Hd1 Hw].
  destruct (IH st1 Hd1 Hrun) as [Hd' Hw']. split; [done|lia].
Qed.

Lemma rests_quiescent st c :
  connection_ok st → cn_task st = Forwards → cn_client st = Some c → connection_rests st → quiescent c.
Proof.
  intros Hok Htask Hcl Hrest l Hl. destruct (cn_ok_started _ Hok c (or_intror Htask) Hcl) as (_ & Hls & _).
  destruct (client_alone l) eqn:Halone.
  - pose proof (Hrest (ClientDoes l) Hl) as Hn. simpl in Hn. rewrite Hcl, Htask, Halone in Hn.
    by destruct (client_step l c).
  - destruct l; try done; simpl.
    + unfold start_listener. by destruct (sg_caller c), (sg_listener c).
    + pose proof (Hrest Turn I) as Hn. simpl in Hn. rewrite Htask, Hcl in Hn.
      unfold app_recv in *. destruct (sg_out c), (sg_out_open c); try done.
Qed.

(** C7. The sink of [connect].  Without a connection it gets nothing, or the one
    error with which [connect] returns.  With a connection it gets the messages
    of the server and nothing else, in their order and none twice, the first
    one after the application has been given the connection; and when the
    server greets the client only once and no callback is gone, the task and
    those of the client come to rest after a bounded number of steps, and then
    the sink has got every message of the server. *)
Theorem sink_hears_server st :
  connection_reachable st →
  match cn_client st with
  | None => cn_sink st = [] ∨ ∃ e, cn_sink st = [SinkError e] ∧ cn_task st = ConnectReturned
  | Some c =>
      client_reachable c ∧ cn_sink st = SinkAdd <$> sg_seen c ∧ sg_seen c `sublist_of` sg_all c ∧
      (cn_sink st ≠ [] → cn_announced st = true) ∧
      (cn_task st = Forwards → sg_gone c = [] → hellos (sg_all c) ≤ 1 →
       ∀ ls st', Forall own ls → run_connection ls st = Some st' →
         length ls ≤ S (work c) ∧ (connection_rests st' → cn_sink st' = SinkAdd <$> sg_all c))
  end.
Proof.
  intros Hok%connection_reachable_ok. destruct (cn_client st) as [c|] eqn:Hcl.
  - destruct (cn_ok_client _ Hok c Hcl) as (Hr & Hsink & Han). split_and!; [done..| |done|].
    { etrans; [|apply inv_order, client_reachable_inv, Hr]. by apply sublist_inserts_r. }
    intros Htask Hgone Hone ls st' Hls Hrun.
    assert (delivers (sg_all c) st) as Hd by (split; [done|]; by rewrite Hcl, Htask).
    destruct (own_run_delivers (sg_all c) ls st st' Hone Hls Hd Hrun) as [[Hok' Hd'] Hw].
    unfold connection_work in Hw. rewrite Hcl, Htask in Hw. simpl in Hw. split; [lia|]. intros Hrest.
    destruct (cn_client st') as [c'|] eqn:Hcl'; [|done]. destruct Hd' as (Hall & Hgone' & Htask').
    destruct (cn_task st') eqn:Ht'; try done.
    destruct (cn_ok_client _ Hok' c' Hcl') as (Hr' & -> & _).
    destruct (cn_ok_started _ Hok' c' (or_intror Ht') Hcl') as (_ & _ & i & Hi).
    destruct (inv_client _ (client_reachable_inv _ Hr') i (or_intror Hi)) as [peers Hhello].
    f_equal. rewrite <- Hall. apply quiescent_delivered; try done.
    + apply (cn_ok_open _ Hok'); [by rewrite Ht'|done].
    + by rewrite Hall.
    + by eapply hellos_pos.
    + by eapply rests_quiescent.
  - pose proof (cn_ok_none _ Hok Hcl) as Hn. destruct (cn_task st); try done; try by left.
    right. destruct Hn as [e He]. by exists e.
Qed.
End connection.

(** ** [LsSignalingConnection] *)

(** [update_info]; [None] while the channel of the writer is full. *)
Definition update_info `{SerdeJson WsClientMessage} (inner : Writer) (info : ClientInfoWithoutId)
    : option (anyres () * Writer) := ManagedSignalingConnection.send_update inner info.

(** What a call spawns and returns: the set-up with its task inside, and the
    controller. *)
Record StartedTransfer (C : Type) := mk_StartedTransfer {
  tf_setup : setup ();
  tf_task : rtc ();
  tf_controller : C
}.
Arguments mk_StartedTransfer {C} _ _ _.
Arguments tf_setup {C} _.
Arguments tf_task {C} _.
Arguments tf_controller {C} _.

Section transfers.
Context `{TokenCrypto, Base64, RtcCodec, Zlib}.

Definition ls_send_offer (stun_servers : list string) (target : Uuid) (private_key : string)
    (expecting_public_key : option ExpectingPublicKey) (pin : option PinConfig) (files : list FileDto)
    : anyres (StartedTransfer SendController) :=
  let? keys := transfer_keys private_key expecting_public_key in
  let '(signing_key, expecting) := keys in
  Ok (mk_StartedTransfer (RtcSetup.send_offer stun_servers target) (send_task signing_key expecting pin files)
        send_controller).

Definition ls_accept_offer (stun_servers : list string) (offer : WsServerSdpMessage)
    (private_key : string) (expecting_public_key : option ExpectingPublicKey) (pin : option PinConfig)
    : anyres (StartedTransfer ReceiveController) :=
  let? keys := transfer_keys private_key expecting_public_key in
  let '(signing_key, expecting) := keys in
  Ok (mk_StartedTransfer (accept_offer stun_servers offer) (receive_task signing_key expecting pin)
        receive_controller).

(** An accepted offer runs with the keys that the application has given, or
    nothing is started. *)
Lemma ls_accept_offer_starts stun offer key expecting pin t :
  ls_accept_offer stun offer key expecting pin = Ok t ↔
  ∃ sk pk, parse_private_key key = Ok sk ∧
    match expecting with
    | Some k => ∃ vk, parse_public_key (ek_public_key k) (ek_kind k) = Ok vk ∧ pk = Some vk
    | None => pk = None
    end ∧
    t = mk_StartedTransfer (accept_offer stun offer) (receive_task sk pk pin) receive_controller.
Proof.
  unfold ls_accept_offer, transfer_keys. destruct (parse_private_key key) as [sk|e|e]; simpl;
    [|by split; [|intros (? & ? & ? & _)]..].
  destruct expecting as [k|]; simpl.
  - destruct (parse_public_key (ek_public_key k) (ek_kind k)) as [vk|e|e]; simpl.
    + split; [intros [= <-]; by eauto 10|]. intros (sk' & pk & [= <-] & (vk' & [= <-] & ->) & ->). done.
    + by split; [|intros (? & ? & ? & (? & ? & _) & _)].
    + by split; [|intros (? & ? & ? & (? & ? & _) & _)].
  - split; [intros [= <-]; by eauto 10|]. by intros (sk' & pk & [= <-] & -> & ->).
Qed.
End transfers.

(** ** A connection *)

#[local] Existing Instance countable_json.

(** The application calls, the server greets, the application is given the
    connection, and another device joins. *)
Definition greeted_run : list ConnectionLabel :=
  [Calls "ws://h" (mk_ProposingClientInfo "A" "2" None None) "key" 4000; Opens] ++
  (ClientDoes <$> [sends (Hello sample_client []); ReaderStep; ReaderStep; CallerStep]) ++
  [Connects; Announced] ++ (ClientDoes <$> [sends (Join sample_peer)]).

(** What is left to do: the Hello and the Join pass the tasks. *)
Definition greeted_rest : list ConnectionLabel :=
  (ClientDoes <$> [ReaderStep; ListenerRecv; ListenerForward]) ++ [Turn] ++
  (ClientDoes <$> [ReaderStep; ReaderStep; ListenerRecv; ListenerForward]) ++ [Turn].

Definition connection_end (ls : list ConnectionLabel) : Connection :=
  default connection_start (run_connection (H := tag_crypto) ls connection_start).

Lemma sink_hears_server_witness :
  cn_sink (connection_end (greeted_run ++ greeted_rest)) =
    [SinkAdd (Hello sample_client []); SinkAdd (Join sample_peer)].
Proof.
  pose proof (sink_hears_server (H := tag_crypto) (connection_end greeted_run)) as Hsink.
  assert (connection_reachable (H := tag_crypto) (connection_end greeted_run)) as Hr.
  { exists greeted_run. vm_compute. reflexivity. }
  specialize (Hsink Hr).
  assert (∃ c, cn_client (connection_end greeted_run) = Some c ∧
    cn_task (connection_end greeted_run) = Forwards ∧ sg_gone c = [] ∧
    sg_all c = [Hello sample_client []; Join sample_peer]) as (c & Hc & Htask & Hgone & Hall).
  { eexists. split_and!; vm_compute; reflexivity. }
  rewrite Hc in Hsink. destruct Hsink as (_ & _ & _ & _ & Hdel).
  destruct (Hdel Htask Hgone ltac:(rewrite Hall; vm_compute; lia) greeted_rest
    (connection_end (greeted_run ++ greeted_rest))) as [_ Hend].
  - repeat constructor.
  - vm_compute. reflexivity.
  - rewrite Hend, Hall; [reflexivity|]. intros l Hl.
    destruct l as [| | |[]| | |]; try destruct Hl; vm_compute; reflexivity.
Defined.
