(* ===== verification/SignIn.v ===== *)
(** * Signing in, from the application to the other peers

    The information a client signs in with, on its way from the bridge of the
    application over the URI of the websocket and the handshake of the server
    to the peers that are told about it. *)

From S2P Require Import Prelude Net Serde Signaling Crypto Instances CryptoProps RtcTypes.
From S2P Require Import WsServer WsServerBehaviour SignalingClient AppBridge AppBridgeProps.

Section sign_in.
Context `{TokenCrypto, !TokenCryptoLaws, Base64, !Base64Laws}.
Context `{SerdeJson ClientInfoWithoutId, !SerdeJsonLaws ClientInfoWithoutId}.

Lemma parse_generated_pair key private_key public_key :
  generate_key_pair key = Ok (private_key, public_key) →
  parse_private_key private_key = Ok key ∧
  parse_public_key public_key "ed25519" = Ok (to_verifying_key key).
Proof.
  unfold generate_key_pair, export_private_key, export_public_key.
  destruct (ed25519_signing_to_pem key) as [p|] eqn:Hp; simpl; [|done].
  destruct (ed25519_to_pem (verifying_key key)) as [q|] eqn:Hq; simpl; [|done].
  intros [= <- <-]. unfold parse_private_key, parse_public_key.
  rewrite (ed25519_signing_pem _ _ Hp), decide_True by done. by rewrite (ed25519_pem _ _ Hq).
Qed.

(** C15. A client that signs in with a generated key pair is registered by the
    server with the information the application proposed and a token that
    every peer which expects its public key accepts for exactly one hour. *)
Theorem announced_token_verifies key private_key public_key info c uri fwd addr id
    own_private own overflow_checks now later :
  generate_key_pair key = Ok (private_key, public_key) →
  connect_info info private_key now = Ok c →
  parse_private_key own_private = Ok own →
  (0 ≤ now ≤ later)%Z → (later < u64_modulus)%Z →
  ∃ d ci expecting,
    connect_uri uri c = uri +:+ "?d=" +:+ d ∧
    ws_handler d fwd addr id = Ok (get_ip_group (client_ip fwd addr), ci) ∧
    ci_id ci = id ∧ ci_alias ci = pi_alias info ∧ ci_version ci = pi_version info ∧
    ci_device_model ci = pi_device_model info ∧ ci_device_type ci = pi_device_type info ∧
    transfer_keys own_private (Some (mk_ExpectingPublicKey public_key "ed25519")) =
      Ok (own, Some expecting) ∧
    (verify_token_timestamp overflow_checks later expecting (ci_token ci) = Ok true ↔
     (later ≤ now + 60 * 60)%Z).
Proof.
  intros [Hpriv Hpub]%parse_generated_pair Hc Hown Hnow Hlater.
  assert (ed25519_signing_from_pem private_key = Some key) as Hkey.
  { revert Hpriv. unfold parse_private_key. destruct (ed25519_signing_from_pem _); by intros [= ->]. }
  destruct (connect_info_verifies info private_key key overflow_checks now later c Hkey Hnow Hlater Hc)
    as (Ha & Hv & Hm & Ht & Htoken).
  exists (encoded_info c), (client_info_from c id), (to_verifying_key key). split_and!; try done.
  - apply ws_handler_roundtrip.
  - unfold transfer_keys. by rewrite Hown; simpl; rewrite Hpub.
Qed.
End sign_in.

(** ** A sign-in *)

#[local] Instance sign_in_json : SerdeJson ClientInfoWithoutId := countable_json.
#[local] Instance sign_in_json_laws : SerdeJsonLaws ClientInfoWithoutId := countable_json_laws.

Definition sample_proposal : ProposingClientInfo := mk_ProposingClientInfo "A" "2" None None.

Definition sample_sign_in : ClientInfoWithoutId :=
  match connect_info (H := tag_crypto) sample_proposal "key" 4000 with
  | Ok c => c
  | _ => mk_ClientInfoWithoutId "" "" None None ""
  end.

Lemma announced_token_verifies_witness :
  ∃ d ci expecting,
    connect_uri "ws://h" sample_sign_in = "ws://h" +:+ "?d=" +:+ d ∧
    ws_handler d None (V4 (V4Octets 1 2 3 4)) 7 = Ok (get_ip_group (V4 (V4Octets 1 2 3 4)), ci) ∧
    verify_token_timestamp (H := tag_crypto) false 5000 expecting (ci_token ci) = Ok true.
Proof.
  destruct (announced_token_verifies (H := tag_crypto) "key" "key" "key" sample_proposal sample_sign_in "ws://h"
    None (V4 (V4Octets 1 2 3 4)) 7 "own" "own" false 4000 5000)
    as (d & ci & expecting & Huri & Hws & _ & _ & _ & _ & _ & _ & Htoken).
  - vm_compute. reflexivity.
  - vm_compute. reflexivity.
  - vm_compute. reflexivity.
  - lia.
  - unfold u64_modulus. lia.
  - exists d, ci, expecting. split; [exact Huri|]. split; [exact Hws|]. apply Htoken. lia.
Defined.
