(* ===== verification/Demo.v ===== *)
(** * The demonstration driver

    [core/src/main.rs]: a program that connects to the signaling server, sends
    a file to every device that joins and accepts every offer.  Its handlers
    surround a transfer with tasks that answer its questions; here they are
    the environment of the task of the transfer, and the two loops that copy a
    file between the disk and the transfer. *)

From S2P Require Import Prelude Serde Crypto CryptoProps Signaling RtcTypes Interaction Rtc RtcEnv.
From S2P Require Import RtcRoutines RtcSafety RtcPair RtcTransfer RtcChallenge RtcSession.
From S2P Require Import Instances RtcInstances RtcWitnesses.

(** ** Files on the disk *)

(** The size of the buffer of [read_file_to_sender]. *)
Definition READ_BUFFER : nat := N.to_nat 1024.

Lemma read_buffer_pos : 0 < READ_BUFFER.
Proof. unfold READ_BUFFER. lia. Qed.
#[global] Opaque READ_BUFFER.

(** [File::read]: what it leaves in the buffer when [file] is still to be
    read.  The system reads as many bytes as it likes ([wish]), but at least
    one before the end of the file. *)
Definition file_read (wish : nat) (file : bytes) : bytes :=
  take (max 1 (min wish READ_BUFFER)) file.

(** The loop of [read_file_to_sender]: its result and the chunks it sends.
    [reads] are the wishes of the system, [None] for a read that fails; [room]
    is the number of sends before the receiver is gone, which ends the loop
    without an error; the fuel is the number of reads. *)
Fixpoint read_loop (fuel : nat) (reads : list (option nat)) (room : nat) (file : bytes)
    : anyres () * list bytes :=
  match fuel with
  | O => (Ok (), [])
  | S fuel =>
      match hd (Some READ_BUFFER) reads with
      | None => (Err "io error", [])
      | Some wish =>
          let chunk := file_read wish file in
          if decide (chunk = []) then (Ok (), [])
          else match room with
               | O => (Ok (), [])
               | S room =>
                   let '(r, chunks) := read_loop fuel (tail reads) room (drop (length chunk) file) in
                   (r, chunk :: chunks)
               end
      end
  end.

(** [opened] is the result of [File::open], with the content of the file. *)
Definition read_file_to_sender (opened : anyres bytes) (reads : list (option nat)) (room : nat)
    : anyres () * list bytes :=
  match opened with
  | Ok file => read_loop (S (length file)) reads room file
  | Err e => (Err e, [])
  | Panic m => (Panic m, [])
  end.

(** The loop of [write_file_from_receiver]: its result and the content of the
    file; the disk takes [left] more pieces. *)
Fixpoint write_loop (left : option nat) (file : bytes) (receiver : list bytes) : anyres () * bytes :=
  match receiver with
  | [] => (Ok (), file)
  | chunk :: receiver =>
      match use left with
      | Some n => write_loop n (file ++ chunk) receiver
      | None => (Err "io error", file)
      end
  end.

(** [created] is the result of [File::create]. *)
Definition write_file_from_receiver (created : anyres ()) (left : option nat) (receiver : list bytes)
    : anyres () * bytes :=
  match created with
  | Ok _ => write_loop left [] receiver
  | Err e => (Err e, [])
  | Panic m => (Panic m, [])
  end.

(** ** The handlers *)

(** The tasks that answer [pin_rx]: one guess after the other.  When there is
    none left the task panics ([expect]): the request it took is dropped
    unanswered, and so is the receiver of further ones. *)
Definition pin_answers (pin_tries : list string) : list (option (option string)) :=
  (Some ∘ Some <$> pin_tries) ++ [Some None; None].

Definition send_pin_tries : list string := ["1"; "2"; "123"].
Definition receive_pin_tries : list string := ["1"; "2"; "456"].
Definition send_pin_config : PinConfig := mk_PinConfig "456" 3.
Definition receive_pin_config : PinConfig := mk_PinConfig "123" 3.

(** The files [send_handler] announces. *)
Definition send_files : list FileDto :=
  [mk_FileDto "test-123-id" "test.mp4" 100 "video/mp4" None None None].

(** What surrounds the task of [send_offer]: every status is read, pairing is
    declined, and after the selection the first file is sent, whatever was
    selected. *)
Definition send_handler_env (random : list bytes) (chunks : list bytes) : env :=
  mk_env [] false None None None [] [] random [] (pin_answers send_pin_tries)
    [Some (Some false)] None
    (match send_files with file :: _ => [(fd_id file, chunks)] | [] => [] end)
    [] [] true true [].

(** The selection of [receive_handler]: every file that is announced. *)
Definition receive_selection (files : list FileDto) : gset string := list_to_set (fd_id <$> files).

(** The answer to every file that has been written. *)
Definition receive_result (file_id : string) : RTCSendFileResponse :=
  mk_RTCSendFileResponse file_id true None.

(** What surrounds the task of [accept_offer] when the files [files] are
    announced and those of [received] arrive. *)
Definition receive_handler_env (random : list bytes) (uuids : list string) (files : list FileDto)
    (received : list string) : env :=
  mk_env [] false None None None [] [] random uuids (pin_answers receive_pin_tries) []
    (Some (Some (Some (receive_selection files)))) [] [] (receive_result <$> received)
    true true [].

(** The file [receive_handler] writes for a received one: its path and content.
    The [unwrap] panics when the file was not announced. *)
Definition receive_file (created : anyres ()) (left : option nat) (files : list FileDto)
    (file_id : string) (binary_rx : list bytes) : anyres (string * bytes) :=
  match find (λ f, bool_decide (fd_id f = file_id)) files with
  | Some file_dto =>
      let '(r, content) := write_file_from_receiver created left binary_rx in
      check? res_map_err (λ _, "Failed to write file") r in
      Ok ("/Users/user/Downloads/test/" +:+ fd_file_name file_dto, content)
  | None => Panic "called `Option::unwrap()` on a `None` value"
  end.

(** [webrtc_test]: the handlers it runs for the messages of the server, in
    order; it returns after the first one of a device that joins. *)
Inductive handler := SendHandler (peer : ClientInfo) | ReceiveHandler (offer : WsServerSdpMessage).

Fixpoint webrtc_test (messages : list WsServerMessage) : list handler :=
  match messages with
  | [] => []
  | Join peer :: _ => [SendHandler peer]
  | Offer offer :: messages => ReceiveHandler offer :: webrtc_test messages
  | _ :: messages => webrtc_test messages
  end.

(** ** Copying *)

Lemma file_read_app wish file : file_read wish file ++ drop (length (file_read wish file)) file = file.
Proof.
  unfold file_read. set (n := max 1 (min wish READ_BUFFER)). rewrite length_take.
  destruct (decide (n ≤ length file)).
  - rewrite Nat.min_l by done. apply take_drop.
  - rewrite Nat.min_r by lia. by rewrite take_ge, drop_all, app_nil_r by lia.
Qed.

Lemma file_read_nil wish file : file_read wish file = [] ↔ file = [].
Proof.
  unfold file_read. split; [|by intros ->; destruct (max _ _)].
  destruct (max 1 _) eqn:Hn; [lia|]. by destruct file.
Qed.

Lemma file_read_size wish file : length (file_read wish file) ≤ READ_BUFFER.
Proof. unfold file_read. rewrite length_take. pose proof read_buffer_pos. lia. Qed.

Lemma read_loop_spec fuel reads room file :
  length file < fuel → Forall is_Some reads →
  ∃ chunks, read_loop fuel reads room file = (Ok (), chunks) ∧
    concat chunks `prefix_of` file ∧ (length file ≤ room → concat chunks = file) ∧
    length chunks ≤ room ∧ Forall (λ c, 0 < length c ≤ READ_BUFFER) chunks.
Proof.
  revert reads room file. induction fuel as [|fuel IH]; intros reads room file Hfuel Hreads; [lia|]. simpl.
  assert (∃ wish, hd (Some READ_BUFFER) reads = Some wish ∧ Forall is_Some (tail reads)) as (wish & -> & Htl).
  { destruct Hreads as [|? ? [w ->]]; eauto. }
  set (chunk := file_read wish file).
  case_decide as Hc; simpl.
  { apply file_read_nil in Hc. subst. eexists. split; [done|].
    split_and!; auto using prefix_nil; simpl; lia. }
  pose proof (file_read_app wish file) as Happ. fold chunk in Happ.
  assert (0 < length chunk) by (destruct chunk; [done|simpl; lia]).
  pose proof (file_read_size wish file).
  assert (length file = length chunk + length (drop (length chunk) file)) as Hlen.
  { rewrite <- length_app. by rewrite Happ. }
  destruct room as [|room]; simpl.
  { eexists. split; [done|]. split_and!; [apply prefix_nil|simpl in *; lia|simpl; lia|done]. }
  destruct (IH (tail reads) room (drop (length chunk) file)) as (chunks & -> & Hp & Hall & Hroom & Hsize);
    [lia|done|].
  eexists. split; [done|]. simpl. split_and!.
  - rewrite <- Happ at 1. by apply prefix_app.
  - intros Hr. rewrite Hall by lia. done.
  - lia.
  - by constructor.
Qed.

(** A file leaves the disk whole, in pieces of at most the size of the buffer,
    as long as the disk reads and the transfer takes them. *)
Lemma read_file_spec reads room file :
  Forall is_Some reads →
  ∃ chunks, read_file_to_sender (Ok file) reads room = (Ok (), chunks) ∧
    concat chunks `prefix_of` file ∧ (length file ≤ room → concat chunks = file) ∧
    length chunks ≤ room ∧ Forall (λ c, 0 < length c ≤ READ_BUFFER) chunks.
Proof. apply read_loop_spec. lia. Qed.

Lemma write_loop_spec file receiver : write_loop None file receiver = (Ok (), file ++ concat receiver).
Proof.
  revert file. induction receiver as [|c receiver IH]; intros file; simpl; [by rewrite app_nil_r|].
  by rewrite IH, app_assoc.
Qed.

Section demo.
Context `{TokenCrypto, Base64, RtcCodec, !Base64Laws, !RtcCodecLaws}.

(** The wrong guesses of both sides before the right one. *)
Definition demo_challenges : challenges :=
  mk_challenges (Some receive_pin_config) (Some send_pin_config) ["1"; "2"] ["1"; "2"].

Lemma demo_granted us chunks :
  granted_files (drawn_tokens us (elements (receive_selection send_files)))
    [("test-123-id", chunks)] = [("test-123-id", concat chunks)].
Proof.
  unfold granted_files. rewrite filter_cons_True; [done|].
  apply elem_of_dom. rewrite dom_drawn_tokens, list_to_set_elements_L.
  apply elem_of_list_to_set, list_elem_of_here.
Qed.

(** Both users find the PIN at their last try. *)
Lemma demo_challenge_met pin guesses :
  pin ∈ [send_pin_config; receive_pin_config] → guesses = ["1"; "2"] →
  challenge_met (Some pin) guesses.
Proof.
  intros Hpin ->. assert (pc_max_tries pin = 3%Z ∧ pc_pin pin ∈ ["456"; "123"]) as [Htries Hp].
  { set_solver. }
  split_and!.
  - unfold pin_config_ok, u8_max. rewrite Htries. lia.
  - intros Heq. rewrite Heq in Hp. set_solver.
  - repeat constructor; intros Heq; rewrite <- Heq in Hp; set_solver.
  - rewrite Htries. simpl. lia.
Qed.

End demo.

