(* ===== verification/BridgeCodec.v ===== *)
(** * The codec of the bridge

    The bridge generator writes, for every type that crosses the bridge, how it
    is laid out in a message ([sse_encode]) and read back ([sse_decode]):
    [app/rust/src/frb_generated.rs].  A message is a sequence of bytes that is
    read from its start; whatever a reader cannot read is a panic, as the
    generated code unwraps everything. *)

From S2P Require Import Prelude Signaling RtcTypes AppBridge.

(** ** What the code is compiled for, and the crates it calls

    [NativeEndian] and the width of a [usize] depend on the platform.
    [uuid_as_bytes] and [uuid_from_slice] are the [uuid] crate; [hash_iter] is
    the order in which a [HashSet] gives its elements; [deserializer_end] is
    the check of flutter_rust_bridge that a message has been read to its end,
    on what is left of it; [anyhow_debug] is the [Debug] of an error. *)
Class BridgeTarget := {
  big_endian : bool;
  pointer_bytes : nat;
  uuid_as_bytes : Uuid → bytes;
  uuid_from_slice : bytes → option Uuid;
  hash_iter : gset string → list string;
  deserializer_end : bytes → anyres ();
  anyhow_debug : string → string
}.

Definition uuid_wf (u : Uuid) : Prop := (u < 2 ^ 128)%N.

Class BridgeTargetLaws `{BridgeTarget} := {
  pointer_width : pointer_bytes = 4 ∨ pointer_bytes = 8;
  uuid_as_bytes_length u : uuid_wf u → length (uuid_as_bytes u) = 16;
  uuid_from_as_bytes u : uuid_wf u → uuid_from_slice (uuid_as_bytes u) = Some u;
  hash_iter_elements s : hash_iter s ≡ₚ elements s;
  deserializer_end_done : deserializer_end [] = Ok ()
}.

(** ** Readers *)

Definition decoder (A : Type) : Type := bytes → anyres (A * bytes).

Definition dec_ret {A} (a : A) : decoder A := λ s, Ok (a, s).
Definition dec_panic {A} (msg : string) : decoder A := λ _, Panic msg.
Definition dec_bind {A B} (d : decoder A) (k : A → decoder B) : decoder B :=
  λ s, match d s with
       | Ok (a, s) => k a s
       | Err e => Err e
       | Panic m => Panic m
       end.

Declare Scope sse_scope.
Delimit Scope sse_scope with sse.
Notation "'let*' x ':=' d 'in' k" := (dec_bind d (λ x, k))
  (at level 10, x name, d at level 200, k at level 200,
   format "'[v' 'let*'  x  ':='  d  'in' '/' k ']'") : sse_scope.
#[local] Open Scope sse_scope.

(** [Read::read_exact(..).unwrap()]. *)
Definition read_exact (n : nat) : decoder bytes := λ s,
  if decide (n ≤ length s) then Ok (take n s, drop n s)
  else Panic "failed to fill whole buffer".

Section codec.
Context `{BridgeTarget}.

(** ** Integers: [write_uN::<NativeEndian>], [read_uN::<NativeEndian>] *)

Definition ne_bytes (n : nat) (v : Z) : bytes :=
  if big_endian then rev (le_bytes n v) else le_bytes n v.
Definition ne_value (b : bytes) : Z := le_value (if big_endian then rev b else b).

Definition read_uint (n : nat) : decoder Z :=
  let* b := read_exact n in dec_ret (ne_value b).

(** The signed integer of [8 * n] bits with the bits of [v]: a cast [as iN],
    and what [read_iN] makes of the bytes it reads. *)
Definition signed (n : nat) (v : Z) : Z :=
  (let m := 256 ^ Z.of_nat n in
   let u := v mod m in if decide (2 * u < m) then u else u - m)%Z.

Definition sse_encode_u8 (v : Z) : bytes := ne_bytes 1 v.
Definition sse_decode_u8 : decoder Z := read_uint 1.
Definition sse_encode_u16 (v : Z) : bytes := ne_bytes 2 v.
Definition sse_decode_u16 : decoder Z := read_uint 2.
Definition sse_encode_u64 (v : Z) : bytes := ne_bytes 8 v.
Definition sse_decode_u64 : decoder Z := read_uint 8.
Definition sse_encode_i32 (v : Z) : bytes := ne_bytes 4 v.
Definition sse_decode_i32 : decoder Z := let* v := read_uint 4 in dec_ret (signed 4 v).

(** A [usize] travels as a [u64] and is cut to the width of the platform. *)
Definition sse_encode_usize (v : Z) : bytes := ne_bytes 8 v.
Definition sse_decode_usize : decoder Z :=
  let* v := read_uint 8 in dec_ret (v mod 256 ^ Z.of_nat pointer_bytes)%Z.
Definition sse_encode_isize (v : Z) : bytes := ne_bytes 8 v.
Definition sse_decode_isize : decoder Z :=
  let* v := read_uint 8 in dec_ret (signed pointer_bytes (signed 8 v)).

(** [bool as u8]. *)
Definition sse_encode_bool (b : bool) : bytes := sse_encode_u8 (if b then 1 else 0).
Definition sse_decode_bool : decoder bool :=
  let* v := sse_decode_u8 in dec_ret (bool_decide (v ≠ 0%Z)).

Definition sse_encode_unit (_ : ()) : bytes := [].
Definition sse_decode_unit : decoder () := dec_ret ().

(** ** [Vec] and [Option]

    The length of a [Vec] is cast to an [i32]; a reader loops over [0..len],
    which is empty for a negative length. *)

Definition sse_encode_vec {A} (enc : A → bytes) (l : list A) : bytes :=
  sse_encode_i32 (signed 4 (Z.of_nat (length l))) ++ concat (enc <$> l).

Fixpoint sse_decode_items {A} (dec : decoder A) (n : nat) : decoder (list A) :=
  match n with
  | O => dec_ret []
  | S n =>
      let* item := dec in
      let* items := sse_decode_items dec n in
      dec_ret (item :: items)
  end.

Definition sse_decode_vec {A} (dec : decoder A) : decoder (list A) :=
  let* len := sse_decode_i32 in sse_decode_items dec (Z.to_nat len).

Definition sse_encode_option {A} (enc : A → bytes) (o : option A) : bytes :=
  sse_encode_bool (bool_decide (is_Some o)) ++
  match o with Some value => enc value | None => [] end.

Definition sse_decode_option {A} (dec : decoder A) : decoder (option A) :=
  let* is_some := sse_decode_bool in
  if is_some then let* value := dec in dec_ret (Some value) else dec_ret None.

Definition sse_encode_vec_u8 (b : bytes) : bytes :=
  sse_encode_vec (λ b, sse_encode_u8 (byte_to_Z b)) b.
Definition sse_decode_vec_u8 : decoder bytes :=
  sse_decode_vec (let* b := sse_decode_u8 in dec_ret (byte_of_Z b)).

(** ** Strings, identifiers, handles *)

Definition sse_encode_string (s : string) : bytes := sse_encode_vec_u8 (as_bytes s).
Definition sse_decode_string : decoder string :=
  let* inner := sse_decode_vec_u8 in
  match string_from_utf8 inner with
  | Some s => dec_ret s
  | None => dec_panic "invalid utf-8 sequence"
  end.

Definition sse_encode_uuid (u : Uuid) : bytes := sse_encode_vec_u8 (uuid_as_bytes u).
Definition sse_decode_uuid : decoder Uuid :=
  let* inner := sse_decode_vec_u8 in
  match uuid_from_slice inner with
  | Some u => dec_ret u
  | None => dec_panic "fail to decode uuid"
  end.

Definition sse_encode_vec_string : list string → bytes := sse_encode_vec sse_encode_string.
Definition sse_decode_vec_string : decoder (list string) := sse_decode_vec sse_decode_string.
Definition sse_encode_option_string : option string → bytes := sse_encode_option sse_encode_string.
Definition sse_decode_option_string : decoder (option string) := sse_decode_option sse_decode_string.

Definition sse_encode_hash_set (s : gset string) : bytes := sse_encode_vec_string (hash_iter s).
Definition sse_decode_hash_set : decoder (gset string) :=
  let* inner := sse_decode_vec_string in dec_ret (list_to_set inner).

(** An error crosses as a text. *)
Definition sse_encode_anyhow (e : string) : bytes := sse_encode_string (anyhow_debug e).
Definition sse_decode_anyhow : decoder string := sse_decode_string.

(** An object of Rust is an address for Dart: [RustOpaqueMoi].  [size] is what
    [sse_encode_raw] says about it; a reader takes the address only. *)
Definition Handle : Type := Z.
Definition sse_encode_rust_opaque (ptr : Handle) (size : Z) : bytes :=
  sse_encode_usize ptr ++ sse_encode_i32 size.
Definition sse_decode_rust_opaque : decoder Handle := sse_decode_usize.

(** A function of Dart is an address for Rust: [DartOpaque]. *)
Definition DartOpaque : Type := Z.
Definition sse_decode_dart_opaque : decoder DartOpaque := sse_decode_usize.

(** A [StreamSink] is a text that says where to send the items; Rust never
    sends one back ([unimplemented!]). *)
Definition StreamSink : Type := string.
Definition sse_decode_stream_sink : decoder StreamSink := sse_decode_string.

(** ** The types of the API *)

Definition sse_encode_device_type (d : DeviceType) : bytes :=
  sse_encode_i32 match d with
                 | Mobile => 0 | Desktop => 1 | Web => 2 | Headless => 3 | Server => 4
                 end.
Definition sse_decode_device_type : decoder DeviceType :=
  let* inner := sse_decode_i32 in
  match inner with
  | 0 => dec_ret Mobile
  | 1 => dec_ret Desktop
  | 2 => dec_ret Web
  | 3 => dec_ret Headless
  | 4 => dec_ret Server
  | _ => dec_panic "Invalid variant for DeviceType"
  end%Z.

Definition sse_encode_option_device_type : option DeviceType → bytes :=
  sse_encode_option sse_encode_device_type.
Definition sse_decode_option_device_type : decoder (option DeviceType) :=
  sse_decode_option sse_decode_device_type.

Definition sse_encode_client_info (c : ClientInfo) : bytes :=
  sse_encode_uuid (ci_id c) ++
  sse_encode_string (ci_alias c) ++
  sse_encode_string (ci_version c) ++
  sse_encode_option_string (ci_device_model c) ++
  sse_encode_option_device_type (ci_device_type c) ++
  sse_encode_string (ci_token c).
Definition sse_decode_client_info : decoder ClientInfo :=
  let* var_id := sse_decode_uuid in
  let* var_alias := sse_decode_string in
  let* var_version := sse_decode_string in
  let* var_deviceModel := sse_decode_option_string in
  let* var_deviceType := sse_decode_option_device_type in
  let* var_token := sse_decode_string in
  dec_ret (mk_ClientInfo var_id var_alias var_version var_deviceModel var_deviceType var_token).

Definition sse_encode_client_info_without_id (c : ClientInfoWithoutId) : bytes :=
  sse_encode_string (cw_alias c) ++
  sse_encode_string (cw_version c) ++
  sse_encode_option_string (cw_device_model c) ++
  sse_encode_option_device_type (cw_device_type c) ++
  sse_encode_string (cw_token c).
Definition sse_decode_client_info_without_id : decoder ClientInfoWithoutId :=
  let* var_alias := sse_decode_string in
  let* var_version := sse_decode_string in
  let* var_deviceModel := sse_decode_option_string in
  let* var_deviceType := sse_decode_option_device_type in
  let* var_token := sse_decode_string in
  dec_ret (mk_ClientInfoWithoutId var_alias var_version var_deviceModel var_deviceType var_token).

Definition sse_encode_proposing_client_info (c : ProposingClientInfo) : bytes :=
  sse_encode_string (pi_alias c) ++
  sse_encode_string (pi_version c) ++
  sse_encode_option_string (pi_device_model c) ++
  sse_encode_option_device_type (pi_device_type c).
Definition sse_decode_proposing_client_info : decoder ProposingClientInfo :=
  let* var_alias := sse_decode_string in
  let* var_version := sse_decode_string in
  let* var_deviceModel := sse_decode_option_string in
  let* var_deviceType := sse_decode_option_device_type in
  dec_ret (mk_ProposingClientInfo var_alias var_version var_deviceModel var_deviceType).

Definition sse_encode_expecting_public_key (k : ExpectingPublicKey) : bytes :=
  sse_encode_string (ek_public_key k) ++ sse_encode_string (ek_kind k).
Definition sse_decode_expecting_public_key : decoder ExpectingPublicKey :=
  let* var_publicKey := sse_decode_string in
  let* var_kind := sse_decode_string in
  dec_ret (mk_ExpectingPublicKey var_publicKey var_kind).

Definition sse_encode_option_expecting_public_key : option ExpectingPublicKey → bytes :=
  sse_encode_option sse_encode_expecting_public_key.
Definition sse_decode_option_expecting_public_key : decoder (option ExpectingPublicKey) :=
  sse_decode_option sse_decode_expecting_public_key.

Definition sse_encode_file_metadata (m : FileMetadata) : bytes :=
  sse_encode_option_string (fm_modified m) ++ sse_encode_option_string (fm_accessed m).
Definition sse_decode_file_metadata : decoder FileMetadata :=
  let* var_modified := sse_decode_option_string in
  let* var_accessed := sse_decode_option_string in
  dec_ret (mk_FileMetadata var_modified var_accessed).

Definition sse_encode_option_file_metadata : option FileMetadata → bytes :=
  sse_encode_option sse_encode_file_metadata.
Definition sse_decode_option_file_metadata : decoder (option FileMetadata) :=
  sse_decode_option sse_decode_file_metadata.

Definition sse_encode_file_dto (f : FileDto) : bytes :=
  sse_encode_string (fd_id f) ++
  sse_encode_string (fd_file_name f) ++
  sse_encode_u64 (fd_size f) ++
  sse_encode_string (fd_file_type f) ++
  sse_encode_option_string (fd_sha256 f) ++
  sse_encode_option_string (fd_preview f) ++
  sse_encode_option_file_metadata (fd_metadata f).
Definition sse_decode_file_dto : decoder FileDto :=
  let* var_id := sse_decode_string in
  let* var_fileName := sse_decode_string in
  let* var_size := sse_decode_u64 in
  let* var_fileType := sse_decode_string in
  let* var_sha256 := sse_decode_option_string in
  let* var_preview := sse_decode_option_string in
  let* var_metadata := sse_decode_option_file_metadata in
  dec_ret (mk_FileDto var_id var_fileName var_size var_fileType var_sha256 var_preview
             var_metadata).

Definition sse_encode_vec_file_dto : list FileDto → bytes := sse_encode_vec sse_encode_file_dto.
Definition sse_decode_vec_file_dto : decoder (list FileDto) := sse_decode_vec sse_decode_file_dto.
Definition sse_encode_vec_client_info : list ClientInfo → bytes :=
  sse_encode_vec sse_encode_client_info.
Definition sse_decode_vec_client_info : decoder (list ClientInfo) :=
  sse_decode_vec sse_decode_client_info.

Definition sse_encode_pin_config (p : PinConfig) : bytes :=
  sse_encode_string (pc_pin p) ++ sse_encode_u8 (pc_max_tries p).
Definition sse_decode_pin_config : decoder PinConfig :=
  let* var_pin := sse_decode_string in
  let* var_maxTries := sse_decode_u8 in
  dec_ret (mk_PinConfig var_pin var_maxTries).

Definition sse_encode_option_pin_config : option PinConfig → bytes :=
  sse_encode_option sse_encode_pin_config.
Definition sse_decode_option_pin_config : decoder (option PinConfig) :=
  sse_decode_option sse_decode_pin_config.

(** [KeyPair] of [app/rust/src/api/crypto.rs]. *)
Record KeyPair := mk_KeyPair { kp_private_key : string; kp_public_key : string }.

Definition sse_encode_key_pair (k : KeyPair) : bytes :=
  sse_encode_string (kp_private_key k) ++ sse_encode_string (kp_public_key k).
Definition sse_decode_key_pair : decoder KeyPair :=
  let* var_privateKey := sse_decode_string in
  let* var_publicKey := sse_decode_string in
  dec_ret (mk_KeyPair var_privateKey var_publicKey).

Definition sse_encode_rtc_file_error (e : RTCFileError) : bytes :=
  sse_encode_string (fe_file_id e) ++ sse_encode_string (fe_error e).
Definition sse_decode_rtc_file_error : decoder RTCFileError :=
  let* var_fileId := sse_decode_string in
  let* var_error := sse_decode_string in
  dec_ret (mk_RTCFileError var_fileId var_error).

Definition sse_encode_rtc_send_file_response (r : RTCSendFileResponse) : bytes :=
  sse_encode_string (fr_id r) ++
  sse_encode_bool (fr_success r) ++
  sse_encode_option_string (fr_error r).
Definition sse_decode_rtc_send_file_response : decoder RTCSendFileResponse :=
  let* var_id := sse_decode_string in
  let* var_success := sse_decode_bool in
  let* var_error := sse_decode_option_string in
  dec_ret (mk_RTCSendFileResponse var_id var_success var_error).

Definition sse_encode_rtc_status (s : RTCStatus) : bytes :=
  match s with
  | SdpExchanged => sse_encode_i32 0
  | Connected => sse_encode_i32 1
  | PinRequired => sse_encode_i32 2
  | TooManyAttempts => sse_encode_i32 3
  | Declined => sse_encode_i32 4
  | Sending => sse_encode_i32 5
  | Finished => sse_encode_i32 6
  | StatusError field0 => sse_encode_i32 7 ++ sse_encode_string field0
  end.
Definition sse_decode_rtc_status : decoder RTCStatus :=
  let* tag_ := sse_decode_i32 in
  match tag_ with
  | 0 => dec_ret SdpExchanged
  | 1 => dec_ret Connected
  | 2 => dec_ret PinRequired
  | 3 => dec_ret TooManyAttempts
  | 4 => dec_ret Declined
  | 5 => dec_ret Sending
  | 6 => dec_ret Finished
  | 7 => let* var_field0 := sse_decode_string in dec_ret (StatusError var_field0)
  | _ => dec_panic "not implemented"
  end%Z.

Definition sse_encode_ws_server_sdp_message (m : WsServerSdpMessage) : bytes :=
  sse_encode_client_info (ss_peer m) ++
  sse_encode_string (ss_session_id m) ++
  sse_encode_string (ss_sdp m).
Definition sse_decode_ws_server_sdp_message : decoder WsServerSdpMessage :=
  let* var_peer := sse_decode_client_info in
  let* var_sessionId := sse_decode_string in
  let* var_sdp := sse_decode_string in
  dec_ret (mk_WsServerSdpMessage var_peer var_sessionId var_sdp).

Definition sse_encode_ws_server_message (m : WsServerMessage) : bytes :=
  match m with
  | Hello client peers =>
      sse_encode_i32 0 ++ sse_encode_client_info client ++ sse_encode_vec_client_info peers
  | Join peer => sse_encode_i32 1 ++ sse_encode_client_info peer
  | Update peer => sse_encode_i32 2 ++ sse_encode_client_info peer
  | Left peer_id => sse_encode_i32 3 ++ sse_encode_uuid peer_id
  | Offer field0 => sse_encode_i32 4 ++ sse_encode_ws_server_sdp_message field0
  | Answer field0 => sse_encode_i32 5 ++ sse_encode_ws_server_sdp_message field0
  | WsError code => sse_encode_i32 6 ++ sse_encode_u16 code
  end.
Definition sse_decode_ws_server_message : decoder WsServerMessage :=
  let* tag_ := sse_decode_i32 in
  match tag_ with
  | 0 =>
      let* var_client := sse_decode_client_info in
      let* var_peers := sse_decode_vec_client_info in
      dec_ret (Hello var_client var_peers)
  | 1 => let* var_peer := sse_decode_client_info in dec_ret (Join var_peer)
  | 2 => let* var_peer := sse_decode_client_info in dec_ret (Update var_peer)
  | 3 => let* var_peerId := sse_decode_uuid in dec_ret (Left var_peerId)
  | 4 => let* var_field0 := sse_decode_ws_server_sdp_message in dec_ret (Offer var_field0)
  | 5 => let* var_field0 := sse_decode_ws_server_sdp_message in dec_ret (Answer var_field0)
  | 6 => let* var_code := sse_decode_u16 in dec_ret (WsError var_code)
  | _ => dec_panic "not implemented"
  end%Z.

End codec.

Bind Scope Z_scope with Handle DartOpaque.
