(* ===== verification/BridgeCodecProps.v ===== *)
(** * The codec of the bridge: round trips

    For every type that crosses the bridge: what may be written, and that a
    reader gets it back and stops behind it.  [RoundTrip] is the interface the
    readers of composite types use; its instances are the types. *)

From S2P Require Import Prelude Signaling RtcTypes AppBridge BridgeCodec.

#[local] Open Scope sse_scope.

Class RoundTrip {A} (wf : A → Prop) (enc : A → bytes) (dec : decoder A) : Prop :=
  round_trip : ∀ a rest, wf a → dec (enc a ++ rest) = Ok (a, rest).

(** ** Readers *)

Lemma dec_bind_Ok {A B} (d : decoder A) (k : A → decoder B) s b s' :
  dec_bind d k s = Ok (b, s') → ∃ a s1, d s = Ok (a, s1) ∧ k a s1 = Ok (b, s').
Proof. unfold dec_bind. destruct (d s) as [[a s1]|?|?]; naive_solver. Qed.

Lemma dec_bind_eq {A B} (d : decoder A) (k : A → decoder B) s a s' :
  d s = Ok (a, s') → dec_bind d k s = k a s'.
Proof. unfold dec_bind. by intros ->. Qed.

Lemma read_written {A B wf enc dec} `{!RoundTrip (A:=A) wf enc dec} (k : A → decoder B) a rest :
  wf a → dec_bind dec k (enc a ++ rest) = k a rest.
Proof. intros Hwf. unfold dec_bind. by rewrite round_trip. Qed.

Lemma read_written_end {A B wf enc dec} `{!RoundTrip (A:=A) wf enc dec} (k : A → decoder B) a :
  wf a → dec_bind dec k (enc a) = k a [].
Proof. intros Hwf. rewrite <- (app_nil_r (enc a)). by apply read_written. Qed.


(** ** What may be written *)

Definition fits {A} (l : list A) : Prop := (Z.of_nat (length l) < 2 ^ 31)%Z.
Definition uint_wf (n : nat) (v : Z) : Prop := (0 ≤ v < 256 ^ Z.of_nat n)%Z.
Definition any_wf {A} (_ : A) : Prop := True.
Definition option_wf {A} (wf : A → Prop) (o : option A) : Prop :=
  match o with Some a => wf a | None => True end.
Definition vec_wf {A} (wf : A → Prop) (l : list A) : Prop := fits l ∧ Forall wf l.
Definition string_wf (s : string) : Prop := utf8_valid (as_bytes s) = true ∧ fits (as_bytes s).
Definition option_string_wf : option string → Prop := option_wf string_wf.

Definition client_info_wf (c : ClientInfo) : Prop :=
  uuid_wf (ci_id c) ∧ string_wf (ci_alias c) ∧ string_wf (ci_version c) ∧
  option_string_wf (ci_device_model c) ∧ string_wf (ci_token c).
Definition client_info_without_id_wf (c : ClientInfoWithoutId) : Prop :=
  string_wf (cw_alias c) ∧ string_wf (cw_version c) ∧ option_string_wf (cw_device_model c) ∧
  string_wf (cw_token c).
Definition proposing_client_info_wf (c : ProposingClientInfo) : Prop :=
  string_wf (pi_alias c) ∧ string_wf (pi_version c) ∧ option_string_wf (pi_device_model c).
Definition expecting_public_key_wf (k : ExpectingPublicKey) : Prop :=
  string_wf (ek_public_key k) ∧ string_wf (ek_kind k).
Definition file_metadata_wf (m : FileMetadata) : Prop :=
  option_string_wf (fm_modified m) ∧ option_string_wf (fm_accessed m).
Definition file_dto_wf (f : FileDto) : Prop :=
  string_wf (fd_id f) ∧ string_wf (fd_file_name f) ∧ uint_wf 8 (fd_size f) ∧
  string_wf (fd_file_type f) ∧ option_string_wf (fd_sha256 f) ∧ option_string_wf (fd_preview f) ∧
  option_wf file_metadata_wf (fd_metadata f).
Definition pin_config_wf (p : PinConfig) : Prop := string_wf (pc_pin p) ∧ uint_wf 1 (pc_max_tries p).
Definition key_pair_wf (k : KeyPair) : Prop :=
  string_wf (kp_private_key k) ∧ string_wf (kp_public_key k).
Definition rtc_file_error_wf (e : RTCFileError) : Prop :=
  string_wf (fe_file_id e) ∧ string_wf (fe_error e).
Definition rtc_send_file_response_wf (r : RTCSendFileResponse) : Prop :=
  string_wf (fr_id r) ∧ option_string_wf (fr_error r).
Definition rtc_status_wf (s : RTCStatus) : Prop :=
  match s with StatusError e => string_wf e | _ => True end.
Definition ws_server_sdp_message_wf (m : WsServerSdpMessage) : Prop :=
  client_info_wf (ss_peer m) ∧ string_wf (ss_session_id m) ∧ string_wf (ss_sdp m).
Definition ws_server_message_wf (m : WsServerMessage) : Prop :=
  match m with
  | Hello client peers => client_info_wf client ∧ vec_wf client_info_wf peers
  | Join peer | Update peer => client_info_wf peer
  | Left peer_id => uuid_wf peer_id
  | Offer sdp | Answer sdp => ws_server_sdp_message_wf sdp
  | WsError code => uint_wf 2 code
  end.

Lemma any_wf_all {A} (a : A) : any_wf a.
Proof. done. Qed.
#[export] Hint Resolve any_wf_all : core.

(** Reads what was written, field by field. *)
Ltac read_fields := repeat (rewrite <- ?app_assoc; rewrite read_written by eauto).

(** A record: its fields one after the other. *)
Tactic Notation "record_rt" reference(wf) reference(enc) reference(dec) :=
  let a := fresh "a" in let Ha := fresh "Ha" in
  intros a ? Ha; unfold enc, dec; unfold wf in Ha; destruct a; simpl in *; destruct_and?;
  read_fields; done.

Section props.
Context `{BridgeTargetLaws}.

(** ** Integers *)

Lemma ne_bytes_length n v : length (ne_bytes n v) = n.
Proof. unfold ne_bytes. case_match; rewrite ?length_rev; apply le_bytes_length. Qed.

Lemma ne_value_bytes n v : uint_wf n v → ne_value (ne_bytes n v) = v.
Proof.
  intros Hv. unfold ne_value, ne_bytes.
  destruct big_endian; rewrite ?rev_involutive; by apply le_value_bytes.
Qed.

Lemma read_exact_app b s : read_exact (length b) (b ++ s) = Ok (b, s).
Proof.
  unfold read_exact. rewrite decide_True by (rewrite length_app; lia).
  by rewrite take_app_length, drop_app_length.
Qed.

Lemma read_uint_written n v rest :
  read_uint n (ne_bytes n v ++ rest) = Ok (ne_value (ne_bytes n v), rest).
Proof.
  unfold read_uint, dec_bind, dec_ret.
  rewrite <- (ne_bytes_length n v) at 1. by rewrite read_exact_app.
Qed.

#[export] Instance uint_rt n : RoundTrip (uint_wf n) (ne_bytes n) (read_uint n).
Proof. intros v rest Hv. by rewrite read_uint_written, ne_value_bytes. Qed.

(** The bytes of an integer depend on its residue only, so a signed integer
    is written like the unsigned one with the same bits. *)
Lemma le_bytes_mod n v : le_bytes n (v mod 256 ^ Z.of_nat n) = le_bytes n v.
Proof.
  revert v. induction n as [|n IH]; intros v; [done|].
  rewrite Nat2Z.inj_succ, Z.pow_succ_r by lia. cbn [le_bytes].
  assert (0 < 256 ^ Z.of_nat n)%Z by (apply Z.pow_pos_nonneg; lia).
  f_equal.
  - unfold byte_of_Z. by rewrite Z.mod_mod_divide by (exists (256 ^ Z.of_nat n)%Z; lia).
  - rewrite <- IH, <- (IH (v / 256)%Z). f_equal.
    rewrite Z.rem_mul_r by lia.
    rewrite (Z.mul_comm 256), Z.div_add by lia.
    rewrite (Z.div_small (v mod 256)) by (apply Z.mod_pos_bound; lia).
    rewrite Z.add_0_l. by rewrite Z.mod_mod by lia.
Qed.

Lemma ne_bytes_mod n v : ne_bytes n (v mod 256 ^ Z.of_nat n) = ne_bytes n v.
Proof. unfold ne_bytes. by rewrite le_bytes_mod. Qed.

Lemma signed_small n v : (0 ≤ 2 * v < 256 ^ Z.of_nat n)%Z → signed n v = v.
Proof. intros Hv. unfold signed. rewrite Z.mod_small by lia. by rewrite decide_True by lia. Qed.

Lemma signed_mod n v : signed n (v mod 256 ^ Z.of_nat n) = signed n v.
Proof.
  unfold signed. rewrite Z.mod_mod; [done|].
  pose proof (Z.pow_pos_nonneg 256 (Z.of_nat n)). lia.
Qed.

Lemma signed_id n v :
  (- 256 ^ Z.of_nat n ≤ 2 * v < 256 ^ Z.of_nat n)%Z → signed n v = v.
Proof.
  intros Hv. destruct (decide (0 ≤ v)%Z); [apply signed_small; lia|].
  unfold signed. rewrite <- (Z_mod_plus_full v 1). rewrite Z.mod_small by lia.
  rewrite decide_False; lia.
Qed.

(** [read_i32] of any integer that was cast to an [i32]. *)
Lemma read_i32_written v rest :
  sse_decode_i32 (sse_encode_i32 v ++ rest) = Ok (signed 4 v, rest).
Proof.
  unfold sse_decode_i32, sse_encode_i32, dec_bind. rewrite <- ne_bytes_mod.
  rewrite (round_trip (wf:=uint_wf 4)) by (apply Z.mod_pos_bound; done).
  unfold dec_ret. by rewrite signed_mod.
Qed.

Lemma read_i32 {B} (k : Z → decoder B) v rest :
  dec_bind sse_decode_i32 k (sse_encode_i32 v ++ rest) = k (signed 4 v) rest.
Proof. unfold dec_bind. by rewrite read_i32_written. Qed.

#[export] Instance u8_rt : RoundTrip (uint_wf 1) sse_encode_u8 sse_decode_u8 := uint_rt 1.
#[export] Instance u16_rt : RoundTrip (uint_wf 2) sse_encode_u16 sse_decode_u16 := uint_rt 2.
#[export] Instance u64_rt : RoundTrip (uint_wf 8) sse_encode_u64 sse_decode_u64 := uint_rt 8.

Lemma pointer_bytes_le v : uint_wf pointer_bytes v → uint_wf 8 v.
Proof. unfold uint_wf. destruct pointer_width as [-> | ->]; simpl Z.of_nat; lia. Qed.

#[export] Instance usize_rt : RoundTrip (uint_wf pointer_bytes) sse_encode_usize sse_decode_usize.
Proof.
  intros v rest Hv. unfold sse_decode_usize, dec_bind.
  rewrite (round_trip (wf:=uint_wf 8)) by by apply pointer_bytes_le.
  unfold dec_ret. by rewrite Z.mod_small.
Qed.

(** Dart writes a pointer as an [isize], Rust reads a [usize]. *)
#[export] Instance isize_as_usize_rt :
  RoundTrip (uint_wf pointer_bytes) sse_encode_isize sse_decode_usize := usize_rt.

#[export] Instance bool_rt : RoundTrip any_wf sse_encode_bool sse_decode_bool.
Proof.
  intros b rest _. unfold sse_decode_bool, sse_encode_bool.
  rewrite read_written by (destruct b; unfold uint_wf; simpl; lia).
  by destruct b.
Qed.

(** ** [Vec] and [Option] *)

Section generic.
Context {A : Type} (wf : A → Prop) (enc : A → bytes) (dec : decoder A) `{!RoundTrip wf enc dec}.

Lemma items_rt l rest :
  Forall wf l → sse_decode_items dec (length l) (concat (enc <$> l) ++ rest) = Ok (l, rest).
Proof.
  induction 1 as [|a l Ha Hl IH]; [done|].
  simpl. rewrite <- app_assoc, read_written by done.
  by rewrite (dec_bind_eq _ _ _ _ _ IH).
Qed.

#[export] Instance vec_rt : RoundTrip (vec_wf wf) (sse_encode_vec enc) (sse_decode_vec dec).
Proof.
  intros l rest [Hfit Hl]. unfold sse_decode_vec, sse_encode_vec.
  rewrite <- app_assoc, read_i32. unfold fits in Hfit.
  rewrite !(signed_small _ (Z.of_nat (length l))), Nat2Z.id by (simpl Z.of_nat; lia).
  by apply items_rt.
Qed.

(** What a [Vec] too long for an [i32] becomes: its length is negative, the
    reader takes it for an empty one and leaves the items unread. *)
Lemma oversized_vec_reads_empty l rest :
  (2 ^ 31 ≤ Z.of_nat (length l) < 2 ^ 32)%Z →
  sse_decode_vec dec (sse_encode_vec enc l ++ rest) = Ok ([], concat (enc <$> l) ++ rest).
Proof.
  intros Hl. unfold sse_decode_vec, sse_encode_vec. rewrite <- app_assoc, read_i32.
  assert (signed 4 (Z.of_nat (length l)) = Z.of_nat (length l) - 2 ^ 32)%Z as ->.
  { unfold signed. rewrite Z.mod_small by (simpl Z.of_nat; lia).
    by rewrite decide_False by (simpl Z.of_nat; lia). }
  rewrite signed_id by (simpl Z.of_nat; lia).
  by replace (Z.to_nat (Z.of_nat (length l) - 2 ^ 32)) with 0 by lia.
Qed.

#[export] Instance option_rt :
  RoundTrip (option_wf wf) (sse_encode_option enc) (sse_decode_option dec).
Proof.
  intros o rest Ho. unfold sse_decode_option, sse_encode_option.
  rewrite <- app_assoc, read_written by done.
  destruct o as [a|]; simpl; [|done]. by rewrite read_written.
Qed.
End generic.

(** ** Strings, identifiers, handles *)

#[export] Instance byte_rt :
  RoundTrip any_wf (λ b, sse_encode_u8 (byte_to_Z b))
    (let* b := sse_decode_u8 in dec_ret (byte_of_Z b)).
Proof.
  intros b rest _. rewrite read_written by apply byte_to_Z_bound.
  by rewrite byte_of_to_Z.
Qed.

#[export] Instance vec_u8_rt : RoundTrip fits sse_encode_vec_u8 sse_decode_vec_u8.
Proof.
  intros b rest Hb. apply (round_trip (wf := vec_wf any_wf)).
  split; [done|]. by apply Forall_true.
Qed.

#[export] Instance string_rt : RoundTrip string_wf sse_encode_string sse_decode_string.
Proof.
  intros s rest [Hutf Hs]. unfold sse_decode_string, sse_encode_string.
  rewrite read_written by done. unfold string_from_utf8.
  by rewrite Hutf, from_as_bytes.
Qed.

#[export] Instance uuid_rt : RoundTrip uuid_wf sse_encode_uuid sse_decode_uuid.
Proof.
  intros u rest Hu. unfold sse_decode_uuid, sse_encode_uuid.
  rewrite read_written by (unfold fits; rewrite uuid_as_bytes_length by done; done).
  by rewrite uuid_from_as_bytes.
Qed.

#[export] Instance vec_string_rt :
  RoundTrip (vec_wf string_wf) sse_encode_vec_string sse_decode_vec_string := vec_rt _ _ _.
#[export] Instance option_string_rt :
  RoundTrip option_string_wf sse_encode_option_string sse_decode_option_string := option_rt _ _ _.

Definition hash_set_wf (s : gset string) : Prop :=
  (Z.of_nat (size s) < 2 ^ 31)%Z ∧ ∀ x, x ∈ s → string_wf x.

#[export] Instance hash_set_rt : RoundTrip hash_set_wf sse_encode_hash_set sse_decode_hash_set.
Proof.
  intros s rest [Hsize Hs]. unfold sse_decode_hash_set, sse_encode_hash_set.
  pose proof (hash_iter_elements s) as Hperm.
  rewrite read_written.
  - unfold dec_ret. by rewrite (list_to_set_perm_L _ _ Hperm), list_to_set_elements_L.
  - split; [unfold fits; by rewrite Hperm|].
    rewrite Hperm. apply Forall_forall. intros x ?%elem_of_elements. by apply Hs.
Qed.

#[export] Instance rust_opaque_rt : RoundTrip (uint_wf pointer_bytes) sse_encode_usize sse_decode_rust_opaque :=
  usize_rt.
#[export] Instance dart_opaque_rt : RoundTrip (uint_wf pointer_bytes) sse_encode_isize sse_decode_dart_opaque :=
  usize_rt.
#[export] Instance stream_sink_rt : RoundTrip string_wf sse_encode_string sse_decode_stream_sink :=
  string_rt.

(** ** The types of the API *)

#[export] Instance device_type_rt : RoundTrip any_wf sse_encode_device_type sse_decode_device_type.
Proof. intros d rest _. unfold sse_decode_device_type, sse_encode_device_type. rewrite read_i32. by destruct d. Qed.

#[export] Instance option_device_type_rt :
  RoundTrip any_wf sse_encode_option_device_type sse_decode_option_device_type.
Proof.
  intros o rest _. apply (round_trip (wf := option_wf any_wf)). by destruct o.
Qed.

#[export] Instance client_info_rt :
  RoundTrip client_info_wf sse_encode_client_info sse_decode_client_info.
Proof. record_rt client_info_wf sse_encode_client_info sse_decode_client_info. Qed.
#[export] Instance vec_client_info_rt :
  RoundTrip (vec_wf client_info_wf) sse_encode_vec_client_info sse_decode_vec_client_info := vec_rt _ _ _.
#[export] Instance client_info_without_id_rt :
  RoundTrip client_info_without_id_wf sse_encode_client_info_without_id sse_decode_client_info_without_id.
Proof. record_rt client_info_without_id_wf sse_encode_client_info_without_id sse_decode_client_info_without_id. Qed.
#[export] Instance proposing_client_info_rt :
  RoundTrip proposing_client_info_wf sse_encode_proposing_client_info sse_decode_proposing_client_info.
Proof. record_rt proposing_client_info_wf sse_encode_proposing_client_info sse_decode_proposing_client_info. Qed.
#[export] Instance expecting_public_key_rt :
  RoundTrip expecting_public_key_wf sse_encode_expecting_public_key sse_decode_expecting_public_key.
Proof. record_rt expecting_public_key_wf sse_encode_expecting_public_key sse_decode_expecting_public_key. Qed.
#[export] Instance option_expecting_public_key_rt :
  RoundTrip (option_wf expecting_public_key_wf) sse_encode_option_expecting_public_key sse_decode_option_expecting_public_key := option_rt _ _ _.
#[export] Instance file_metadata_rt :
  RoundTrip file_metadata_wf sse_encode_file_metadata sse_decode_file_metadata.
Proof. record_rt file_metadata_wf sse_encode_file_metadata sse_decode_file_metadata. Qed.
#[export] Instance option_file_metadata_rt :
  RoundTrip (option_wf file_metadata_wf) sse_encode_option_file_metadata sse_decode_option_file_metadata := option_rt _ _ _.
#[export] Instance file_dto_rt :
  RoundTrip file_dto_wf sse_encode_file_dto sse_decode_file_dto.
Proof. record_rt file_dto_wf sse_encode_file_dto sse_decode_file_dto. Qed.
#[export] Instance vec_file_dto_rt :
  RoundTrip (vec_wf file_dto_wf) sse_encode_vec_file_dto sse_decode_vec_file_dto := vec_rt _ _ _.
#[export] Instance pin_config_rt :
  RoundTrip pin_config_wf sse_encode_pin_config sse_decode_pin_config.
Proof. record_rt pin_config_wf sse_encode_pin_config sse_decode_pin_config. Qed.
#[export] Instance option_pin_config_rt :
  RoundTrip (option_wf pin_config_wf) sse_encode_option_pin_config sse_decode_option_pin_config := option_rt _ _ _.
#[export] Instance key_pair_rt :
  RoundTrip key_pair_wf sse_encode_key_pair sse_decode_key_pair.
Proof. record_rt key_pair_wf sse_encode_key_pair sse_decode_key_pair. Qed.
#[export] Instance rtc_file_error_rt :
  RoundTrip rtc_file_error_wf sse_encode_rtc_file_error sse_decode_rtc_file_error.
Proof. record_rt rtc_file_error_wf sse_encode_rtc_file_error sse_decode_rtc_file_error. Qed.
#[export] Instance rtc_send_file_response_rt :
  RoundTrip rtc_send_file_response_wf sse_encode_rtc_send_file_response sse_decode_rtc_send_file_response.
Proof. record_rt rtc_send_file_response_wf sse_encode_rtc_send_file_response sse_decode_rtc_send_file_response. Qed.

#[export] Instance rtc_status_rt : RoundTrip rtc_status_wf sse_encode_rtc_status sse_decode_rtc_status.
Proof.
  intros s rest Hs. unfold sse_decode_rtc_status, sse_encode_rtc_status.
  destruct s; rewrite <- ?app_assoc, read_i32; simpl in *; by read_fields.
Qed.

#[export] Instance ws_server_sdp_message_rt :
  RoundTrip ws_server_sdp_message_wf sse_encode_ws_server_sdp_message sse_decode_ws_server_sdp_message.
Proof. record_rt ws_server_sdp_message_wf sse_encode_ws_server_sdp_message sse_decode_ws_server_sdp_message. Qed.

(** The message of the server that a stream of [connect] carries to Dart. *)
#[export] Instance ws_server_message_rt :
  RoundTrip ws_server_message_wf sse_encode_ws_server_message sse_decode_ws_server_message.
Proof.
  intros m rest Hm. unfold sse_decode_ws_server_message, sse_encode_ws_server_message.
  destruct m; rewrite <- ?app_assoc, read_i32; simpl in *; destruct_and?; by read_fields.
Qed.
End props.
