(* ===== verification/BridgeDart.v ===== *)
(** * Values as objects of Dart

    The second form in which values cross the bridge: as trees of Dart objects
    ([IntoDart] in [app/rust/src/frb_generated.rs]), which Dart takes apart
    again ([dco_decode_*] in [app/lib/rust/frb_generated.dart]).  Rust passes
    arguments to functions of Dart in this form. *)

From S2P Require Import Prelude Signaling RtcTypes AppBridge BridgeCodec BridgeCodecProps.

(** Objects of Dart, how the generator's library makes them from the primitive
    types, and the casts of Dart ([None]: an exception). *)
Class DartObjects := {
  DartAbi : Type;
  dart_null : DartAbi;
  dart_string : string → DartAbi;
  dart_uuid : Uuid → DartAbi;
  dart_int : Z → DartAbi;
  dart_u64 : Z → DartAbi;
  dart_bool : bool → DartAbi;
  dart_list : list DartAbi → DartAbi;
  is_null : DartAbi → bool;
  as_string : DartAbi → option string;
  as_uuid : DartAbi → option Uuid;
  as_int : DartAbi → option Z;
  as_u64 : DartAbi → option Z;
  as_bool : DartAbi → option bool;
  as_list : DartAbi → option (list DartAbi)
}.

Class DartObjectsLaws `{DartObjects} := {
  null_is_null : is_null dart_null = true;
  string_not_null s : is_null (dart_string s) = false;
  int_not_null v : is_null (dart_int v) = false;
  list_not_null l : is_null (dart_list l) = false;
  as_dart_string s : as_string (dart_string s) = Some s;
  as_dart_uuid u : uuid_wf u → as_uuid (dart_uuid u) = Some u;
  as_dart_int v : uint_wf 2 v → as_int (dart_int v) = Some v;
  as_dart_u64 v : uint_wf 8 v → as_u64 (dart_u64 v) = Some v;
  as_dart_bool b : as_bool (dart_bool b) = Some b;
  as_dart_list l : as_list (dart_list l) = Some l
}.

Section objects.
Context `{DartObjects}.

Definition into_dart_option {A} (into : A → DartAbi) (o : option A) : DartAbi :=
  match o with Some a => into a | None => dart_null end.
Definition dco_decode_opt {A} (dec : DartAbi → option A) (raw : DartAbi) : option (option A) :=
  if is_null raw then Some None else Some <$> dec raw.

Definition into_dart_vec {A} (into : A → DartAbi) (l : list A) : DartAbi := dart_list (into <$> l).
Definition dco_decode_list {A} (dec : DartAbi → option A) (raw : DartAbi) : option (list A) :=
  l ← as_list raw; mapM dec l.

Definition into_dart_device_type (d : DeviceType) : DartAbi :=
  dart_int match d with Mobile => 0 | Desktop => 1 | Web => 2 | Headless => 3 | Server => 4 end.
(** [DeviceType.values[raw as int]]. *)
Definition dco_decode_device_type (raw : DartAbi) : option DeviceType :=
  i ← as_int raw;
  if decide (i < 0)%Z then None else [Mobile; Desktop; Web; Headless; Server] !! Z.to_nat i.

Definition into_dart_client_info (self : ClientInfo) : DartAbi :=
  dart_list [
    dart_uuid (ci_id self);
    dart_string (ci_alias self);
    dart_string (ci_version self);
    into_dart_option dart_string (ci_device_model self);
    into_dart_option into_dart_device_type (ci_device_type self);
    dart_string (ci_token self)
  ].
Definition dco_decode_client_info (raw : DartAbi) : option ClientInfo :=
  arr ← as_list raw;
  match arr with
  | [a0; a1; a2; a3; a4; a5] =>
      id ← as_uuid a0;
      alias ← as_string a1;
      version ← as_string a2;
      device_model ← dco_decode_opt as_string a3;
      device_type ← dco_decode_opt dco_decode_device_type a4;
      token ← as_string a5;
      Some (mk_ClientInfo id alias version device_model device_type token)
  | _ => None
  end.

Definition into_dart_client_info_without_id (self : ClientInfoWithoutId) : DartAbi :=
  dart_list [
    dart_string (cw_alias self);
    dart_string (cw_version self);
    into_dart_option dart_string (cw_device_model self);
    into_dart_option into_dart_device_type (cw_device_type self);
    dart_string (cw_token self)
  ].
Definition dco_decode_client_info_without_id (raw : DartAbi) : option ClientInfoWithoutId :=
  arr ← as_list raw;
  match arr with
  | [a0; a1; a2; a3; a4] =>
      alias ← as_string a0;
      version ← as_string a1;
      device_model ← dco_decode_opt as_string a2;
      device_type ← dco_decode_opt dco_decode_device_type a3;
      token ← as_string a4;
      Some (mk_ClientInfoWithoutId alias version device_model device_type token)
  | _ => None
  end.

Definition into_dart_proposing_client_info (self : ProposingClientInfo) : DartAbi :=
  dart_list [
    dart_string (pi_alias self);
    dart_string (pi_version self);
    into_dart_option dart_string (pi_device_model self);
    into_dart_option into_dart_device_type (pi_device_type self)
  ].
Definition dco_decode_proposing_client_info (raw : DartAbi) : option ProposingClientInfo :=
  arr ← as_list raw;
  match arr with
  | [a0; a1; a2; a3] =>
      alias ← as_string a0;
      version ← as_string a1;
      device_model ← dco_decode_opt as_string a2;
      device_type ← dco_decode_opt dco_decode_device_type a3;
      Some (mk_ProposingClientInfo alias version device_model device_type)
  | _ => None
  end.

Definition into_dart_expecting_public_key (self : ExpectingPublicKey) : DartAbi :=
  dart_list [
    dart_string (ek_public_key self);
    dart_string (ek_kind self)
  ].
Definition dco_decode_expecting_public_key (raw : DartAbi) : option ExpectingPublicKey :=
  arr ← as_list raw;
  match arr with
  | [a0; a1] =>
      public_key ← as_string a0;
      kind ← as_string a1;
      Some (mk_ExpectingPublicKey public_key kind)
  | _ => None
  end.

Definition into_dart_file_metadata (self : FileMetadata) : DartAbi :=
  dart_list [
    into_dart_option dart_string (fm_modified self);
    into_dart_option dart_string (fm_accessed self)
  ].
Definition dco_decode_file_metadata (raw : DartAbi) : option FileMetadata :=
  arr ← as_list raw;
  match arr with
  | [a0; a1] =>
      modified ← dco_decode_opt as_string a0;
      accessed ← dco_decode_opt as_string a1;
      Some (mk_FileMetadata modified accessed)
  | _ => None
  end.

Definition into_dart_file_dto (self : FileDto) : DartAbi :=
  dart_list [
    dart_string (fd_id self);
    dart_string (fd_file_name self);
    dart_u64 (fd_size self);
    dart_string (fd_file_type self);
    into_dart_option dart_string (fd_sha256 self);
    into_dart_option dart_string (fd_preview self);
    into_dart_option into_dart_file_metadata (fd_metadata self)
  ].
Definition dco_decode_file_dto (raw : DartAbi) : option FileDto :=
  arr ← as_list raw;
  match arr with
  | [a0; a1; a2; a3; a4; a5; a6] =>
      id ← as_string a0;
      file_name ← as_string a1;
      size ← as_u64 a2;
      file_type ← as_string a3;
      sha256 ← dco_decode_opt as_string a4;
      preview ← dco_decode_opt as_string a5;
      metadata ← dco_decode_opt dco_decode_file_metadata a6;
      Some (mk_FileDto id file_name size file_type sha256 preview metadata)
  | _ => None
  end.

Definition into_dart_key_pair (self : KeyPair) : DartAbi :=
  dart_list [
    dart_string (kp_private_key self);
    dart_string (kp_public_key self)
  ].
Definition dco_decode_key_pair (raw : DartAbi) : option KeyPair :=
  arr ← as_list raw;
  match arr with
  | [a0; a1] =>
      private_key ← as_string a0;
      public_key ← as_string a1;
      Some (mk_KeyPair private_key public_key)
  | _ => None
  end.

Definition into_dart_pin_config (self : PinConfig) : DartAbi :=
  dart_list [
    dart_string (pc_pin self);
    dart_int (pc_max_tries self)
  ].
Definition dco_decode_pin_config (raw : DartAbi) : option PinConfig :=
  arr ← as_list raw;
  match arr with
  | [a0; a1] =>
      pin ← as_string a0;
      max_tries ← as_int a1;
      Some (mk_PinConfig pin max_tries)
  | _ => None
  end.

Definition into_dart_rtc_file_error (self : RTCFileError) : DartAbi :=
  dart_list [
    dart_string (fe_file_id self);
    dart_string (fe_error self)
  ].
Definition dco_decode_rtc_file_error (raw : DartAbi) : option RTCFileError :=
  arr ← as_list raw;
  match arr with
  | [a0; a1] =>
      file_id ← as_string a0;
      error ← as_string a1;
      Some (mk_RTCFileError file_id error)
  | _ => None
  end.

Definition into_dart_rtc_send_file_response (self : RTCSendFileResponse) : DartAbi :=
  dart_list [
    dart_string (fr_id self);
    dart_bool (fr_success self);
    into_dart_option dart_string (fr_error self)
  ].
Definition dco_decode_rtc_send_file_response (raw : DartAbi) : option RTCSendFileResponse :=
  arr ← as_list raw;
  match arr with
  | [a0; a1; a2] =>
      id ← as_string a0;
      success ← as_bool a1;
      error ← dco_decode_opt as_string a2;
      Some (mk_RTCSendFileResponse id success error)
  | _ => None
  end.

Definition into_dart_ws_server_sdp_message (self : WsServerSdpMessage) : DartAbi :=
  dart_list [
    into_dart_client_info (ss_peer self);
    dart_string (ss_session_id self);
    dart_string (ss_sdp self)
  ].
Definition dco_decode_ws_server_sdp_message (raw : DartAbi) : option WsServerSdpMessage :=
  arr ← as_list raw;
  match arr with
  | [a0; a1; a2] =>
      peer ← dco_decode_client_info a0;
      session_id ← as_string a1;
      sdp ← as_string a2;
      Some (mk_WsServerSdpMessage peer session_id sdp)
  | _ => None
  end.

Definition into_dart_rtc_status (self : RTCStatus) : DartAbi :=
  match self with
  | SdpExchanged => dart_list [dart_int 0]
  | Connected => dart_list [dart_int 1]
  | PinRequired => dart_list [dart_int 2]
  | TooManyAttempts => dart_list [dart_int 3]
  | Declined => dart_list [dart_int 4]
  | Sending => dart_list [dart_int 5]
  | Finished => dart_list [dart_int 6]
  | StatusError field0 => dart_list [dart_int 7; dart_string field0]
  end.
Definition dco_decode_rtc_status (raw : DartAbi) : option RTCStatus :=
  arr ← as_list raw;
  tag ← arr !! 0 ≫= as_int;
  match tag with
  | 0%Z => Some SdpExchanged
  | 1%Z => Some Connected
  | 2%Z => Some PinRequired
  | 3%Z => Some TooManyAttempts
  | 4%Z => Some Declined
  | 5%Z => Some Sending
  | 6%Z => Some Finished
  | 7%Z => StatusError <$> (arr !! 1 ≫= as_string)
  | _ => None
  end.

Definition into_dart_ws_server_message (self : WsServerMessage) : DartAbi :=
  match self with
  | Hello client peers =>
      dart_list [dart_int 0; into_dart_client_info client; into_dart_vec into_dart_client_info peers]
  | Join peer => dart_list [dart_int 1; into_dart_client_info peer]
  | Update peer => dart_list [dart_int 2; into_dart_client_info peer]
  | Left peer_id => dart_list [dart_int 3; dart_uuid peer_id]
  | Offer field0 => dart_list [dart_int 4; into_dart_ws_server_sdp_message field0]
  | Answer field0 => dart_list [dart_int 5; into_dart_ws_server_sdp_message field0]
  | WsError code => dart_list [dart_int 6; dart_int code]
  end.
Definition dco_decode_ws_server_message (raw : DartAbi) : option WsServerMessage :=
  arr ← as_list raw;
  tag ← arr !! 0 ≫= as_int;
  match tag with
  | 0%Z =>
      client ← arr !! 1 ≫= dco_decode_client_info;
      peers ← arr !! 2 ≫= dco_decode_list dco_decode_client_info;
      Some (Hello client peers)
  | 1%Z => Join <$> (arr !! 1 ≫= dco_decode_client_info)
  | 2%Z => Update <$> (arr !! 1 ≫= dco_decode_client_info)
  | 3%Z => Left <$> (arr !! 1 ≫= as_uuid)
  | 4%Z => Offer <$> (arr !! 1 ≫= dco_decode_ws_server_sdp_message)
  | 5%Z => Answer <$> (arr !! 1 ≫= dco_decode_ws_server_sdp_message)
  | 6%Z => WsError <$> (arr !! 1 ≫= as_int)
  | _ => None
  end.
End objects.

(** ** Round trips

    What is never null, and what may be a field. *)

Class DartTrip `{DartObjects} {A} (wf : A → Prop) (into : A → DartAbi)
    (dec : DartAbi → option A) : Prop := {
  dart_trip a : wf a → dec (into a) = Some a;
  dart_trip_not_null a : is_null (into a) = false
}.

Section props.
Context `{DartObjectsLaws}.

#[export] Instance dart_string_trip : DartTrip any_wf dart_string as_string.
Proof. split; [intros; apply as_dart_string|apply string_not_null]. Qed.

Lemma device_type_back d : dco_decode_device_type (into_dart_device_type d) = Some d.
Proof.
  unfold dco_decode_device_type, into_dart_device_type.
  rewrite as_dart_int by (destruct d; unfold uint_wf; simpl; lia). by destruct d.
Qed.

#[export] Instance dart_device_type_trip :
  DartTrip any_wf into_dart_device_type dco_decode_device_type.
Proof. split; [intros; apply device_type_back|intros; apply int_not_null]. Qed.

Lemma option_back {A} {wf : A → Prop} {into dec} `{!DartTrip wf into dec} o :
  option_wf wf o → dco_decode_opt dec (into_dart_option into o) = Some o.
Proof.
  unfold dco_decode_opt, into_dart_option. destruct o as [a|]; simpl; intros Ho.
  - rewrite (dart_trip_not_null (wf := wf) (dec := dec)). by rewrite (dart_trip (wf := wf)).
  - by rewrite null_is_null.
Qed.

Lemma vec_back {A} {wf : A → Prop} {into dec} `{!DartTrip wf into dec} l :
  Forall wf l → dco_decode_list dec (into_dart_vec into l) = Some l.
Proof.
  intros Hl. unfold dco_decode_list, into_dart_vec. rewrite as_dart_list. simpl.
  apply mapM_Some, Forall2_fmap_l, Forall_Forall2_diag. eapply Forall_impl; [exact Hl|].
  intros a Ha. by apply (dart_trip (wf := wf)).
Qed.

Lemma any_option_wf {A} (o : option A) : option_wf any_wf o.
Proof. by destruct o. Qed.

(** Takes a tree apart, field by field. *)
Ltac dart_fields :=
  rewrite as_dart_list; simpl;
  repeat first
    [ rewrite as_dart_string | rewrite as_dart_bool
    | rewrite as_dart_uuid by done | rewrite as_dart_u64 by done | rewrite as_dart_int by done
    | rewrite option_back by (done || apply any_option_wf)
    | rewrite vec_back by done
    | rewrite dart_trip by done
    | progress simpl ]; try done.

Tactic Notation "record_trip" reference(into) reference(dec) :=
  split; [let a := fresh "a" in let Ha := fresh "Ha" in
          intros a Ha; unfold dec, into; destruct a; simpl in *; destruct_and?; dart_fields
         |intros; apply list_not_null].

#[export] Instance dart_client_info_trip :
  DartTrip (λ c, uuid_wf (ci_id c)) into_dart_client_info dco_decode_client_info.
Proof. record_trip into_dart_client_info dco_decode_client_info. Qed.
#[export] Instance dart_client_info_without_id_trip :
  DartTrip any_wf into_dart_client_info_without_id dco_decode_client_info_without_id.
Proof. record_trip into_dart_client_info_without_id dco_decode_client_info_without_id. Qed.
#[export] Instance dart_proposing_client_info_trip :
  DartTrip any_wf into_dart_proposing_client_info dco_decode_proposing_client_info.
Proof. record_trip into_dart_proposing_client_info dco_decode_proposing_client_info. Qed.
#[export] Instance dart_expecting_public_key_trip :
  DartTrip any_wf into_dart_expecting_public_key dco_decode_expecting_public_key.
Proof. record_trip into_dart_expecting_public_key dco_decode_expecting_public_key. Qed.
#[export] Instance dart_file_metadata_trip :
  DartTrip any_wf into_dart_file_metadata dco_decode_file_metadata.
Proof. record_trip into_dart_file_metadata dco_decode_file_metadata. Qed.
#[export] Instance dart_file_dto_trip :
  DartTrip (λ f, uint_wf 8 (fd_size f)) into_dart_file_dto dco_decode_file_dto.
Proof. record_trip into_dart_file_dto dco_decode_file_dto. Qed.
#[export] Instance dart_key_pair_trip :
  DartTrip any_wf into_dart_key_pair dco_decode_key_pair.
Proof. record_trip into_dart_key_pair dco_decode_key_pair. Qed.
#[export] Instance dart_pin_config_trip :
  DartTrip (λ p, uint_wf 2 (pc_max_tries p)) into_dart_pin_config dco_decode_pin_config.
Proof. record_trip into_dart_pin_config dco_decode_pin_config. Qed.
#[export] Instance dart_rtc_file_error_trip :
  DartTrip any_wf into_dart_rtc_file_error dco_decode_rtc_file_error.
Proof. record_trip into_dart_rtc_file_error dco_decode_rtc_file_error. Qed.
#[export] Instance dart_rtc_send_file_response_trip :
  DartTrip any_wf into_dart_rtc_send_file_response dco_decode_rtc_send_file_response.
Proof. record_trip into_dart_rtc_send_file_response dco_decode_rtc_send_file_response. Qed.
#[export] Instance dart_ws_server_sdp_message_trip :
  DartTrip (λ m, uuid_wf (ci_id (ss_peer m))) into_dart_ws_server_sdp_message dco_decode_ws_server_sdp_message.
Proof. record_trip into_dart_ws_server_sdp_message dco_decode_ws_server_sdp_message. Qed.

Lemma rtc_status_back s : dco_decode_rtc_status (into_dart_rtc_status s) = Some s.
Proof.
  unfold dco_decode_rtc_status, into_dart_rtc_status.
  destruct s; dart_fields.
Qed.

Lemma client_info_back c :
  client_info_wf c → dco_decode_client_info (into_dart_client_info c) = Some c.
Proof. intros (Hid & _). by apply (dart_trip (DartTrip := dart_client_info_trip)). Qed.

Lemma client_infos_back l :
  vec_wf client_info_wf l →
  dco_decode_list dco_decode_client_info (into_dart_vec into_dart_client_info l) = Some l.
Proof.
  intros [_ Hl]. apply vec_back. eapply Forall_impl; [exact Hl|]. by intros c (Hid & _).
Qed.

Lemma sdp_message_back m :
  ws_server_sdp_message_wf m →
  dco_decode_ws_server_sdp_message (into_dart_ws_server_sdp_message m) = Some m.
Proof.
  intros ((Hid & _) & _). by apply (dart_trip (DartTrip := dart_ws_server_sdp_message_trip)).
Qed.

Lemma ws_server_message_back m :
  ws_server_message_wf m → dco_decode_ws_server_message (into_dart_ws_server_message m) = Some m.
Proof.
  intros Hm. unfold dco_decode_ws_server_message, into_dart_ws_server_message.
  destruct m; simpl in *; destruct_and?;
    rewrite as_dart_list; simpl; rewrite !as_dart_int by (done || (unfold uint_wf; simpl; lia)); simpl;
    rewrite ?client_info_back, ?sdp_message_back, ?as_dart_uuid by done; simpl; try done.
  by rewrite client_infos_back.
Qed.

(** C38. A message of the signaling server reaches the application as it is,
    in either form in which values cross the bridge, and the reader of the
    bytes stops behind it. *)
Theorem server_messages_cross `{BridgeTargetLaws} m rest :
  ws_server_message_wf m →
  sse_decode_ws_server_message (sse_encode_ws_server_message m ++ rest) = Ok (m, rest) ∧
  dco_decode_ws_server_message (into_dart_ws_server_message m) = Some m.
Proof. intros Hm. split; [by apply round_trip|by apply ws_server_message_back]. Qed.
End props.
