(* ===== verification/BridgeWire.v ===== *)
(** * Calls over the bridge

    The application calls Rust by a number of a function and a message with its
    arguments.  The dispatcher of [app/rust/src/frb_generated.rs] finds the
    function by the number; a wire function per API function reads the
    arguments, checks that nothing is left, and starts a task that locks the
    objects it was given and calls the API function.  The messages are those
    of the other end, [app/lib/rust/frb_generated.dart]. *)

From S2P Require Import Prelude Signaling RtcTypes AppBridge BridgeCodec.

#[local] Open Scope sse_scope.

(** ** Calls of the API, with the arguments the function gets *)

Inductive Call :=
| LsAcceptOffer (that : Handle) (stun_servers : list string) (offer : WsServerSdpMessage)
    (private_key : string) (expecting_public_key : option ExpectingPublicKey)
    (pin : option PinConfig)
| LsSendOffer (that : Handle) (stun_servers : list string) (target : Uuid)
    (private_key : string) (expecting_public_key : option ExpectingPublicKey)
    (pin : option PinConfig) (files : list FileDto)
| LsUpdateInfo (that : Handle) (info : ClientInfoWithoutId)
| FileReceiverGetFileId (that : Handle)
| FileReceiverReceive (that : Handle) (sink : StreamSink)
| FileSenderSend (that : Handle) (data : bytes)
| ReceiveDecline (that : Handle)
| ReceiveListenError (that : Handle) (sink : StreamSink)
| ReceiveListenFiles (that : Handle)
| ReceiveListenReceiving (that : Handle) (sink : StreamSink)
| ReceiveListenStatus (that : Handle) (sink : StreamSink)
| ReceiveSendFileStatus (that : Handle) (status : RTCSendFileResponse)
| ReceiveSendPin (that : Handle) (pin : string)
| ReceiveSendSelection (that : Handle) (selection : gset string)
| SendListenError (that : Handle) (sink : StreamSink)
| SendListenSelectedFiles (that : Handle)
| SendListenStatus (that : Handle) (sink : StreamSink)
| SendSendFile (that : Handle) (file_id : string)
| SendSendPin (that : Handle) (pin : string)
| Connect (sink : StreamSink) (uri : string) (info : ProposingClientInfo)
    (private_key : string) (on_connection : DartOpaque)
| EnableDebugLogging
| GenerateKeyPair
| VerifyCert (cert : string) (public_key : string).

(** A task: the object it locks before the call, and whether it locks it for
    itself alone (a method with [&mut self]). *)
Record Task := mk_Task {
  t_guard : option (Handle * bool);
  t_call : Call
}.

Section wire.
Context `{BridgeTarget}.

(** [SseDeserializer::new(message)], the arguments, [deserializer.end()]. *)
Definition from_wire (args : decoder Task) (message : bytes) : anyres Task :=
  let? p := args message in
  check? deserializer_end p.2 in
  Ok p.1.

(** ** The wire functions *)

Definition wire_LsSignalingConnection_accept_offer : bytes → anyres Task :=
  from_wire (let* api_that := sse_decode_rust_opaque in
             let* api_stun_servers := sse_decode_vec_string in
             let* api_offer := sse_decode_ws_server_sdp_message in
             let* api_private_key := sse_decode_string in
             let* api_expecting_public_key := sse_decode_option_expecting_public_key in
             let* api_pin := sse_decode_option_pin_config in
             dec_ret (mk_Task (Some (api_that, false))
                     (LsAcceptOffer api_that api_stun_servers api_offer api_private_key
                        api_expecting_public_key api_pin))).

Definition wire_LsSignalingConnection_send_offer : bytes → anyres Task :=
  from_wire (let* api_that := sse_decode_rust_opaque in
             let* api_stun_servers := sse_decode_vec_string in
             let* api_target := sse_decode_uuid in
             let* api_private_key := sse_decode_string in
             let* api_expecting_public_key := sse_decode_option_expecting_public_key in
             let* api_pin := sse_decode_option_pin_config in
             let* api_files := sse_decode_vec_file_dto in
             dec_ret (mk_Task (Some (api_that, false))
                     (LsSendOffer api_that api_stun_servers api_target api_private_key
                        api_expecting_public_key api_pin api_files))).

Definition wire_LsSignalingConnection_update_info : bytes → anyres Task :=
  from_wire (let* api_that := sse_decode_rust_opaque in
             let* api_info := sse_decode_client_info_without_id in
             dec_ret (mk_Task (Some (api_that, false)) (LsUpdateInfo api_that api_info))).

Definition wire_RtcFileReceiver_get_file_id : bytes → anyres Task :=
  from_wire (let* api_that := sse_decode_rust_opaque in
             dec_ret (mk_Task (Some (api_that, false)) (FileReceiverGetFileId api_that))).

Definition wire_RtcFileReceiver_receive : bytes → anyres Task :=
  from_wire (let* api_that := sse_decode_rust_opaque in
             let* api_sink := sse_decode_stream_sink in
             dec_ret (mk_Task (Some (api_that, false))
                     (FileReceiverReceive api_that api_sink))).

Definition wire_RtcFileSender_send : bytes → anyres Task :=
  from_wire (let* api_that := sse_decode_rust_opaque in
             let* api_data := sse_decode_vec_u8 in
             dec_ret (mk_Task (Some (api_that, false)) (FileSenderSend api_that api_data))).

Definition wire_RtcReceiveController_decline : bytes → anyres Task :=
  from_wire (let* api_that := sse_decode_rust_opaque in
             dec_ret (mk_Task (Some (api_that, false)) (ReceiveDecline api_that))).

Definition wire_RtcReceiveController_listen_error : bytes → anyres Task :=
  from_wire (let* api_that := sse_decode_rust_opaque in
             let* api_sink := sse_decode_stream_sink in
             dec_ret (mk_Task (Some (api_that, false)) (ReceiveListenError api_that api_sink))).

Definition wire_RtcReceiveController_listen_files : bytes → anyres Task :=
  from_wire (let* api_that := sse_decode_rust_opaque in
             dec_ret (mk_Task (Some (api_that, false)) (ReceiveListenFiles api_that))).

Definition wire_RtcReceiveController_listen_receiving : bytes → anyres Task :=
  from_wire (let* api_that := sse_decode_rust_opaque in
             let* api_sink := sse_decode_stream_sink in
             dec_ret (mk_Task (Some (api_that, false))
                     (ReceiveListenReceiving api_that api_sink))).

Definition wire_RtcReceiveController_listen_status : bytes → anyres Task :=
  from_wire (let* api_that := sse_decode_rust_opaque in
             let* api_sink := sse_decode_stream_sink in
             dec_ret (mk_Task (Some (api_that, false))
                     (ReceiveListenStatus api_that api_sink))).

Definition wire_RtcReceiveController_send_file_status : bytes → anyres Task :=
  from_wire (let* api_that := sse_decode_rust_opaque in
             let* api_status := sse_decode_rtc_send_file_response in
             dec_ret (mk_Task (Some (api_that, false))
                     (ReceiveSendFileStatus api_that api_status))).

Definition wire_RtcReceiveController_send_pin : bytes → anyres Task :=
  from_wire (let* api_that := sse_decode_rust_opaque in
             let* api_pin := sse_decode_string in
             dec_ret (mk_Task (Some (api_that, false)) (ReceiveSendPin api_that api_pin))).

Definition wire_RtcReceiveController_send_selection : bytes → anyres Task :=
  from_wire (let* api_that := sse_decode_rust_opaque in
             let* api_selection := sse_decode_hash_set in
             dec_ret (mk_Task (Some (api_that, false))
                     (ReceiveSendSelection api_that api_selection))).

Definition wire_RtcSendController_listen_error : bytes → anyres Task :=
  from_wire (let* api_that := sse_decode_rust_opaque in
             let* api_sink := sse_decode_stream_sink in
             dec_ret (mk_Task (Some (api_that, true)) (SendListenError api_that api_sink))).

Definition wire_RtcSendController_listen_selected_files : bytes → anyres Task :=
  from_wire (let* api_that := sse_decode_rust_opaque in
             dec_ret (mk_Task (Some (api_that, false)) (SendListenSelectedFiles api_that))).

Definition wire_RtcSendController_listen_status : bytes → anyres Task :=
  from_wire (let* api_that := sse_decode_rust_opaque in
             let* api_sink := sse_decode_stream_sink in
             dec_ret (mk_Task (Some (api_that, true)) (SendListenStatus api_that api_sink))).

Definition wire_RtcSendController_send_file : bytes → anyres Task :=
  from_wire (let* api_that := sse_decode_rust_opaque in
             let* api_file_id := sse_decode_string in
             dec_ret (mk_Task (Some (api_that, false)) (SendSendFile api_that api_file_id))).

Definition wire_RtcSendController_send_pin : bytes → anyres Task :=
  from_wire (let* api_that := sse_decode_rust_opaque in
             let* api_pin := sse_decode_string in
             dec_ret (mk_Task (Some (api_that, false)) (SendSendPin api_that api_pin))).

Definition wire_connect : bytes → anyres Task :=
  from_wire (let* api_sink := sse_decode_stream_sink in
             let* api_uri := sse_decode_string in
             let* api_info := sse_decode_proposing_client_info in
             let* api_private_key := sse_decode_string in
             let* api_on_connection := sse_decode_dart_opaque in
             dec_ret (mk_Task None
                     (Connect api_sink api_uri api_info api_private_key api_on_connection))).

Definition wire_enable_debug_logging : bytes → anyres Task :=
  from_wire (dec_ret (mk_Task None EnableDebugLogging)).

Definition wire_generate_key_pair : bytes → anyres Task :=
  from_wire (dec_ret (mk_Task None GenerateKeyPair)).

Definition wire_verify_cert : bytes → anyres Task :=
  from_wire (let* api_cert := sse_decode_string in
             let* api_public_key := sse_decode_string in
             dec_ret (mk_Task None (VerifyCert api_cert api_public_key))).

(** ** The dispatchers *)

Definition pde_ffi_dispatcher_primary (func_id : Z) (message : bytes) : anyres Task :=
  match func_id with
  | 1 => wire_LsSignalingConnection_accept_offer message
  | 2 => wire_LsSignalingConnection_send_offer message
  | 3 => wire_LsSignalingConnection_update_info message
  | 4 => wire_RtcFileReceiver_get_file_id message
  | 5 => wire_RtcFileReceiver_receive message
  | 6 => wire_RtcFileSender_send message
  | 7 => wire_RtcReceiveController_decline message
  | 8 => wire_RtcReceiveController_listen_error message
  | 9 => wire_RtcReceiveController_listen_files message
  | 10 => wire_RtcReceiveController_listen_receiving message
  | 11 => wire_RtcReceiveController_listen_status message
  | 12 => wire_RtcReceiveController_send_file_status message
  | 13 => wire_RtcReceiveController_send_pin message
  | 14 => wire_RtcReceiveController_send_selection message
  | 15 => wire_RtcSendController_listen_error message
  | 16 => wire_RtcSendController_listen_selected_files message
  | 17 => wire_RtcSendController_listen_status message
  | 18 => wire_RtcSendController_send_file message
  | 19 => wire_RtcSendController_send_pin message
  | 20 => wire_connect message
  | 21 => wire_enable_debug_logging message
  | 22 => wire_generate_key_pair message
  | 23 => wire_verify_cert message
  | _ => Panic "internal error: entered unreachable code"
  end%Z.

(** No function of the API is synchronous. *)
Definition pde_ffi_dispatcher_sync (func_id : Z) (message : bytes) : anyres bytes :=
  Panic "internal error: entered unreachable code".

(** ** The other end

    The number and the message of a call ([RustLibApiImpl]).  The encoders of
    the Dart file are the same as those of the Rust file, field by field, but
    for a function, whose address is written as an [isize]. *)
Definition dart_message (c : Call) : Z * bytes :=
  match c with
  | LsAcceptOffer that stun_servers offer private_key expecting_public_key pin =>
      (1, sse_encode_usize that ++
          sse_encode_vec_string stun_servers ++
          sse_encode_ws_server_sdp_message offer ++
          sse_encode_string private_key ++
          sse_encode_option_expecting_public_key expecting_public_key ++
          sse_encode_option_pin_config pin)
  | LsSendOffer that stun_servers target private_key expecting_public_key pin files =>
      (2, sse_encode_usize that ++
          sse_encode_vec_string stun_servers ++
          sse_encode_uuid target ++
          sse_encode_string private_key ++
          sse_encode_option_expecting_public_key expecting_public_key ++
          sse_encode_option_pin_config pin ++
          sse_encode_vec_file_dto files)
  | LsUpdateInfo that info =>
      (3, sse_encode_usize that ++
          sse_encode_client_info_without_id info)
  | FileReceiverGetFileId that =>
      (4, sse_encode_usize that)
  | FileReceiverReceive that sink =>
      (5, sse_encode_usize that ++
          sse_encode_string sink)
  | FileSenderSend that data =>
      (6, sse_encode_usize that ++
          sse_encode_vec_u8 data)
  | ReceiveDecline that =>
      (7, sse_encode_usize that)
  | ReceiveListenError that sink =>
      (8, sse_encode_usize that ++
          sse_encode_string sink)
  | ReceiveListenFiles that =>
      (9, sse_encode_usize that)
  | ReceiveListenReceiving that sink =>
      (10, sse_encode_usize that ++
          sse_encode_string sink)
  | ReceiveListenStatus that sink =>
      (11, sse_encode_usize that ++
          sse_encode_string sink)
  | ReceiveSendFileStatus that status =>
      (12, sse_encode_usize that ++
          sse_encode_rtc_send_file_response status)
  | ReceiveSendPin that pin =>
      (13, sse_encode_usize that ++
          sse_encode_string pin)
  | ReceiveSendSelection that selection =>
      (14, sse_encode_usize that ++
          sse_encode_hash_set selection)
  | SendListenError that sink =>
      (15, sse_encode_usize that ++
          sse_encode_string sink)
  | SendListenSelectedFiles that =>
      (16, sse_encode_usize that)
  | SendListenStatus that sink =>
      (17, sse_encode_usize that ++
          sse_encode_string sink)
  | SendSendFile that file_id =>
      (18, sse_encode_usize that ++
          sse_encode_string file_id)
  | SendSendPin that pin =>
      (19, sse_encode_usize that ++
          sse_encode_string pin)
  | Connect sink uri info private_key on_connection =>
      (20, sse_encode_string sink ++
          sse_encode_string uri ++
          sse_encode_proposing_client_info info ++
          sse_encode_string private_key ++
          sse_encode_isize on_connection)
  | EnableDebugLogging =>
      (21, [])
  | GenerateKeyPair =>
      (22, [])
  | VerifyCert cert public_key =>
      (23, sse_encode_string cert ++
          sse_encode_string public_key)
  end%Z.

(** What the Dart function that Rust calls answers with, read back: the value,
    or the panic that an exception becomes. *)
Definition dart_fn_answer (message : bytes) : anyres () :=
  let? p := (let* action := sse_decode_u8 in
             match action with
             | 0 => let* ok := sse_decode_unit in dec_ret (inl ok)
             | 1 => let* err := sse_decode_anyhow in dec_ret (inr err)
             | _ => dec_panic "internal error: entered unreachable code"
             end%Z) message in
  check? deserializer_end p.2 in
  match p.1 with
  | inl ok => Ok ok
  | inr err => Panic "Dart throws exception but Rust side assume it is not failable"
  end.
End wire.
