(* ===== verification/BridgeWireProps.v ===== *)
(** * Calls over the bridge: theorems

    A call of the application arrives as it was made; what goes wrong with a
    message that is not one. *)

From S2P Require Import Prelude Signaling RtcTypes AppBridge BridgeCodec BridgeCodecProps BridgeWire.

#[local] Open Scope sse_scope.

Section props.
Context `{BridgeTargetLaws}.

(** The arguments the application may pass. *)
Definition call_wf (c : Call) : Prop :=
  match c with
  | LsAcceptOffer that stun_servers offer private_key expecting_public_key pin =>
      uint_wf pointer_bytes that ∧ vec_wf string_wf stun_servers ∧ ws_server_sdp_message_wf offer ∧ string_wf private_key ∧ option_wf expecting_public_key_wf expecting_public_key ∧ option_wf pin_config_wf pin
  | LsSendOffer that stun_servers target private_key expecting_public_key pin files =>
      uint_wf pointer_bytes that ∧ vec_wf string_wf stun_servers ∧ uuid_wf target ∧ string_wf private_key ∧ option_wf expecting_public_key_wf expecting_public_key ∧ option_wf pin_config_wf pin ∧ vec_wf file_dto_wf files
  | LsUpdateInfo that info =>
      uint_wf pointer_bytes that ∧ client_info_without_id_wf info
  | FileReceiverGetFileId that =>
      uint_wf pointer_bytes that
  | FileReceiverReceive that sink =>
      uint_wf pointer_bytes that ∧ string_wf sink
  | FileSenderSend that data =>
      uint_wf pointer_bytes that ∧ fits data
  | ReceiveDecline that =>
      uint_wf pointer_bytes that
  | ReceiveListenError that sink =>
      uint_wf pointer_bytes that ∧ string_wf sink
  | ReceiveListenFiles that =>
      uint_wf pointer_bytes that
  | ReceiveListenReceiving that sink =>
      uint_wf pointer_bytes that ∧ string_wf sink
  | ReceiveListenStatus that sink =>
      uint_wf pointer_bytes that ∧ string_wf sink
  | ReceiveSendFileStatus that status =>
      uint_wf pointer_bytes that ∧ rtc_send_file_response_wf status
  | ReceiveSendPin that pin =>
      uint_wf pointer_bytes that ∧ string_wf pin
  | ReceiveSendSelection that selection =>
      uint_wf pointer_bytes that ∧ hash_set_wf selection
  | SendListenError that sink =>
      uint_wf pointer_bytes that ∧ string_wf sink
  | SendListenSelectedFiles that =>
      uint_wf pointer_bytes that
  | SendListenStatus that sink =>
      uint_wf pointer_bytes that ∧ string_wf sink
  | SendSendFile that file_id =>
      uint_wf pointer_bytes that ∧ string_wf file_id
  | SendSendPin that pin =>
      uint_wf pointer_bytes that ∧ string_wf pin
  | Connect sink uri info private_key on_connection =>
      string_wf sink ∧ string_wf uri ∧ proposing_client_info_wf info ∧ string_wf private_key ∧ uint_wf pointer_bytes on_connection
  | VerifyCert cert public_key =>
      string_wf cert ∧ string_wf public_key
  | _ => True
  end.
(** What a task locks: the object of the call; for itself alone in the two
    streams of a sending transfer. *)
Definition call_exclusive (c : Call) : bool :=
  match c with SendListenError _ _ | SendListenStatus _ _ => true | _ => false end.

Definition call_that (c : Call) : option Handle :=
  match c with
  | LsAcceptOffer that _ _ _ _ _ | LsSendOffer that _ _ _ _ _ _ | LsUpdateInfo that _
  | FileReceiverGetFileId that | FileReceiverReceive that _ | FileSenderSend that _
  | ReceiveDecline that | ReceiveListenError that _ | ReceiveListenFiles that
  | ReceiveListenReceiving that _ | ReceiveListenStatus that _ | ReceiveSendFileStatus that _
  | ReceiveSendPin that _ | ReceiveSendSelection that _
  | SendListenError that _ | SendListenSelectedFiles that | SendListenStatus that _
  | SendSendFile that _ | SendSendPin that _ => Some that
  | Connect _ _ _ _ _ | EnableDebugLogging | GenerateKeyPair | VerifyCert _ _ => None
  end.

Definition call_task (c : Call) : Task := mk_Task ((λ that, (that, call_exclusive c)) <$> call_that c) c.

Lemma from_wire_done args message t : args message = Ok (t, []) → from_wire args message = Ok t.
Proof. unfold from_wire. intros ->. simpl. by rewrite deserializer_end_done. Qed.

(** Whatever bytes a message has: what its task locks is what its call says. *)
Lemma from_wire_inv args message t : from_wire args message = Ok t → ∃ rest, args message = Ok (t, rest).
Proof.
  unfold from_wire. destruct (args message) as [[t' rest]| |]; simpl; try done.
  destruct (deserializer_end rest); simpl; try done. intros [= <-]. eauto.
Qed.

Lemma dec_bind_inv {A B} (d : decoder A) (k : A → decoder B) message b rest :
  dec_bind d k message = Ok (b, rest) → ∃ a message', k a message' = Ok (b, rest).
Proof. unfold dec_bind. destruct (d message) as [[a m']| |]; simpl; try done. eauto. Qed.

Lemma dispatched_task func_id message t :
  pde_ffi_dispatcher_primary func_id message = Ok t → t = call_task (t_call t).
Proof.
  unfold pde_ffi_dispatcher_primary. intros Ht. repeat case_match; try done.
  all: apply from_wire_inv in Ht as [rest Ht].
  all: repeat (apply dec_bind_inv in Ht as (? & ? & Ht)); by injection Ht as <- _.
Qed.

(** C10. A call of the application, with arguments whose texts are UTF-8 and
    whose lists are shorter than 2^31, arrives as that call with those
    arguments, whatever function it is for and whatever the platform; its
    task locks the object of the call, for itself alone exactly in the two
    streams of a sending transfer. *)
Theorem calls_arrive c :
  call_wf c →
  pde_ffi_dispatcher_primary (dart_message c).1 (dart_message c).2 = Ok (call_task c).
Proof.
  intros Hc. destruct c; simpl in *; destruct_and?; apply from_wire_done;
    rewrite <- (app_nil_r (_ : bytes)); by read_fields.
Qed.
End props.
