(* ===== verification/BridgeSystem.v ===== *)
(** * The running bridge

    The calls of the application run as tasks next to each other and next to
    the transfers.  An object of Rust that Dart holds is behind a lock of
    flutter_rust_bridge; a task waits for it, then runs the API function.
    The controllers are those of [AppBridge]; this file runs their operations
    on messages and in the order the locks allow. *)

From S2P Require Import Prelude Signaling RtcTypes AppBridge BridgeCodec BridgeWire.

(** ** The lock of an object

    [may_lock held waiting exclusive]: whether a task gets the lock that others
    [held] and [waiting] for, each for itself alone or not.  The laws are those
    of a reader/writer lock that may prefer writers. *)
Class ObjectLock := { may_lock : list bool → list bool → bool → bool }.

Class ObjectLockLaws `{ObjectLock} := {
  lock_exclusive held waiting : may_lock held waiting true = true → held = [];
  lock_shared held waiting : may_lock held waiting false = true → true ∉ held;
  lock_readers held waiting :
    true ∉ held → true ∉ waiting → may_lock held waiting false = true
}.

(** ** State *)

Inductive Phase := Waiting | Running | Done.

#[export] Instance Phase_eq_dec : EqDecision Phase.
Proof. solve_decision. Defined.

(** [br_ended] are the sending transfers whose task is over. *)
Record Bridge := mk_Bridge {
  br_tasks : list (Phase * Task);
  br_receiving : gmap Handle ReceiveController;
  br_sending : gmap Handle SendController;
  br_ended : gset Handle
}.

Definition guard_of (phase : Phase) (h : Handle) (pt : Phase * Task) : option bool :=
  if decide (pt.1 = phase) then
    match t_guard pt.2 with
    | Some (h', exclusive) => if decide (h' = h) then Some exclusive else None
    | None => None
    end
  else None.

(** How the tasks of a phase lock an object, or want to. *)
Definition guards (phase : Phase) (h : Handle) (tasks : list (Phase * Task)) : list bool :=
  omap (guard_of phase h) tasks.

(** The operation of a call on the controller of a receiving transfer. *)
Definition call_op (c : Call) : option (Handle * ReceiveOp) :=
  match c with
  | ReceiveListenStatus that _ => Some (that, ListenStatus)
  | ReceiveListenFiles that => Some (that, ListenFiles)
  | ReceiveSendPin that pin => Some (that, SendPin pin)
  | ReceiveSendSelection that selection => Some (that, SendSelection selection)
  | ReceiveDecline that => Some (that, Decline)
  | ReceiveListenError that _ => Some (that, ListenError)
  | ReceiveListenReceiving that _ => Some (that, ListenReceiving)
  | _ => None
  end.

(** The operation of a call on the controller of a sending transfer, when it is
    granted and when it returns: [send_file] waits for room in its channel. *)
Definition granted_op (c : Call) : option (Handle * SendOp) :=
  match c with
  | SendListenSelectedFiles that => Some (that, AwaitSelection)
  | SendSendPin that pin => Some (that, GivePin pin)
  | _ => None
  end.
Definition finished_op (c : Call) : option (Handle * SendOp) :=
  match c with
  | SendSendFile that file_id => Some (that, GiveFile file_id)
  | _ => None
  end.

(** ** Steps *)

(** [Arrive]: a message from Dart.  [Grant]: a task gets its lock and calls the
    API function.  [Finish]: the function returns.  [Transfer], [Sending]: a
    transfer acts on its ends of the channels.  [Accepted], [Offered]:
    [accept_offer] and [send_offer] return a controller.  [SendingEnds]: the
    task of a sending transfer is over. *)
Inductive Label :=
| Arrive (func_id : Z) (message : bytes)
| Grant (i : nat)
| Finish (i : nat)
| Transfer (h : Handle) (op : ReceiveOp)
| Accepted (h : Handle)
| Sending (h : Handle) (op : SendOp)
| Offered (h : Handle)
| SendingEnds (h : Handle).

(** The streams of a sending transfer last as long as its task, which holds the
    other ends of their channels, and [send_file] waits while the channel is
    full; nothing is said about when the other functions return. *)
Definition may_return (sending : gmap Handle SendController) (ended : gset Handle) (c : Call) : bool :=
  match c with
  | SendListenStatus that _ | SendListenError that _ => bool_decide (that ∈ ended)
  | SendSendFile that file_id =>
      match sending !! that with
      | Some c => bool_decide (is_Some (send_file file_id c).1)
      | None => true
      end
  | _ => true
  end.

(** The operations of the transfers themselves, between their start and end. *)
Definition is_transfer_op (op : ReceiveOp) : bool :=
  match op with TransferAsksPin | TransferPublishes _ | TransferEnds => true | _ => false end.
Definition is_sender_op (op : SendOp) : bool :=
  match op with SenderAsksPin | SenderPublishes _ | SenderTakesFile => true | _ => false end.

Section system.
Context `{BridgeTarget, ObjectLock}.

Definition lock_free (tasks : list (Phase * Task)) (i : nat) (t : Task) : bool :=
  match t_guard t with
  | Some (h, exclusive) =>
      may_lock (guards Running h tasks) (guards Waiting h (delete i tasks)) exclusive
  | None => true
  end.

Definition run_op (c : Call) (receiving : gmap Handle ReceiveController)
    : gmap Handle ReceiveController :=
  match call_op c with
  | Some (h, op) => alter (λ c, (receive_op op c).2) h receiving
  | None => receiving
  end.

Definition run_send_op (o : option (Handle * SendOp)) (sending : gmap Handle SendController)
    : gmap Handle SendController :=
  match o with
  | Some (h, op) => alter (send_op op) h sending
  | None => sending
  end.

Definition bridge_step (l : Label) (st : Bridge) : option Bridge :=
  let '(mk_Bridge tasks receiving sending ended) := st in
  match l with
  | Arrive func_id message =>
      match pde_ffi_dispatcher_primary func_id message with
      | Ok t => Some (mk_Bridge (tasks ++ [(Waiting, t)]) receiving sending ended)
      | _ => Some st
      end
  | Grant i =>
      match tasks !! i with
      | Some (Waiting, t) =>
          if lock_free tasks i t
          then Some (mk_Bridge (<[i := (Running, t)]> tasks) (run_op (t_call t) receiving)
                       (run_send_op (granted_op (t_call t)) sending) ended)
          else None
      | _ => None
      end
  | Finish i =>
      match tasks !! i with
      | Some (Running, t) =>
          if may_return sending ended (t_call t)
          then Some (mk_Bridge (<[i := (Done, t)]> tasks) receiving
                       (run_send_op (finished_op (t_call t)) sending) ended)
          else None
      | _ => None
      end
  | Transfer h op =>
      if is_transfer_op op
      then Some (mk_Bridge tasks (alter (λ c, (receive_op op c).2) h receiving) sending ended)
      else None
  | Accepted h =>
      match receiving !! h with
      | Some _ => None
      | None => Some (mk_Bridge tasks (<[h := receive_controller]> receiving) sending ended)
      end
  | Sending h op =>
      if is_sender_op op && bool_decide (h ∉ ended)
      then Some (mk_Bridge tasks receiving (alter (send_op op) h sending) ended)
      else None
  | Offered h =>
      match sending !! h with
      | Some _ => None
      | None => Some (mk_Bridge tasks receiving (<[h := send_controller]> sending) ended)
      end
  | SendingEnds h =>
      Some (mk_Bridge tasks receiving (alter (send_op SenderEnds) h sending) ({[h]} ∪ ended))
  end.

Fixpoint bridge_run (ls : list Label) (st : Bridge) : option Bridge :=
  match ls with
  | [] => Some st
  | l :: ls => st ← bridge_step l st; bridge_run ls st
  end.

Definition bridge_start : Bridge := mk_Bridge [] ∅ ∅ ∅.
Definition bridge_reachable (st : Bridge) : Prop := ∃ ls, bridge_run ls bridge_start = Some st.
End system.
