(* ===== verification/BridgeSystemProps.v ===== *)
(** * The running bridge: theorems

    What the locks guarantee, what they keep waiting, and that the controllers
    of [AppBridge] see the calls of the application one after the other. *)

From S2P Require Import Prelude Signaling RtcTypes AppBridge AppBridgeProps BridgeCodec BridgeCodecProps.
From S2P Require Import BridgeWire BridgeWireProps BridgeSystem.

Lemma elem_of_guards phase h tasks m :
  m ∈ guards phase h tasks ↔
  ∃ i t, tasks !! i = Some (phase, t) ∧ t_guard t = Some (h, m).
Proof.
  unfold guards. rewrite list_elem_of_omap. split.
  - intros ([p t] & Hin & Hg). apply list_elem_of_lookup in Hin as [i Hi].
    unfold guard_of in Hg. simpl in Hg. repeat case_decide; try done; simplify_eq.
    destruct (t_guard t) as [[h' m']|] eqn:Ht; [|done]. case_decide; simplify_eq. eauto.
  - intros (i & t & Hi & Ht). exists (phase, t).
    split; [by eapply list_elem_of_lookup_2|].
    unfold guard_of. simpl. by rewrite !decide_True, Ht, decide_True.
Qed.

Section props.
Context `{BridgeTargetLaws, ObjectLockLaws}.

Lemma bridge_run_app ls ls' st :
  bridge_run (ls ++ ls') st = bridge_run ls st ≫= bridge_run ls'.
Proof.
  revert st. induction ls as [|l ls IH]; intros st; [done|]. simpl.
  destruct (bridge_step l st); simpl; [apply IH|done].
Qed.

Lemma bridge_invariant (P : Bridge → Prop) :
  P bridge_start → (∀ l st st', P st → bridge_step l st = Some st' → P st') →
  ∀ ls st, bridge_run ls bridge_start = Some st → P st.
Proof.
  intros Hstart Hstep ls. induction ls as [|l ls IH] using rev_ind; intros st Hrun.
  - by simplify_eq/=.
  - rewrite bridge_run_app in Hrun. destruct (bridge_run ls bridge_start) as [st1|]; [|done].
    simpl in Hrun. destruct (bridge_step l st1) eqn:Hs; simplify_eq/=. eauto.
Qed.

(** What a step does to the tasks: it starts one, moves one, or leaves them. *)
Lemma bridge_step_tasks l st st' :
  bridge_step l st = Some st' →
  (∃ t, br_tasks st' = br_tasks st ++ [(Waiting, t)]) ∨
  (∃ i t, br_tasks st !! i = Some (Waiting, t) ∧ lock_free (br_tasks st) i t = true ∧
     br_tasks st' = <[i := (Running, t)]> (br_tasks st)) ∨
  (∃ i t, br_tasks st !! i = Some (Running, t) ∧ may_return (br_sending st) (br_ended st) (t_call t) = true ∧
     br_tasks st' = <[i := (Done, t)]> (br_tasks st)) ∨
  br_tasks st' = br_tasks st.
Proof.
  destruct st as [tasks receiving sending ended].
  destruct l as [f m|i|i|h op|h|h op|h|h]; intros Hs; simpl in *; repeat case_match; simplify_eq/=; eauto 10.
Qed.

(** Only a message starts a task. *)
Lemma arrive_step l st st' t :
  bridge_step l st = Some st' → br_tasks st' = br_tasks st ++ [(Waiting, t)] →
  ∃ func_id message, l = Arrive func_id message ∧ pde_ffi_dispatcher_primary func_id message = Ok t.
Proof.
  destruct st as [tasks receiving sending ended]. intros Hs Heq. apply (f_equal length) in Heq as Hlen.
  rewrite length_app in Hlen. simpl in Hlen.
  destruct l as [f m|?|?|? ?|?|? ?|?|?]; simpl in Hs; repeat case_match; simplify_eq/=;
    rewrite ?length_insert in Hlen; try lia.
  eauto.
Qed.

(** ** Locks *)

Definition locks_ok (st : Bridge) : Prop := ∀ i j t t' h m m',
  i ≠ j → br_tasks st !! i = Some (Running, t) → br_tasks st !! j = Some (Running, t') →
  t_guard t = Some (h, m) → t_guard t' = Some (h, m') → m = false ∧ m' = false.

Lemma grant_ok tasks i t j t' h m m' :
  lock_free tasks i t = true → tasks !! j = Some (Running, t') →
  t_guard t = Some (h, m) → t_guard t' = Some (h, m') → m = false ∧ m' = false.
Proof.
  unfold lock_free. intros Hfree Hj Ht Ht'. rewrite Ht in Hfree.
  assert (m' ∈ guards Running h tasks) as Hm' by (apply elem_of_guards; eauto).
  destruct m.
  - apply lock_exclusive in Hfree. rewrite Hfree in Hm'. by apply elem_of_nil in Hm'.
  - apply lock_shared in Hfree. by destruct m'.
Qed.

Lemma locks_ok_step l st st' : locks_ok st → bridge_step l st = Some st' → locks_ok st'.
Proof.
  intros Hok Hs i j t t' h m m' Hij Hi Hj Ht Ht'.
  destruct (bridge_step_tasks _ _ _ Hs) as [[t1 Heq]|[(k & t1 & Hk & Hfree & Heq)|[(k & t1 & Hk & _ & Heq)|Heq]]];
    rewrite Heq in Hi, Hj; try (by eapply (Hok i j)).
  - apply lookup_snoc_Some in Hi as [[_ Hi]|[_ ?]]; [|done].
    apply lookup_snoc_Some in Hj as [[_ Hj]|[_ ?]]; [|done]. by eapply (Hok i j).
  - apply list_lookup_insert_Some in Hi as [(? & ? & _)|[? Hi]];
      apply list_lookup_insert_Some in Hj as [(? & ? & _)|[? Hj]]; simplify_eq.
    + by eapply grant_ok.
    + destruct (grant_ok (br_tasks st) j t' i t h m' m); auto.
    + by eapply (Hok i j).
  - apply list_lookup_insert_Some in Hi as [(? & ? & _)|[? Hi]]; [by simplify_eq|].
    apply list_lookup_insert_Some in Hj as [(? & ? & _)|[? Hj]]; [by simplify_eq|].
    by eapply (Hok i j).
Qed.

Lemma reachable_locks_ok ls st : bridge_run ls bridge_start = Some st → locks_ok st.
Proof. apply bridge_invariant; [by intros i|apply locks_ok_step]. Qed.

(** The streams of a sending transfer, whose functions lock its controller for
    themselves. *)
Definition stream_of (h : Handle) (c : Call) : Prop :=
  ∃ sink, c = SendListenStatus h sink ∨ c = SendListenError h sink.

Lemma stream_guard h c : stream_of h c → t_guard (call_task c) = Some (h, true).
Proof. by intros [sink [-> | ->]]. Qed.

Lemma stream_lasts h c sending ended : stream_of h c → h ∉ ended → may_return sending ended c = false.
Proof. intros [sink [-> | ->]] Hh; simpl; by apply bool_decide_eq_false. Qed.

(** A running task only stops by returning. *)
Lemma running_step l st st' i t :
  bridge_step l st = Some st' → br_tasks st !! i = Some (Running, t) →
  may_return (br_sending st) (br_ended st) (t_call t) = false →
  br_tasks st' !! i = Some (Running, t).
Proof.
  intros Hs Hi Hret.
  destruct (bridge_step_tasks _ _ _ Hs) as [[t1 ->]|[(k & t1 & Hk & _ & ->)|[(k & t1 & Hk & Hk' & ->)| ->]]];
    [by apply lookup_app_l_Some| | |done];
    (rewrite list_lookup_insert_ne; [done|intros ->; simplify_eq; congruence]).
Qed.

Lemma step_ended l st st' h :
  bridge_step l st = Some st' → l ≠ SendingEnds h → h ∉ br_ended st → h ∉ br_ended st'.
Proof.
  destruct st as [tasks receiving sending ended].
  destruct l as [f m|i|i|h' op|h'|h' op|h'|h']; intros Hs Hl Hh; simpl in *; repeat case_match; simplify_eq/=;
    try done. set_solver.
Qed.

(** As long as the transfer lasts, its stream goes on and holds the lock. *)
Lemma stream_holds ls st ls' st' i h c :
  bridge_run ls bridge_start = Some st →
  br_tasks st !! i = Some (Running, call_task c) → stream_of h c → h ∉ br_ended st →
  SendingEnds h ∉ ls' → bridge_run ls' st = Some st' →
  br_tasks st' !! i = Some (Running, call_task c) ∧ h ∉ br_ended st' ∧
  ∀ j t m, j ≠ i → t_guard t = Some (h, m) → br_tasks st' !! j ≠ Some (Running, t).
Proof.
  intros Hrun Hi Hc Hh Hls'. revert ls st Hrun Hi Hh.
  induction ls' as [|l ls' IH]; intros ls st Hrun Hi Hh Hrun'.
  - simplify_eq/=. split_and!; [done..|]. intros j t m Hji Ht Hj.
    by destruct (reachable_locks_ok _ _ Hrun i j _ _ h true m ltac:(done) Hi Hj (stream_guard _ _ Hc)).
  - simpl in Hrun'. destruct (bridge_step l st) as [st1|] eqn:Hs; simplify_eq/=.
    apply not_elem_of_cons in Hls' as [Hl Hls'].
    apply (IH Hls' (ls ++ [l]) st1); [| |by eapply step_ended|done].
    + rewrite bridge_run_app, Hrun. simpl. by rewrite Hs.
    + eapply running_step; [exact Hs|exact Hi|]. by apply stream_lasts with h.
Qed.

(** A call whose object nobody locks for himself alone never waits: this
    holds for every call on a receiving transfer, a file or the connection. *)
Theorem shared_calls_start st i t h :
  br_tasks st !! i = Some (Waiting, t) → t_guard t = Some (h, false) →
  (∀ j q t', br_tasks st !! j = Some (q, t') → t_guard t' ≠ Some (h, true)) →
  ∃ st', bridge_step (Grant i) st = Some st' ∧ br_tasks st' !! i = Some (Running, t).
Proof.
  destruct st as [tasks receiving sending ended]. simpl. intros Hi Ht Hothers. rewrite Hi.
  unfold lock_free. rewrite Ht, lock_readers.
  - eexists. split; [done|]. simpl. apply list_lookup_insert_eq. by eapply lookup_lt_Some.
  - intros (j & t' & Hj & Ht')%elem_of_guards. by eapply Hothers.
  - intros (j & t' & Hj & Ht')%elem_of_guards.
    destruct (decide (j < i)).
    + rewrite list_lookup_delete_lt in Hj by done. by eapply Hothers.
    + rewrite list_lookup_delete_ge in Hj by lia. by eapply Hothers.
Qed.

(** ** The controllers

    What holds for the controllers of receiving and of sending transfers
    alike: [controllers] are those of a state, [label_op] is the operation a
    step makes on one of them, and [created] the controller it makes. *)

Section controllers.
Context {C Op : Type} (init : C) (apply_op : C → Op → C) (controllers : Bridge → gmap Handle C).
Context (label_op : Bridge → Label → option (Handle * Op)) (created : Label → option Handle).

Definition op_on (h : Handle) (st : Bridge) (l : Label) : list Op :=
  match controllers st !! h, label_op st l with
  | Some _, Some (h', op) => if decide (h' = h) then [op] else []
  | _, _ => []
  end.

(** The operations of a run on the controller, in their order. *)
Fixpoint ops_on (h : Handle) (ls : list Label) (st : Bridge) : list Op :=
  match ls with
  | [] => []
  | l :: ls =>
      op_on h st l ++
      match bridge_step l st with Some st' => ops_on h ls st' | None => [] end
  end.

Lemma alter_op (h h' : Handle) op (m : gmap Handle C) :
  alter (λ c, apply_op c op) h' m !! h =
  fold_left apply_op (if decide (h' = h) then [op] else []) <$> m !! h.
Proof.
  case_decide; subst.
  - by rewrite lookup_alter_eq.
  - rewrite lookup_alter_ne by done. by destruct (m !! h).
Qed.

(** A step makes the controller, does its operation, or leaves it. *)
Definition steps_controllers : Prop := ∀ l st st',
  bridge_step l st = Some st' →
  controllers st' =
    match label_op st l with
    | Some (h, op) => alter (λ c, apply_op c op) h (controllers st)
    | None => match created l with
              | Some h => <[h := init]> (controllers st)
              | None => controllers st
              end
    end ∧ (∀ h, created l = Some h → controllers st !! h = None).

Context (Hsteps : steps_controllers).

Lemma op_on_step h l st st' :
  bridge_step l st = Some st' →
  controllers st' !! h =
    match controllers st !! h with
    | Some c => Some (fold_left apply_op (op_on h st l) c)
    | None => match created l, label_op st l with
              | Some h', None => if decide (h' = h) then Some init else None
              | _, _ => None
              end
    end.
Proof.
  intros Hs. destruct (Hsteps _ _ _ Hs) as [-> Hnew]. unfold op_on.
  destruct (label_op st l) as [[h' op]|].
  - rewrite alter_op. destruct (controllers st !! h); [done|]. by destruct (created l).
  - destruct (created l) as [h'|]; [|by destruct (controllers st !! h)].
    specialize (Hnew _ eq_refl). case_decide as Hh.
    + subst. by rewrite lookup_insert_eq, Hnew.
    + rewrite lookup_insert_ne by done. by destruct (controllers st !! h).
Qed.

Lemma controllers_run h ls st st' c' :
  bridge_run ls st = Some st' → controllers st' !! h = Some c' →
  c' = fold_left apply_op (ops_on h ls st) (default init (controllers st !! h)).
Proof.
  revert st. induction ls as [|l ls IH]; intros st Hrun Hc'; simpl in *.
  - simplify_eq. by rewrite Hc'.
  - destruct (bridge_step l st) as [st1|] eqn:Hs; simplify_eq/=.
    rewrite (IH st1) by done. rewrite fold_left_app. f_equal.
    rewrite (op_on_step _ _ _ _ Hs). unfold op_on.
    destruct (controllers st !! h); [done|]. repeat case_match; done.
Qed.

(** A controller stays. *)
Lemma controllers_stay h ls st st' :
  bridge_run ls st = Some st' → is_Some (controllers st !! h) → is_Some (controllers st' !! h).
Proof.
  revert st. induction ls as [|l ls IH]; intros st Hrun [c Hc]; simpl in *; [by simplify_eq; eauto|].
  destruct (bridge_step l st) as [st1|] eqn:Hs; simplify_eq/=.
  apply (IH st1); [done|]. rewrite (op_on_step _ _ _ _ Hs), Hc. eauto.
Qed.

(** Every operation of a run belongs to one of its steps. *)
Lemma ops_on_step h ls st st' op :
  bridge_run ls st = Some st' → op ∈ ops_on h ls st →
  ∃ ls1 l ls2 st1 st2, ls = ls1 ++ l :: ls2 ∧ bridge_run ls1 st = Some st1 ∧
    bridge_step l st1 = Some st2 ∧ label_op st1 l = Some (h, op).
Proof.
  revert st. induction ls as [|l ls IH]; intros st Hrun Hop; [by apply elem_of_nil in Hop|].
  simpl in *. destruct (bridge_step l st) as [st2|] eqn:Hs; [|done]. simpl in Hrun.
  apply elem_of_app in Hop as [Hop|Hop].
  - unfold op_on in Hop. destruct (controllers st !! h); [|by apply elem_of_nil in Hop].
    destruct (label_op st l) as [[h' op']|] eqn:Hl; [|by apply elem_of_nil in Hop].
    case_decide; [|by apply elem_of_nil in Hop]. apply list_elem_of_singleton in Hop as ->. subst.
    by exists [], l, ls, st, st2.
  - destruct (IH st2 Hrun Hop) as (ls1 & l' & ls2 & st1 & st3 & -> & Hrun1 & Hs1 & Hl).
    exists (l :: ls1), l', ls2, st1, st3. split_and!; try done. simpl. by rewrite Hs.
Qed.
End controllers.

(** The operation of a granted or a returning task. *)
Definition task_op {A} (phase : Phase) (f : Call → option A) (st : Bridge) (i : nat) : option A :=
  match br_tasks st !! i with
  | Some (p, t) => if decide (p = phase) then f (t_call t) else None
  | None => None
  end.

Definition receive_label_op (st : Bridge) (l : Label) : option (Handle * ReceiveOp) :=
  match l with
  | Grant i => task_op Waiting call_op st i
  | Transfer h op => Some (h, op)
  | _ => None
  end.
Definition receive_created (l : Label) : option Handle :=
  match l with Accepted h => Some h | _ => None end.

Definition send_label_op (st : Bridge) (l : Label) : option (Handle * SendOp) :=
  match l with
  | Grant i => task_op Waiting granted_op st i
  | Finish i => task_op Running finished_op st i
  | Sending h op => Some (h, op)
  | SendingEnds h => Some (h, SenderEnds)
  | _ => None
  end.
Definition send_created (l : Label) : option Handle :=
  match l with Offered h => Some h | _ => None end.

Definition apply_receive (c : ReceiveController) (op : ReceiveOp) : ReceiveController := (receive_op op c).2.
Definition apply_send (c : SendController) (op : SendOp) : SendController := send_op op c.

Lemma receiving_steps :
  steps_controllers receive_controller apply_receive br_receiving receive_label_op receive_created.
Proof.
  intros l [tasks receiving sending ended] st' Hs. unfold receive_label_op, task_op, run_op in *.
  destruct l as [f m|i|i|h op|h|h op|h|h]; simpl in *; unfold run_op in *;
    repeat case_match; simplify_eq/=; try done;
    (split; [done|]); intros ? [= <-]; done.
Qed.

Lemma sending_steps :
  steps_controllers send_controller apply_send br_sending send_label_op send_created.
Proof.
  intros l [tasks receiving sending ended] st' Hs. unfold send_label_op, task_op in *.
  destruct l as [f m|i|i|h op|h|h op|h|h]; simpl in *; unfold run_send_op in *;
    repeat case_match; simplify_eq/=; try done;
    (split; [done|]); intros ? [= <-]; done.
Qed.

(** The operations of a run on the controller of a receiving and of a sending
    transfer. *)
Abbreviation receiving_ops := (ops_on br_receiving receive_label_op).
Abbreviation sending_ops := (ops_on br_sending send_label_op).

(** ** Operations come from calls *)

(** The application has made this call: a message of it has arrived. *)
Definition called (ls : list Label) (call : Call) : Prop := ∃ func_id message t,
  Arrive func_id message ∈ ls ∧ pde_ffi_dispatcher_primary func_id message = Ok t ∧ t_call t = call.

Lemma called_app ls ls' call : called ls call → called (ls ++ ls') call.
Proof.
  intros (f & m & t & Hin & Ht). exists f, m, t. split; [|done].
  apply elem_of_app. by left.
Qed.

(** Every task comes from a message, and locks what its call says. *)
Definition tasks_called (ls : list Label) (st : Bridge) : Prop :=
  ∀ i q t, br_tasks st !! i = Some (q, t) → called ls (t_call t) ∧ t = call_task (t_call t).

Lemma reachable_tasks_called ls st : bridge_run ls bridge_start = Some st → tasks_called ls st.
Proof.
  revert st. induction ls as [|l ls IH] using rev_ind; intros st Hrun i q t Hi; [by simplify_eq/=|].
  rewrite bridge_run_app in Hrun. destruct (bridge_run ls bridge_start) as [st1|] eqn:Hrun1; [|done].
  simpl in Hrun. destruct (bridge_step l st1) as [st2|] eqn:Hs; simplify_eq/=.
  assert (∀ j q t, br_tasks st1 !! j = Some (q, t) → called (ls ++ [l]) (t_call t) ∧ t = call_task (t_call t))
    as Hold.
  { intros j q' t' Hj. destruct (IH st1 eq_refl j q' t' Hj). auto using called_app. }
  destruct (bridge_step_tasks _ _ _ Hs) as [[t1 Heq]|[(k & t1 & Hk & _ & Heq)|[(k & t1 & Hk & _ & Heq)|Heq]]].
  - destruct (arrive_step _ _ _ _ Hs Heq) as (f & m & -> & Ht1).
    rewrite Heq in Hi. apply lookup_snoc_Some in Hi as [[_ Hi]|[_ ?]]; [by eapply Hold|]. simplify_eq.
    split; [|by eapply dispatched_task]. exists f, m, t. split; [|done].
    apply elem_of_app. right. apply list_elem_of_here.
  - rewrite Heq in Hi. apply list_lookup_insert_Some in Hi as [(? & ? & _)|[? Hi]]; simplify_eq; by eapply Hold.
  - rewrite Heq in Hi. apply list_lookup_insert_Some in Hi as [(? & ? & _)|[? Hi]]; simplify_eq; by eapply Hold.
  - rewrite Heq in Hi. by eapply Hold.
Qed.

Lemma task_op_called {A} phase (f : Call → option A) ls st i x :
  bridge_run ls bridge_start = Some st → task_op phase f st i = Some x →
  ∃ call, called ls call ∧ f call = Some x.
Proof.
  unfold task_op. intros Hrun Hx. destruct (br_tasks st !! i) as [[q t]|] eqn:Hi; [|done].
  case_decide; [|done]. destruct (reachable_tasks_called _ _ Hrun _ _ _ Hi) as [Hc _]. eauto.
Qed.

Lemma receiving_op_called h ls st op :
  bridge_run ls bridge_start = Some st → op ∈ receiving_ops h ls bridge_start → is_transfer_op op = false →
  ∃ call, called ls call ∧ call_op call = Some (h, op).
Proof.
  intros Hrun Hop Hnt.
  destruct (ops_on_step _ _ _ _ _ _ _ Hrun Hop) as (ls1 & l & ls2 & st1 & st2 & -> & Hrun1 & Hs & Hl).
  destruct l; simpl in Hl; try done.
  - destruct (task_op_called _ _ _ _ _ _ Hrun1 Hl) as (call & Hc & Hop'). eauto using called_app.
  - simplify_eq. destruct st1. simpl in Hs. by rewrite Hnt in Hs.
Qed.

(** What the application does to a sending controller. *)
Definition app_op (op : SendOp) : Prop :=
  match op with AwaitSelection | GivePin _ | GiveFile _ => True | _ => False end.

Lemma sending_op_called h ls st op :
  bridge_run ls bridge_start = Some st → op ∈ sending_ops h ls bridge_start → app_op op →
  ∃ call, called ls call ∧ (granted_op call = Some (h, op) ∨ finished_op call = Some (h, op)).
Proof.
  intros Hrun Hop Happ.
  destruct (ops_on_step _ _ _ _ _ _ _ Hrun Hop) as (ls1 & l & ls2 & st1 & st2 & -> & Hrun1 & Hs & Hl).
  destruct l; simpl in Hl; try done.
  - destruct (task_op_called _ _ _ _ _ _ Hrun1 Hl) as (call & Hc & Hop'). eauto using called_app.
  - destruct (task_op_called _ _ _ _ _ _ Hrun1 Hl) as (call & Hc & Hop'). eauto using called_app.
  - simplify_eq. destruct st1. simpl in Hs. by destruct op.
  - by simplify_eq.
Qed.

Lemma receiving_controller ls st h c :
  bridge_run ls bridge_start = Some st → br_receiving st !! h = Some c →
  c = receive_ops (receiving_ops h ls bridge_start) receive_controller.
Proof.
  intros Hrun Hc. by rewrite (controllers_run _ _ _ _ _ receiving_steps h ls _ _ _ Hrun Hc).
Qed.

Lemma sending_controller ls st h c :
  bridge_run ls bridge_start = Some st → br_sending st !! h = Some c →
  c = send_ops (sending_ops h ls bridge_start) send_controller.
Proof.
  intros Hrun Hc. by rewrite (controllers_run _ _ _ _ _ sending_steps h ls _ _ _ Hrun Hc).
Qed.

(** C37. Whatever messages arrive, in whatever order the tasks get their locks
    and the transfers act, the controllers of a receiving and of a sending
    transfer are where sequences of operations on them lead, each made by a
    call of the application or by the transfer; so the receiving transfer
    gets the first decision of its sequence. *)
Theorem bridge_refines_controllers ls st h :
  bridge_run ls bridge_start = Some st →
  (∀ c, br_receiving st !! h = Some c →
     let ops := receiving_ops h ls bridge_start in
     c = receive_ops ops receive_controller ∧ os_value (rv_selected c) = first_decision ops ∧
     ∀ op, op ∈ ops → is_transfer_op op = false →
       ∃ call, called ls call ∧ call_op call = Some (h, op)) ∧
  (∀ c, br_sending st !! h = Some c →
     let ops := sending_ops h ls bridge_start in
     c = send_ops ops send_controller ∧
     ∀ op, op ∈ ops → app_op op →
       ∃ call, called ls call ∧ (granted_op call = Some (h, op) ∨ finished_op call = Some (h, op))).
Proof.
  intros Hrun. split; intros c Hc ops.
  - pose proof (receiving_controller _ _ _ _ Hrun Hc) as Heq. fold ops in Heq.
    split_and!; [done| |intros op Hop Hnt; by eapply receiving_op_called].
    rewrite Heq. destruct (receive_ops_decision ops receive_controller) as [(_ & [_ ->] & ->)|(_ & [Hv _])]; done.
  - split; [by apply sending_controller with st|]. intros op Hop Happ. by eapply sending_op_called.
Qed.

(** ** Streams keep the application from its controller *)

(** The operations of the application are those of calls that lock the
    controller, with others. *)
Lemma app_call_guard h op call :
  granted_op call = Some (h, op) ∨ finished_op call = Some (h, op) → t_guard (call_task call) = Some (h, false).
Proof. intros [Hop|Hop]; destruct call; simplify_eq/=; done. Qed.

Lemma task_op_guard phase f ls st k h op :
  bridge_run ls bridge_start = Some st → task_op phase f st k = Some (h, op) →
  (∀ call, f call = Some (h, op) → granted_op call = Some (h, op) ∨ finished_op call = Some (h, op)) →
  ∃ t, br_tasks st !! k = Some (phase, t) ∧ t_guard t = Some (h, false).
Proof.
  unfold task_op. intros Hrun Hx Hf. destruct (br_tasks st !! k) as [[q t]|] eqn:Hk; [|done].
  case_decide; [|done]. subst. exists t. split; [done|].
  destruct (reachable_tasks_called _ _ Hrun _ _ _ Hk) as [_ ->]. by eapply app_call_guard, Hf.
Qed.

Lemma stream_silences ls st ls' st' i h c :
  bridge_run ls bridge_start = Some st →
  br_tasks st !! i = Some (Running, call_task c) → stream_of h c → h ∉ br_ended st →
  SendingEnds h ∉ ls' → bridge_run ls' st = Some st' →
  br_tasks st' !! i = Some (Running, call_task c) ∧
  (∀ j t m, j ≠ i → t_guard t = Some (h, m) → br_tasks st' !! j ≠ Some (Running, t)) ∧
  ∀ op, op ∈ sending_ops h ls' st → ¬ app_op op.
Proof.
  intros Hrun Hi Hc Hh Hls' Hrun'.
  destruct (stream_holds ls st ls' st' i h c) as (Hi' & _ & Hothers); [done..|]. split_and!; [done..|].
  intros op Hop Happ.
  destruct (ops_on_step _ _ _ _ _ _ _ Hrun' Hop) as (ls1 & l & ls2 & st1 & st2 & -> & Hrun1 & Hs & Hl).
  assert (SendingEnds h ∉ ls1) as Hls1 by set_solver.
  destruct (stream_holds ls st ls1 st1 i h c) as (Hi1 & _ & Hothers1); [done..|].
  assert (bridge_run (ls ++ ls1) bridge_start = Some st1) as Hreach by (by rewrite bridge_run_app, Hrun).
  destruct l as [?|k|k|?|?|h' op'|?|h']; simpl in Hl; try done.
  - destruct (task_op_guard _ _ _ _ _ _ _ Hreach Hl) as (t & Hk & Hg); [by left|].
    assert (k ≠ i) as Hki by congruence.
    destruct (stream_holds ls st (ls1 ++ [Grant k]) st2 i h c) as (_ & _ & Hothers2); [done..| | |].
    + set_solver.
    + rewrite bridge_run_app, Hrun1. simpl. by rewrite Hs.
    + apply (Hothers2 k t false Hki Hg). destruct st1 as [tasks receiving sending ended]. simpl in *.
      rewrite Hk in Hs. case_match; simplify_eq/=. apply list_lookup_insert_eq. by eapply lookup_lt_Some.
  - destruct (task_op_guard _ _ _ _ _ _ _ Hreach Hl) as (t & Hk & Hg); [by right|].
    apply (Hothers1 k t false); [|done..]. intros ->. rewrite Hi1 in Hk. simplify_eq.
    by rewrite (stream_guard h c Hc) in Hg.
  - simplify_eq. destruct st1. simpl in Hs. by destruct op.
  - by simplify_eq.
Qed.

(** While the application listens to the status or to the errors of a
    sending transfer, and the transfer lasts, no other call on its controller
    runs or begins to run: the controller sees no operation of the
    application, no PIN, no file, no request for the selection. *)
Theorem status_stream_blocks ls st ls' st' i h c :
  bridge_run ls bridge_start = Some st →
  br_tasks st !! i = Some (Running, call_task c) → stream_of h c → h ∉ br_ended st →
  SendingEnds h ∉ ls' → bridge_run ls' st = Some st' →
  br_tasks st' !! i = Some (Running, call_task c) ∧
  (∀ j t m, j ≠ i → t_guard t = Some (h, m) → br_tasks st' !! j ≠ Some (Running, t)) ∧
  ∀ op, op ∈ sending_ops h ls' st → ¬ app_op op.
Proof. apply stream_silences. Qed.
End props.

Abbreviation receiving_ops := (ops_on br_receiving receive_label_op).
Abbreviation sending_ops := (ops_on br_sending send_label_op).
