(* ===== verification/AppTransfer.v ===== *)
(** * A transfer under the control of the application

    [send_offer] and [accept_offer] of [app/rust/src/api/webrtc.rs] give the
    transfer the ends of the channels whose other ends the controller holds.
    Here a controller of [AppBridge], in the state a run of [BridgeSystem]
    leaves it in, answers the questions of the task of [Rtc]. *)

From S2P Require Import Prelude Serde Signaling Crypto CryptoProps RtcTypes Interaction Rtc RtcEnv.
From S2P Require Import RtcRoutines RtcSafety RtcPair RtcTransfer RtcChallenge RtcSession.
From S2P Require Import AppBridge AppBridgeProps BridgeCodec BridgeWire BridgeWireProps BridgeSystem BridgeSystemProps.

(** What the transfer gets for the PINs it asks for, one after the other, up to
    the challenge that is still open. *)
Fixpoint pins_given (channels : list (Oneshot string)) : list (option (option string)) :=
  match channels with
  | [] => []
  | ch :: channels =>
      match oneshot_recv ch with
      | Some answer => Some answer :: pins_given channels
      | None => []
      end
  end.

(** The surroundings [w] of a task, but for the decision about the files and
    the PINs, which are those of the controller.  What a channel has given
    once it gives for good, so the last state of the controller stands for
    all the states it was in. *)
Definition controlled (c : ReceiveController) (w : env) : env :=
  mk_env (inbox w) (closed w) (sends_left w) (statuses_left w) (deliveries_left w) (buffered w)
    (timers w) (nonces w) (uuids w) (pins_given (ps_channels (rv_pin c))) (pairs w)
    (oneshot_recv (rv_selected c)) (files w) (current w) (user_results w) (opened w) (listening w)
    (log w).

(** The same for a sending transfer, which asks for PINs only. *)
Definition controlled_sender (c : SendController) (w : env) : env :=
  set_pins (pins_given (ps_channels (sd_pin c))) w.

(** ** Answers come from operations *)

Lemma oneshot_recv_value {A} (ch : Oneshot A) v : oneshot_recv ch = Some (Some v) → os_value ch = Some v.
Proof. unfold oneshot_recv. repeat case_match; by intros; simplify_eq. Qed.

Lemma pins_given_value channels pin :
  Some (Some pin) ∈ pins_given channels → Some pin ∈ os_value <$> channels.
Proof.
  induction channels as [|ch channels IH]; simpl; [by intros ?%elem_of_nil|].
  destruct (oneshot_recv ch) as [answer|] eqn:Hch; [|by intros ?%elem_of_nil].
  rewrite !elem_of_cons. intros [[= <-]|Hin]; [left; by rewrite (oneshot_recv_value ch pin)|right; auto].
Qed.

Lemma first_decision_op ops d :
  first_decision ops = Some d → ∃ op, op ∈ ops ∧ decision_of op = Some d.
Proof.
  induction ops as [|op ops IH]; simpl; [done|]. intros Hd.
  destruct (decision_of op) as [d'|] eqn:Hop.
  - exists op. split; [apply list_elem_of_here|]. by destruct op; simplify_eq/=.
  - destruct IH as (op' & ? & ?); [by destruct op; simplify_eq/=|].
    exists op'. split; [by apply list_elem_of_further|done].
Qed.

(** The PINs in the channels of a slot. *)
Definition pins_in (s : PinSlot) : list (option string) := os_value <$> ps_channels s.

Lemma store_pin_sender_pins s : pins_in (store_pin_sender s) = pins_in s ++ [None].
Proof.
  unfold pins_in, store_pin_sender. simpl. rewrite fmap_app. f_equal.
  destruct (ps_slot s) as [n|]; [|done]. apply list_eq. intros i. rewrite !list_lookup_fmap.
  destruct (decide (n = i)) as [->|]; [rewrite list_lookup_alter_eq|by rewrite list_lookup_alter_ne].
  by destruct (ps_channels s !! i).
Qed.

Lemma slot_send_pin_pins pin s p :
  Some p ∈ pins_in (slot_send_pin pin s).2 → p = pin ∨ Some p ∈ pins_in s.
Proof.
  unfold slot_send_pin. destruct (ps_slot s) as [n|]; [|by right].
  destruct (oneshot_send pin _) as [sent ch] eqn:Hch. unfold pins_in. simpl.
  intros [i Hi]%list_elem_of_lookup. rewrite list_lookup_fmap in Hi.
  destruct (<[n:=ch]> (ps_channels s) !! i) as [ch'|] eqn:Hl; simplify_eq/=.
  apply list_lookup_insert_Some in Hl as [(-> & -> & Hlt)|[_ Hl]].
  - apply lookup_lt_is_Some in Hlt as [ch0 Hch0]. rewrite Hch0 in Hch. simpl in Hch.
    unfold oneshot_send in Hch. case_match; simplify_eq/=; [by left|right].
    apply list_elem_of_lookup. exists i. rewrite list_lookup_fmap, Hch0. simpl. by f_equal.
  - right. apply list_elem_of_lookup. exists i. rewrite list_lookup_fmap, Hl. simpl. by f_equal.
Qed.

Lemma receive_op_pins op c p :
  Some p ∈ pins_in (rv_pin (receive_op op c).2) → op = SendPin p ∨ Some p ∈ pins_in (rv_pin c).
Proof.
  destruct c as [st fr sl er rc slot fs selected]. destruct op; simpl; auto.
  - destruct fr; auto.
  - pose proof (slot_send_pin_pins pin slot p) as Hpin.
    destruct (slot_send_pin pin slot); simpl in *. intros Hp. destruct (Hpin Hp) as [->|]; auto.
  - destruct sl; [destruct (oneshot_send _ _)|]; auto.
  - destruct sl; [destruct (oneshot_send _ _)|]; auto.
  - rewrite store_pin_sender_pins. set_solver.
  - unfold pins_in. simpl. rewrite <- list_fmap_compose. auto.
Qed.

Lemma receive_ops_pins ops c p :
  Some p ∈ pins_in (rv_pin (receive_ops ops c)) → SendPin p ∈ ops ∨ Some p ∈ pins_in (rv_pin c).
Proof.
  revert c. induction ops as [|op ops IH]; intros c Hp; [by right|].
  destruct (IH _ Hp) as [Hin|Hin]; [left; by apply list_elem_of_further|].
  apply receive_op_pins in Hin as [->|]; [left; apply list_elem_of_here|by right].
Qed.

Lemma send_op_pins op c p :
  Some p ∈ pins_in (sd_pin (send_op op c)) → op = GivePin p ∨ Some p ∈ pins_in (sd_pin c).
Proof.
  destruct op; simpl; auto.
  - unfold listen_selected_files. destruct (sd_selected_rx c); auto.
  - unfold sending_send_pin. pose proof (slot_send_pin_pins pin (sd_pin c) p) as Hpin.
    destruct (slot_send_pin pin (sd_pin c)); simpl in *. intros Hp. destruct (Hpin Hp) as [->|]; auto.
  - unfold send_file. destruct (bounded_send _ _ _ _) as [[? ?]|]; auto.
  - rewrite store_pin_sender_pins. set_solver.
  - unfold pins_in. simpl. rewrite <- list_fmap_compose. auto.
Qed.

Lemma send_ops_pins ops c p :
  Some p ∈ pins_in (sd_pin (send_ops ops c)) → GivePin p ∈ ops ∨ Some p ∈ pins_in (sd_pin c).
Proof.
  revert c. induction ops as [|op ops IH]; intros c Hp; [by right|].
  destruct (IH _ Hp) as [Hin|Hin]; [left; by apply list_elem_of_further|].
  apply send_op_pins in Hin as [->|]; [left; apply list_elem_of_here|by right].
Qed.

(** ** A challenge nobody answers *)

Section unanswered.
Context `{TokenCrypto, Base64, RtcCodec}.

Lemma exec_pins {A} (t : rtc A) w o w' : exec t w o w' → ∃ ps, pins w = ps ++ pins w'.
Proof.
  intros Hr. refine (runs_preserves handle (λ v, ∃ ps, pins w = ps ++ pins v) t w o w' _ Hr _);
    [|by exists []].
  intros X e v x v' Hh (ps & Hps).
  destruct e; simpl in *; unfold answer_send in *; simplify_eq/=;
    repeat (case_match; simplify_eq/=); try (by exists ps).
  exists (ps ++ [x]). rewrite <- app_assoc. simpl. by rewrite Hps; f_equal.
Qed.

Definition no_pin (w : env) : Prop := ∀ p, Some (Some p) ∉ pins w.

Lemma no_pin_exec {A} (t : rtc A) w o w' : exec t w o w' → no_pin w → no_pin w'.
Proof.
  intros [ps Hps]%exec_pins Hno p Hp. apply (Hno p). rewrite Hps. apply elem_of_app. by right.
Qed.

(** Without a PIN of the user a challenge is not met. *)
Lemma handle_pin_unanswered {T} chunks (parse_response : bytes → ChallengePinResult T) w o w' :
  exec (handle_pin chunks parse_response) w o w' → no_pin w → ∀ x, o ≠ Some (Ok x).
Proof.
  unfold handle_pin. intros Hr Hno. revert Hno Hr.
  apply (runs_loop_inv handle _ (λ _, no_pin) (λ o _, ∀ x, o ≠ Some (Ok x))).
  intros _ w1 o1 w2 Hno Hr.
  destruct o1 as [[[i|x]|e|m]|]; try done.
  - by eapply no_pin_exec.
  - exfalso. apply runs_tbind_Ok_inv in Hr as (b & w3 & Hr & _). unfold send_pin_guess in Hr.
    apply runs_tbind_Ok_inv in Hr as ([] & w4 & Hs & Hr).
    apply runs_tbind_Ok_inv in Hr as (answer & w5 & Hask & Hr).
    apply (no_pin_exec _ _ _ _ Hs) in Hno. apply exec_call_Ok_inv in Hask. simpl in Hask.
    destruct (pins w4) as [|p ps] eqn:Hp; simplify_eq.
    destruct answer as [[p|]|]; [|by apply runs_fail_inv in Hr as [? _]..].
    apply (Hno p). rewrite Hp. apply list_elem_of_here.
Qed.

Context `{!Base64Laws, !RtcCodecLaws}.

(** A sender that is asked for a PIN the user does not give is never
    connected. *)
Lemma unanswered_sender sk expecting pin fs w o w' m1 m2 ms token :
  no_pin w → inbox w = m1 :: m2 :: ms → parse (data m2) = Ok (TokenPinRequired token) →
  exec (send_task sk expecting pin fs) w o w' → Reported Connected ∉ log w → Reported Connected ∉ log w'.
Proof.
  intros Hno Hin Htok Hr Hw Hw'. unfold send_task in Hr.
  apply connected_gate in Hr as (opened & w1 & Hr1 & Hr & Hw1); [|solve_emits|done..].
  apply exec_call_Ok_inv in Hr1. simpl in Hr1. simplify_eq.
  destruct (negb (RtcEnv.opened w1)); [by apply runs_fail_inv in Hr as [_ ->]|].
  apply connected_gate in Hr as ([] & w0 & Hr0 & Hr & Hw0); [|solve_emits|done..].
  assert (keeps_inbox w1 w0) as Hkeep by (revert Hr0; apply (respects_loop handle keeps_inbox);
    intros []; solve_emits).
  apply connected_gate in Hr as (nonce & w2 & Hr2 & Hr & Hw2); [|solve_emits|done..].
  apply (no_pin_exec _ _ _ _ Hr0) in Hno. apply (no_pin_exec _ _ _ _ Hr2) in Hno.
  apply sender_nonce_Ok_inv in Hr2 as (m1' & ms' & remote & Hin1 & Hin2 & _).
  apply connected_gate in Hr as ([token' required] & w3 & Hr3 & Hr & Hw3); [|solve_emits|done..].
  apply (no_pin_exec _ _ _ _ Hr3) in Hno.
  apply sender_token_Ok_inv in Hr3 as (m2' & ms'' & Hin2' & _ & Hm2 & _).
  assert (m2' = m2) as -> by (rewrite Hkeep in Hin1; congruence).
  rewrite Htok in Hm2. destruct required; simplify_eq.
  apply connected_gate in Hr as ([] & w4 & Hr4 & _ & _); [|solve_emits|done..].
  by eapply handle_pin_unanswered.
Qed.
End unanswered.

(** ** Transfers *)

Section transfers.
Context `{BridgeTargetLaws, ObjectLockLaws} `{TokenCrypto, Base64, RtcCodec, !Base64Laws, !RtcCodecLaws}.

Section controller.
Context (ls : list Label) (st : Bridge) (h : Handle) (c : ReceiveController).
Hypothesis Hrun : bridge_run ls bridge_start = Some st.
Hypothesis Hc : br_receiving st !! h = Some c.

(** A selection the transfer gets is the first decision, and a call made it. *)
Lemma selection_called sel :
  oneshot_recv (rv_selected c) = Some (Some (Some sel)) →
  first_decision (receiving_ops h ls bridge_start) = Some (Some sel) ∧
  called ls (ReceiveSendSelection h sel).
Proof.
  intros Hv%oneshot_recv_value. rewrite (receiving_controller _ _ _ _ Hrun Hc) in Hv.
  assert (first_decision (receiving_ops h ls bridge_start) = Some (Some sel)) as Hd.
  { destruct (receive_ops_decision (receiving_ops h ls bridge_start) receive_controller)
      as [(_ & [_ Hsel] & _)|(_ & [Hs _])]; [done| |by rewrite <- Hs].
    by rewrite Hsel in Hv. }
  split; [done|]. destruct (first_decision_op _ _ Hd) as (op & Hop & Hdec).
  destruct (receiving_op_called h ls st op Hrun Hop) as (call & Hcall & Hcop); [by destruct op|].
  destruct op; simplify_eq/=. by destruct call; simplify_eq/=.
Qed.

Lemma pin_called pin : Some (Some pin) ∈ pins_given (ps_channels (rv_pin c)) → called ls (ReceiveSendPin h pin).
Proof.
  intros Hp%pins_given_value. rewrite (receiving_controller _ _ _ _ Hrun Hc) in Hp.
  apply receive_ops_pins in Hp as [Hp|Hp]; [|by apply elem_of_nil in Hp].
  destruct (receiving_op_called h ls st _ Hrun Hp) as (call & Hcall & Hcop); [done|].
  by destruct call; simplify_eq/=.
Qed.
End controller.

Lemma sender_pin_called ls st h c pin :
  bridge_run ls bridge_start = Some st → br_sending st !! h = Some c →
  Some (Some pin) ∈ pins_given (ps_channels (sd_pin c)) → called ls (SendSendPin h pin).
Proof.
  intros Hrun Hc Hp%pins_given_value. rewrite (sending_controller _ _ _ _ Hrun Hc) in Hp.
  apply send_ops_pins in Hp as [Hp|Hp]; [|by apply elem_of_nil in Hp].
  destruct (sending_op_called h ls st _ Hrun Hp) as (call & Hcall & [Hcop|Hcop]); [done|..];
    by destruct call; simplify_eq/=.
Qed.

(** The PINs of the user in a session are among those a controller has given. *)
Lemma guess_given gs ps channels pin :
  pins_given channels = (Some ∘ Some <$> gs) ++ ps → pin ∈ gs → Some (Some pin) ∈ pins_given channels.
Proof.
  intros -> Hpin. apply elem_of_app. left. by apply list_elem_of_fmap_2 with (f := Some ∘ Some).
Qed.

(** C3. A transfer that the application controls opens a file only when a
    message of the application that selects it has arrived and was the first
    decision about the files, whatever the other peer sends, in whatever order
    the calls run, and whatever else the application calls. *)
Theorem opened_files_were_called ls st h c sk expecting pin w o w' id :
  bridge_run ls bridge_start = Some st → br_receiving st !! h = Some c →
  exec (receive_task sk expecting pin) (controlled c w) o w' →
  FileOpened id ∉ log w → FileOpened id ∈ log w' →
  ∃ sel, id ∈ sel ∧ called ls (ReceiveSendSelection h sel) ∧
    first_decision (receiving_ops h ls bridge_start) = Some (Some sel) ∧
    ∃ fs f, FilesPublished fs ∈ log w' ∧ f ∈ fs ∧ fd_id f = id.
Proof.
  intros Hrun Hc Hex Hw Hw'.
  destruct (opened_files_are_selected _ _ _ _ _ _ id Hex Hw Hw') as (sel & fs & Hsel & Hid & Hpub & f & Hf & Hfid).
  destruct (selection_called _ _ _ _ Hrun Hc _ Hsel) as [Hd Hcalled]. exists sel. eauto 10.
Qed.

(** C9. Two peers, each controlled by its application, complete a session when
    the conditions of a session hold for what the controllers answer: then the
    selection is that of a call of the receiving application, every guess of
    a PIN is the PIN of a call of the application that guesses, and in every
    interleaving of the two tasks on their channel both return without an error
    after a bounded number of steps, and exactly the files of that selection
    that the sender has are written. *)
Theorem application_session lsS stS hS cS lsR stR hR cR skS skR expS expR ch fs sel ws wr tS tR :
  bridge_run lsS bridge_start = Some stS → br_sending stS !! hS = Some cS →
  bridge_run lsR bridge_start = Some stR → br_receiving stR !! hR = Some cR →
  session_ready skS skR expS expR ch fs sel (controlled_sender cS ws) (controlled cR wr) tS tR →
  called lsR (ReceiveSendSelection hR sel) ∧
  (∀ pin, pin ∈ guesses_of_receiver ch → called lsR (ReceiveSendPin hR pin)) ∧
  (∀ pin, pin ∈ guesses_of_sender ch → called lsS (SendSendPin hS pin)) ∧
  always_ends (mk_Pair (send_task skS expS (ch_sender ch) fs) (controlled_sender cS ws)
                 (receive_task skR expR (ch_receiver ch)) (controlled cR wr))
    (λ rS ws' rR wr', rS = Some (Ok ()) ∧ rR = Some (Ok ()) ∧
       ∃ lR, log wr' = log wr ++ lR ∧
         written lR = granted_files (drawn_tokens (uuids wr) (elements sel)) (files ws)).
Proof.
  intros HrunS HcS HrunR HcR Hready. split_and!.
  - destruct (ready_selection _ _ _ _ _ _ _ _ _ _ _ Hready) as [Hsel _].
    apply (selection_called _ _ _ _ HrunR HcR sel Hsel).
  - intros pin Hpin. destruct (ready_sender_pin _ _ _ _ _ _ _ _ _ _ _ Hready) as [_ [ps Hps]].
    apply (pin_called _ _ _ _ HrunR HcR). by eapply guess_given.
  - intros pin Hpin. destruct (ready_receiver_pin _ _ _ _ _ _ _ _ _ _ _ Hready) as [_ [ps Hps]].
    apply (sender_pin_called _ _ _ _ _ HrunS HcS). by eapply guess_given.
  - eapply always_ends_impl; [|by apply session_ends]. intros rS ws' rR wr' (-> & -> & _ & _ & _ & HlR).
    split_and!; [done..|]. eexists. split; [exact HlR|apply written_session].
Qed.

(** C39. A sending application that listens to the status or to the errors of a
    transfer before it has given a PIN is stuck when the receiver asks for
    one: whatever it calls from then on, in whatever order its tasks run, the
    transfer it controls never is connected and gives away no file. *)
Theorem stream_starves_challenge ls st ls' st' i h call c c' sk expecting pin fs w o w' m1 m2 ms token :
  bridge_run ls bridge_start = Some st →
  br_tasks st !! i = Some (Running, call_task call) → stream_of h call → h ∉ br_ended st →
  br_sending st !! h = Some c → (∀ p, Some p ∉ pins_in (sd_pin c)) →
  SendingEnds h ∉ ls' → bridge_run ls' st = Some st' → br_sending st' !! h = Some c' →
  inbox w = m1 :: m2 :: ms → parse (data m2) = Ok (TokenPinRequired token) →
  exec (send_task sk expecting pin fs) (controlled_sender c' w) o w' →
  Reported Connected ∉ log w → Reported Connected ∉ log w'.
Proof.
  intros Hrun Hi Hc Hh Hsend Hpins Hls' Hrun' Hsend' Hin Htok Hex.
  destruct (stream_silences ls st ls' st' i h call) as (_ & _ & Hops); [done..|].
  apply (unanswered_sender sk expecting pin fs (controlled_sender c' w) o w' m1 m2 ms token); [|done..].
  intros p Hp. simpl in Hp. apply pins_given_value in Hp.
  rewrite (controllers_run _ _ _ _ _ sending_steps h ls' _ _ _ Hrun' Hsend') in Hp.
  rewrite Hsend in Hp. simpl in Hp.
  apply send_ops_pins in Hp as [Hp|Hp]; [by apply (Hops _ Hp)|by apply (Hpins p)].
Qed.
End transfers.
