(* ===== verification/BridgeInstances.v ===== *)
(** * The bridge on concrete platforms

    A little-endian platform of 64 bits and a big-endian one of 32 bits that
    satisfy the interfaces of [BridgeCodec], a lock that prefers writers, and
    runs of the bridge on messages. *)

From S2P Require Import Prelude Signaling RtcTypes AppBridge AppBridgeProps BridgeCodec.
From S2P Require Import BridgeCodecProps BridgeDart BridgeWire BridgeWireProps BridgeSystem BridgeSystemProps.

Definition uuid_bytes (u : Uuid) : bytes := rev (le_bytes 16 (Z.of_N u)).
Definition uuid_of_bytes (b : bytes) : option Uuid :=
  if decide (length b = 16) then Some (Z.to_N (le_value (rev b))) else None.

Lemma uuid_bytes_length u : length (uuid_bytes u) = 16.
Proof. unfold uuid_bytes. by rewrite length_rev, le_bytes_length. Qed.

Definition end_of_message (rest : bytes) : anyres () :=
  match rest with [] => Ok () | _ => Panic "message not read to its end" end.

Definition platform (big : bool) (pointer : nat) : BridgeTarget := {|
  big_endian := big;
  pointer_bytes := pointer;
  uuid_as_bytes := uuid_bytes;
  uuid_from_slice := uuid_of_bytes;
  hash_iter := elements;
  deserializer_end := end_of_message;
  anyhow_debug := id
|}.

Lemma platform_laws big pointer :
  pointer = 4 ∨ pointer = 8 → BridgeTargetLaws (H:=platform big pointer).
Proof.
  intros Hp. split; [done|intros u _; apply uuid_bytes_length| |done|done].
  - intros u Hu. change (uuid_of_bytes (uuid_bytes u) = Some u). unfold uuid_of_bytes.
    rewrite decide_True by apply uuid_bytes_length. unfold uuid_bytes.
    rewrite rev_involutive, le_value_bytes; [by rewrite N2Z.id|].
    unfold uuid_wf in Hu. simpl Z.of_nat. lia.
Qed.

Definition x86_64 : BridgeTarget := platform false 8.
Definition power_32 : BridgeTarget := platform true 4.

(** ** Messages *)

Section messages.
Existing Instance x86_64.

(** The number of a function is part of the protocol: under another one the
    message is another call or none. *)
Example pin_as_file_id :
  pde_ffi_dispatcher_primary 18 (dart_message (ReceiveSendPin 32 "1234")).2 =
    Ok (mk_Task (Some (32%Z, false)) (SendSendFile 32 "1234")).
Proof. vm_compute. reflexivity. Qed.

Example message_too_short :
  pde_ffi_dispatcher_primary 13 (take 12 (dart_message (ReceiveSendPin 32 "1234")).2) =
    Panic "failed to fill whole buffer".
Proof. vm_compute. reflexivity. Qed.

Example message_too_long :
  pde_ffi_dispatcher_primary 7 (dart_message (ReceiveSendPin 32 "1234")).2 =
    Panic "message not read to its end".
Proof. vm_compute. reflexivity. Qed.

Example no_such_function :
  pde_ffi_dispatcher_primary 24 [] = Panic "internal error: entered unreachable code".
Proof. reflexivity. Qed.

Example dart_exception : ∃ m, dart_fn_answer (sse_encode_u8 1 ++ sse_encode_anyhow "no") = Panic m.
Proof. eexists. vm_compute. reflexivity. Qed.
End messages.

Lemma string_wf_dec s :
  utf8_valid (as_bytes s) && (Z.of_nat (length (as_bytes s)) <? 2 ^ 31)%Z = true → string_wf s.
Proof. intros [??%Z.ltb_lt]%andb_true_iff. by split. Qed.

Ltac solve_string_wf := apply string_wf_dec; vm_compute; reflexivity.

(** On the big-endian platform, to have both. *)
Lemma calls_arrive_witness :
  let c := ReceiveSendSelection 32 {["a"; "b"]} in
  pde_ffi_dispatcher_primary (H:=power_32) (dart_message (H:=power_32) c).1
    (dart_message (H:=power_32) c).2 = Ok (mk_Task (Some (32%Z, false)) c).
Proof.
  intros c. apply (calls_arrive (H:=power_32) (H0:=platform_laws true 4 ltac:(by left)) c).
  split; [by split|]. split; [vm_compute; reflexivity|].
  intros x [->%elem_of_singleton| ->%elem_of_singleton]%elem_of_union; solve_string_wf.
Defined.

(** ** Objects of Dart *)

Inductive Tree :=
| TNull | TString (s : string) | TUuid (u : Uuid) | TInt (v : Z) | TU64 (v : Z) | TBool (b : bool)
| TList (l : list Tree).

Definition trees : DartObjects := {|
  DartAbi := Tree;
  dart_null := TNull;
  dart_string := TString; dart_uuid := TUuid; dart_int := TInt; dart_u64 := TU64;
  dart_bool := TBool; dart_list := TList;
  is_null t := match t with TNull => true | _ => false end;
  as_string t := match t with TString s => Some s | _ => None end;
  as_uuid t := match t with TUuid u => Some u | _ => None end;
  as_int t := match t with TInt v => Some v | _ => None end;
  as_u64 t := match t with TU64 v => Some v | _ => None end;
  as_bool t := match t with TBool b => Some b | _ => None end;
  as_list t := match t with TList l => Some l | _ => None end
|}.

Lemma trees_laws : DartObjectsLaws (H:=trees).
Proof. by split. Qed.

Lemma server_messages_cross_witness :
  let peer := mk_ClientInfo 7 "Phone" "2.1" (Some "Pixel") (Some Mobile) "token" in
  dco_decode_ws_server_message (H:=trees)
    (into_dart_ws_server_message (H:=trees) (Hello peer [peer])) = Some (Hello peer [peer]).
Proof.
  intros peer.
  assert (client_info_wf peer) as Hpeer by (split_and!; [done|solve_string_wf..]).
  refine (proj2 (server_messages_cross (H:=trees) (H0:=trees_laws) (H1:=x86_64)
    (H2:=platform_laws false 8 ltac:(by right)) (Hello peer [peer]) [] _)).
  split; [exact Hpeer|]. split; [done|]. constructor; [exact Hpeer|constructor].
Defined.

(** ** Locks *)

(** The lock of tokio: a reader waits for the writers in front of it. *)
Definition rw_lock : ObjectLock := {|
  may_lock held waiting exclusive :=
    if exclusive then bool_decide (held = [])
    else bool_decide (true ∉ held) && bool_decide (true ∉ waiting)
|}.

Lemma rw_lock_laws : ObjectLockLaws (H:=rw_lock).
Proof.
  split; simpl; intros held waiting.
  - apply bool_decide_eq_true.
  - by intros [?%bool_decide_eq_true _]%andb_true_iff.
  - intros ??. by rewrite !bool_decide_true.
Qed.

Section runs.
Existing Instance x86_64.
Existing Instance rw_lock.
#[local] Instance x86_64_laws : BridgeTargetLaws := platform_laws false 8 ltac:(by right).
#[local] Instance rw_lock_ok : ObjectLockLaws := rw_lock_laws.

Definition arrive (c : Call) : Label := Arrive (dart_message c).1 (dart_message c).2.

(** The application listens to the status of a transfer and then wants to send
    a file. *)
Definition sending_run : list Label :=
  [Offered 64; arrive (SendListenStatus 64 "port 1"); arrive (SendSendFile 64 "f1"); Grant 0].

Definition sending_state : Bridge :=
  mk_Bridge [(Running, call_task (SendListenStatus 64 "port 1"));
             (Waiting, call_task (SendSendFile 64 "f1"))] ∅ {[ 64%Z := send_controller ]} ∅.

Lemma sending_run_state : bridge_run sending_run bridge_start = Some sending_state.
Proof. vm_compute. reflexivity. Qed.

(** The file cannot be sent... *)
Example file_waits : bridge_step (Grant 1) sending_state = None.
Proof. vm_compute. reflexivity. Qed.

(** While the transfer asks for a PIN and the application wants to give it. *)
Definition silenced_run : list Label :=
  [Sending 64 SenderAsksPin; arrive (SendSendPin 64 "1234")].
Definition silenced_state : Bridge := default bridge_start (bridge_run silenced_run sending_state).

Lemma silenced_run_ok : bridge_run silenced_run sending_state = Some silenced_state.
Proof. vm_compute. reflexivity. Qed.

Lemma status_stream_blocks_witness :
  (∀ j t m, j ≠ 0 → t_guard t = Some (64%Z, m) → br_tasks silenced_state !! j ≠ Some (Running, t)) ∧
  sending_ops 64 silenced_run sending_state = [SenderAsksPin] ∧ ¬ app_op SenderAsksPin.
Proof.
  destruct (status_stream_blocks sending_run sending_state silenced_run silenced_state 0 64
    (SendListenStatus 64 "port 1")) as (_ & Hothers & Hops).
  - apply sending_run_state.
  - reflexivity.
  - exists "port 1". by left.
  - apply not_elem_of_empty.
  - intros Hin. by repeat (apply elem_of_cons in Hin as [Hin|Hin]; [discriminate|]); apply elem_of_nil in Hin.
  - apply silenced_run_ok.
  - split; [exact Hothers|]. split; [vm_compute; reflexivity|].
    apply Hops. vm_compute. left.
Defined.

(** ... before the transfer is over, for which it has to be sent. *)
Example file_sent_after_the_end :
  is_Some (bridge_run [SendingEnds 64; Finish 0; Grant 1; Finish 1] sending_state).
Proof. eexists. vm_compute. reflexivity. Qed.

(** Without a stream the controller does what it is for; a second file waits
    until the transfer takes the first. *)
Definition serving_run : list Label :=
  [Offered 64; Sending 64 SenderAsksPin; arrive (SendSendPin 64 "1234"); Grant 0; Finish 0;
   arrive (SendListenSelectedFiles 64); Grant 1; Sending 64 (SenderPublishes {["f1"]}); Finish 1;
   arrive (SendSendFile 64 "f1"); Grant 2; Finish 2; arrive (SendSendFile 64 "f2"); Grant 3].

Example second_file_waits :
  ∃ st, bridge_run serving_run bridge_start = Some st ∧ bridge_step (Finish 3) st = None ∧
    is_Some (bridge_run [Sending 64 SenderTakesFile; Finish 3] st) ∧
    sending_ops 64 serving_run bridge_start =
      [SenderAsksPin; GivePin "1234"; AwaitSelection; SenderPublishes {["f1"]}; GiveFile "f1"].
Proof.
  eexists. split; [vm_compute; reflexivity|]. split; [vm_compute; reflexivity|].
  split; [eexists; vm_compute; reflexivity|]. vm_compute. reflexivity.
Qed.

(** A receiving transfer: the streams and a decision next to each other. *)
Definition receiving_run : list Label :=
  [Accepted 32; arrive (ReceiveListenStatus 32 "port 1"); Grant 0;
   arrive (ReceiveSendSelection 32 {["a"]}); arrive (ReceiveDecline 32);
   Transfer 32 TransferAsksPin; Grant 2; Grant 1].

Lemma bridge_refines_controllers_witness :
  ∃ st c, bridge_run receiving_run bridge_start = Some st ∧ br_receiving st !! 32%Z = Some c ∧
    os_value (rv_selected c) = Some None.
Proof.
  eexists _, _. split; [vm_compute; reflexivity|]. split; [vm_compute; reflexivity|].
  transitivity (first_decision (receiving_ops 32 receiving_run bridge_start)); [|vm_compute; reflexivity].
  eapply (bridge_refines_controllers receiving_run _ 32); vm_compute; reflexivity.
Defined.

Lemma shared_calls_start_witness :
  ∃ st', bridge_step (Grant 1)
    (mk_Bridge [(Running, call_task (ReceiveListenStatus 32 "port 1"));
                (Waiting, call_task (ReceiveDecline 32))] {[ 32%Z := receive_controller ]} ∅ ∅) = Some st' ∧
    br_tasks st' !! 1 = Some (Running, call_task (ReceiveDecline 32)).
Proof.
  apply (shared_calls_start _ 1 (call_task (ReceiveDecline 32)) 32); [reflexivity..|].
  intros [|[|j]] q t'; simpl; intros; simplify_eq/=; done.
Defined.
End runs.
