(* ===== verification/AppTransferRuns.v ===== *)
(** * Runs of a controlled transfer

    The session of [RtcWitnesses] with a receiver whose user answers through
    the bridge: three PINs, one for each challenge, a selection, and a call to
    decline that comes too late. *)

From S2P Require Import Prelude Serde Signaling Crypto Instances CryptoProps RtcTypes RtcInstances.
From S2P Require Import Interaction Rtc RtcEnv RtcRoutines RtcSafety RtcPair RtcTransfer RtcChallenge RtcSession RtcWitnesses.
From S2P Require Import AppBridge AppBridgeProps BridgeCodec BridgeCodecProps BridgeWire BridgeWireProps.
From S2P Require Import BridgeSystem BridgeSystemProps AppTransfer BridgeInstances.

Existing Instance x86_64.
Existing Instance rw_lock.
#[local] Instance x86_64_ok : BridgeTargetLaws := platform_laws false 8 ltac:(by right).
#[local] Instance rw_lock_ok : ObjectLockLaws := rw_lock_laws.

(** The calls of the application as they arrive, and the transfer between them. *)
Definition answering_run : list BridgeSystem.Label :=
  [Accepted 32;
   Transfer 32 TransferAsksPin; arrive (ReceiveSendPin 32 "2"); Grant 0; Finish 0;
   Transfer 32 TransferAsksPin; arrive (ReceiveSendPin 32 "3"); Grant 1;
   Transfer 32 TransferAsksPin; arrive (ReceiveSendPin 32 "1"); Grant 2;
   Transfer 32 (TransferPublishes [photo]);
   arrive (ReceiveDecline 32); arrive (ReceiveSendSelection 32 sel_a); Grant 4; Grant 3].

Definition answering_state : Bridge := default bridge_start (bridge_run answering_run bridge_start).
Definition answering_controller : ReceiveController :=
  default receive_controller (br_receiving answering_state !! 32%Z).

Lemma answering_run_ok : bridge_run answering_run bridge_start = Some answering_state.
Proof. vm_compute. reflexivity. Qed.

Lemma answering_controller_ok : br_receiving answering_state !! 32%Z = Some answering_controller.
Proof. vm_compute. reflexivity. Qed.

(** The controller answers as the user of the session does. *)
Lemma answers_of_session : controlled answering_controller session_receiver = session_receiver.
Proof. vm_compute. reflexivity. Qed.

(** The sending application guesses twice. *)
Definition guessing_run : list BridgeSystem.Label :=
  [Offered 64; Sending 64 SenderAsksPin; arrive (SendSendPin 64 "0"); Grant 0; Finish 0;
   Sending 64 SenderAsksPin; arrive (SendSendPin 64 "1"); Grant 1].

Definition guessing_state : Bridge := default bridge_start (bridge_run guessing_run bridge_start).
Definition guessing_controller : SendController :=
  default send_controller (br_sending guessing_state !! 64%Z).

Lemma guessing_run_ok : bridge_run guessing_run bridge_start = Some guessing_state.
Proof. vm_compute. reflexivity. Qed.

Lemma guessing_controller_ok : br_sending guessing_state !! 64%Z = Some guessing_controller.
Proof. vm_compute. reflexivity. Qed.

Lemma guesses_of_session : controlled_sender guessing_controller session_sender = session_sender.
Proof. vm_compute. reflexivity. Qed.

Lemma application_session_witness :
  called answering_run (ReceiveSendSelection 32 sel_a) ∧
  called answering_run (ReceiveSendPin 32 "1") ∧ called guessing_run (SendSendPin 64 "0") ∧
  always_ends (mk_Pair (send_task sender_key (Some (key_of receiver_key)) (Some pin_1) [photo])
                 (controlled_sender guessing_controller session_sender)
                 (receive_task receiver_key None (Some pin_1))
                 (controlled answering_controller session_receiver))
    (λ rS _ rR _, rS = Some (Ok ()) ∧ rR = Some (Ok ())).
Proof.
  assert (session_ready sender_key receiver_key (Some (key_of receiver_key)) None session_pins [photo]
            sel_a (controlled_sender guessing_controller session_sender)
            (controlled answering_controller session_receiver)
            (token_for sender_key) (token_for receiver_key)) as Hready
    by (rewrite answers_of_session, guesses_of_session; apply sample_session_ready).
  destruct (application_session guessing_run guessing_state 64 guessing_controller
    answering_run answering_state 32 answering_controller _ _ _ _ _ _ _ _ _ _ _
    guessing_run_ok guessing_controller_ok answering_run_ok answering_controller_ok Hready)
    as (Hsel & Hpins & Hguesses & Hends).
  split; [exact Hsel|]. split; [apply Hpins|split; [apply Hguesses|]].
  - by do 2 apply list_elem_of_further; apply list_elem_of_here.
  - apply list_elem_of_here.
  - eapply always_ends_impl; [|exact Hends]. intros rS ws' rR wr' (Hs & Hr & _). by split.
Defined.

Definition controlled_env : env := controlled answering_controller receiver_env.

Lemma controlled_run_ok :
  exec receiver_run controlled_env (Some (Ok ())) (final 2000 receiver_run controlled_env).
Proof. apply (run_runs _ 2000). vm_compute. reflexivity. Qed.

Lemma opened_files_were_called_witness :
  ∃ sel, "a" ∈ sel ∧ called answering_run (ReceiveSendSelection 32 sel).
Proof.
  destruct (opened_files_were_called answering_run answering_state 32 answering_controller receiver_key
    (Some (key_of sender_key)) (Some pin_1) receiver_env (Some (Ok ()))
    (final 2000 receiver_run controlled_env) "a") as (sel & Hid & Hcalled & _).
  - apply answering_run_ok.
  - apply answering_controller_ok.
  - apply controlled_run_ok.
  - apply not_elem_of_nil.
  - apply (bool_decide_unpack _). vm_compute. exact I.
  - by exists sel.
Defined.

(** The sender of [RtcWitnesses], whose receiver asks for a PIN, when the
    application listens to the status first. *)
Definition silenced_controller : SendController :=
  default send_controller (br_sending silenced_state !! 64%Z).

Definition silenced_env : env := controlled_sender silenced_controller sender_env.

Lemma silenced_sender_waits :
  exec sender_run silenced_env None (final 2000 sender_run silenced_env).
Proof. apply (run_runs _ 2000). vm_compute. reflexivity. Qed.

Lemma stream_starves_challenge_witness :
  Reported Connected ∉ log (final 2000 sender_run silenced_env) ∧
  Reported PinRequired ∈ log (final 2000 sender_run silenced_env).
Proof.
  split; [|apply (bool_decide_unpack _); vm_compute; exact I].
  refine (stream_starves_challenge sending_run sending_state silenced_run silenced_state 0 64
    (SendListenStatus 64 "port 1") send_controller silenced_controller sender_key
    (Some (key_of receiver_key)) None [photo] sender_env None _ _ _ _ (token_for receiver_key)
    sending_run_state eq_refl _ _ eq_refl _ _ silenced_run_ok _ eq_refl _ silenced_sender_waits _).
  - exists "port 1". by left.
  - apply not_elem_of_empty.
  - intros p. apply not_elem_of_nil.
  - intros Hin. by repeat (apply elem_of_cons in Hin as [Hin|Hin]; [discriminate|]); apply elem_of_nil in Hin.
  - vm_compute. reflexivity.
  - vm_compute. reflexivity.
  - apply not_elem_of_nil.
Defined.
